(** * circleVis: the coordinate and curve pipeline of [plot_transcript.py]

    A shallow embedding of the numeric core of [plot_transcript.py]:
    the intron scaler, the range transform, the junction mapper, the two
    curve generators, the gene-to-transcript resolver and the module-level
    count reduction and colour assignment.

    Python numbers are modelled as they are at run time: an [int] is an
    unbounded integer, a [float] is an IEEE 754 binary64 value (the Standard
    Library's [spec_float] at precision 53 and maximal exponent 1024), and
    the operators follow CPython: arithmetic on two ints stays exact, [/]
    is true division and yields a float, a mixed operation first converts
    the int operand to binary64, and comparisons are exact. *)

From Stdlib Require Import ZArith List String Ascii Bool Lia.
From Stdlib Require Import SpecFloat.
From Stdlib Require Import Reals Lra.
Import ListNotations.

Local Open Scope Z_scope.

(** ** Exceptions *)

Inductive pyexc : Type :=
| ZeroDivisionError
| OverflowError
| IndexError
| NameError
| ValueError.

Inductive res (A : Type) : Type :=
| Ok (a : A)
| Raise (e : pyexc).

Arguments Ok {A} a.
Arguments Raise {A} e.

Definition bind {A B : Type} (c : res A) (k : A -> res B) : res B :=
  match c with
  | Ok a => k a
  | Raise e => Raise e
  end.

Notation "x <- c ;; k" := (bind c (fun x => k))
  (at level 61, c at next level, right associativity).
Notation "' p <- c ;; k" := (bind c (fun x => let 'p := x in k))
  (at level 61, p pattern, c at next level, right associativity).

(** ** Binary64 *)

Definition float : Type := spec_float.

Module B64.

Definition prec : Z := 53.
Definition emax : Z := 1024.

Definition add : float -> float -> float := SFadd prec emax.
Definition sub : float -> float -> float := SFsub prec emax.
Definition mul : float -> float -> float := SFmul prec emax.
Definition div : float -> float -> float := SFdiv prec emax.

(** The integer [z] read as an unrounded significand with exponent 0. *)
Definition raw_of_Z (z : Z) : float :=
  match z with
  | Z0 => S754_zero false
  | Zpos p => S754_finite false p 0
  | Zneg p => S754_finite true p 0
  end.

(** [z * 2^e] rounded to nearest, ties to even. *)
Definition of_dyadic (z e : Z) : float := binary_normalize prec emax z e false.

Definition of_Z (z : Z) : float := of_dyadic z 0.

(** The correctly rounded quotient of two integers. *)
Definition of_ratio (n d : Z) : float := div (raw_of_Z n) (raw_of_Z d).

Definition is_zero (x : float) : bool :=
  match x with S754_zero _ => true | _ => false end.

Definition is_infinite (x : float) : bool :=
  match x with S754_infinity _ => true | _ => false end.

Definition is_nan (x : float) : bool :=
  match x with S754_nan => true | _ => false end.

(** The least integer not below a finite float. *)
Definition ceil (x : float) : option Z :=
  match x with
  | S754_zero _ => Some 0
  | S754_finite s m e =>
      let sm := if s then Zneg m else Zpos m in
      Some (if 0 <=? e then sm * 2 ^ e else - ((- sm) / 2 ^ (- e)))
  | _ => None
  end.

End B64.

(** ** Python numbers *)

Inductive pynum : Type :=
| PInt (z : Z)
| PFloat (f : float).

(** [float(z)]: the nearest binary64, [OverflowError] beyond the range. *)
Definition float_of_int (z : Z) : res float :=
  let f := B64.of_Z z in
  if B64.is_infinite f then Raise OverflowError else Ok f.

Definition to_float (a : pynum) : res float :=
  match a with
  | PInt z => float_of_int z
  | PFloat f => Ok f
  end.

Definition py_add (a b : pynum) : res pynum :=
  match a, b with
  | PInt x, PInt y => Ok (PInt (x + y))
  | _, _ => fa <- to_float a ;; fb <- to_float b ;; Ok (PFloat (B64.add fa fb))
  end.

Definition py_sub (a b : pynum) : res pynum :=
  match a, b with
  | PInt x, PInt y => Ok (PInt (x - y))
  | _, _ => fa <- to_float a ;; fb <- to_float b ;; Ok (PFloat (B64.sub fa fb))
  end.

Definition py_mul (a b : pynum) : res pynum :=
  match a, b with
  | PInt x, PInt y => Ok (PInt (x * y))
  | _, _ => fa <- to_float a ;; fb <- to_float b ;; Ok (PFloat (B64.mul fa fb))
  end.

(** [a / b]. Two ints divide to the correctly rounded quotient. *)
Definition py_truediv (a b : pynum) : res pynum :=
  match a, b with
  | PInt x, PInt y =>
      if y =? 0 then Raise ZeroDivisionError
      else let q := B64.of_ratio x y in
           if B64.is_infinite q then Raise OverflowError else Ok (PFloat q)
  | _, _ =>
      fa <- to_float a ;; fb <- to_float b ;;
      if B64.is_zero fb then Raise ZeroDivisionError
      else Ok (PFloat (B64.div fa fb))
  end.

(** [a / b] where [b] is a NumPy float64 scalar: IEEE division, a zero
    divisor gives an infinity or a NaN and no exception. *)
Definition np_truediv (a : pynum) (b : float) : res pynum :=
  fa <- to_float a ;; Ok (PFloat (B64.div fa b)).

(** *** Exact comparison *)

(** A number on the extended line: a NaN, an infinity, or [m * 2^e]. *)
Inductive xnum : Type :=
| XNan
| XInf (neg : bool)
| XFin (m e : Z).

Definition xnum_of_float (f : float) : xnum :=
  match f with
  | S754_zero _ => XFin 0 0
  | S754_infinity s => XInf s
  | S754_nan => XNan
  | S754_finite s m e => XFin (if s then Zneg m else Zpos m) e
  end.

Definition xnum_of (a : pynum) : xnum :=
  match a with
  | PInt z => XFin z 0
  | PFloat f => xnum_of_float f
  end.

Definition dyadic_compare (m1 e1 m2 e2 : Z) : comparison :=
  let e := Z.min e1 e2 in
  (m1 * 2 ^ (e1 - e)) ?= (m2 * 2 ^ (e2 - e)).

Definition xnum_compare (x y : xnum) : option comparison :=
  match x, y with
  | XNan, _ | _, XNan => None
  | XInf s1, XInf s2 =>
      Some (match s1, s2 with
            | true, false => Lt
            | false, true => Gt
            | _, _ => Eq
            end)
  | XInf s, XFin _ _ => Some (if s then Lt else Gt)
  | XFin _ _, XInf s => Some (if s then Gt else Lt)
  | XFin m1 e1, XFin m2 e2 => Some (dyadic_compare m1 e1 m2 e2)
  end.

Definition py_compare (a b : pynum) : option comparison :=
  xnum_compare (xnum_of a) (xnum_of b).

Definition py_eq (a b : pynum) : bool :=
  match py_compare a b with Some Eq => true | _ => false end.
Definition py_ne (a b : pynum) : bool := negb (py_eq a b).
Definition py_lt (a b : pynum) : bool :=
  match py_compare a b with Some Lt => true | _ => false end.
Definition py_le (a b : pynum) : bool :=
  match py_compare a b with Some Lt | Some Eq => true | _ => false end.
Definition py_gt (a b : pynum) : bool := py_lt b a.
Definition py_ge (a b : pynum) : bool := py_le b a.

(** [a > b] where [b] is a NumPy float64 scalar: NumPy converts an int
    [a] to binary64, rounding it, and compares the two floats. *)
Definition np_gt (a : pynum) (b : float) : res bool :=
  fa <- to_float a ;; Ok (py_gt (PFloat fa) (PFloat b)).

(** ** Literals of the source *)

Definition f0_0 : float := S754_zero false.
Definition f0_5 : float := Eval vm_compute in B64.of_ratio 1 2.
Definition f0_2 : float := Eval vm_compute in B64.of_ratio 2 10.
Definition f0_4 : float := Eval vm_compute in B64.of_ratio 4 10.
Definition f1_5 : float := Eval vm_compute in B64.of_ratio 15 10.
Definition f1_2 : float := Eval vm_compute in B64.of_ratio 12 10.
Definition f0_15 : float := Eval vm_compute in B64.of_ratio 15 100.

(** ** Intron Scaler *)

Definition span : Type := (pynum * pynum)%type.

(** The loop of [scale_introns]: [prev] is [coords[i-1]], [nprev] is
    [newcoords[i-1]], [rest] is [coords[i:]]; it returns [newcoords[i:]]. *)
Fixpoint scale_introns_loop (scaling_factor : pynum) (prev nprev : span)
    (rest : list span) : res (list span) :=
  match rest with
  | [] => Ok []
  | cur :: rest' =>
      length_ <- py_sub (snd cur) (fst cur) ;;
      let exonEnd := snd prev in
      let nextExonStart := fst cur in
      gap <- py_sub nextExonStart exonEnd ;;
      intron <- py_truediv gap scaling_factor ;;
      left <- py_add (snd nprev) intron ;;
      right <- py_add left length_ ;;
      tl <- scale_introns_loop scaling_factor cur (left, right) rest' ;;
      Ok ((left, right) :: tl)
  end.

Definition scale_introns (coords : list span) (scaling_factor : pynum)
    : res (list span) :=
  if py_eq scaling_factor (PInt 0) then Ok coords
  else
    match coords with
    | [] => Raise IndexError
    | c0 :: rest =>
        tl <- scale_introns_loop scaling_factor c0 c0 rest ;;
        Ok (c0 :: tl)
    end.

(** ** Range Transform *)

Definition flatten (l : list span) : list pynum :=
  flat_map (fun j => [fst j; snd j]) l.

(** The scan [for i in range(len(orig_c) - 1)] started at index [i] on
    the suffix [l] of [orig_c]: the values of [i], [left] and [right] when
    the loop is left, by [break] or by exhaustion; [None] when the body
    never ran, which leaves [i] unbound. *)
Fixpoint transform_scan (l : list pynum) (query : pynum) (i : nat)
    : option (nat * pynum * pynum) :=
  match l with
  | left_ :: ((right_ :: _) as tl) =>
      if py_le left_ query && py_le query right_ then Some (i, left_, right_)
      else match transform_scan tl query (S i) with
           | Some r => Some r
           | None => Some (i, left_, right_)
           end
  | _ => None
  end.

Definition index {A : Type} (l : list A) (i : nat) : res A :=
  match nth_error l i with
  | Some a => Ok a
  | None => Raise IndexError
  end.

Definition transform (original scaled : list span) (query : pynum)
    : res pynum :=
  let orig_c := flatten original in
  let scal_c := flatten scaled in
  match transform_scan orig_c query 0 with
  | None => Raise NameError
  | Some (i, left_, right_) =>
      '(n_left, n_right) <-
        (if (i + 2 <? List.length scal_c)%nat
         then a <- index scal_c i ;; b <- index scal_c (i + 1) ;; Ok (a, b)
         else a <- index scal_c i ;; Ok (a, query)) ;;
      n_range <- py_sub n_right n_left ;;
      o_range <- py_sub right_ left_ ;;
      if py_eq o_range (PInt 0) then Ok n_left
      else
        d <- py_sub query left_ ;;
        p <- py_mul d n_range ;;
        q <- py_truediv p o_range ;;
        py_add q n_left
  end.

(** ** Junction Coordinate Mapper *)

(** A junction [(start, stop, counts)]; the read count is an int. *)
Definition junction : Type := (pynum * pynum * Z)%type.

Fixpoint scale_coords (oldranges newranges : list span) (coords : list junction)
    : res (list junction) :=
  match coords with
  | [] => Ok []
  | (start, stop, counts) :: rest =>
      newstart <- transform oldranges newranges start ;;
      newstop <- transform oldranges newranges stop ;;
      tl <- scale_coords oldranges newranges rest ;;
      Ok ((newstart, newstop, counts) :: tl)
  end.

(** ** [numpy.arange] on floats

    NumPy computes the length as the ceiling of [(stop - start) / step] in
    binary64 and fills the array with [start], [start + step] and then
    [start + i * delta] where [delta = (start + step) - start]. *)

Definition intp_min : Z := - 2 ^ 63.
Definition intp_max : Z := 2 ^ 63 - 1.

Definition arange_length (start stop step : float) : res Z :=
  q <- py_truediv (PFloat (B64.sub stop start)) (PFloat step) ;;
  f <- to_float q ;;
  match B64.ceil f with
  | Some n =>
      if (intp_min <=? n) && (n <=? intp_max) then Ok n
      else Raise OverflowError
  | None => if B64.is_nan f then Raise ValueError else Raise OverflowError
  end.

Definition arange_item (start step : float) (i : nat) : float :=
  match i with
  | O => start
  | S O => B64.add start step
  | _ =>
      let delta := B64.sub (B64.add start step) start in
      B64.add start (B64.mul (B64.of_Z (Z.of_nat i)) delta)
  end.

Definition arange (start stop step : float) : res (list float) :=
  n <- arange_length start stop step ;;
  Ok (map (arange_item start step) (seq 0 (Z.to_nat n))).

(** ** The drawing surface

    The axes object is used as a store of view limits and as a sink of
    patches; the limits are binary64 values. *)

Definition point : Type := (pynum * pynum)%type.

Inductive patch : Type :=
| ConnectionPatch (xyA xyB : point) (rad : pynum)
    (* [ConnectionStyle("Arc3, rad=-" + str(rad))] *)
| PathPatch (verts : list point).
    (* a cubic path [MOVETO, CURVE4, CURVE4, CURVE4] *)

Record Axes : Type := mkAxes {
  xlim : float * float;
  ylim : float * float;
  patches : list patch
}.

Definition add_patch (ax : Axes) (p : patch) : Axes :=
  mkAxes (xlim ax) (ylim ax) (patches ax ++ [p]).

(** ** Backsplice Curve Generator *)

Definition draw_backsplice (ax : Axes) (start stop y adjust bezier_offset
    gene_size : pynum) : res Axes :=
  let space := PFloat (B64.sub (snd (ylim ax)) (fst (ylim ax))) in
  size_adjust <- py_truediv gene_size (PInt 20) ;;
  x1 <- py_sub start size_adjust ;;
  depth <- py_mul bezier_offset space ;;
  y' <- py_sub y depth ;;
  y1 <- py_sub y' adjust ;;
  x2 <- py_add stop size_adjust ;;
  let verts := [(start, y); (x1, y1); (x2, y1); (stop, y)] in
  Ok (add_patch ax (PathPatch verts)).

Fixpoint draw_backsplice_each (ax : Axes) (start stop y gene_size : pynum)
    (nums : list float) : res Axes :=
  match nums with
  | [] => Ok ax
  | num :: rest =>
      ax' <- draw_backsplice ax start stop y (PFloat num) (PFloat f0_15)
               gene_size ;;
      draw_backsplice_each ax' start stop y gene_size rest
  end.

(** The body of the loop over the junctions. *)
Definition plot_circles_body (ax : Axes) (j : junction) (y gene_size : pynum)
    : res Axes :=
  let '(start, stop, counts) := j in
  if negb (counts =? 0) then
    step <- py_truediv (PInt 1) (PInt (counts * 2)) ;;
    fstep <- to_float step ;;
    nums <- arange f0_0 f0_5 fstep ;;
    draw_backsplice_each ax start stop y gene_size nums
  else Ok ax.

Fixpoint plot_circles (ax : Axes) (coordinates : list junction)
    (y gene_size : pynum) : res Axes :=
  match coordinates with
  | [] => Ok ax
  | j :: rest =>
      ax' <- plot_circles_body ax j y gene_size ;;
      plot_circles ax' rest y gene_size
  end.

(** ** Canonical Curve Generator *)

(** The four unconditional threshold checks on the arc length. The
    thresholds are NumPy scalars ([xlen] comes from [ax.get_xlim()]), so
    the comparisons are NumPy's. *)
Definition radian_correction (arc_len : pynum) (xlen : float) : res pynum :=
  let radian_corr := PInt 1 in
  over <- np_gt arc_len (B64.div xlen (B64.of_Z 8)) ;;
  radian_corr <-
    (if over
     then a <- py_mul (PInt 2) arc_len ;; np_truediv a xlen
     else Ok radian_corr) ;;
  over <- np_gt arc_len (B64.div xlen (B64.of_Z 4)) ;;
  radian_corr <-
    (if over
     then a <- py_mul (PFloat f1_5) arc_len ;; np_truediv a xlen
     else Ok radian_corr) ;;
  over <- np_gt arc_len (B64.div xlen (B64.of_Z 2)) ;;
  radian_corr <-
    (if over
     then np_truediv arc_len xlen
     else Ok radian_corr) ;;
  over <- np_gt arc_len (B64.div xlen f1_2) ;;
  radian_corr <-
    (if over
     then a <- py_mul (PFloat f0_4) arc_len ;; np_truediv a xlen
     else Ok radian_corr) ;;
  Ok radian_corr.

(** The same correction as the specification words it: the widest
    threshold that is exceeded decides. *)
Definition radian_correction_last_wins (arc_len : pynum) (xlen : float)
    : res pynum :=
  if py_gt arc_len (PFloat (B64.div xlen f1_2))
  then a <- py_mul (PFloat f0_4) arc_len ;; np_truediv a xlen
  else if py_gt arc_len (PFloat (B64.div xlen (B64.of_Z 2)))
  then np_truediv arc_len xlen
  else if py_gt arc_len (PFloat (B64.div xlen (B64.of_Z 4)))
  then a <- py_mul (PFloat f1_5) arc_len ;; np_truediv a xlen
  else if py_gt arc_len (PFloat (B64.div xlen (B64.of_Z 8)))
  then a <- py_mul (PInt 2) arc_len ;; np_truediv a xlen
  else Ok (PInt 1).

(** Whether [str(x)] starts with a minus sign: a negative number, [-0.0]
    and [-inf] do, a NaN prints as [nan]. *)
Definition starts_with_minus (x : pynum) : bool :=
  match x with
  | PInt z => z <? 0
  | PFloat (S754_zero s) => s
  | PFloat (S754_infinity s) => s
  | PFloat S754_nan => false
  | PFloat (S754_finite s _ _) => s
  end.

(** The arcs of one junction. The style is the text ["Arc3, rad=-"]
    followed by [str(radians * radian_corr)]; [ConnectionStyle] reads the
    number after [rad=] with [float()], which raises [ValueError] on two
    minus signs. *)
Fixpoint draw_arc_each (ax : Axes) (start stop y radian_corr : pynum)
    (rads : list float) : res Axes :=
  match rads with
  | [] => Ok ax
  | radians :: rest =>
      rad <- py_mul (PFloat radians) radian_corr ;;
      if starts_with_minus rad then Raise ValueError
      else
        draw_arc_each (add_patch ax (ConnectionPatch (start, y) (stop, y) rad))
          start stop y radian_corr rest
  end.

Definition radian_low : float := f0_2.
Definition radian_high : float := f0_4.

(** The body of the loop over the junctions. *)
Definition plot_SJ_curves_body (ax : Axes) (xlen : float)
    (step_denominator : pynum) (j : junction) (y : pynum) : res Axes :=
  let '(start, stop, counts) := j in
  if negb (counts =? 0) then
    arc_len <- py_sub stop start ;;
    radian_corr <- radian_correction arc_len xlen ;;
    d <- py_mul (PInt counts) step_denominator ;;
    step <- py_truediv (PInt 1) d ;;
    fstep <- to_float step ;;
    rads <- arange radian_low radian_high fstep ;;
    draw_arc_each ax start stop y radian_corr rads
  else Ok ax.

Fixpoint plot_SJ_curves_loop (ax : Axes) (xlen : float)
    (step_denominator : pynum) (coordinates : list junction) (y : pynum)
    : res Axes :=
  match coordinates with
  | [] => Ok ax
  | j :: rest =>
      ax' <- plot_SJ_curves_body ax xlen step_denominator j y ;;
      plot_SJ_curves_loop ax' xlen step_denominator rest y
  end.

Definition plot_SJ_curves (ax : Axes) (coordinates : list junction)
    (y : pynum) : res Axes :=
  let radian_diff := B64.sub radian_high radian_low in
  step_denominator <- py_truediv (PInt 1) (PFloat radian_diff) ;;
  let '(xmin, xmax) := xlim ax in
  let xlen := B64.sub xmax xmin in
  plot_SJ_curves_loop ax xlen step_denominator coordinates y.

(** ** Gene-to-transcript resolution *)

(** A row of the [coverage] table. *)
Record coverage_row : Type := mkRow {
  row_gene : string;
  row_transcript : string;
  row_chromosome : string;
  row_start : Z;
  row_stop : Z;
  row_strand : string;
  row_coverage : pynum
}.

(** The table, in the order in which a [SELECT] yields its rows. *)
Definition database : Type := list coverage_row.

(** [SELECT transcript, start, stop FROM coverage WHERE gene=?] *)
Definition fetch_gene (db : database) (gene : string)
    : list (string * Z * Z) :=
  map (fun r => (row_transcript r, row_start r, row_stop r))
    (filter (fun r => String.eqb (row_gene r) gene) db).

(** [d[k] += v] on a [defaultdict(int)]: a dict keeps its keys in the order
    of their first insertion. *)
Fixpoint dict_add (d : list (string * Z)) (k : string) (v : Z)
    : list (string * Z) :=
  match d with
  | [] => [(k, 0 + v)]
  | (k', v') :: tl =>
      if String.eqb k' k then (k', v' + v) :: tl
      else (k', v') :: dict_add tl k v
  end.

Definition transcript_lengths (fetched : list (string * Z * Z))
    : list (string * Z) :=
  fold_left (fun d '(transcript, start, stop) =>
               dict_add d transcript (1 + (stop - start)))
    fetched [].

Definition longest_loop (items : list (string * Z)) (m : Z) (longest : string)
    : Z * string :=
  fold_left (fun '(m, longest) '(transcript, length_) =>
               if length_ >? m then (length_, transcript) else (m, longest))
    items (m, longest).

Definition get_transcript_from_gene (db : database) (gene : string) : string :=
  let transcripts := transcript_lengths (fetch_gene db gene) in
  snd (longest_loop transcripts 0 EmptyString).

(** ** Module level: count reduction *)

(** [[(i, j, k // d) for i, j, k in junctions]], applied when the divisor
    was given and is truthy. On ints [//] is floor division, as [Z.div]. *)
Definition reduce_counts (d : option Z) (junctions : list junction)
    : list junction :=
  match d with
  | Some d =>
      if d =? 0 then junctions
      else map (fun '(i, j, k) => (i, j, k / d)) junctions
  | None => junctions
  end.

(** ** Module level: coverage to colour *)

Definition rgb : Type := (pynum * pynum * pynum)%type.
Definition rgba : Type := (rgb * pynum)%type.

(** Text that the program computes, as the list of its code points: the
    capital form of a character below 256 can lie above 255. *)
Definition unicode : Type := list Z.

Record sample : Type := mkSample {
  name : unicode;
  canonical : list junction;
  backsplice : list junction;
  coverage : list pynum
}.

(** [max(l)]: the first greatest item, [ValueError] on an empty list. *)
Definition py_max (l : list pynum) : res pynum :=
  match l with
  | [] => Raise ValueError
  | x :: tl => Ok (fold_left (fun m v => if py_gt v m then v else m) tl x)
  end.

Fixpoint highest_loop (samples : list sample) (highest : pynum) : res pynum :=
  match samples with
  | [] => Ok highest
  | s :: rest =>
      max_coverage <- py_max (coverage s) ;;
      highest_loop rest
        (if py_gt max_coverage highest then max_coverage else highest)
  end.

Fixpoint alphas (cov : list pynum) (max_coverage : pynum) : res (list pynum) :=
  match cov with
  | [] => Ok []
  | i :: rest =>
      a <- py_truediv i max_coverage ;;
      tl <- alphas rest max_coverage ;;
      Ok (a :: tl)
  end.

Definition sample_colors (normalize : bool) (highest : pynum) (color : rgb)
    (cov : list pynum) : res (list rgba) :=
  max_coverage <- (if normalize then Ok highest else py_max cov) ;;
  if py_ne max_coverage (PInt 0)
  then al <- alphas cov max_coverage ;; Ok (map (fun a => (color, a)) al)
  else Ok (map (fun _ => (color, PInt 0)) cov).

Fixpoint assign_colors_loop (normalize : bool) (highest : pynum) (color : rgb)
    (samples : list sample) : res (list (sample * list rgba)) :=
  match samples with
  | [] => Ok []
  | s :: rest =>
      c <- sample_colors normalize highest color (coverage s) ;;
      tl <- assign_colors_loop normalize highest color rest ;;
      Ok ((s, c) :: tl)
  end.

Definition assign_colors (normalize : bool) (color : rgb)
    (samples : list sample) : res (list (sample * list rgba)) :=
  highest <- (if normalize then highest_loop samples (PInt 0)
              else Ok (PInt 0)) ;;
  assign_colors_loop normalize highest color samples.


(** * Vocabulary of the statements *)

(** ** Inputs of the examples *)

Definition ints (a b : Z) : span := (PInt a, PInt b).

Definition dyad (m e : Z) : pynum := PFloat (B64.of_dyadic m e).

(** A sub-plot with the horizontal limits that [add_ax] sets for a
    transcript from 0 to 100, and the vertical limits -0.25 and 1.75. *)
Definition ax_example : Axes :=
  mkAxes (B64.of_Z (-5), B64.of_Z 105)
         (B64.of_ratio (-1) 4, B64.of_ratio 7 4) [].

Definition patch_count (r : res Axes) : option nat :=
  match r with
  | Ok ax => Some (List.length (patches ax))
  | Raise _ => None
  end.

(** A table with a gene of three transcripts: lengths 500, 800 and 800. *)
Definition db_example : database :=
  [ mkRow "EGFR" "T1" "chr7" 1 300 "+" (PInt 3);
    mkRow "EGFR" "T2" "chr7" 1 500 "+" (PInt 0);
    mkRow "TP53" "T9" "chr17" 1 5000 "-" (PInt 1);
    mkRow "EGFR" "T1" "chr7" 401 600 "+" (PInt 2);
    mkRow "EGFR" "T3" "chr7" 1 800 "+" (PInt 7);
    mkRow "EGFR" "T2" "chr7" 701 1000 "+" (PInt 4) ].

(** ** Numbers *)

(** An int that [float()] accepts. *)
Definition convertible (z : Z) : Prop :=
  B64.is_infinite (B64.of_Z z) = false.

(** A number that arithmetic with a float accepts: any float, or an int of
    magnitude at most [2^1023]. *)
Definition addable (x : pynum) : Prop :=
  match x with
  | PInt z => Z.abs z <= 2 ^ 1023
  | PFloat _ => True
  end.

Definition is_zero_num (a : pynum) : bool := py_eq a (PInt 0).

(** ** Junctions and coverage *)


(** A coverage value that is an int between 0 and [M]. *)
Definition depth_upto (M : Z) (c : pynum) : Prop :=
  exists z, c = PInt z /\ 0 <= z <= M.

(** ** Transcripts of a gene *)

(** The summed exonic length of transcript [t] over the fetched rows. *)
Fixpoint exonic_length (fetched : list (string * Z * Z)) (t : string) : Z :=
  match fetched with
  | [] => 0
  | (t', start, stop) :: rest =>
      (if String.eqb t' t then 1 + (stop - start) else 0)
      + exonic_length rest t
  end.

(** The distinct names of a list, in the order of their first occurrence. *)
Fixpoint first_seen (l : list string) : list string :=
  match l with
  | [] => []
  | t :: rest => t :: filter (fun u => negb (String.eqb u t)) (first_seen rest)
  end.

(** The transcripts of the fetched rows, in the order of first encounter. *)
Definition fetched_transcripts (fetched : list (string * Z * Z)) : list string :=
  first_seen (map (fun row => fst (fst row)) fetched).

Definition not_among (K : list string) (u : string) : bool :=
  negb (existsb (String.eqb u) K).

(** A number that is not a NaN (ints never are). *)
Definition not_nan (a : pynum) : bool :=
  match a with
  | PFloat S754_nan => false
  | _ => true
  end.
(** ** Backsplice curves *)

(** The depth offset of curve number [k] of a junction with [count]
    reads: [k] times the step [1 / (2 * count)], in binary64. *)
Definition depth_offset (count : Z) (k : nat) : float :=
  B64.mul (B64.of_Z (Z.of_nat k)) (B64.of_ratio 1 (count * 2)).

(** The curve that [draw_backsplice] adds for a junction at the depth
    offset [adjust], on axes with the vertical limits of [ax]. *)
Definition backsplice_curve_at (ax : Axes) (start stop y gene_size : pynum)
    (adjust : float) (p : patch) : Prop :=
  draw_backsplice ax start stop y (PFloat adjust) (PFloat f0_15) gene_size
  = Ok (add_patch ax p).
(** ** Transcripts of a gene, on the table *)

(** The summed exonic length of transcript [t] of gene [gene]: the sum of
    [stop - start + 1] over the rows of the table with that gene and that
    transcript. *)
Fixpoint summed_length (db : database) (gene t : string) : Z :=
  match db with
  | [] => 0
  | r :: rest =>
      (if String.eqb (row_gene r) gene && String.eqb (row_transcript r) t
       then row_stop r - row_start r + 1
       else 0)
      + summed_length rest gene t
  end.

(** The transcript of every row of gene [gene], row by row. *)
Fixpoint gene_row_transcripts (db : database) (gene : string) : list string :=
  match db with
  | [] => []
  | r :: rest =>
      if String.eqb (row_gene r) gene
      then row_transcript r :: gene_row_transcripts rest gene
      else gene_row_transcripts rest gene
  end.

(** The transcripts of a gene in the order in which the table first
    shows them. *)
Definition transcripts_of_gene (db : database) (gene : string) : list string :=
  first_seen (gene_row_transcripts db gene).
(** ** Maximum coverage *)





(** ** Real-number reading of binary64

    The statements about rounding read a float as the real number it
    denotes: [F2R m e] is [m * 2^e]. *)

Definition bpow (e : Z) : R := powerRZ 2 e.

Definition F2R (m e : Z) : R := (IZR m * bpow e)%R.

(** The exponent of the grid on which a binary64 of magnitude [2^e] lies. *)
Definition fexp64 (e : Z) : Z := Z.max (e - 53) (-1074).

(** The position of a real [y] with respect to the integer part and the
    round and sticky bits of a shift record. *)
Definition shr_rel (mrs : shr_record) (y : R) : Prop :=
  0 <= shr_m mrs /\
  match shr_r mrs, shr_s mrs with
  | false, false => y = IZR (shr_m mrs)
  | false, true => (IZR (shr_m mrs) < y < IZR (shr_m mrs) + / 2)%R
  | true, false => y = (IZR (shr_m mrs) + / 2)%R
  | true, true => (IZR (shr_m mrs) + / 2 < y < IZR (shr_m mrs) + 1)%R
  end.

(** The same position, told by a significand and a location. *)
Definition loc_rel (m : Z) (l : location) (y : R) : Prop :=
  shr_rel (shr_record_of_loc m l) y.

(** The reals that binary64 represents, its upper limit apart. *)
Definition format (x : R) : Prop :=
  exists m e, x = F2R m e /\ Z.abs m < 2 ^ 53 /\ -1074 <= e.

(** What [binary_round_aux] builds from the final significand and exponent. *)
Definition finish (sx : bool) (m' e' : Z) : float :=
  match m' with
  | Z0 => S754_zero sx
  | Zpos p => if e' <=? 971 then S754_finite sx p e' else S754_infinity sx
  | Zneg _ => S754_nan
  end.

(** A sign and a magnitude as an integer. *)
Definition signed (s : bool) (m : positive) : Z := if s then Zneg m else Zpos m.

(** A float whose significand and exponent are in the binary64 range. *)
Definition valid_float (f : float) : Prop :=
  match f with
  | S754_finite _ m e => Zpos m < 2 ^ 53 /\ -1074 <= e <= 971
  | _ => True
  end.

(** Zero, a positive finite float, or plus infinity. *)
Definition nonneg_float (f : float) : Prop :=
  match f with
  | S754_zero _ | S754_finite false _ _ | S754_infinity false => True
  | _ => False
  end.

(** Neither a NaN nor minus infinity. *)
Definition above_neg_inf (f : float) : Prop :=
  match f with
  | S754_nan | S754_infinity true => False
  | _ => True
  end.

(** [<=] on the extended line, as [py_le] computes it. *)
Definition xle (x y : xnum) : bool :=
  match xnum_compare x y with Some Lt | Some Eq => true | _ => false end.

(** A positive finite float or plus infinity. *)
Definition positive_float (f : float) : Prop :=
  match f with
  | S754_finite false _ _ | S754_infinity false => True
  | _ => False
  end.

(** A coordinate the scaler can extend: an int that converts exactly, or a
    float that is neither a NaN nor minus infinity. *)
Definition chain_ok (x : pynum) : Prop :=
  match x with
  | PInt z => Z.abs z <= 2 ^ 53
  | PFloat f => valid_float f /\ above_neg_inf f
  end.

(** ** Exon spans

    An exon span of two ints of magnitude at most [bound]. *)
Definition int_span_within (bound : Z) (sp : span) : Prop :=
  exists a b, sp = (PInt a, PInt b) /\ Z.abs a <= bound /\ Z.abs b <= bound.

(** Every span has [start <= stop] and ends no later than the next one
    starts, with the comparisons of Python. *)
Fixpoint spans_ordered (l : list span) : bool :=
  match l with
  | [] => true
  | sp :: tl =>
      py_le (fst sp) (snd sp)
      && match tl with [] => true | nxt :: _ => py_le (snd sp) (fst nxt) end
      && spans_ordered tl
  end.

(** An exon of the output whose stop is the sum of its start and the
    length of the exon [c] of the input. *)
Definition keeps_length (c o : span) : Prop :=
  exists a b, c = (PInt a, PInt b)
              /\ py_add (fst o) (PInt (b - a)) = Ok (snd o).

(** A float in the form in which the operations return it: the
    significand fills the 53 bits unless the exponent is the least one. *)
Definition canonical_float (f : float) : Prop :=
  match f with
  | S754_finite _ m e =>
      Zpos m < 2 ^ 53 /\ -1074 <= e <= 971 /\ (-1074 < e -> 2 ^ 52 <= Zpos m)
  | _ => True
  end.

(** The real number that a finite float denotes; 0 for the others. *)
Definition float_value (f : float) : R :=
  match f with
  | S754_finite s m e => F2R (signed s m) e
  | _ => 0%R
  end.

Definition is_finite (f : float) : bool :=
  match f with
  | S754_zero _ | S754_finite _ _ _ => true
  | _ => false
  end.

(** * The rest of the program

    The database queries, the colour parser, the post-processing of the
    arguments, the exon rectangles, the sub-plot and the module-level
    script that prepares the samples.

    Text that the program reads (paths, names of genes and transcripts,
    colours) is modelled by the string of its code points, for code
    points below 256. Printing to the standard output is not modelled. *)

(** ** Ways in which the program stops *)

Inductive exit_status : Type :=
| ExitMessage (msg : string)   (* [sys.exit(msg)]: the message, status 1 *)
| ExitCode (n : Z).            (* [sys.exit(n)] *)

Inductive stop : Type :=
| Raised (e : pyexc)
| KeyError (key : string)
| SystemExit (status : exit_status).

Inductive run (A : Type) : Type :=
| Done (a : A)
| Stop (s : stop).

Arguments Done {A} a.
Arguments Stop {A} s.

Definition run_bind {A B : Type} (c : run A) (k : A -> run B) : run B :=
  match c with
  | Done a => k a
  | Stop s => Stop s
  end.

Notation "x <~ c ;; k" := (run_bind c (fun x => k))
  (at level 61, c at next level, right associativity).
Notation "' p <~ c ;; k" := (run_bind c (fun x => let 'p := x in k))
  (at level 61, p pattern, c at next level, right associativity).

Definition lift {A : Type} (r : res A) : run A :=
  match r with
  | Ok a => Done a
  | Raise e => Stop (Raised e)
  end.

(** ** Text *)

Definition dquote : string :=
  String (Ascii.Ascii false true false false false true false false) EmptyString.

Definition code (c : ascii) : Z := Z.of_nat (Ascii.nat_of_ascii c).

Definition map_chars (f : ascii -> ascii) : string -> string :=
  fix go (s : string) : string :=
    match s with
    | EmptyString => EmptyString
    | String c s' => String (f c) (go s')
    end.

(** [s[i]] *)
Definition str_index (s : string) (i : nat) : res ascii :=
  match String.get i s with
  | Some c => Ok c
  | None => Raise IndexError
  end.

(** [str.lower()]: on code points below 256 the capital letters of ASCII
    and of Latin-1 move up by 32. *)
Definition lower_char (c : ascii) : ascii :=
  let n := code c in
  if ((65 <=? n) && (n <=? 90))
     || ((192 <=? n) && (n <=? 222) && negb (n =? 215))
  then Ascii.ascii_of_nat (Z.to_nat (n + 32))
  else c.

Definition lower : string -> string := map_chars lower_char.

(** The code points of a string. *)
Fixpoint code_points (s : string) : unicode :=
  match s with
  | EmptyString => []
  | String c s' => code c :: code_points s'
  end.

(** [str.upper()] on code points below 256: the small letters of ASCII
    and of Latin-1 move down by 32, the sharp s becomes [SS], and the micro
    sign and the y with diaeresis have their capitals above 255. *)
Definition upper_point (n : Z) : unicode :=
  if (97 <=? n) && (n <=? 122) then [n - 32]
  else if n =? 181 then [924]
  else if n =? 223 then [83; 83]
  else if (224 <=? n) && (n <=? 254) && negb (n =? 247) then [n - 32]
  else if n =? 255 then [376]
  else [n].

Definition upper (s : string) : unicode := flat_map upper_point (code_points s).

Definition is_ascii_char (c : ascii) : bool := code c <? 128.

Fixpoint is_ascii (s : string) : bool :=
  match s with
  | EmptyString => true
  | String c s' => is_ascii_char c && is_ascii s'
  end.

(** [s.split('.')[0]]: the text before the first dot. *)
Fixpoint before_dot (s : string) : string :=
  match s with
  | EmptyString => EmptyString
  | String c s' => if Ascii.eqb c "." then EmptyString else String c (before_dot s')
  end.

(** [re.sub(r'[-_|]', ' ', name)]: the hyphen, the underscore and the bar
    (45, 95 and 124) become a blank (32). *)
Definition is_separator (n : Z) : bool :=
  (n =? 45) || (n =? 95) || (n =? 124).

Definition blank_separators (name : unicode) : unicode :=
  map (fun n => if is_separator n then 32 else n) name.

(** *** [int(s, 16)]

    CPython skips white space at both ends, takes one sign, an optional
    [0x] prefix and then hexadecimal digits, with single underscores
    between digits. White space is the ASCII white space and, of the code
    points below 256, U+0085 and U+00A0. *)

Definition is_space (c : ascii) : bool :=
  let n := code c in
  ((9 <=? n) && (n <=? 13)) || (n =? 32) || (n =? 133) || (n =? 160).

(** The value of a digit in a base up to 36. *)
Definition digit_value (c : ascii) : option Z :=
  let n := code c in
  if (48 <=? n) && (n <=? 57) then Some (n - 48)
  else if (97 <=? n) && (n <=? 122) then Some (n - 87)
  else if (65 <=? n) && (n <=? 90) then Some (n - 55)
  else None.

Definition digit16 (c : ascii) : option Z :=
  match digit_value c with
  | Some v => if v <? 16 then Some v else None
  | None => None
  end.

Fixpoint skip_spaces (s : string) : string :=
  match s with
  | String c s' => if is_space c then skip_spaces s' else s
  | EmptyString => s
  end.

(** The run of digits and underscores: its value, the number of digits and
    the text after it; [None] on a doubled or trailing underscore. *)
Fixpoint digits16 (s : string) (acc : Z) (count : nat) (after_underscore : bool)
    : option (Z * nat * string) :=
  match s with
  | String c s' =>
      if Ascii.eqb c "_" then
        if after_underscore then None else digits16 s' acc count true
      else
        match digit16 c with
        | Some v => digits16 s' (16 * acc + v) (S count) false
        | None => if after_underscore then None else Some (acc, count, s)
        end
  | EmptyString => if after_underscore then None else Some (acc, count, s)
  end.

Definition int_base16 (s : string) : res Z :=
  let s := skip_spaces s in
  let '(negative, s) :=
    match s with
    | String c s' =>
        if Ascii.eqb c "+" then (false, s')
        else if Ascii.eqb c "-" then (true, s')
        else (false, s)
    | EmptyString => (false, s)
    end in
  let s :=
    match s with
    | String c0 (String c1 s') =>
        if Ascii.eqb c0 "0" && (Ascii.eqb c1 "x" || Ascii.eqb c1 "X") then
          match s' with
          | String c2 s'' => if Ascii.eqb c2 "_" then s'' else s'
          | EmptyString => s'
          end
        else s
    | _ => s
    end in
  match s with
  | String c _ =>
      if Ascii.eqb c "_" then Raise ValueError
      else
        match digits16 s 0 0 false with
        | Some (v, S _, rest) =>
            match skip_spaces rest with
            | EmptyString => Ok (if negative then - v else v)
            | _ => Raise ValueError
            end
        | _ => Raise ValueError
        end
  | EmptyString => Raise ValueError
  end.

(** ** Colour parser *)

Definition colordict : list (string * string) :=
  [ ("red"%string, "#FF0000"%string);
    ("blue"%string, "#0000FF"%string);
    ("green"%string, "#006600"%string);
    ("yellow"%string, "#FFFF00"%string);
    ("purple"%string, "#990099"%string);
    ("black"%string, "#000000"%string);
    ("white"%string, "#FFFFFF"%string);
    ("orange"%string, "#FF8000"%string);
    ("brown"%string, "#663300"%string) ].

Fixpoint dict_get (d : list (string * string)) (k : string) : option string :=
  match d with
  | [] => None
  | (k', v) :: tl => if String.eqb k' k then Some v else dict_get tl k
  end.

(** [k in d] *)
Definition dict_mem (d : list (string * string)) (k : string) : bool :=
  match dict_get d k with Some _ => true | None => false end.

(** [d[k]] *)
Definition dict_item (d : list (string * string)) (k : string) : run string :=
  match dict_get d k with
  | Some v => Done v
  | None => Stop (KeyError k)
  end.

(** [range(1, n, 2)] *)
Definition range_odd (n : nat) : list nat :=
  map (fun k => (1 + 2 * k)%nat) (seq 0 (n / 2)).

(** [[int(color[i:i+2], 16)/255 for i in range(1, len(color), 2)]] *)
Fixpoint hex_components_at (color : string) (positions : list nat)
    : res (list pynum) :=
  match positions with
  | [] => Ok []
  | i :: rest =>
      v <- int_base16 (substring i 2 color) ;;
      c <- py_truediv (PInt v) (PInt 255) ;;
      tl <- hex_components_at color rest ;;
      Ok (c :: tl)
  end.

Definition hex_components (color : string) : res (list pynum) :=
  hex_components_at color (range_odd (String.length color)).

Definition red : list pynum := [PInt 1; PInt 0; PInt 0].

(** [to_rgb]: the argument is a [str] (argparse makes it one), so the
    check of its type never fires. The result is the tuple as a list. *)
Definition to_rgb (color : string) : run (list pynum) :=
  c0 <~ lift (str_index color 0) ;;
  hex <~ (if negb (Ascii.eqb c0 "#") || negb (String.length color =? 7)%nat
          then
            if dict_mem colordict color
            then h <~ dict_item colordict (lower color) ;; Done (Some h)
            else Done None
          else Done (Some color)) ;;
  match hex with
  | None => Done red
  | Some color =>
      match hex_components color with
      | Ok rgb => Done rgb
      | Raise ValueError => Done red
      | Raise e => Stop (Raised e)
      end
  end.

(** The three components of a colour tuple. *)
Definition rgb_of_tuple (t : list pynum) : rgb :=
  (nth 0 t (PInt 0), nth 1 t (PInt 0), nth 2 t (PInt 0)).

(** ** Database queries

    A sample database holds the table [coverage] and the two junction
    tables [canonical] and [circle]; the columns [start], [stop] and
    [counts] hold ints. A query yields the rows in the order of the
    table. *)

Record junction_row : Type := mkJunction {
  sj_chromosome : string;
  sj_start : Z;
  sj_stop : Z;
  sj_strand : string;
  sj_counts : Z
}.

Record sample_db : Type := mkDb {
  coverage_table : database;
  canonical_table : list junction_row;
  circle_table : list junction_row
}.

(** [... FROM coverage WHERE transcript=?] *)
Definition fetch_transcript (db : database) (transcript : string)
    : list coverage_row :=
  filter (fun r => String.eqb (row_transcript r) transcript) db.

(** [len(set(l))] *)
Definition distinct_count (l : list string) : nat :=
  List.length (nodup string_dec l).

(** [get_exons]: unpacking the transposed rows fails on an empty result,
    which the function turns into an exit. *)
Definition get_exons (db : database) (transcript : string)
    : run (string * list Z * list Z * string) :=
  let fetched := fetch_transcript db transcript in
  match fetched with
  | [] => Stop (SystemExit (ExitMessage "Transcript not found"))
  | first :: _ =>
      let chromosomes := map row_chromosome fetched in
      let starts := map row_start fetched in
      let stops := map row_stop fetched in
      let strands := map row_strand fetched in
      if (1 <? distinct_count chromosomes)%nat
      then Stop (SystemExit (ExitCode 1))
      else Done (row_chromosome first, starts, stops, row_strand first)
  end.

Definition get_coverage (db : database) (transcript : string) : list pynum :=
  map row_coverage (fetch_transcript db transcript).

(** [get_sj] on the table that [table_name] names. *)
Definition get_sj (table : list junction_row) (chromosome : string)
    (start stop : Z) (strand : string) : list junction :=
  map (fun r => (PInt (sj_start r), PInt (sj_stop r), sj_counts r))
    (filter (fun r => String.eqb (sj_chromosome r) chromosome
                      && (start <=? sj_start r)
                      && (sj_stop r <=? stop)
                      && String.eqb (sj_strand r) strand)
       table).

(** ** Arguments *)

(** What [parser.parse_args()] returns. *)
Record Args : Type := mkArgs {
  arg_intron_scale : option float;
  arg_database : list string;
  arg_color : string;
  arg_transcript : option string;
  arg_gene : option string;
  arg_normalize : bool;
  arg_reduce_canonical : option Z;
  arg_reduce_backsplice : option Z;
  arg_repress_open : bool
}.

(** The files: which paths exist, and the database a path opens. *)
Record files : Type := mkFiles {
  path_exists : string -> bool;
  connect : string -> sample_db
}.

(** The truth value of an optional [str]: [None] and [''] are false. *)
Definition truthy (s : option string) : bool :=
  match s with
  | Some EmptyString | None => false
  | Some _ => true
  end.

Definition text (s : option string) : string :=
  match s with Some t => t | None => EmptyString end.

(** The truth value of an optional [float]: [None] and zero are false, a
    NaN is true. *)
Definition truthy_float (x : option float) : option float :=
  match x with
  | Some f => if B64.is_zero f then None else Some f
  | None => None
  end.

Definition not_found_message (path : string) : string :=
  ("Database: " ++ path ++ " was not found")%string.

Definition usage_message : string :=
  ("Either a gene or a transcript must be specified. (ex. " ++ dquote
   ++ "-t ENST00000390665" ++ dquote ++ " or " ++ dquote ++ "-g EGFR" ++ dquote
   ++ ")")%string.

Fixpoint check_databases (fs : files) (paths : list string) : run unit :=
  match paths with
  | [] => Done tt
  | path :: rest =>
      if path_exists fs path then check_databases fs rest
      else Stop (SystemExit (ExitMessage (not_found_message path)))
  end.

(** [parse_args] after the parser has run: the transcript and the colour
    it stores back into [args]. *)
Definition parse_args (fs : files) (args : Args) : run (string * list pynum) :=
  _ <~ check_databases fs (arg_database args) ;;
  transcript <~
    (if negb (truthy (arg_gene args) || truthy (arg_transcript args))
     then Stop (SystemExit (ExitMessage usage_message))
     else if negb (truthy (arg_transcript args))
     then
       db_path <~ lift (index (arg_database args) 0) ;;
       Done (get_transcript_from_gene
               (coverage_table (connect fs db_path)) (text (arg_gene args)))
     else Done (text (arg_transcript args))) ;;
  color <~ to_rgb (arg_color args) ;;
  Done (transcript, color).

(** ** Exon rectangles *)

Record Rectangle : Type := mkRectangle {
  rect_xy : point;
  rect_width : pynum;
  rect_height : pynum;
  rect_facecolor : rgba
}.

(** A colour component that matplotlib refuses: below 0 or above 1 (a NaN
    is neither). *)
Definition outside_unit (f : float) : bool :=
  py_lt (PFloat f) (PInt 0) || py_gt (PFloat f) (PInt 1).

(** The check of [facecolor] when the [Rectangle] is made
    ([matplotlib.colors.to_rgba]): the four components are made floats,
    and the colour is refused with [ValueError] when one of them is
    outside the range from 0 to 1. *)
Definition check_facecolor (color : rgba) : res unit :=
  let '((r, g, b), a) := color in
  fr <- to_float r ;;
  fg <- to_float g ;;
  fb <- to_float b ;;
  fa <- to_float a ;;
  if existsb outside_unit [fr; fg; fb; fa] then Raise ValueError else Ok tt.

(** [plot_exons]: the rectangles it adds to the axes, after the ones
    that are there. *)
Fixpoint plot_exons (drawn : list Rectangle) (coordinates : list span)
    (y height : pynum) (colors : list rgba) : res (list Rectangle) :=
  match coordinates, colors with
  | (start, stop) :: coordinates', color :: colors' =>
      length_ <- py_sub stop start ;;
      _ <- check_facecolor color ;;
      plot_exons (drawn ++ [mkRectangle (start, y) length_ height color])
        coordinates' y height colors'
  | _, _ => Ok drawn
  end.

(** ** Sub-plot *)

Definition f0_05 : float := Eval vm_compute in B64.of_ratio 5 100.

(** [min(l)]: the first least item. *)
Definition py_min (l : list pynum) : res pynum :=
  match l with
  | [] => Raise ValueError
  | x :: tl => Ok (fold_left (fun m v => if py_lt v m then v else m) tl x)
  end.

(** The limits that [add_ax] hands to [set_xlim] and [set_ylim], and the
    gene length: [(xmin, xmax, ymin, ymax, gene_length)]. *)
Definition add_ax_limits (coords : list span)
    : res (pynum * pynum * pynum * pynum * pynum) :=
  let ybottom := PFloat f0_5 in
  let height := PFloat f0_5 in
  ytop <- py_add ybottom height ;;
  transcript_start <- py_min (map fst coords) ;;
  transcript_stop <- py_max (map snd coords) ;;
  gene_length <- py_sub transcript_stop transcript_start ;;
  x_adjustment <- py_mul (PFloat f0_05) gene_length ;;
  yh <- py_mul ytop height ;;
  y_adjustment <- py_mul yh (PInt 3) ;;
  xmin <- py_sub transcript_start x_adjustment ;;
  xmax <- py_add transcript_stop x_adjustment ;;
  ymin <- py_sub ybottom y_adjustment ;;
  ymax <- py_add ytop y_adjustment ;;
  Ok (xmin, xmax, ymin, ymax, gene_length).

(** A sub-plot: the axes with the curves, the exon rectangles and the
    title. *)
Record Subplot : Type := mkSubplot {
  sub_axes : Axes;
  sub_exons : list Rectangle;
  sub_title : unicode
}.

(** What [add_ax] draws on the axes [ax] whose limits it has set. *)
Definition add_ax_draw (ax : Axes) (coords : list span) (gene_length : pynum)
    (s : sample * list rgba) : res Subplot :=
  let '(smp, colors) := s in
  let ybottom := PFloat f0_5 in
  let height := PFloat f0_5 in
  ytop <- py_add ybottom height ;;
  exons <- plot_exons [] coords ybottom height colors ;;
  ax <- plot_SJ_curves ax (canonical smp) ytop ;;
  ax <- plot_circles ax (backsplice smp) ybottom gene_length ;;
  Ok (mkSubplot ax exons (blank_separators (name smp))).

(** ** The script *)

Definition min_int (l : list Z) : res Z :=
  match l with
  | [] => Raise ValueError
  | x :: tl => Ok (fold_left Z.min tl x)
  end.

Definition max_int (l : list Z) : res Z :=
  match l with
  | [] => Raise ValueError
  | x :: tl => Ok (fold_left Z.max tl x)
  end.

(** The order of tuples of two ints. *)
Definition pair_leb (a b : Z * Z) : bool :=
  (fst a <? fst b) || ((fst a =? fst b) && (snd a <=? snd b)).

Fixpoint insert_sorted (a : Z * Z) (l : list (Z * Z)) : list (Z * Z) :=
  match l with
  | [] => [a]
  | b :: tl => if pair_leb a b then a :: l else b :: insert_sorted a tl
  end.

(** [sorted(l)] on tuples of two ints: tuples that compare equal are
    equal, so every sorting procedure gives this list. *)
Definition sorted (l : list (Z * Z)) : list (Z * Z) :=
  fold_right insert_sorted [] l.

(** One turn of the loop over [args.database]. *)
Definition load_sample (fs : files) (args : Args) (transcript chromosome
    strand : string) (transcript_start transcript_stop : Z)
    (coords : list span) (scaled_coords : option (list span))
    (db_path : string) : res sample :=
  let db := connect fs db_path in
  let name := upper (before_dot db_path) in
  let canonical := get_sj (canonical_table db) chromosome transcript_start
                     transcript_stop strand in
  let backsplice := get_sj (circle_table db) chromosome transcript_start
                      transcript_stop strand in
  let coverage := get_coverage (coverage_table db) transcript in
  let coverage := if String.eqb strand "-" then rev coverage else coverage in
  canonical <- match scaled_coords with
               | Some sc => scale_coords coords sc canonical
               | None => Ok canonical
               end ;;
  backsplice <- match scaled_coords with
                | Some sc => scale_coords coords sc backsplice
                | None => Ok backsplice
                end ;;
  let canonical := reduce_counts (arg_reduce_canonical args) canonical in
  let backsplice := reduce_counts (arg_reduce_backsplice args) backsplice in
  Ok (mkSample name canonical backsplice coverage).

Fixpoint load_samples (fs : files) (args : Args) (transcript chromosome
    strand : string) (transcript_start transcript_stop : Z)
    (coords : list span) (scaled_coords : option (list span))
    (paths : list string) : res (list sample) :=
  match paths with
  | [] => Ok []
  | db_path :: rest =>
      s <- load_sample fs args transcript chromosome strand transcript_start
             transcript_stop coords scaled_coords db_path ;;
      tl <- load_samples fs args transcript chromosome strand transcript_start
              transcript_stop coords scaled_coords rest ;;
      Ok (s :: tl)
  end.

(** What the script has when the plotting starts. *)
Record prepared : Type := mkPrepared {
  plot_transcript : string;
  plot_coords : list span;
  plot_samples : list (sample * list rgba);
  plot_title : string
}.

(** The script from [parse_args()] to the loop that plots. *)
Definition prepare (fs : files) (args : Args) : run prepared :=
  '(transcript, color) <~ parse_args fs args ;;
  db0 <~ lift (index (arg_database args) 0) ;;
  '(chromosome, starts, stops, strand) <~
    get_exons (coverage_table (connect fs db0)) transcript ;;
  transcript_start <~ lift (min_int starts) ;;
  transcript_stop <~ lift (max_int stops) ;;
  let coords := map (fun se => ints (fst se) (snd se))
                  (sorted (combine starts stops)) in
  scaled_coords <~
    match truthy_float (arg_intron_scale args) with
    | Some factor =>
        sc <~ lift (scale_introns coords (PFloat factor)) ;; Done (Some sc)
    | None => Done None
    end ;;
  samples <~ lift (load_samples fs args transcript chromosome strand
                     transcript_start transcript_stop coords scaled_coords
                     (arg_database args)) ;;
  let coords := match scaled_coords with Some sc => sc | None => coords end in
  colored <~ lift (assign_colors (arg_normalize args) (rgb_of_tuple color)
                     samples) ;;
  let title := if truthy (arg_gene args)
               then (text (arg_gene args) ++ " (" ++ transcript ++ ")")%string
               else transcript in
  Done (mkPrepared transcript coords colored title).

(** ** Vocabulary of the further properties *)

(** A float, or an int of magnitude at most [bound]. *)
Definition within (bound : Z) (x : pynum) : Prop :=
  match x with
  | PInt z => Z.abs z <= bound
  | PFloat _ => True
  end.

(** A junction whose coordinates are ints of magnitude at most [bound]. *)
Definition int_junction_within (bound : Z) (j : junction) : Prop :=
  exists a b c, j = (PInt a, PInt b, c) /\ Z.abs a <= bound /\ Z.abs b <= bound.

(** The two characters [a], [b] as a string. *)
Definition two_chars (a b : ascii) : string := String a (String b EmptyString).

(** What [int(s, 16)] gives on every string of two characters: a value
    from -15 to 255, or a [ValueError]. *)
Definition pair_in_range (a b : ascii) : bool :=
  match int_base16 (two_chars a b) with
  | Ok v => (-15 <=? v) && (v <=? 255)
  | Raise ValueError => true
  | Raise _ => false
  end.

(** Two hexadecimal digits are read as the number they write. *)
Definition pair_of_digits (a b : ascii) : bool :=
  match digit16 a, digit16 b with
  | Some x, Some y =>
      match int_base16 (two_chars a b) with
      | Ok v => v =? 16 * x + y
      | Raise _ => false
      end
  | _, _ => true
  end.

(** A colour component between [-15/255] and 1. *)
Definition component_in_range (c : pynum) : bool :=
  py_le (PFloat (B64.of_ratio (-15) 255)) c && py_le c (PInt 1).

(** A colour component between 0 and 1. *)
Definition unit_component (c : pynum) : bool :=
  py_le (PInt 0) c && py_le c (PInt 1).

(** The quotient [v / 255] is a colour component in range, and one between
    0 and 1 when [v] is not negative. *)
Definition quotient_in_range (v : Z) : bool :=
  match py_truediv (PInt v) (PInt 255) with
  | Ok c => component_in_range c && ((v <? 0) || unit_component c)
  | Raise _ => false
  end.

(** A colour in the form [#] and six characters. *)
Definition hex_form (color : string) : bool :=
  match color with
  | String c0 _ => Ascii.eqb c0 "#" && (String.length color =? 7)%nat
  | EmptyString => false
  end.

(** A backsplice curve from [(start, y)] to [(stop, y)]: four vertices,
    the two control points at one height. *)
Definition backsplice_patch (start stop y : pynum) (p : patch) : Prop :=
  exists x1 x2 y1, p = PathPatch [(start, y); (x1, y1); (x2, y1); (stop, y)].

(** A canonical arc from [(start, y)] to [(stop, y)]. *)
Definition canonical_patch (start stop y : pynum) (p : patch) : Prop :=
  exists rad, p = ConnectionPatch (start, y) (stop, y) rad.

(** A patch drawn for one of the junctions [js] that has a count other
    than zero. *)
Definition drawn_for (shape : pynum -> pynum -> pynum -> patch -> Prop)
    (js : list junction) (y : pynum) (p : patch) : Prop :=
  exists start stop counts,
    In (start, stop, counts) js /\ counts <> 0 /\ shape start stop y p.

(** The four components of a colour. *)
Definition components (c : rgba) : list pynum :=
  [fst (fst (fst c)); snd (fst (fst c)); snd (fst c); snd c].

(** A colour with its four components between 0 and 1. *)
Definition unit_color (c : rgba) : bool := forallb unit_component (components c).

(** A number below 0 or above 1. *)
Definition below_or_above (c : pynum) : bool :=
  py_lt c (PInt 0) || py_gt c (PInt 1).

(** The rectangle of an exon with its colour. *)
Definition exon_rectangle (y height : pynum) (sc : span * rgba)
    (r : Rectangle) : Prop :=
  rect_xy r = (fst (fst sc), y)
  /\ py_sub (snd (fst sc)) (fst (fst sc)) = Ok (rect_width r)
  /\ rect_height r = height
  /\ rect_facecolor r = snd sc.

(** A code point that is a small letter of ASCII. *)
Definition is_small_letter (n : Z) : bool :=
  (97 <=? n) && (n <=? 122).


(** A junction with coordinates that are floats or ints of magnitude at
    most [2^1021] and a count in the given range. *)
Definition junction_with_count (low high : Z) (j : junction) : Prop :=
  within (2 ^ 1021) (fst (fst j)) /\ within (2 ^ 1021) (snd (fst j))
  /\ low <= snd j <= high.

(** The ints [lo] and [hi] are the least start and the greatest stop of
    the exons. *)
Definition transcript_extent (coords : list span) (lo hi : Z) : Prop :=
  (exists sp, In sp coords /\ fst sp = PInt lo)
  /\ (exists sp, In sp coords /\ snd sp = PInt hi)
  /\ Forall (fun sp => py_le (PInt lo) (fst sp) = true
                       /\ py_le (snd sp) (PInt hi) = true) coords.

(** The vertical limits that [add_ax] sets: -1.0 and 2.5. *)
Definition add_ax_ylim : float * float := (B64.of_Z (-1), B64.of_ratio 5 2).

(** The heights of a backsplice curve of a sub-plot: it starts and ends
    on the lower edge of the exons, at height 0.5, and its two control
    points have one height, between the lower vertical limit of the view
    and that edge. *)
Definition backsplice_heights_in_view (start stop : pynum) (p : patch) : Prop :=
  exists x1 x2 y1,
    p = PathPatch [(start, PFloat f0_5); (x1, PFloat y1); (x2, PFloat y1);
                   (stop, PFloat f0_5)]
    /\ py_le (PFloat (fst add_ax_ylim)) (PFloat y1) = true
    /\ py_le (PFloat y1) (PFloat f0_5) = true.

(** *** Inputs of the examples *)

(** A sample database: the table of [db_example] with two canonical
    junctions and one backsplice junction of the gene on chromosome 7. *)
Definition sample_db_example : sample_db :=
  mkDb db_example
    [ mkJunction "chr7" 300 401 "+" 12;
      mkJunction "chr7" 600 5000 "+" 3 ]
    [ mkJunction "chr7" 401 600 "+" 2 ].

(** The files: two paths exist and open the same database. *)
Definition files_example : files :=
  mkFiles (fun path => String.eqb path "a.db" || String.eqb path "b.db")
          (fun _ => sample_db_example).

Definition args_example (paths : list string) (transcript gene : option string)
    : Args :=
  mkArgs None paths "#C21807" transcript gene false None None false.

(** A sample with one canonical and one backsplice junction. *)
Definition sample_example : sample :=
  mkSample (code_points "S1_REP-2") [(PInt 150, PInt 300, 2)] [(PInt 100, PInt 350, 1)]
    [PInt 3; PInt 6].

(** The empty axes of a sub-plot for a transcript from 0 to 100, with the
    limits that [add_ax] sets. *)
Definition ax_add_example : Axes :=
  mkAxes (B64.of_Z (-5), B64.of_Z 105) add_ax_ylim [].

(** * Binary64 rounding facts *)

(** ** Powers of two *)

Lemma bpow_gt_0 (e : Z) : (0 < bpow e)%R.
Proof. apply powerRZ_lt. lra. Qed.

Lemma bpow_plus (a b : Z) : bpow (a + b) = (bpow a * bpow b)%R.
Proof. apply powerRZ_add. lra. Qed.

Lemma bpow_IZR (n : Z) : 0 <= n -> bpow n = IZR (2 ^ n).
Proof.
  intros Hn. unfold bpow. destruct n as [|p|p]; [reflexivity| |lia].
  symmetry. apply (Zpower_pos_powerRZ 2 p).
Qed.

Lemma bpow_ge_1 (n : Z) : 0 <= n -> (1 <= bpow n)%R.
Proof.
  intros Hn. rewrite (bpow_IZR n Hn). apply IZR_le.
  pose proof (Z.pow_pos_nonneg 2 n). lia.
Qed.

Lemma bpow_le (a b : Z) : a <= b -> (bpow a <= bpow b)%R.
Proof.
  intros H. replace b with (a + (b - a)) by lia. rewrite bpow_plus.
  pose proof (bpow_gt_0 a). pose proof (bpow_ge_1 (b - a)).
  assert (1 <= bpow (b - a))%R by (apply H1; lia). nra.
Qed.

Lemma bpow_lt (a b : Z) : a < b -> (bpow a < bpow b)%R.
Proof.
  intros H. replace b with (a + 1 + (b - a - 1)) by lia.
  rewrite !bpow_plus. pose proof (bpow_gt_0 a).
  assert (1 <= bpow (b - a - 1))%R by (apply bpow_ge_1; lia).
  change (bpow 1) with (2 * 1)%R. nra.
Qed.

Lemma bpow_lt_inv (a b : Z) : (bpow a < bpow b)%R -> a < b.
Proof.
  intros H. destruct (Z.lt_ge_cases a b) as [|Hge]; [assumption|].
  pose proof (bpow_le b a Hge). lra.
Qed.

Lemma bpow_le_inv (a b : Z) : (bpow a <= bpow b)%R -> a <= b.
Proof.
  intros H. destruct (Z.le_gt_cases a b) as [|Hgt]; [assumption|].
  pose proof (bpow_lt b a Hgt). lra.
Qed.

(** ** Number of binary digits *)

Lemma digits2_pos_spec (p : positive) :
  2 ^ (Zpos (digits2_pos p) - 1) <= Zpos p < 2 ^ Zpos (digits2_pos p).
Proof.
  induction p as [p IH|p IH|]; cbn [digits2_pos].
  - rewrite Pos2Z.inj_succ. replace (Z.succ (Zpos (digits2_pos p)) - 1) with (Z.succ (Zpos (digits2_pos p) - 1)) by lia.
    rewrite !Z.pow_succ_r by lia. lia.
  - rewrite Pos2Z.inj_succ. replace (Z.succ (Zpos (digits2_pos p)) - 1) with (Z.succ (Zpos (digits2_pos p) - 1)) by lia.
    rewrite !Z.pow_succ_r by lia. lia.
  - cbn. lia.
Qed.

Lemma fexp_eq (e : Z) : fexp 53 1024 e = fexp64 e.
Proof. reflexivity. Qed.

Lemma Zdigits2_unique (r d : Z) :
  0 < r -> 2 ^ (d - 1) <= r < 2 ^ d -> Zdigits2 r = d.
Proof.
  intros Hr [Hlo Hhi]. destruct r as [|p|p]; try lia. cbn [Zdigits2].
  pose proof (digits2_pos_spec p) as [Plo Phi].
  set (d' := Zpos (digits2_pos p)) in *.
  assert (0 < d).
  { destruct (Z.lt_ge_cases 0 d); [assumption|].
    assert (2 ^ d <= 1).
    { destruct (Z.eq_dec d 0) as [->|]; [cbn; lia|].
      rewrite Z.pow_neg_r by lia. lia. }
    lia. }
  destruct (Z.lt_trichotomy d d') as [Hlt|[Heq|Hgt]]; [|symmetry; assumption|].
  - assert (2 ^ d <= 2 ^ (d' - 1)) by (apply Z.pow_le_mono_r; lia). lia.
  - assert (2 ^ d' <= 2 ^ (d - 1)) by (apply Z.pow_le_mono_r; lia). lia.
Qed.

Lemma Zdigits2_bounds (r : Z) :
  0 < r -> 2 ^ (Zdigits2 r - 1) <= r < 2 ^ Zdigits2 r /\ 0 < Zdigits2 r.
Proof.
  intros Hr. destruct r as [|p|p]; try lia. cbn [Zdigits2].
  split; [apply digits2_pos_spec | lia].
Qed.

(** ** Right shifts and the location of the lost bits *)

Lemma shr_rel_bounds (mrs : shr_record) (y : R) :
  shr_rel mrs y -> (IZR (shr_m mrs) <= y < IZR (shr_m mrs) + 1)%R.
Proof.
  intros [_ H]. destruct (shr_r mrs), (shr_s mrs); lra.
Qed.

Lemma shr_1_rel (mrs : shr_record) (y : R) :
  shr_rel mrs y -> shr_rel (shr_1 mrs) (y / 2)%R.
Proof.
  destruct mrs as [m r s]. unfold shr_rel. cbn [shr_m shr_r shr_s].
  intros [Hm H].
  destruct m as [|p|p]; [| |lia].
  - cbn [shr_1 shr_m shr_r shr_s]. split; [lia|].
    destruct r, s; cbn [orb]; lra.
  - destruct p as [p|p|]; cbn [shr_1 shr_m shr_r shr_s]; (split; [lia|]).
    + change (Zpos p~1) with (2 * Zpos p + 1) in H.
      rewrite plus_IZR, mult_IZR in H.
      destruct r, s; cbn [orb]; lra.
    + change (Zpos p~0) with (2 * Zpos p) in H.
      rewrite mult_IZR in H.
      destruct r, s; cbn [orb]; lra.
    + destruct r, s; cbn [orb]; lra.
Qed.

Lemma iter_pos_shr_1_rel (p : positive) :
  forall mrs y, shr_rel mrs y ->
    shr_rel (SpecFloat.iter_pos shr_1 p mrs) (y * bpow (- Zpos p))%R.
Proof.
  induction p as [p IH|p IH|]; intros mrs y H; cbn [SpecFloat.iter_pos].
  - replace (y * bpow (- Zpos p~1))%R
      with (y / 2 * bpow (- Zpos p) * bpow (- Zpos p))%R.
    + apply IH, IH, shr_1_rel, H.
    + replace (- Zpos p~1) with (-1 + (- Zpos p + - Zpos p)) by lia.
      rewrite !bpow_plus. change (bpow (-1)) with (/ (2 * 1))%R. lra.
  - replace (y * bpow (- Zpos p~0))%R
      with (y * bpow (- Zpos p) * bpow (- Zpos p))%R.
    + apply IH, IH, H.
    + replace (- Zpos p~0) with (- Zpos p + - Zpos p) by lia.
      rewrite !bpow_plus. lra.
  - change (Z.opp 1) with (-1). replace (y * bpow (-1))%R with (y / 2)%R.
    + apply shr_1_rel, H.
    + change (bpow (-1)) with (/ (2 * 1))%R. lra.
Qed.

Lemma shr_spec (mrs : shr_record) (e n : Z) (y : R) :
  shr_rel mrs y -> 0 <= n ->
  exists mrs', shr mrs e n = (mrs', e + n)
               /\ shr_rel mrs' (y * bpow (- n))%R.
Proof.
  intros H Hn. destruct n as [|p|p]; [| |lia].
  - exists mrs. split; [cbn; f_equal; lia|].
    change (bpow (-0)) with 1%R. rewrite Rmult_1_r. exact H.
  - exists (SpecFloat.iter_pos shr_1 p mrs). split; [reflexivity|].
    apply iter_pos_shr_1_rel, H.
Qed.

Lemma loc_of_shr_record_rel (mrs : shr_record) (y : R) :
  shr_rel mrs y -> loc_rel (shr_m mrs) (loc_of_shr_record mrs) y.
Proof.
  destruct mrs as [m [|] [|]]; unfold loc_rel; cbn; intros H; exact H.
Qed.

(** ** Values [m * 2^e] *)

Lemma F2R_shift (m e k : Z) : 0 <= k -> F2R (m * 2 ^ k) e = F2R m (e + k).
Proof.
  intros Hk. unfold F2R. rewrite mult_IZR, bpow_plus, <- (bpow_IZR k Hk). lra.
Qed.

Lemma F2R_le (m1 m2 e : Z) : m1 <= m2 -> (F2R m1 e <= F2R m2 e)%R.
Proof.
  intros H. unfold F2R. pose proof (bpow_gt_0 e). apply IZR_le in H. nra.
Qed.

Lemma F2R_lt_inv (m1 m2 e : Z) : (F2R m1 e < F2R m2 e)%R -> m1 < m2.
Proof.
  unfold F2R. intros H. pose proof (bpow_gt_0 e). apply lt_IZR. nra.
Qed.

Lemma F2R_le_inv (m1 m2 e : Z) : (F2R m1 e <= F2R m2 e)%R -> m1 <= m2.
Proof.
  unfold F2R. intros H. pose proof (bpow_gt_0 e). apply le_IZR. nra.
Qed.

Lemma F2R_bpow (e k : Z) : 0 <= k -> F2R (2 ^ k) e = bpow (e + k).
Proof.
  intros Hk. unfold F2R. rewrite <- (bpow_IZR k Hk), bpow_plus. lra.
Qed.

Lemma Rabs_F2R (m e : Z) : Rabs (F2R m e) = F2R (Z.abs m) e.
Proof.
  unfold F2R. rewrite Rabs_mult, <- abs_IZR.
  rewrite (Rabs_pos_eq (bpow e)); [reflexivity|].
  left. apply bpow_gt_0.
Qed.

(** ** The grid of representable numbers *)

(** A representable number that is large enough, or any representable
    number when the grid is the finest one, lies on the grid [2^e1]. *)
Lemma format_grid (a : R) (e1 : Z) :
  format a -> -1074 <= e1 ->
  e1 = -1074 \/ (bpow (e1 + 52) <= Rabs a)%R ->
  exists K, a = F2R K e1.
Proof.
  intros (ma & ea & -> & Hma & Hea) He1 Hcase.
  destruct (Z.le_gt_cases e1 ea) as [Hle|Hgt].
  - exists (ma * 2 ^ (ea - e1)). rewrite F2R_shift by lia.
    f_equal. lia.
  - exfalso. destruct Hcase as [->|Hbig]; [lia|].
    rewrite Rabs_F2R in Hbig.
    assert (F2R (Z.abs ma) ea < bpow (e1 + 52))%R; [|lra].
    apply Rlt_le_trans with (F2R (2 ^ 53) ea).
    + unfold F2R. pose proof (bpow_gt_0 ea). apply IZR_lt in Hma. nra.
    + rewrite F2R_bpow by lia. apply bpow_le. lia.
Qed.

Lemma grid_below (a : R) (m1 e1 : Z) :
  format a -> -1074 <= e1 -> e1 = -1074 \/ 2 ^ 52 <= m1 ->
  (a < F2R (m1 + 1) e1)%R -> (a <= F2R m1 e1)%R.
Proof.
  intros Ha He1 Hcase Hlt.
  destruct (Rle_lt_dec (bpow (e1 + 52)) (Rabs a)) as [Hbig|Hsmall].
  - destruct (format_grid a e1 Ha He1 (or_intror Hbig)) as [K ->].
    apply F2R_le. apply F2R_lt_inv in Hlt. lia.
  - destruct Hcase as [->|Hm1].
    + destruct (format_grid a (-1074) Ha He1 (or_introl eq_refl)) as [K ->].
      apply F2R_le. apply F2R_lt_inv in Hlt. lia.
    + apply Rle_trans with (bpow (e1 + 52)).
      * pose proof (Rle_abs a). lra.
      * rewrite <- F2R_bpow by lia. apply F2R_le. exact Hm1.
Qed.

Lemma grid_above (b : R) (m1 e1 : Z) :
  format b -> -1074 <= e1 -> e1 = -1074 \/ 2 ^ 52 <= m1 ->
  (F2R m1 e1 < b)%R -> (F2R (m1 + 1) e1 <= b)%R.
Proof.
  intros Hb He1 Hcase Hlt.
  destruct (Rle_lt_dec (bpow (e1 + 52)) (Rabs b)) as [Hbig|Hsmall].
  - destruct (format_grid b e1 Hb He1 (or_intror Hbig)) as [K ->].
    apply F2R_le. apply F2R_lt_inv in Hlt. lia.
  - destruct Hcase as [->|Hm1].
    + destruct (format_grid b (-1074) Hb He1 (or_introl eq_refl)) as [K ->].
      apply F2R_le. apply F2R_lt_inv in Hlt. lia.
    + exfalso.
      assert (bpow (e1 + 52) <= F2R m1 e1)%R.
      { rewrite <- F2R_bpow by lia. apply F2R_le. exact Hm1. }
      pose proof (Rle_abs b). lra.
Qed.

(** ** Rounding to nearest, ties to even *)

Lemma first_shr (m e : Z) (l : location) (x : R) :
  0 <= m -> loc_rel m l (x * bpow (- e))%R ->
  e <= fexp64 (Zdigits2 m + e) ->
  exists mrs1,
    shr_fexp 53 1024 m e l = (mrs1, fexp64 (Zdigits2 m + e))
    /\ shr_rel mrs1 (x * bpow (- fexp64 (Zdigits2 m + e)))%R
    /\ (fexp64 (Zdigits2 m + e) = -1074 \/ 2 ^ 52 <= shr_m mrs1)
    /\ shr_m mrs1 < 2 ^ 53.
Proof.
  intros Hm Hrel He.
  set (e1 := fexp64 (Zdigits2 m + e)) in *.
  destruct (shr_spec (shr_record_of_loc m l) e (e1 - e) _ Hrel) as (mrs1 & Hshr & Hrel1);
    [lia|].
  replace (e + (e1 - e)) with e1 in Hshr by lia.
  replace (x * bpow (- e) * bpow (- (e1 - e)))%R with (x * bpow (- e1))%R in Hrel1.
  2:{ replace (- e1) with (- e + - (e1 - e)) by lia. rewrite bpow_plus. lra. }
  exists mrs1. split; [exact Hshr|]. split; [exact Hrel1|].
  pose proof (shr_rel_bounds _ _ Hrel1) as Hb1.
  pose proof (shr_rel_bounds _ _ Hrel) as Hb. 
  assert (Hsm : shr_m (shr_record_of_loc m l) = m) by (destruct l as [|[| |]]; reflexivity).
  rewrite Hsm in Hb.
  (* x * 2^-e1 = (x * 2^-e) * 2^(e - e1) *)
  assert (Hx : (x * bpow (- e1) = x * bpow (- e) * bpow (e - e1))%R).
  { replace (- e1) with (- e + (e - e1)) by lia. rewrite bpow_plus. lra. }
  pose proof (bpow_gt_0 (e - e1)) as Hp.
  split.
  - destruct (Z.eq_dec e1 (-1074)) as [|Hne]; [left; assumption|right].
    assert (Hmpos : 0 < m).
    { destruct (Z.eq_dec m 0) as [->|]; [|lia].
      exfalso. subst e1. cbn [Zdigits2] in *. unfold fexp64 in *. lia. }
    destruct (Zdigits2_bounds m Hmpos) as [[Hlo _] Hd].
    assert (He1 : e1 = Zdigits2 m + e - 53) by (subst e1; unfold fexp64 in *; lia).
    assert (bpow 52 <= x * bpow (- e1))%R.
    { rewrite Hx. apply IZR_le in Hlo.
      rewrite <- (bpow_IZR (Zdigits2 m - 1)) in Hlo by lia.
      replace 52 with ((Zdigits2 m - 1) + (e - e1)) by lia.
      rewrite bpow_plus. nra. }
    rewrite (bpow_IZR 52) in H by lia.
    assert (IZR (2 ^ 52) < IZR (shr_m mrs1 + 1))%R by (rewrite plus_IZR; lra).
    apply lt_IZR in H0. lia.
  - assert (x * bpow (- e1) < bpow 53)%R.
    { rewrite Hx.
      assert (Hy : (x * bpow (- e) < bpow (Zdigits2 m))%R).
      { destruct (Z.eq_dec m 0) as [->|].
        - cbn [Zdigits2]. change (bpow 0) with 1%R. lra.
        - destruct (Zdigits2_bounds m ltac:(lia)) as [[_ Hhi] Hd].
          rewrite (bpow_IZR (Zdigits2 m)) by lia.
          assert (m + 1 <= 2 ^ Zdigits2 m) by lia.
          apply IZR_le in H. rewrite plus_IZR in H. lra. }
      apply Rlt_le_trans with (bpow (Zdigits2 m) * bpow (e - e1))%R; [nra|].
      rewrite <- bpow_plus. apply bpow_le. subst e1. unfold fexp64. lia. }
    rewrite (bpow_IZR 53) in H by lia.
    apply lt_IZR. lra.
Qed.

Lemma Zdigits2_le_53 (r : Z) : 0 < r < 2 ^ 53 -> Zdigits2 r <= 53.
Proof.
  intros [H0 H1]. destruct (Zdigits2_bounds r H0) as [[Hlo _] Hd].
  destruct (Z.le_gt_cases (Zdigits2 r) 53) as [|Hgt]; [assumption|].
  assert (2 ^ 53 <= 2 ^ (Zdigits2 r - 1)) by (apply Z.pow_le_mono_r; lia).
  lia.
Qed.

Lemma second_shr (r e1 : Z) :
  -1074 <= e1 -> 0 <= r <= 2 ^ 53 -> e1 = -1074 \/ 2 ^ 52 <= r ->
  exists mrs2 e2,
    shr_fexp 53 1024 r e1 loc_Exact = (mrs2, e2)
    /\ F2R (shr_m mrs2) e2 = F2R r e1
    /\ 0 <= shr_m mrs2 < 2 ^ 53
    /\ -1074 <= e2
    /\ (-1074 < e2 -> 2 ^ 52 <= shr_m mrs2)
    /\ (shr_m mrs2 = 0 <-> r = 0).
Proof.
  intros He1 [Hr0 Hr1] Hcase.
  unfold shr_fexp. rewrite fexp_eq.
  destruct (Z.eq_dec r (2 ^ 53)) as [->|Hne].
  - assert (Hd : Zdigits2 (2 ^ 53) = 54) by (vm_compute; reflexivity).
    rewrite Hd.
    replace (fexp64 (54 + e1) - e1) with 1 by (unfold fexp64; lia).
    exists (shr_1 (shr_record_of_loc (2 ^ 53) loc_Exact)), (e1 + 1).
    split; [reflexivity|].
    change (shr_m (shr_1 (shr_record_of_loc (2 ^ 53) loc_Exact))) with (2 ^ 52).
    split.
    { change (2 ^ 53) with (2 ^ 52 * 2 ^ 1). rewrite F2R_shift by lia. reflexivity. }
    split; [split; [apply Z.pow_nonneg; lia | apply Z.pow_lt_mono_r; lia]|].
    split; [lia|]. split; [lia|].
    split; intros H; vm_compute in H; discriminate.
  - assert (Hn : fexp64 (Zdigits2 r + e1) - e1 = 0).
    { destruct (Z.eq_dec r 0) as [->|Hr].
      - cbn [Zdigits2]. destruct Hcase as [->|H]; [reflexivity|].
        exfalso. assert (0 < 2 ^ 52) by (apply Z.pow_pos_nonneg; lia). lia.
      - pose proof (Zdigits2_le_53 r ltac:(lia)) as Hd.
        destruct Hcase as [->|H].
        + unfold fexp64. lia.
        + assert (Zdigits2 r = 53).
          { apply Zdigits2_unique; [lia|]. split; [exact H | lia]. }
          unfold fexp64. lia. }
    rewrite Hn. exists (shr_record_of_loc r loc_Exact), e1.
    split; [reflexivity|]. cbn [shr_record_of_loc shr_m].
    split; [reflexivity|]. split; [lia|]. split; [lia|].
    split; [|tauto].
    intros H. destruct Hcase as [->|]; [lia|assumption].
Qed.

Lemma round_nearest_even_cases (mrs : shr_record) (y : R) :
  shr_rel mrs y ->
  round_nearest_even (shr_m mrs) (loc_of_shr_record mrs) = shr_m mrs
  \/ (round_nearest_even (shr_m mrs) (loc_of_shr_record mrs) = shr_m mrs + 1
      /\ (IZR (shr_m mrs) < y)%R).
Proof.
  destruct mrs as [m [|] [|]]; unfold shr_rel;
    cbn [shr_m shr_r shr_s loc_of_shr_record round_nearest_even];
    intros [Hm H].
  - right. split; [reflexivity | lra].
  - destruct (Z.even m); [left; reflexivity|right].
    split; [reflexivity|]. lra.
  - left. reflexivity.
  - left. reflexivity.
Qed.

(** The rounding step shared by all operations: the result is built from
    a significand below [2^53] on the grid of the right binade, and no
    representable number lies strictly between it and the exact value. *)
Lemma round_aux_spec (sx : bool) (m e : Z) (l : location) (x : R) :
  0 <= m -> loc_rel m l (x * bpow (- e))%R ->
  e <= fexp64 (Zdigits2 m + e) ->
  exists m' e',
    binary_round_aux 53 1024 sx m e l = finish sx m' e'
    /\ 0 <= m' < 2 ^ 53
    /\ -1074 <= e'
    /\ (-1074 < e' -> 2 ^ 52 <= m')
    /\ (forall a, format a -> (a <= x)%R -> (a <= F2R m' e')%R)
    /\ (forall b, format b -> (x <= b)%R -> (F2R m' e' <= b)%R).
Proof.
  intros Hm Hrel He.
  destruct (first_shr m e l x Hm Hrel He) as (mrs1 & Hshr1 & Hrel1 & Hcase1 & Hlt1).
  set (e1 := fexp64 (Zdigits2 m + e)) in *.
  assert (He1 : -1074 <= e1) by (subst e1; unfold fexp64; lia).
  pose proof (shr_rel_bounds _ _ Hrel1) as Hb1.
  destruct Hrel1 as [Hm1 Hpos1].
  set (r := round_nearest_even (shr_m mrs1) (loc_of_shr_record mrs1)).
  assert (Hr : r = shr_m mrs1 \/ (r = shr_m mrs1 + 1
                                  /\ (IZR (shr_m mrs1) < x * bpow (- e1))%R)).
  { apply round_nearest_even_cases. split; assumption. }
  assert (Hr_range : 0 <= r <= 2 ^ 53) by (destruct Hr as [->|[-> _]]; lia).
  assert (Hr_case : e1 = -1074 \/ 2 ^ 52 <= r).
  { destruct Hcase1 as [|H]; [left; assumption|right].
    destruct Hr as [->|[-> _]]; lia. }
  destruct (second_shr r e1 He1 Hr_range Hr_case)
    as (mrs2 & e2 & Hshr2 & Hval & Hm2 & He2 & Hcan & Hzero).
  exists (shr_m mrs2), e2.
  split.
  { unfold binary_round_aux. rewrite Hshr1. fold r. rewrite Hshr2.
    unfold finish. reflexivity. }
  split; [exact Hm2|]. split; [exact He2|]. split; [exact Hcan|].
  rewrite Hval.
  (* the exact value lies in [m1, m1 + 1) on the grid 2^e1 *)
  remember (x * bpow (- e1))%R as y eqn:Hy.
  assert (Hxe : (x = y * bpow e1)%R).
  { subst y. rewrite Rmult_assoc, <- bpow_plus. replace (- e1 + e1) with 0 by lia.
    change (bpow 0) with 1%R. lra. }
  pose proof (bpow_gt_0 e1) as Hp.
  assert (Hx : (F2R (shr_m mrs1) e1 <= x < F2R (shr_m mrs1 + 1) e1)%R).
  { unfold F2R. rewrite plus_IZR, Hxe. nra. }
  split.
  - intros a Ha Hax.
    apply Rle_trans with (F2R (shr_m mrs1) e1).
    + apply grid_below; [assumption..|lra].
    + apply F2R_le. destruct Hr as [->|[-> _]]; lia.
  - intros b Hb Hxb.
    destruct Hr as [->|[-> Hin]]; [lra|].
    apply grid_above; [assumption..|].
    apply Rlt_le_trans with x; [|assumption].
    unfold F2R. rewrite Hxe. nra.
Qed.

(** ** Left alignment *)

Lemma iter_xO_spec (mx d : positive) :
  Zpos (Pos.iter xO mx d) = Zpos mx * 2 ^ Zpos d.
Proof.
  induction d as [|d IH] using Pos.peano_ind.
  - cbn [Pos.iter]. lia.
  - rewrite Pos.iter_succ, Pos2Z.inj_xO, IH, Pos2Z.inj_succ, Z.pow_succ_r by lia.
    lia.
Qed.

Lemma Zdigits2_shift (m k : Z) :
  0 < m -> 0 <= k -> Zdigits2 (m * 2 ^ k) = Zdigits2 m + k.
Proof.
  intros Hm Hk. destruct (Zdigits2_bounds m Hm) as [[Hlo Hhi] Hd].
  assert (Hp : 0 < 2 ^ k) by (apply Z.pow_pos_nonneg; lia).
  apply Zdigits2_unique; [nia|].
  replace (Zdigits2 m + k - 1) with ((Zdigits2 m - 1) + k) by lia.
  rewrite !Z.pow_add_r by lia. nia.
Qed.

Lemma shl_align_spec (mx : positive) (ex e' : Z) :
  exists mz ez,
    shl_align mx ex e' = (mz, ez)
    /\ ez = Z.min ex e'
    /\ Zpos mz = Zpos mx * 2 ^ (ex - ez).
Proof.
  unfold shl_align. destruct (e' - ex) as [|d|d] eqn:Hd.
  - exists mx, ex. split; [reflexivity|]. split; [lia|].
    replace (ex - ex) with 0 by lia. lia.
  - exists mx, ex. split; [reflexivity|]. split; [lia|].
    replace (ex - ex) with 0 by lia. lia.
  - exists (Pos.iter xO mx d), e'. split; [reflexivity|]. split; [lia|].
    rewrite iter_xO_spec. f_equal. f_equal. lia.
Qed.

Lemma loc_rel_exact (m e : Z) :
  0 <= m -> loc_rel m loc_Exact (F2R m e * bpow (- e))%R.
Proof.
  intros Hm. unfold loc_rel, shr_rel. cbn [shr_record_of_loc shr_m shr_r shr_s].
  split; [exact Hm|]. unfold F2R. rewrite Rmult_assoc, <- bpow_plus.
  replace (e + - e) with 0 by lia. change (bpow 0) with 1%R. lra.
Qed.

(** Rounding [mx * 2^ex]. *)
Lemma binary_round_spec (sx : bool) (mx : positive) (ex : Z) :
  exists m' e',
    binary_round 53 1024 sx mx ex = finish sx m' e'
    /\ 0 <= m' < 2 ^ 53
    /\ -1074 <= e'
    /\ (-1074 < e' -> 2 ^ 52 <= m')
    /\ (forall a, format a -> (a <= F2R (Zpos mx) ex)%R -> (a <= F2R m' e')%R)
    /\ (forall b, format b -> (F2R (Zpos mx) ex <= b)%R -> (F2R m' e' <= b)%R).
Proof.
  unfold binary_round. rewrite fexp_eq.
  change (Zpos (digits2_pos mx)) with (Zdigits2 (Zpos mx)).
  destruct (shl_align_spec mx ex (fexp64 (Zdigits2 (Zpos mx) + ex)))
    as (mz & ez & -> & Hez & Hmz).
  assert (Hval : F2R (Zpos mz) ez = F2R (Zpos mx) ex).
  { rewrite Hmz, F2R_shift by lia. f_equal. lia. }
  rewrite <- Hval.
  apply round_aux_spec; [lia | apply loc_rel_exact; lia |].
  rewrite Hmz, Zdigits2_shift by lia.
  replace (Zdigits2 (Zpos mx) + (ex - ez) + ez) with (Zdigits2 (Zpos mx) + ex) by lia.
  lia.
Qed.

(** ** Exact comparison *)

(** Exact three-way comparison of two dyadic numbers. *)
Lemma dyadic_compare_spec (m1 e1 m2 e2 : Z) :
  match dyadic_compare m1 e1 m2 e2 with
  | Lt => (F2R m1 e1 < F2R m2 e2)%R
  | Eq => F2R m1 e1 = F2R m2 e2
  | Gt => (F2R m2 e2 < F2R m1 e1)%R
  end.
Proof.
  unfold dyadic_compare. cbv zeta.
  set (e := Z.min e1 e2).
  assert (H1 : F2R m1 e1 = F2R (m1 * 2 ^ (e1 - e)) e).
  { rewrite F2R_shift by lia. f_equal. lia. }
  assert (H2 : F2R m2 e2 = F2R (m2 * 2 ^ (e2 - e)) e).
  { rewrite F2R_shift by lia. f_equal. lia. }
  rewrite H1, H2. pose proof (bpow_gt_0 e) as Hp. unfold F2R.
  destruct (Z.compare_spec (m1 * 2 ^ (e1 - e)) (m2 * 2 ^ (e2 - e))) as [H|H|H].
  - rewrite H. reflexivity.
  - apply IZR_lt in H. nra.
  - apply IZR_lt in H. nra.
Qed.

Lemma dyadic_le_iff (m1 e1 m2 e2 : Z) :
  (F2R m1 e1 <= F2R m2 e2)%R <->
  (dyadic_compare m1 e1 m2 e2 = Lt \/ dyadic_compare m1 e1 m2 e2 = Eq).
Proof.
  pose proof (dyadic_compare_spec m1 e1 m2 e2) as H.
  destruct (dyadic_compare m1 e1 m2 e2); split; intros H'.
  - right; reflexivity.
  - lra.
  - left; reflexivity.
  - lra.
  - lra.
  - destruct H'; discriminate.
Qed.

Lemma py_le_xle (a b : pynum) : py_le a b = xle (xnum_of a) (xnum_of b).
Proof. reflexivity. Qed.

Lemma xle_fin (m1 e1 m2 e2 : Z) :
  xle (XFin m1 e1) (XFin m2 e2) = true <-> (F2R m1 e1 <= F2R m2 e2)%R.
Proof.
  unfold xle. cbn [xnum_compare]. rewrite dyadic_le_iff.
  destruct (dyadic_compare m1 e1 m2 e2); split; intros H;
    try reflexivity; try discriminate; try (destruct H; discriminate); auto.
Qed.

Lemma F2R_0 (e : Z) : F2R 0 e = 0%R.
Proof. unfold F2R. lra. Qed.

Lemma F2R_opp (m e : Z) : F2R (- m) e = (- F2R m e)%R.
Proof. unfold F2R. rewrite opp_IZR. lra. Qed.

Lemma F2R_pos (m : positive) (e : Z) : (0 < F2R (Zpos m) e)%R.
Proof.
  unfold F2R. pose proof (bpow_gt_0 e).
  assert (0 < IZR (Zpos m))%R by (apply IZR_lt; lia). nra.
Qed.

Lemma F2R_add (m1 m2 e : Z) : F2R (m1 + m2) e = (F2R m1 e + F2R m2 e)%R.
Proof. unfold F2R. rewrite plus_IZR. lra. Qed.

Lemma format_F2R (m e : Z) :
  Z.abs m < 2 ^ 53 -> -1074 <= e -> format (F2R m e).
Proof. intros Hm He. exists m, e. auto. Qed.

(** ** The float built from a rounded significand *)

Lemma finish_cases (sx : bool) (m' e' : Z) :
  0 <= m' ->
  (m' = 0 /\ finish sx m' e' = S754_zero sx)
  \/ (exists p, m' = Zpos p /\ e' <= 971 /\ finish sx m' e' = S754_finite sx p e')
  \/ (0 < m' /\ 971 < e' /\ finish sx m' e' = S754_infinity sx).
Proof.
  intros Hm. destruct m' as [|p|p]; [left; auto| |lia].
  right. unfold finish. destruct (Z.leb_spec e' 971).
  - left. exists p. auto.
  - right. split; [lia|]. auto.
Qed.

Lemma finish_valid (sx : bool) (m' e' : Z) :
  0 <= m' < 2 ^ 53 -> -1074 <= e' -> valid_float (finish sx m' e').
Proof.
  intros [H0 H1] He.
  destruct (finish_cases sx m' e' H0) as [[_ ->]|[(p & -> & Hle & ->)|(_ & _ & ->)]];
    cbn; auto.
Qed.

(** A significand of at least [2^52] with an exponent above 971 is at
    least [2^1024], beyond every valid float. *)
Lemma overflow_large (m' e' : Z) :
  2 ^ 52 <= m' -> 971 < e' -> (bpow 1024 <= F2R m' e')%R.
Proof.
  intros Hm He. apply Rle_trans with (F2R (2 ^ 52) e').
  - rewrite F2R_bpow by lia. apply bpow_le. lia.
  - apply F2R_le. exact Hm.
Qed.

Lemma valid_small (m : positive) (e : Z) :
  Zpos m < 2 ^ 53 -> e <= 971 -> (F2R (Zpos m) e < bpow 1024)%R.
Proof.
  intros Hm He. apply Rlt_le_trans with (F2R (2 ^ 53) e).
  - unfold F2R. pose proof (bpow_gt_0 e). apply IZR_lt in Hm. nra.
  - rewrite F2R_bpow by lia. apply bpow_le. lia.
Qed.

Lemma cond_Zopp_signed (s : bool) (m : positive) :
  cond_Zopp s (Zpos m) = signed s m.
Proof. destruct s; reflexivity. Qed.

(** ** Addition *)

Lemma add_finite_unfold (sa sb : bool) (ma mb : positive) (ea eb : Z) :
  exists Ma Mb ez,
    B64.add (S754_finite sa ma ea) (S754_finite sb mb eb)
    = binary_normalize 53 1024 (Ma + Mb) ez false
    /\ F2R Ma ez = F2R (signed sa ma) ea
    /\ F2R Mb ez = F2R (signed sb mb) eb.
Proof.
  unfold B64.add, SFadd.
  set (ez := Z.min ea eb).
  destruct (shl_align_spec ma ea ez) as (mza & eza & Ha & Heza & Hmza).
  destruct (shl_align_spec mb eb ez) as (mzb & ezb & Hb & Hezb & Hmzb).
  rewrite Ha, Hb. cbn [fst].
  exists (cond_Zopp sa (Zpos mza)), (cond_Zopp sb (Zpos mzb)), ez.
  split; [reflexivity|].
  assert (eza = ez) by lia. assert (ezb = ez) by lia. subst eza ezb.
  split.
  - destruct sa; cbn [cond_Zopp signed].
    + change (Zneg ma) with (- Zpos ma). rewrite !F2R_opp. f_equal.
      rewrite Hmza, F2R_shift by lia. f_equal. lia.
    + rewrite Hmza, F2R_shift by lia. f_equal. lia.
  - destruct sb; cbn [cond_Zopp signed].
    + change (Zneg mb) with (- Zpos mb). rewrite !F2R_opp. f_equal.
      rewrite Hmzb, F2R_shift by lia. f_equal. lia.
    + rewrite Hmzb, F2R_shift by lia. f_equal. lia.
Qed.

(** Adding a non-negative float never goes below the first operand. *)
Lemma add_nonneg_ge (a b : float) :
  valid_float a -> above_neg_inf a -> valid_float b -> nonneg_float b ->
  py_le (PFloat a) (PFloat (B64.add a b)) = true
  /\ valid_float (B64.add a b)
  /\ above_neg_inf (B64.add a b).
Proof.
  intros Va Na Vb Nb. rewrite py_le_xle.
  destruct a as [sa|[|]| |sa ma ea]; try contradiction;
    destruct b as [sb|[|]| |[|] mb eb]; try contradiction.
  - (* zero + zero *)
    destruct sa, sb; cbn; auto.
  - destruct sa; cbn; auto.
  - cbn [B64.add SFadd xnum_of xnum_of_float]. split; [|auto].
    apply xle_fin. rewrite F2R_0. left. apply F2R_pos.
  - cbn; auto.
  - cbn; auto.
  - cbn; auto.
  - (* finite + zero *)
    cbn [B64.add SFadd xnum_of xnum_of_float]. split; [|split; [exact Va|exact I]].
    apply xle_fin. lra.
  - cbn [B64.add SFadd xnum_of xnum_of_float]. split; [|auto].
    destruct sa; reflexivity.
  - (* finite + positive finite *)
    destruct (add_finite_unfold sa false ma mb ea eb) as (Ma & Mb & ez & -> & HMa & HMb).
    cbn [signed] in HMb. cbn [xnum_of xnum_of_float].
    change (if sa then Zneg ma else Zpos ma) with (signed sa ma).
    pose proof (F2R_pos mb eb) as Hbpos.
    destruct Va as [Vm Ve].
    assert (Hsum : F2R (Ma + Mb) ez = (F2R (signed sa ma) ea + F2R (Zpos mb) eb)%R).
    { rewrite F2R_add, HMa, HMb. reflexivity. }
    destruct (Ma + Mb) as [|p|p] eqn:Hz; cbn [binary_normalize].
    + (* the sum is zero *)
      split; [|cbn; auto]. cbn [xnum_of_float]. apply xle_fin.
      rewrite F2R_0 in *. lra.
    + destruct (binary_round_spec false p ez)
        as (m' & e' & -> & Hm' & He' & Hcan & Hlow & Hup).
      split; [|split; [apply finish_valid; assumption|]].
      * assert (Hge : (F2R (signed sa ma) ea <= F2R m' e')%R).
        { apply Hlow; [|lra]. apply format_F2R; [|lia].
          destruct sa; cbn [signed]; lia. }
        destruct (finish_cases false m' e' (proj1 Hm'))
          as [[-> ->]|[(q & -> & _ & ->)|(_ & _ & ->)]]; cbn [xnum_of_float].
        -- apply xle_fin. rewrite F2R_0 in *. lra.
        -- apply xle_fin. exact Hge.
        -- reflexivity.
      * destruct (finish_cases false m' e' (proj1 Hm'))
          as [[_ ->]|[(q & _ & _ & ->)|(_ & _ & ->)]]; exact I.
    + (* the sum is negative: so is [a] *)
      assert (Hsa : sa = true).
      { destruct sa; [reflexivity|]. exfalso. cbn [signed] in Hsum.
        pose proof (F2R_pos ma ea). pose proof (F2R_pos p ez).
        change (Zneg p) with (- Zpos p) in Hsum. rewrite F2R_opp in Hsum. lra. }
      subst sa. cbn [signed] in *.
      change (Zneg p) with (- Zpos p) in Hsum. rewrite F2R_opp in Hsum.
      change (Zneg ma) with (- Zpos ma) in Hsum. rewrite F2R_opp in Hsum.
      destruct (binary_round_spec true p ez)
        as (m' & e' & -> & Hm' & He' & Hcan & Hlow & Hup).
      assert (Hle : (F2R m' e' <= F2R (Zpos ma) ea)%R).
      { apply Hup; [|lra]. apply format_F2R; lia. }
      destruct (finish_cases true m' e' (proj1 Hm'))
        as [[-> E]|[(q & -> & Hq & E)|(Hpos & Hbig & E)]]; rewrite E.
      * split; [|cbn; auto]. cbn [xnum_of_float]. apply xle_fin.
        change (Zneg ma) with (- Zpos ma). rewrite F2R_opp, F2R_0.
        pose proof (F2R_pos ma ea). lra.
      * split; [|split; [cbn; lia|exact I]]. cbn [xnum_of_float]. apply xle_fin.
        change (Zneg ma) with (- Zpos ma). change (Zneg q) with (- Zpos q).
        rewrite !F2R_opp. lra.
      * exfalso.
        pose proof (overflow_large m' e' (Hcan ltac:(lia)) Hbig).
        pose proof (valid_small ma ea Vm ltac:(lia)). lra.
Qed.

(** ** Division *)

Lemma Zdigits2_lower (q k : Z) : 2 ^ (k - 1) <= q -> 1 <= k -> k <= Zdigits2 q.
Proof.
  intros Hq Hk.
  assert (0 < 2 ^ (k - 1)) by (apply Z.pow_pos_nonneg; lia).
  destruct (Zdigits2_bounds q ltac:(lia)) as [[_ Hhi] Hd].
  destruct (Z.le_gt_cases k (Zdigits2 q)) as [|Hgt]; [assumption|].
  assert (2 ^ Zdigits2 q <= 2 ^ (k - 1)) by (apply Z.pow_le_mono_r; lia).
  lia.
Qed.

Lemma new_location_rel (q m2 r : Z) :
  0 <= q -> 0 < m2 -> 0 <= r < m2 ->
  loc_rel q (new_location m2 r) (IZR q + IZR r / IZR m2)%R.
Proof.
  intros Hq Hm2 [Hr0 Hr1].
  assert (HM : (0 < IZR m2)%R) by (apply IZR_lt; lia).
  set (t := (IZR r / IZR m2)%R).
  assert (Ht : (t * IZR m2 = IZR r)%R) by (unfold t; field; lra).
  assert (Hcmp : forall c, (2 * r ?= m2) = c ->
            match c with
            | Lt => (t < / 2)%R | Eq => t = (/ 2)%R | Gt => (/ 2 < t)%R
            end).
  { intros c <-. destruct (Z.compare_spec (2 * r) m2) as [H|H|H].
    - apply (f_equal IZR) in H. rewrite mult_IZR in H. nra.
    - apply IZR_lt in H. rewrite mult_IZR in H. nra.
    - apply IZR_lt in H. rewrite mult_IZR in H. nra. }
  assert (Ht0 : r <> 0 -> (0 < t)%R).
  { intros Hr. assert (0 < IZR r)%R by (apply IZR_lt; lia). nra. }
  assert (Ht1 : (t < 1)%R).
  { apply IZR_lt in Hr1. nra. }
  unfold loc_rel, shr_rel, new_location.
  destruct (Z.even m2) eqn:Hev.
  - unfold new_location_even. destruct (Z.eqb_spec r 0) as [->|Hr].
    + cbn. split; [exact Hq|]. unfold t. lra.
    + specialize (Ht0 Hr). specialize (Hcmp _ eq_refl).
      destruct (2 * r ?= m2); cbn; (split; [exact Hq|]); lra.
  - unfold new_location_odd. destruct (Z.eqb_spec r 0) as [->|Hr].
    + cbn. split; [exact Hq|]. unfold t. lra.
    + specialize (Ht0 Hr).
      assert (Hodd : Z.odd m2 = true) by (rewrite <- Z.negb_even, Hev; reflexivity).
      apply Z.odd_spec in Hodd. destruct Hodd as [k Hk].
      destruct (Z.compare_spec (2 * r + 1) m2) as [H|H|H];
        cbn; (split; [exact Hq|]).
      * assert (Hc := Hcmp Lt). rewrite (proj2 (Z.compare_lt_iff _ _)) in Hc by lia.
        specialize (Hc eq_refl). cbn in Hc. lra.
      * assert (Hc := Hcmp Lt). rewrite (proj2 (Z.compare_lt_iff _ _)) in Hc by lia.
        specialize (Hc eq_refl). cbn in Hc. lra.
      * assert (Hc := Hcmp Gt). rewrite (proj2 (Z.compare_gt_iff _ _)) in Hc by lia.
        specialize (Hc eq_refl). cbn in Hc. lra.
Qed.

Lemma div_core_spec (m1 m2 : positive) (e1 e2 : Z) :
  exists q e' l,
    SFdiv_core_binary 53 1024 (Zpos m1) e1 (Zpos m2) e2 = (q, e', l)
    /\ 0 <= q
    /\ loc_rel q l (F2R (Zpos m1) e1 / F2R (Zpos m2) e2 * bpow (- e'))%R
    /\ e' <= fexp64 (Zdigits2 q + e').
Proof.
  unfold SFdiv_core_binary. rewrite fexp_eq.
  set (d1 := Zdigits2 (Zpos m1)). set (d2 := Zdigits2 (Zpos m2)).
  set (e' := Z.min (fexp64 (d1 + e1 - (d2 + e2))) (e1 - e2)).
  set (s := e1 - e2 - e').
  assert (Hs : 0 <= s) by (subst s e'; lia).
  set (m' := match s with Zpos _ => Z.shiftl (Zpos m1) s | 0 => Zpos m1 | Zneg _ => 0 end).
  assert (Hm' : m' = Zpos m1 * 2 ^ s).
  { subst m'. destruct s as [|p|p]; [lia| |lia].
    apply Z.shiftl_mul_pow2. lia. }
  pose proof (Z_div_mod m' (Zpos m2) ltac:(lia)) as Hdiv.
  destruct (Z.div_eucl m' (Zpos m2)) as [q r] eqn:Hqr.
  destruct Hdiv as [Heq Hr].
  assert (Hp : 0 < 2 ^ s) by (apply Z.pow_pos_nonneg; lia).
  assert (Hq : 0 <= q) by nia.
  exists q, e', (new_location (Zpos m2) r).
  split; [reflexivity|]. split; [exact Hq|]. split.
  - replace (F2R (Zpos m1) e1 / F2R (Zpos m2) e2 * bpow (- e'))%R
      with (IZR q + IZR r / IZR (Zpos m2))%R.
    + apply new_location_rel; [exact Hq | lia | exact Hr].
    + unfold F2R.
      assert (HM2 : (0 < IZR (Zpos m2))%R) by (apply IZR_lt; lia).
      assert (He1 : bpow e1 = (bpow s * bpow e2 * bpow e')%R).
      { rewrite <- !bpow_plus. f_equal. subst s. lia. }
      assert (Hinv : (bpow e' * bpow (- e') = 1)%R).
      { rewrite <- bpow_plus. replace (e' + - e') with 0 by lia. reflexivity. }
      assert (HZ : (IZR (Zpos m1) * bpow s = IZR (Zpos m2) * IZR q + IZR r)%R).
      { rewrite (bpow_IZR s Hs), <- mult_IZR, <- Hm', Heq, plus_IZR, mult_IZR.
        reflexivity. }
      pose proof (bpow_gt_0 e2) as Hb2.
      rewrite He1.
      replace (IZR (Zpos m1) * (bpow s * bpow e2 * bpow e') / (IZR (Zpos m2) * bpow e2) * bpow (- e'))%R
        with ((IZR (Zpos m1) * bpow s) / IZR (Zpos m2) * (bpow e' * bpow (- e')))%R
        by (field; lra).
      rewrite Hinv, HZ. field. lra.
  - set (K := d1 + s - d2).
    destruct (Z.le_gt_cases 1 K) as [HK|HK].
    + assert (Hq' : 2 ^ (K - 1) <= q).
      { destruct (Zdigits2_bounds (Zpos m1) ltac:(lia)) as [[Hlo1 _] Hd1].
        destruct (Zdigits2_bounds (Zpos m2) ltac:(lia)) as [[_ Hhi2] Hd2].
        fold d1 in Hlo1, Hd1. fold d2 in Hhi2, Hd2.
        assert (Hpow : 2 ^ (d1 - 1) * 2 ^ s = 2 ^ (K - 1) * 2 ^ d2).
        { rewrite <- !Z.pow_add_r by lia. f_equal. subst K. lia. }
        assert (0 < 2 ^ (K - 1)) by (apply Z.pow_pos_nonneg; lia).
        assert (2 ^ (K - 1) * Zpos m2 <= m') by nia.
        destruct (Z.le_gt_cases (2 ^ (K - 1)) q) as [|Hlt]; [assumption|].
        exfalso. nia. }
      pose proof (Zdigits2_lower q K Hq' HK).
      subst K s e'. unfold fexp64 in *. lia.
    + subst K s e'. unfold fexp64 in *. lia.
Qed.

(** The quotient of two finite floats. *)
Lemma div_finite_spec (sx sy : bool) (mx my : positive) (ex ey : Z) :
  exists m' e',
    B64.div (S754_finite sx mx ex) (S754_finite sy my ey)
    = finish (xorb sx sy) m' e'
    /\ 0 <= m' < 2 ^ 53
    /\ -1074 <= e'
    /\ (-1074 < e' -> 2 ^ 52 <= m')
    /\ (forall a, format a ->
          (a <= F2R (Zpos mx) ex / F2R (Zpos my) ey)%R -> (a <= F2R m' e')%R)
    /\ (forall b, format b ->
          (F2R (Zpos mx) ex / F2R (Zpos my) ey <= b)%R -> (F2R m' e' <= b)%R).
Proof.
  unfold B64.div, B64.prec, B64.emax, SFdiv.
  destruct (div_core_spec mx my ex ey) as (q & e' & l & -> & Hq & Hrel & Hpre).
  apply round_aux_spec; assumption.
Qed.

(** ** Conversion of ints *)

Lemma F2R_exp0 (m : Z) : F2R m 0 = IZR m.
Proof. unfold F2R. change (bpow 0) with 1%R. lra. Qed.

Lemma format_bpow (k : Z) : -1074 <= k -> format (bpow k).
Proof.
  intros Hk. exists 1, k. split; [unfold F2R; lra|]. split; [|lia].
  cbn. lia.
Qed.

Lemma format_IZR (z : Z) : Z.abs z <= 2 ^ 53 -> format (IZR z).
Proof.
  intros Hz. destruct (Z.eq_dec (Z.abs z) (2 ^ 53)) as [E|NE].
  - exists (z / 2), 1. split; [|split; [|lia]].
    + unfold F2R. change (bpow 1) with (2 * 1)%R.
      assert (z = 2 * (z / 2)).
      { change (2 ^ 53) with 9007199254740992 in E.
        destruct (Z.abs_spec z) as [[_ H]|[_ H]]; rewrite H in E.
        - subst z. reflexivity.
        - assert (z = - 9007199254740992) by lia. subst z. reflexivity. }
      rewrite H at 1. rewrite mult_IZR. lra.
    + change (2 ^ 53) with 9007199254740992 in *.
      destruct (Z.abs_spec z) as [[_ H]|[_ H]]; rewrite H in E.
      * subst z. cbn. lia.
      * assert (z = - 9007199254740992) by lia. subst z. cbn. lia.
  - exists z, 0. split; [symmetry; apply F2R_exp0|]. split; lia.
Qed.

(** The float nearest to a positive integer. *)
Lemma of_Z_pos_spec (p : positive) :
  exists m' e',
    B64.of_Z (Zpos p) = finish false m' e'
    /\ 0 <= m' < 2 ^ 53 /\ -1074 <= e' /\ (-1074 < e' -> 2 ^ 52 <= m')
    /\ (forall a, format a -> (a <= IZR (Zpos p))%R -> (a <= F2R m' e')%R)
    /\ (forall b, format b -> (IZR (Zpos p) <= b)%R -> (F2R m' e' <= b)%R).
Proof.
  rewrite <- (F2R_exp0 (Zpos p)). apply (binary_round_spec false p 0).
Qed.

Lemma of_Z_neg_spec (p : positive) :
  exists m' e',
    B64.of_Z (Zneg p) = finish true m' e'
    /\ 0 <= m' < 2 ^ 53 /\ -1074 <= e' /\ (-1074 < e' -> 2 ^ 52 <= m')
    /\ (forall a, format a -> (a <= IZR (Zpos p))%R -> (a <= F2R m' e')%R)
    /\ (forall b, format b -> (IZR (Zpos p) <= b)%R -> (F2R m' e' <= b)%R).
Proof.
  rewrite <- (F2R_exp0 (Zpos p)). apply (binary_round_spec true p 0).
Qed.

Lemma finish_not_infinite (sx : bool) (m' e' : Z) :
  0 <= m' -> (-1074 < e' -> 2 ^ 52 <= m') -> (F2R m' e' < bpow 1024)%R ->
  B64.is_infinite (finish sx m' e') = false.
Proof.
  intros Hm Hcan Hlt.
  destruct (finish_cases sx m' e' Hm) as [[_ ->]|[(p & _ & _ & ->)|(Hpos & Hbig & _)]];
    [reflexivity..|].
  exfalso. pose proof (overflow_large m' e' (Hcan ltac:(lia)) Hbig). lra.
Qed.

Lemma finish_not_zero (sx : bool) (m' e' : Z) :
  0 <= m' -> (0 < F2R m' e')%R -> B64.is_zero (finish sx m' e') = false.
Proof.
  intros Hm Hpos.
  destruct (finish_cases sx m' e' Hm) as [[-> _]|[(p & _ & _ & ->)|(_ & _ & ->)]];
    [|reflexivity..].
  rewrite F2R_0 in Hpos. lra.
Qed.

(** [float()] accepts every int of magnitude up to [2^1023]. *)
Lemma of_Z_convertible (z : Z) : Z.abs z <= 2 ^ 1023 -> convertible z.
Proof.
  intros Hz. unfold convertible.
  assert (Hb : forall p, Zpos p <= 2 ^ 1023 -> (IZR (Zpos p) <= bpow 1023)%R).
  { intros p Hp. rewrite (bpow_IZR 1023) by lia. apply IZR_le. exact Hp. }
  assert (Hlt : (bpow 1023 < bpow 1024)%R) by (apply bpow_lt; lia).
  destruct z as [|p|p].
  - reflexivity.
  - destruct (of_Z_pos_spec p) as (m' & e' & -> & Hm' & He' & Hcan & _ & Hup).
    apply finish_not_infinite; [lia | exact Hcan |].
    specialize (Hup (bpow 1023) (format_bpow 1023 ltac:(lia)) (Hb p ltac:(lia))).
    lra.
  - destruct (of_Z_neg_spec p) as (m' & e' & -> & Hm' & He' & Hcan & _ & Hup).
    apply finish_not_infinite; [lia | exact Hcan |].
    specialize (Hup (bpow 1023) (format_bpow 1023 ltac:(lia)) (Hb p ltac:(lia))).
    lra.
Qed.

Lemma float_of_int_ok (z : Z) :
  Z.abs z <= 2 ^ 1023 -> float_of_int z = Ok (B64.of_Z z).
Proof.
  intros Hz. unfold float_of_int.
  rewrite (of_Z_convertible z Hz). reflexivity.
Qed.

(** A non-zero int never converts to a zero. *)
Lemma of_Z_not_zero (z : Z) : z <> 0 -> B64.is_zero (B64.of_Z z) = false.
Proof.
  intros Hz.
  assert (H1 : format 1%R).
  { change 1%R with (bpow 0). apply format_bpow. lia. }
  assert (Hp : forall p, (1 <= IZR (Zpos p))%R) by (intros p; apply IZR_le; lia).
  destruct z as [|p|p]; [contradiction| |].
  - destruct (of_Z_pos_spec p) as (m' & e' & -> & Hm' & _ & _ & Hlow & _).
    apply finish_not_zero; [lia|]. specialize (Hlow 1%R H1 (Hp p)). lra.
  - destruct (of_Z_neg_spec p) as (m' & e' & -> & Hm' & _ & _ & Hlow & _).
    apply finish_not_zero; [lia|]. specialize (Hlow 1%R H1 (Hp p)). lra.
Qed.

Lemma of_Z_valid (z : Z) : valid_float (B64.of_Z z).
Proof.
  destruct z as [|p|p]; [exact I| |].
  - destruct (of_Z_pos_spec p) as (m' & e' & -> & Hm' & He' & _).
    apply finish_valid; assumption.
  - destruct (of_Z_neg_spec p) as (m' & e' & -> & Hm' & He' & _).
    apply finish_valid; assumption.
Qed.

Lemma finish_nonneg (m' e' : Z) : 0 <= m' -> nonneg_float (finish false m' e').
Proof.
  intros Hm.
  destruct (finish_cases false m' e' Hm) as [[_ ->]|[(p & _ & _ & ->)|(_ & _ & ->)]];
    exact I.
Qed.

Lemma of_Z_nonneg (z : Z) : 0 <= z -> nonneg_float (B64.of_Z z).
Proof.
  intros Hz. destruct z as [|p|p]; [exact I| |lia].
  destruct (of_Z_pos_spec p) as (m' & e' & -> & Hm' & _).
  apply finish_nonneg. lia.
Qed.

(** Comparison sees only the value of a finite number. *)
Lemma dyadic_compare_ext (m1 e1 m2 e2 m3 e3 : Z) :
  F2R m1 e1 = F2R m2 e2 ->
  dyadic_compare m1 e1 m3 e3 = dyadic_compare m2 e2 m3 e3.
Proof.
  intros H.
  pose proof (dyadic_compare_spec m1 e1 m3 e3) as H1.
  pose proof (dyadic_compare_spec m2 e2 m3 e3) as H2.
  destruct (dyadic_compare m1 e1 m3 e3), (dyadic_compare m2 e2 m3 e3);
    try reflexivity; exfalso; lra.
Qed.

Lemma xle_ext (m1 e1 m2 e2 : Z) (y : xnum) :
  F2R m1 e1 = F2R m2 e2 -> xle (XFin m1 e1) y = xle (XFin m2 e2) y.
Proof.
  intros H. unfold xle. destruct y as [|s|m3 e3]; cbn [xnum_compare];
    [reflexivity..|].
  rewrite (dyadic_compare_ext m1 e1 m2 e2 m3 e3 H). reflexivity.
Qed.

(** An int of magnitude up to [2^53] converts exactly. *)
Lemma of_Z_exact (z : Z) :
  Z.abs z <= 2 ^ 53 ->
  exists m e, xnum_of_float (B64.of_Z z) = XFin m e /\ F2R m e = IZR z.
Proof.
  intros Hz. pose proof (format_IZR z Hz) as Hf.
  destruct z as [|p|p].
  - exists 0, 0. split; [reflexivity|]. apply F2R_0.
  - destruct (of_Z_pos_spec p) as (m' & e' & E & Hm' & He' & Hcan & Hlow & Hup).
    assert (Hv : F2R m' e' = IZR (Zpos p)).
    { apply Rle_antisym; [apply Hup | apply Hlow]; auto; lra. }
    rewrite E.
    destruct (finish_cases false m' e' (proj1 Hm'))
      as [[-> ->]|[(q & -> & _ & ->)|(Hpos & Hbig & _)]].
    + exists 0, 0. split; [reflexivity|]. rewrite F2R_0 in *. lra.
    + exists (Zpos q), e'. split; [reflexivity|exact Hv].
    + exfalso. pose proof (overflow_large m' e' (Hcan ltac:(lia)) Hbig).
      assert (IZR (Zpos p) <= bpow 53)%R.
      { rewrite (bpow_IZR 53) by lia. apply IZR_le. lia. }
      assert (bpow 53 < bpow 1024)%R by (apply bpow_lt; lia). lra.
  - assert (Hf' : format (IZR (Zpos p))).
    { change (Zneg p) with (- Zpos p) in Hf. apply format_IZR. lia. }
    destruct (of_Z_neg_spec p) as (m' & e' & E & Hm' & He' & Hcan & Hlow & Hup).
    assert (Hv : F2R m' e' = IZR (Zpos p)).
    { apply Rle_antisym; [apply Hup | apply Hlow]; auto; lra. }
    rewrite E.
    destruct (finish_cases true m' e' (proj1 Hm'))
      as [[-> ->]|[(q & -> & _ & ->)|(Hpos & Hbig & _)]].
    + exists 0, 0. split; [reflexivity|]. rewrite F2R_0 in *.
      assert (0 < IZR (Zpos p))%R by (apply IZR_lt; lia). lra.
    + exists (Zneg q), e'. split; [reflexivity|].
      change (Zneg q) with (- Zpos q). change (Zneg p) with (- Zpos p).
      rewrite F2R_opp, opp_IZR, Hv. reflexivity.
    + exfalso. pose proof (overflow_large m' e' (Hcan ltac:(lia)) Hbig).
      assert (IZR (Zpos p) <= bpow 53)%R.
      { rewrite (bpow_IZR 53) by lia. apply IZR_le. lia. }
      assert (bpow 53 < bpow 1024)%R by (apply bpow_lt; lia). lra.
Qed.

(** ** Comparisons of Python numbers *)

Lemma py_le_int_float (z : Z) (f : float) :
  Z.abs z <= 2 ^ 53 ->
  py_le (PInt z) (PFloat f) = py_le (PFloat (B64.of_Z z)) (PFloat f).
Proof.
  intros Hz. rewrite !py_le_xle. cbn [xnum_of].
  destruct (of_Z_exact z Hz) as (m & e & -> & Hv).
  apply xle_ext. rewrite Hv. apply F2R_exp0.
Qed.

Lemma py_le_int (a b : Z) : py_le (PInt a) (PInt b) = (a <=? b).
Proof.
  unfold py_le, py_compare. cbn [xnum_of xnum_compare]. unfold dyadic_compare.
  cbn [Z.min Z.compare Z.sub Z.opp Z.add Z.pow]. change (2 ^ 0) with 1.
  rewrite !Z.mul_1_r. destruct (Z.compare_spec a b); destruct (Z.leb_spec a b);
    try reflexivity; lia.
Qed.

Lemma py_lt_int (a b : Z) : py_lt (PInt a) (PInt b) = (a <? b).
Proof.
  unfold py_lt, py_compare. cbn [xnum_of xnum_compare]. unfold dyadic_compare.
  cbn [Z.min Z.compare Z.sub Z.opp Z.add Z.pow]. change (2 ^ 0) with 1.
  rewrite !Z.mul_1_r. destruct (Z.compare_spec a b); destruct (Z.ltb_spec a b);
    try reflexivity; lia.
Qed.

Lemma py_eq_int (a b : Z) : py_eq (PInt a) (PInt b) = (a =? b).
Proof.
  unfold py_eq, py_compare. cbn [xnum_of xnum_compare]. unfold dyadic_compare.
  cbn [Z.min Z.compare Z.sub Z.opp Z.add Z.pow]. change (2 ^ 0) with 1.
  rewrite !Z.mul_1_r. destruct (Z.compare_spec a b); destruct (Z.eqb_spec a b);
    try reflexivity; lia.
Qed.

Lemma py_gt_zero_float (f : float) :
  py_gt (PFloat f) (PInt 0) = true -> positive_float f.
Proof.
  unfold py_gt, py_lt, py_compare. cbn [xnum_of].
  destruct f as [s|s| |s m e]; cbn [xnum_of_float xnum_compare positive_float].
  - cbn. discriminate.
  - destruct s; [discriminate|auto].
  - discriminate.
  - pose proof (dyadic_compare_spec 0 0 (if s then Zneg m else Zpos m) e) as H.
    destruct (dyadic_compare 0 0 (if s then Zneg m else Zpos m) e);
      try discriminate.
    intros _. destruct s; [|exact I]. exfalso.
    change (Zneg m) with (- Zpos m) in H. rewrite F2R_opp, F2R_0 in H.
    pose proof (F2R_pos m e). lra.
Qed.

Lemma positive_not_zero (f : float) : positive_float f -> B64.is_zero f = false.
Proof. destruct f as [s|s| |[|] m e]; cbn; intros H; try contradiction; reflexivity. Qed.

Lemma py_gt_zero_not_eq (s : pynum) :
  py_gt s (PInt 0) = true -> py_eq s (PInt 0) = false.
Proof.
  destruct s as [k|f]; intros H.
  - unfold py_gt in H. rewrite py_lt_int in H. rewrite py_eq_int.
    apply Z.ltb_lt in H. apply Z.eqb_neq. lia.
  - apply py_gt_zero_float in H.
    destruct f as [s|[|]| |[|] m e]; try contradiction.
    + reflexivity.
    + unfold py_eq, py_compare. cbn [xnum_of xnum_of_float xnum_compare].
      pose proof (dyadic_compare_spec (Zpos m) e 0 0) as Hc.
      destruct (dyadic_compare (Zpos m) e 0 0); try reflexivity.
      exfalso. rewrite F2R_0 in Hc. pose proof (F2R_pos m e). lra.
Qed.

Lemma of_Z_above_neg_inf (z : Z) :
  convertible z -> above_neg_inf (B64.of_Z z).
Proof.
  unfold convertible. intros H. destruct z as [|p|p]; [exact I| |].
  - destruct (of_Z_pos_spec p) as (m' & e' & E & Hm' & _). rewrite E in *.
    destruct (finish_cases false m' e' (proj1 Hm'))
      as [[_ E']|[(q & _ & _ & E')|(_ & _ & E')]]; rewrite E' in *;
      try exact I; discriminate.
  - destruct (of_Z_neg_spec p) as (m' & e' & E & Hm' & _). rewrite E in *.
    destruct (finish_cases true m' e' (proj1 Hm'))
      as [[_ E']|[(q & _ & _ & E')|(_ & _ & E')]]; rewrite E' in *;
      try exact I; discriminate.
Qed.

Lemma pow53_le_pow1023 : 2 ^ 53 <= 2 ^ 1023.
Proof. apply Z.pow_le_mono_r; lia. Qed.

(** ** Sums and quotients of the Intron Scaler *)

(** Adding a non-negative float to a link of the chain. *)
Lemma py_add_nonneg (x : pynum) (q : float) :
  chain_ok x -> valid_float q -> nonneg_float q ->
  exists r, py_add x (PFloat q) = Ok (PFloat r)
            /\ py_le x (PFloat r) = true
            /\ valid_float r /\ above_neg_inf r.
Proof.
  intros Hx Vq Nq. destruct x as [z|f]; cbn [chain_ok] in Hx.
  - pose proof pow53_le_pow1023 as Hp.
    unfold py_add, to_float. rewrite (float_of_int_ok z) by lia. cbn [bind].
    destruct (add_nonneg_ge (B64.of_Z z) q (of_Z_valid z)
                (of_Z_above_neg_inf z (of_Z_convertible z ltac:(lia))) Vq Nq)
      as (Hle & Hv & Hn).
    eexists. split; [reflexivity|]. split; [|split; assumption].
    rewrite py_le_int_float by exact Hx. exact Hle.
  - destruct Hx as [Vf Nf].
    destruct (add_nonneg_ge f q Vf Nf Vq Nq) as (Hle & Hv & Hn).
    eexists. split; [reflexivity|]. auto.
Qed.

Lemma py_add_length (l : float) (len : Z) :
  valid_float l -> above_neg_inf l -> 0 <= len <= 2 ^ 1023 ->
  exists r, py_add (PFloat l) (PInt len) = Ok (PFloat r)
            /\ py_le (PFloat l) (PFloat r) = true
            /\ valid_float r /\ above_neg_inf r.
Proof.
  intros Vl Nl Hlen. unfold py_add, to_float. cbn [bind].
  rewrite (float_of_int_ok len) by lia. cbn [bind].
  destruct (add_nonneg_ge l (B64.of_Z len) Vl Nl (of_Z_valid len)
              (of_Z_nonneg len ltac:(lia))) as (Hle & Hv & Hn).
  eexists. split; [reflexivity|]. auto.
Qed.

Lemma div_nonneg_pos (a b : float) :
  nonneg_float a -> B64.is_infinite a = false -> positive_float b ->
  nonneg_float (B64.div a b) /\ valid_float (B64.div a b).
Proof.
  intros Na Ia Pb.
  destruct a as [sa|sa| |[|] ma ea]; try contradiction; try discriminate;
    destruct b as [sb|[|]| |[|] mb eb]; try contradiction.
  - cbn. destruct sa; auto.
  - cbn. destruct sa; auto.
  - cbn. auto.
  - destruct (div_finite_spec false false ma mb ea eb)
      as (m' & e' & -> & Hm' & He' & _).
    cbn [xorb]. split; [apply finish_nonneg; lia | apply finish_valid; assumption].
Qed.

(** The quotient of two positive ints. *)
Lemma of_ratio_pos_spec (p q : positive) :
  exists m' e',
    B64.of_ratio (Zpos p) (Zpos q) = finish false m' e'
    /\ 0 <= m' < 2 ^ 53 /\ -1074 <= e' /\ (-1074 < e' -> 2 ^ 52 <= m')
    /\ (forall a, format a -> (a <= IZR (Zpos p) / IZR (Zpos q))%R -> (a <= F2R m' e')%R)
    /\ (forall b, format b -> (IZR (Zpos p) / IZR (Zpos q) <= b)%R -> (F2R m' e' <= b)%R).
Proof.
  rewrite <- (F2R_exp0 (Zpos p)), <- (F2R_exp0 (Zpos q)).
  apply (div_finite_spec false false p q 0 0).
Qed.

Lemma intron_nonneg (gap : Z) (s : pynum) :
  0 <= gap <= 2 ^ 1023 -> py_gt s (PInt 0) = true ->
  exists q, py_truediv (PInt gap) s = Ok (PFloat q)
            /\ nonneg_float q /\ valid_float q.
Proof.
  intros Hgap Hs. destruct s as [k|fs].
  - unfold py_gt in Hs. rewrite py_lt_int in Hs. apply Z.ltb_lt in Hs.
    unfold py_truediv. destruct (Z.eqb_spec k 0) as [|_]; [lia|].
    destruct k as [|q|q]; try lia.
    destruct gap as [|p|p]; try lia.
    + eexists. split; [reflexivity|]. split; exact I.
    + destruct (of_ratio_pos_spec p q)
        as (m' & e' & E & Hm' & He' & Hcan & _ & Hup).
      rewrite E.
      assert (Hb : (F2R m' e' <= bpow 1023)%R).
      { apply Hup; [apply format_bpow; lia|].
        apply Rle_trans with (IZR (Zpos p)).
        - assert (1 <= IZR (Zpos q))%R by (apply IZR_le; lia).
          assert (0 < IZR (Zpos p))%R by (apply IZR_lt; lia).
          apply Rle_trans with (IZR (Zpos p) / 1)%R; [|lra].
          unfold Rdiv. apply Rmult_le_compat_l; [lra|].
          apply Rinv_le_contravar; lra.
        - rewrite (bpow_IZR 1023) by lia. apply IZR_le. lia. }
      assert (bpow 1023 < bpow 1024)%R by (apply bpow_lt; lia).
      rewrite (finish_not_infinite false m' e') by (try lia; try assumption; lra).
      eexists. split; [reflexivity|].
      split; [apply finish_nonneg; lia | apply finish_valid; assumption].
  - pose proof (py_gt_zero_float fs Hs) as Pf.
    unfold py_truediv, to_float. rewrite (float_of_int_ok gap) by lia.
    cbn [bind]. rewrite (positive_not_zero fs Pf).
    eexists. split; [reflexivity|].
    apply div_nonneg_pos; [apply of_Z_nonneg; lia | apply of_Z_convertible; lia | exact Pf].
Qed.

Lemma pow54_le_pow1023 : 2 ^ 54 <= 2 ^ 1023.
Proof. apply Z.pow_le_mono_r; lia. Qed.

Lemma pow54_double : 2 ^ 54 = 2 * 2 ^ 53.
Proof. reflexivity. Qed.

(** The loop of the scaler keeps the spans in order when the gaps and the
    lengths are non-negative and the factor is positive. *)
Lemma scale_introns_loop_ordered (s : pynum) (rest : list span) :
  py_gt s (PInt 0) = true ->
  forall pa pb nl nr,
    Z.abs pb <= 2 ^ 53 -> chain_ok nr ->
    Forall (int_span_within (2 ^ 53)) rest ->
    spans_ordered ((PInt pa, PInt pb) :: rest) = true ->
    exists out,
      scale_introns_loop s (PInt pa, PInt pb) (nl, nr) rest = Ok out
      /\ List.length out = List.length rest
      /\ match out with
         | [] => True
         | nxt :: _ => py_le nr (fst nxt) = true
         end
      /\ spans_ordered out = true.
Proof.
  intros Hs. induction rest as [|cur rest IH]; intros pa pb nl nr Hpb Hnr Hall Hord.
  - exists []. cbn. auto.
  - inversion Hall as [|? ? (a & b & -> & Ha & Hb) Hall']; subst.
    cbn [spans_ordered fst snd] in Hord.
    apply andb_prop in Hord. destruct Hord as [Hord Hord3].
    apply andb_prop in Hord. destruct Hord as [_ Hgap].
    rewrite py_le_int in Hgap. apply Z.leb_le in Hgap.
    assert (Hab : a <= b).
    { cbn [spans_ordered fst snd] in Hord3.
      apply andb_prop in Hord3. destruct Hord3 as [H _].
      apply andb_prop in H. destruct H as [H _].
      rewrite py_le_int in H. apply Z.leb_le in H. exact H. }
    pose proof pow54_le_pow1023 as P54. pose proof pow54_double as P54'.
    cbn [scale_introns_loop fst snd].
    change (py_sub (PInt b) (PInt a)) with (Ok (PInt (b - a))).
    change (py_sub (PInt a) (PInt pb)) with (Ok (PInt (a - pb))).
    cbn [bind].
    destruct (intron_nonneg (a - pb) s ltac:(lia) Hs) as (q & -> & Nq & Vq).
    cbn [bind].
    destruct (py_add_nonneg nr q Hnr Vq Nq) as (l & -> & Hle1 & Vl & Nl).
    cbn [bind].
    destruct (py_add_length l (b - a) Vl Nl ltac:(lia)) as (r & -> & Hle2 & Vr & Nr).
    cbn [bind].
    destruct (IH a b (PFloat l) (PFloat r) Hb (conj Vr Nr) Hall' Hord3)
      as (out & -> & Hlen & Hnext & Hout).
    cbn [bind]. eexists. split; [reflexivity|].
    split; [cbn [List.length]; f_equal; exact Hlen|].
    split; [exact Hle1|].
    cbn [spans_ordered fst snd]. rewrite Hle2, Hout.
    destruct out as [|nxt out']; [reflexivity|].
    rewrite Hnext. reflexivity.
Qed.


(** * Properties *)

(** ** Sanity of the number model *)

Example literal_0_2 : f0_2 = S754_finite false 7205759403792794 (-55).
Proof. reflexivity. Qed.

(** [0.1 + 0.2] is [0.30000000000000004] and not [0.3]. *)
Example add_rounds :
  B64.add (B64.of_ratio 1 10) (B64.of_ratio 2 10)
  = S754_finite false 5404319552844596 (-54)
  /\ B64.of_ratio 3 10 = S754_finite false 5404319552844595 (-54).
Proof. split; vm_compute; reflexivity. Qed.

(** [float(2**53 + 1)] rounds to even. *)
Example float_of_int_rounds :
  float_of_int (2 ^ 53 + 1) = Ok (S754_finite false 4503599627370496 1).
Proof. vm_compute. reflexivity. Qed.

(** [//] floors, also for a negative operand. *)
Example floordiv_floors : (-7) / 2 = -4 /\ 7 / (-2) = -4 /\ 7 / 2 = 3.
Proof. repeat split. Qed.

Example mixed_comparison_exact :
  py_lt (PFloat (B64.of_Z (2 ^ 53))) (PInt (2 ^ 53 + 1)) = true.
Proof. vm_compute. reflexivity. Qed.


(** ** Intron Scaler on the specification's example (C4) *)

(** C4, as stated, fails: on [[(100,150),(300,350)]] with factor 2 the
    scaler does not return [[(100,150),(162.5,212.5)]]. *)
Lemma scale_introns_example_refuted :
  scale_introns [ints 100 150; ints 300 350] (dyad 2 0)
  <> Ok [ints 100 150; (dyad 325 (-1), dyad 425 (-1))].
Proof. vm_compute. discriminate. Qed.

(** C4, amended: the gap of 150 is halved to 75 and added to the previous
    stop 150, so the scaler returns [[(100,150),(225.0,275.0)]], for the
    factor given as the float [2.0] and as the int [2] alike; 225.0 is not
    162.5. *)
Theorem scale_introns_example :
  scale_introns [ints 100 150; ints 300 350] (dyad 2 0)
  = Ok [ints 100 150; (dyad 225 0, dyad 275 0)]
  /\ scale_introns [ints 100 150; ints 300 350] (PInt 2)
     = Ok [ints 100 150; (dyad 225 0, dyad 275 0)]
  /\ py_eq (dyad 225 0) (dyad 325 (-1)) = false.
Proof. repeat split; vm_compute; reflexivity. Qed.

(** ** Range Transform inside the last segment (C2) *)

(** C2 at a failing input: with the one exon [(0,10)] as both spaces the
    query 5 lies in the last (and only) segment, the test
    [len(scal_c) > i + 2] fails there, [n_right] becomes the query, and
    the transform returns [5 * 5 / 10 + 0 = 2.5], which is not 5. *)
Theorem transform_last_segment_not_identity :
  transform [ints 0 10] [ints 0 10] (PInt 5) = Ok (dyad 5 (-1))
  /\ py_eq (dyad 5 (-1)) (PInt 5) = false.
Proof. split; vm_compute; reflexivity. Qed.

(** In a segment that is not the last one the scaled pair is read and the
    same spaces give the query back; in the last one 22 becomes
    [2 * 2 / 10 + 20]. *)
Example transform_inner_segment_identity :
  transform [ints 0 10; ints 20 30] [ints 0 10; ints 20 30] (PInt 5)
  = Ok (dyad 5 0)
  /\ transform [ints 0 10; ints 20 30] [ints 0 10; ints 20 30] (PInt 15)
     = Ok (dyad 15 0)
  /\ transform [ints 0 10; ints 20 30] [ints 0 10; ints 20 30] (PInt 22)
     = Ok (PFloat (B64.add (B64.of_ratio 4 10) (B64.of_Z 20))).
Proof. repeat split; vm_compute; reflexivity. Qed.

(** The specification's own example, which happens to fall on 20. *)
Example transform_spec_example :
  transform [ints 0 10; ints 20 30] [ints 0 10; ints 15 25] (PInt 25)
  = Ok (dyad 20 0).
Proof. vm_compute. reflexivity. Qed.

(** ** Canonical Curve Generator: number of arcs (C5) *)

(** C5 at a failing input: for a junction with 7 reads the step is
    [1 / (7 * 5.0)], the quotient [(0.4 - 0.2) / step] rounds to
    [7.000000000000001], its ceiling is 8, and 8 arcs are drawn. *)
Theorem plot_SJ_curves_seven_reads_eight_arcs :
  arange_length radian_low radian_high (B64.of_ratio 1 35) = Ok 8
  /\ patch_count (plot_SJ_curves ax_example [(PInt 10, PInt 20, 7)] (dyad 1 0))
     = Some 8%nat.
Proof. split; vm_compute; reflexivity. Qed.

Example plot_SJ_curves_small_counts :
  map (fun c => patch_count
                  (plot_SJ_curves ax_example [(PInt 10, PInt 20, c)] (dyad 1 0)))
      [0; 1; 2; 3; 4; 5; 6]
  = map (fun c => Some (Z.to_nat c)) [0; 1; 2; 3; 4; 5; 6].
Proof. vm_compute. reflexivity. Qed.

(** ** Canonical Curve Generator: the arc-length correction (C6) *)

Lemma float_of_int_convertible (z : Z) :
  convertible z -> float_of_int z = Ok (B64.of_Z z).
Proof. unfold convertible, float_of_int. intros ->. reflexivity. Qed.

Lemma np_truediv_float (f xlen : float) :
  np_truediv (PFloat f) xlen = Ok (PFloat (B64.div f xlen)).
Proof. reflexivity. Qed.

Lemma np_truediv_int (z : Z) (xlen : float) :
  convertible z ->
  np_truediv (PInt z) xlen = Ok (PFloat (B64.div (B64.of_Z z) xlen)).
Proof.
  intros H. unfold np_truediv, to_float.
  rewrite (float_of_int_convertible z H). reflexivity.
Qed.

Lemma py_mul_float_l (f : float) (a : pynum) (fa : float) :
  to_float a = Ok fa -> py_mul (PFloat f) a = Ok (PFloat (B64.mul f fa)).
Proof.
  intros H. destruct a as [z|g]; unfold py_mul, to_float in *.
  - cbn [bind]. rewrite H. reflexivity.
  - injection H as ->. reflexivity.
Qed.

(** A comparison sees only the value of a finite number, also on the
    right. *)
Lemma dyadic_compare_ext_r (m1 e1 m2 e2 m3 e3 : Z) :
  F2R m1 e1 = F2R m2 e2 ->
  dyadic_compare m3 e3 m1 e1 = dyadic_compare m3 e3 m2 e2.
Proof.
  intros H.
  pose proof (dyadic_compare_spec m3 e3 m1 e1) as H1.
  pose proof (dyadic_compare_spec m3 e3 m2 e2) as H2.
  destruct (dyadic_compare m3 e3 m1 e1), (dyadic_compare m3 e3 m2 e2);
    try reflexivity; exfalso; lra.
Qed.

(** An int of magnitude up to [2^53] converts exactly, so NumPy's
    comparison with a threshold is the exact one. *)
Lemma np_gt_exact (arc_len : pynum) (threshold : float) :
  (forall z, arc_len = PInt z -> Z.abs z <= 2 ^ 53) ->
  np_gt arc_len threshold = Ok (py_gt arc_len (PFloat threshold)).
Proof.
  intros Hbound. destruct arc_len as [z|f]; [|reflexivity].
  specialize (Hbound z eq_refl).
  assert (Hconv : convertible z).
  { apply of_Z_convertible. pose proof pow53_le_pow1023. lia. }
  unfold np_gt, to_float. rewrite (float_of_int_convertible z Hconv).
  cbn [bind]. f_equal.
  unfold py_gt, py_lt, py_compare. cbn [xnum_of].
  destruct (of_Z_exact z Hbound) as (m & e & -> & Hv).
  destruct (xnum_of_float threshold) as [|s|m3 e3]; cbn [xnum_compare];
    [reflexivity..|].
  rewrite (dyadic_compare_ext_r m e z 0 m3 e3); [reflexivity|].
  rewrite Hv. symmetry. apply F2R_exp0.
Qed.

(** C6: for an arc length that is a float, or an int of magnitude at most
    [2^53] (which NumPy compares exactly), the correction computed by the
    four successive checks is the one of the last threshold exceeded:
    [0.4*arc_len/xlen] above [xlen/1.2], else [arc_len/xlen] above
    [xlen/2], else [1.5*arc_len/xlen] above [xlen/4], else
    [2*arc_len/xlen] above [xlen/8], else 1; and it is computed without an
    exception. *)
Theorem radian_correction_is_last_wins (arc_len : pynum) (xlen : float) :
  (forall z, arc_len = PInt z -> Z.abs z <= 2 ^ 53) ->
  radian_correction arc_len xlen = radian_correction_last_wins arc_len xlen
  /\ exists r, radian_correction arc_len xlen = Ok r.
Proof.
  intros Hbound.
  assert (Hsafe : forall z, arc_len = PInt z ->
                            convertible z /\ convertible (2 * z)).
  { intros z Hz. specialize (Hbound z Hz).
    pose proof pow54_le_pow1023. pose proof pow54_double.
    split; apply of_Z_convertible; lia. }
  assert (Hf : exists fa, to_float arc_len = Ok fa).
  { destruct arc_len as [z|f]; simpl.
    - destruct (Hsafe z eq_refl) as [Hz _].
      rewrite (float_of_int_convertible z Hz). eauto.
    - eauto. }
  destruct Hf as [fa Hfa].
  assert (H8 : exists r, (a <- py_mul (PInt 2) arc_len ;; np_truediv a xlen) = Ok r).
  { destruct arc_len as [z|f].
    - destruct (Hsafe z eq_refl) as [_ Hz2].
      change (py_mul (PInt 2) (PInt z)) with (Ok (PInt (2 * z))).
      cbn [bind]. rewrite (np_truediv_int _ xlen Hz2). eauto.
    - change (py_mul (PInt 2) (PFloat f))
        with (Ok (PFloat (B64.mul (B64.of_Z 2) f))).
      cbn [bind]. rewrite np_truediv_float. eauto. }
  assert (H4 : exists r, (a <- py_mul (PFloat f1_5) arc_len ;; np_truediv a xlen) = Ok r).
  { rewrite (py_mul_float_l _ _ _ Hfa). cbn [bind].
    rewrite np_truediv_float. eauto. }
  assert (H2 : exists r, np_truediv arc_len xlen = Ok r).
  { unfold np_truediv. rewrite Hfa. cbn [bind]. eauto. }
  assert (H12 : exists r, (a <- py_mul (PFloat f0_4) arc_len ;; np_truediv a xlen) = Ok r).
  { rewrite (py_mul_float_l _ _ _ Hfa). cbn [bind].
    rewrite np_truediv_float. eauto. }
  destruct H8 as [r8 H8], H4 as [r4 H4], H2 as [r2 H2], H12 as [r12 H12].
  assert (E : radian_correction arc_len xlen
              = radian_correction_last_wins arc_len xlen).
  { unfold radian_correction, radian_correction_last_wins.
    rewrite !(np_gt_exact arc_len _ Hbound). cbn [bind].
    rewrite H8, H4, H2, H12.
    repeat match goal with |- context [if ?c then _ else _] => destruct c end;
      reflexivity. }
  split; [exact E|].
  rewrite E. unfold radian_correction_last_wins.
  rewrite H8, H4, H2, H12.
  repeat match goal with |- context [if ?c then _ else _] => destruct c end;
    eauto.
Qed.

Lemma radian_correction_is_last_wins_witness :
  radian_correction (PInt 60) (B64.of_Z 110)
  = radian_correction_last_wins (PInt 60) (B64.of_Z 110)
  /\ exists r, radian_correction (PInt 60) (B64.of_Z 110) = Ok r.
Proof.
  apply (radian_correction_is_last_wins (PInt 60) (B64.of_Z 110)).
  intros z Hz. injection Hz as <-. apply Z.leb_le. vm_compute. reflexivity.
Defined.

(** Beyond [2^53] the claim fails: the arc length [2^53 + 1] exceeds an
    eighth of the width [2^56], but NumPy rounds it to [2^53] before it
    compares, so no check fires and the correction stays 1, where the
    priority chain gives [2*arc_len/xlen], which is 0.25. *)
Lemma radian_correction_rounds_arc_length :
  radian_correction (PInt (2 ^ 53 + 1)) (B64.of_Z (2 ^ 56)) = Ok (PInt 1)
  /\ radian_correction_last_wins (PInt (2 ^ 53 + 1)) (B64.of_Z (2 ^ 56))
     = Ok (dyad 1 (-2))
  /\ radian_correction (PInt (2 ^ 53 + 1)) (B64.of_Z (2 ^ 56))
     <> radian_correction_last_wins (PInt (2 ^ 53 + 1)) (B64.of_Z (2 ^ 56)).
Proof.
  assert (H1 : radian_correction (PInt (2 ^ 53 + 1)) (B64.of_Z (2 ^ 56))
               = Ok (PInt 1)) by (vm_compute; reflexivity).
  assert (H2 : radian_correction_last_wins (PInt (2 ^ 53 + 1))
                 (B64.of_Z (2 ^ 56)) = Ok (dyad 1 (-2)))
    by (vm_compute; reflexivity).
  split; [exact H1|]. split; [exact H2|].
  rewrite H1, H2. vm_compute. discriminate.
Qed.

(** The thresholds on a plot of width 110: 10 is below all of them, 60
    above [xlen/2] only. *)
Example radian_correction_values :
  radian_correction (PInt 10) (B64.of_Z 110) = Ok (PInt 1)
  /\ radian_correction (PInt 60) (B64.of_Z 110)
     = Ok (PFloat (B64.of_ratio 60 110))
  /\ radian_correction (PInt 100) (B64.of_Z 110)
     = Ok (PFloat (B64.div (B64.mul f0_4 (B64.of_Z 100)) (B64.of_Z 110))).
Proof. repeat split; vm_compute; reflexivity. Qed.

(** ** Count reduction and the junctions it removes (C10) *)

Lemma plot_circles_body_zero (ax : Axes) (start stop y gene_size : pynum) :
  plot_circles_body ax (start, stop, 0) y gene_size = Ok ax.
Proof. reflexivity. Qed.









(** Without a divisor, or with the divisor 0, the counts are left alone. *)
Example reduce_counts_not_applied :
  reduce_counts None [(PInt 10, PInt 20, 2)] = [(PInt 10, PInt 20, 2)]
  /\ reduce_counts (Some 0) [(PInt 10, PInt 20, 2)] = [(PInt 10, PInt 20, 2)].
Proof. split; reflexivity. Qed.

(** ** Intron Scaler: order of the output spans (C7) *)

(** C7, as stated, fails: a negative factor is nonzero, and with [-2] the
    ordered spans [[(0,10),(20,30)]] become [[(0,10),(5.0,15.0)]], where
    the second span starts before the first one ends. *)
Lemma scale_introns_negative_factor_overlaps :
  spans_ordered [ints 0 10; ints 20 30] = true
  /\ py_ne (dyad (-2) 0) (PInt 0) = true
  /\ scale_introns [ints 0 10; ints 20 30] (dyad (-2) 0)
     = Ok [ints 0 10; (dyad 5 0, dyad 15 0)]
  /\ spans_ordered [ints 0 10; (dyad 5 0, dyad 15 0)] = false
  /\ py_lt (dyad 5 0) (PInt 10) = true.
Proof. repeat split; vm_compute; reflexivity. Qed.

(** C7, amended: for a positive scale factor (an int, a float or plus
    infinity) and a non-empty list of int exon spans of magnitude at most
    [2^53] with [start <= stop] and no span beginning before the previous
    one ends, the scaler returns as many spans, and they are in order
    again: every [start <= stop] and every stop is at most the next start
    (spans may touch, they never overlap). *)
Theorem scale_introns_positive_factor_ordered (coords : list span) (s : pynum) :
  coords <> [] ->
  Forall (int_span_within (2 ^ 53)) coords ->
  spans_ordered coords = true ->
  py_gt s (PInt 0) = true ->
  exists out,
    scale_introns coords s = Ok out
    /\ List.length out = List.length coords
    /\ spans_ordered out = true.
Proof.
  intros Hne Hall Hord Hs.
  unfold scale_introns. rewrite (py_gt_zero_not_eq s Hs).
  destruct coords as [|c0 rest]; [contradiction|].
  inversion Hall as [|? ? (a & b & -> & Ha & Hb) Hall']; subst.
  destruct (scale_introns_loop_ordered s rest Hs a b (PInt a) (PInt b) Hb Hb Hall' Hord)
    as (out & -> & Hlen & Hnext & Hout).
  cbn [bind]. eexists. split; [reflexivity|].
  split; [cbn [List.length]; f_equal; exact Hlen|].
  cbn [spans_ordered fst snd] in Hord |- *.
  apply andb_prop in Hord. destruct Hord as [Hord _].
  apply andb_prop in Hord. destruct Hord as [Hab _].
  rewrite Hab, Hout. destruct out as [|nxt out']; [reflexivity|].
  cbn [fst snd] in Hnext. rewrite Hnext. reflexivity.
Qed.

Lemma scale_introns_positive_factor_ordered_witness :
  exists out,
    scale_introns [ints 100 150; ints 300 350] (dyad 2 0) = Ok out
    /\ List.length out = 2%nat
    /\ spans_ordered out = true.
Proof.
  apply (scale_introns_positive_factor_ordered
           [ints 100 150; ints 300 350] (dyad 2 0)).
  - discriminate.
  - repeat constructor; eexists; eexists;
      (split; [reflexivity|]); split; apply Z.leb_le; vm_compute; reflexivity.
  - vm_compute. reflexivity.
  - vm_compute. reflexivity.
Defined.

(** A factor so large that the gaps vanish in the rounding leaves the
    spans touching, and plus infinity is a positive factor too. *)
Example scale_introns_absorbed_gap :
  scale_introns [ints 100 150; ints 300 350] (dyad 1 200)
  = Ok [ints 100 150; (dyad 150 0, dyad 200 0)]
  /\ scale_introns [ints 100 150; ints 300 350] (PFloat (S754_infinity false))
     = Ok [ints 100 150; (dyad 150 0, dyad 200 0)].
Proof. split; vm_compute; reflexivity. Qed.

(** ** Intron Scaler: exon lengths (C3) *)

(** C3, as stated, fails: on [[(0,1),(2,3)]] with factor 3 the second exon
    becomes [(1.3333333333333333, 2.333333333333333)], and the difference
    of its ends is [0.9999999999999998], not 1. *)
Lemma scale_introns_length_not_exact :
  scale_introns [ints 0 1; ints 2 3] (dyad 3 0)
  = Ok [ints 0 1;
        (PFloat (S754_finite false 6004799503160661 (-52)),
         PFloat (S754_finite false 5254199565265578 (-51)))]
  /\ py_sub (PFloat (S754_finite false 5254199565265578 (-51)))
            (PFloat (S754_finite false 6004799503160661 (-52)))
     = Ok (PFloat (S754_finite false 9007199254740990 (-53)))
  /\ py_eq (PFloat (S754_finite false 9007199254740990 (-53))) (PInt (3 - 2))
     = false.
Proof. repeat split; vm_compute; reflexivity. Qed.

Lemma div_finite_not_infinite (sx sy : bool) (mx my : positive) (ex ey : Z) (B : R) :
  format B -> (B < bpow 1024)%R ->
  (F2R (Zpos mx) ex / F2R (Zpos my) ey <= B)%R ->
  B64.is_infinite (B64.div (S754_finite sx mx ex) (S754_finite sy my ey)) = false.
Proof.
  intros HB Hlt Hle.
  destruct (div_finite_spec sx sy mx my ex ey)
    as (m' & e' & -> & Hm' & He' & Hcan & _ & Hup).
  apply finish_not_infinite; [lia | exact Hcan |].
  specialize (Hup B HB Hle). lra.
Qed.

Lemma of_ratio_not_infinite (n d : Z) :
  Z.abs n <= 2 ^ 1023 -> d <> 0 ->
  B64.is_infinite (B64.of_ratio n d) = false.
Proof.
  intros Hn Hd. unfold B64.of_ratio.
  destruct d as [|q|q]; [contradiction| |];
    (destruct n as [|p|p]; [reflexivity| |]);
    cbn [B64.raw_of_Z];
    apply (div_finite_not_infinite _ _ _ _ _ _ (bpow 1023));
    try (apply format_bpow; lia); try (apply bpow_lt; lia);
    rewrite !F2R_exp0;
    (apply Rle_trans with (IZR (Zpos p));
     [ assert (1 <= IZR (Zpos q))%R by (apply IZR_le; lia);
       assert (0 < IZR (Zpos p))%R by (apply IZR_lt; lia);
       apply Rle_trans with (IZR (Zpos p) / 1)%R; [|lra];
       unfold Rdiv; apply Rmult_le_compat_l; [lra|];
       apply Rinv_le_contravar; lra
     | rewrite (bpow_IZR 1023) by lia; apply IZR_le; lia ]).
Qed.

Lemma py_eq_zero_float (f : float) :
  py_eq (PFloat f) (PInt 0) = false -> B64.is_zero f = false.
Proof.
  destruct f as [s|s| |s m e]; try reflexivity.
  cbn. discriminate.
Qed.

Lemma py_truediv_int_ok (gap : Z) (s : pynum) :
  Z.abs gap <= 2 ^ 1023 -> py_eq s (PInt 0) = false ->
  exists q, py_truediv (PInt gap) s = Ok (PFloat q).
Proof.
  intros Hgap Hs. destruct s as [k|fs].
  - rewrite py_eq_int in Hs. unfold py_truediv. rewrite Hs.
    apply Z.eqb_neq in Hs.
    rewrite (of_ratio_not_infinite gap k Hgap Hs). eauto.
  - unfold py_truediv, to_float. rewrite (float_of_int_ok gap Hgap).
    cbn [bind]. rewrite (py_eq_zero_float fs Hs). eauto.
Qed.

Lemma py_add_float_ok (x : pynum) (q : float) :
  addable x -> exists r, py_add x (PFloat q) = Ok (PFloat r).
Proof.
  intros Hx. destruct x as [z|f]; cbn [addable] in Hx.
  - unfold py_add, to_float. rewrite (float_of_int_ok z Hx). cbn [bind]. eauto.
  - cbn. eauto.
Qed.

Lemma py_add_int_ok (l : float) (z : Z) :
  Z.abs z <= 2 ^ 1023 -> exists r, py_add (PFloat l) (PInt z) = Ok (PFloat r).
Proof.
  intros Hz. unfold py_add, to_float. cbn [bind].
  rewrite (float_of_int_ok z Hz). cbn [bind]. eauto.
Qed.

Lemma scale_introns_loop_shape (s : pynum) (rest : list span) :
  py_eq s (PInt 0) = false ->
  forall pa pb nprev,
    Z.abs pb <= 2 ^ 53 -> addable (snd nprev) ->
    Forall (int_span_within (2 ^ 53)) rest ->
    exists out,
      scale_introns_loop s (PInt pa, PInt pb) nprev rest = Ok out
      /\ Forall2 keeps_length rest out.
Proof.
  intros Hs. induction rest as [|cur rest IH]; intros pa pb nprev Hpb Hnr Hall.
  - exists []. split; [reflexivity | constructor].
  - inversion Hall as [|? ? (a & b & -> & Ha & Hb) Hall']; subst.
    pose proof pow54_le_pow1023 as P54. pose proof pow54_double as P54'.
    cbn [scale_introns_loop fst snd].
    change (py_sub (PInt b) (PInt a)) with (Ok (PInt (b - a))).
    change (py_sub (PInt a) (PInt pb)) with (Ok (PInt (a - pb))).
    cbn [bind].
    destruct (py_truediv_int_ok (a - pb) s ltac:(lia) Hs) as (q & ->).
    cbn [bind].
    destruct (py_add_float_ok (snd nprev) q Hnr) as (l & ->).
    cbn [bind].
    destruct (py_add_int_ok l (b - a) ltac:(lia)) as (r & Hr). rewrite Hr.
    cbn [bind].
    destruct (IH a b (PFloat l, PFloat r) Hb I Hall') as (out & -> & Hout).
    cbn [bind]. eexists. split; [reflexivity|].
    constructor; [|exact Hout].
    exists a, b. split; [reflexivity|exact Hr].
Qed.

(** C3, amended: for a non-empty list of int exon spans of magnitude at
    most [2^53] and a nonzero scale factor, the scaler returns a list of
    equal length and order whose first exon is the first exon of the
    input, and in which every later exon has
    [new_stop_i = new_start_i + (stop_i - start_i)] as computed in
    binary64: the exon keeps its length up to the rounding of that one
    sum. *)
Theorem scale_introns_keeps_shape (coords : list span) (s : pynum) :
  coords <> [] ->
  Forall (int_span_within (2 ^ 53)) coords ->
  py_eq s (PInt 0) = false ->
  exists out,
    scale_introns coords s = Ok out
    /\ List.length out = List.length coords
    /\ hd_error out = hd_error coords
    /\ Forall2 keeps_length (tl coords) (tl out).
Proof.
  intros Hne Hall Hs. unfold scale_introns. rewrite Hs.
  destruct coords as [|c0 rest]; [contradiction|].
  inversion Hall as [|? ? (a & b & -> & Ha & Hb) Hall']; subst.
  pose proof pow53_le_pow1023 as P53.
  destruct (scale_introns_loop_shape s rest Hs a b (PInt a, PInt b) Hb
              ltac:(cbn; lia) Hall') as (out & -> & Hout).
  cbn [bind]. eexists. split; [reflexivity|].
  split; [cbn [List.length]; f_equal; symmetry; exact (Forall2_length Hout)|].
  split; [reflexivity|exact Hout].
Qed.

Lemma scale_introns_keeps_shape_witness :
  exists out,
    scale_introns [ints 0 1; ints 2 3] (dyad 3 0) = Ok out
    /\ List.length out = 2%nat
    /\ hd_error out = Some (ints 0 1)
    /\ Forall2 keeps_length [ints 2 3] (tl out).
Proof.
  apply (scale_introns_keeps_shape [ints 0 1; ints 2 3] (dyad 3 0)).
  - discriminate.
  - repeat constructor; eexists; eexists;
      (split; [reflexivity|]); split; apply Z.leb_le; vm_compute; reflexivity.
  - vm_compute. reflexivity.
Defined.

(** Where the sums are exact the lengths are kept exactly, as for the
    factor 2 on the specification's example. *)
Example scale_introns_length_exact_example :
  py_sub (dyad 275 0) (dyad 225 0) = Ok (dyad 50 0)
  /\ py_eq (dyad 50 0) (PInt (350 - 300)) = true.
Proof. split; vm_compute; reflexivity. Qed.

(** A factor of zero, of either sign, returns the coordinates unscaled;
    an empty list raises [IndexError] for any other factor. *)
Example scale_introns_guards :
  scale_introns [ints 100 150; ints 300 350] (PFloat (S754_zero true))
  = Ok [ints 100 150; ints 300 350]
  /\ scale_introns [] (dyad 2 0) = Raise IndexError.
Proof. split; vm_compute; reflexivity. Qed.

(** ** Coverage to colour (C9) *)



Lemma alphas_quotients (cov : list pynum) (mc : pynum) :
  forall al, alphas cov mc = Ok al ->
             Forall2 (fun i a => py_truediv i mc = Ok a) cov al.
Proof.
  induction cov as [|i rest IH]; cbn [alphas]; intros al H.
  - injection H as <-. constructor.
  - destruct (py_truediv i mc) as [a|e] eqn:Ha; cbn [bind] in H; [|discriminate].
    destruct (alphas rest mc) as [tl|e]; cbn [bind] in H; [|discriminate].
    injection H as <-. constructor; [exact Ha | apply IH; reflexivity].
Qed.

Lemma max_fold_zero (tl : list pynum) :
  forall m, is_zero_num m = true -> forallb is_zero_num tl = true ->
    is_zero_num (fold_left (fun m v => if py_gt v m then v else m) tl m) = true.
Proof.
  induction tl as [|v tl IH]; intros m Hm Hall; [exact Hm|].
  cbn [forallb] in Hall. apply andb_prop in Hall. destruct Hall as [Hv Hall].
  cbn [fold_left]. apply IH; [|exact Hall].
  destruct (py_gt v m); assumption.
Qed.

Lemma py_max_zero (cov : list pynum) :
  cov <> [] -> forallb is_zero_num cov = true ->
  exists m, py_max cov = Ok m /\ py_eq m (PInt 0) = true.
Proof.
  intros Hne Hall. destruct cov as [|x tl]; [contradiction|].
  cbn [forallb] in Hall. apply andb_prop in Hall. destruct Hall as [Hx Hall].
  eexists. split; [reflexivity|]. apply (max_fold_zero tl x Hx Hall).
Qed.

Lemma max_fold_ints (tl : list pynum) (M : Z) :
  forall m, 0 <= m <= M -> Forall (depth_upto M) tl ->
    exists m', fold_left (fun m v => if py_gt v m then v else m) tl (PInt m)
               = PInt m'
               /\ m <= m' <= M
               /\ Forall (depth_upto m') tl.
Proof.
  induction tl as [|v tl IH]; intros m Hm Hall.
  - exists m. split; [reflexivity|]. split; [lia|constructor].
  - inversion Hall as [|? ? (z & -> & Hz) Hall']; subst.
    cbn [fold_left].
    change (py_gt (PInt z) (PInt m)) with (py_lt (PInt m) (PInt z)).
    rewrite py_lt_int.
    destruct (Z.ltb_spec m z) as [Hlt|Hge].
    + destruct (IH z ltac:(lia) Hall') as (m' & -> & Hm' & Hall'').
      exists m'. split; [reflexivity|]. split; [lia|].
      constructor; [exists z; split; [reflexivity|lia] | exact Hall''].
    + destruct (IH m Hm Hall') as (m' & -> & Hm' & Hall'').
      exists m'. split; [reflexivity|]. split; [lia|].
      constructor; [exists z; split; [reflexivity|lia] | exact Hall''].
Qed.

Lemma py_max_ints (cov : list pynum) (M : Z) :
  cov <> [] -> Forall (depth_upto M) cov ->
  exists m, py_max cov = Ok (PInt m) /\ 0 <= m /\ Forall (depth_upto m) cov.
Proof.
  intros Hne Hall. destruct cov as [|x tl]; [contradiction|].
  inversion Hall as [|? ? (z & -> & Hz) Hall']; subst.
  destruct (max_fold_ints tl M z Hz Hall') as (m' & E & Hm' & Hall'').
  exists m'. split; [cbn [py_max]; rewrite E; reflexivity|].
  split; [lia|]. constructor; [exists z; split; [reflexivity|lia] | exact Hall''].
Qed.

(** A read depth divided by a positive maximum that bounds it. *)
Lemma py_truediv_depth (z M : Z) :
  0 <= z <= M -> 0 < M ->
  exists a, py_truediv (PInt z) (PInt M) = Ok (PFloat a).
Proof.
  intros Hz HM. unfold py_truediv.
  destruct (Z.eqb_spec M 0) as [|_]; [lia|].
  assert (Hinf : B64.is_infinite (B64.of_ratio z M) = false).
  { unfold B64.of_ratio. destruct M as [|q|q]; try lia.
    destruct z as [|p|p]; try lia; [reflexivity|].
    cbn [B64.raw_of_Z].
    apply (div_finite_not_infinite _ _ _ _ _ _ (bpow 0));
      [apply format_bpow; lia | apply bpow_lt; lia |].
    rewrite !F2R_exp0. change (bpow 0) with 1%R.
    assert (0 < IZR (Zpos q))%R by (apply IZR_lt; lia).
    assert (IZR (Zpos p) <= IZR (Zpos q))%R by (apply IZR_le; lia).
    apply Rmult_le_reg_r with (IZR (Zpos q)); [assumption|].
    unfold Rdiv. rewrite Rmult_assoc, Rinv_l by lra. lra. }
  rewrite Hinf. eauto.
Qed.


Lemma of_Z_not_nan (z : Z) : B64.is_nan (B64.of_Z z) = false.
Proof.
  destruct z as [|p|p]; [reflexivity| |].
  - destruct (of_Z_pos_spec p) as (m' & e' & -> & Hm' & _).
    destruct (finish_cases false m' e' (proj1 Hm'))
      as [[_ ->]|[(q & _ & _ & ->)|(_ & _ & ->)]]; reflexivity.
  - destruct (of_Z_neg_spec p) as (m' & e' & -> & Hm' & _).
    destruct (finish_cases true m' e' (proj1 Hm'))
      as [[_ ->]|[(q & _ & _ & ->)|(_ & _ & ->)]]; reflexivity.
Qed.

Lemma is_zero_num_cases (i : pynum) :
  is_zero_num i = true -> i = PInt 0 \/ exists s, i = PFloat (S754_zero s).
Proof.
  unfold is_zero_num. destruct i as [x|f].
  - rewrite py_eq_int. intros H. apply Z.eqb_eq in H. left. congruence.
  - destruct f as [s|s| |s m e]; intros H.
    + right. eauto.
    + destruct s; discriminate.
    + discriminate.
    + exfalso. unfold py_eq, py_compare in H.
      cbn [xnum_of xnum_of_float xnum_compare] in H.
      pose proof (dyadic_compare_spec (if s then Zneg m else Zpos m) e 0 0) as Hc.
      destruct (dyadic_compare (if s then Zneg m else Zpos m) e 0 0);
        try discriminate.
      rewrite F2R_0 in Hc. pose proof (F2R_pos m e).
      destruct s; [|lra].
      change (Zneg m) with (- Zpos m) in Hc. rewrite F2R_opp in Hc. lra.
Qed.

Lemma div_zero_zero (s : bool) (g : float) :
  B64.is_nan g = false -> B64.is_zero g = false ->
  exists s', B64.div (S754_zero s) g = S754_zero s'.
Proof.
  destruct g as [t|t| |t m e]; cbn; intros Hn Hz; try discriminate; eauto.
Qed.

(** Zero divided by a number that is neither zero nor a NaN is zero. *)
Lemma py_truediv_zero (i mc a : pynum) :
  is_zero_num i = true -> not_nan mc = true ->
  py_truediv i mc = Ok a -> is_zero_num a = true.
Proof.
  intros Hi Hmc Ha.
  assert (Hzero : forall s g, B64.is_nan g = false ->
            (if B64.is_zero g then Raise ZeroDivisionError
             else Ok (PFloat (B64.div (S754_zero s) g))) = Ok a ->
            is_zero_num a = true).
  { intros s g Hn H. destruct (B64.is_zero g) eqn:Hz; [discriminate|].
    destruct (div_zero_zero s g Hn Hz) as (s' & E). rewrite E in H.
    injection H as <-. reflexivity. }
  destruct (is_zero_num_cases i Hi) as [->|(s & ->)]; destruct mc as [y|g].
  - unfold py_truediv in Ha. destruct (Z.eqb_spec y 0) as [|Hy]; [discriminate|].
    destruct y as [|q|q]; [contradiction| |]; cbn in Ha; injection Ha as <-;
      reflexivity.
  - unfold py_truediv, to_float in Ha.
    change (float_of_int 0) with (Ok (S754_zero false)) in Ha. cbn [bind] in Ha.
    apply (Hzero false g); [|exact Ha].
    destruct g as [t|t| |t m e]; try reflexivity. discriminate.
  - unfold py_truediv, to_float in Ha. cbn [bind] in Ha. unfold float_of_int in Ha.
    destruct (B64.is_infinite (B64.of_Z y)); [discriminate|]. cbn [bind] in Ha.
    apply (Hzero s (B64.of_Z y) (of_Z_not_nan y) Ha).
  - unfold py_truediv, to_float in Ha. cbn [bind] in Ha.
    apply (Hzero s g); [|exact Ha].
    destruct g as [t|t| |t m e]; try reflexivity. discriminate.
Qed.

Lemma alphas_zero (cov : list pynum) (mc : pynum) :
  forallb is_zero_num cov = true -> not_nan mc = true ->
  forall al, alphas cov mc = Ok al -> forallb is_zero_num al = true.
Proof.
  intros Hall Hmc. induction cov as [|i rest IH]; cbn [alphas]; intros al H.
  - injection H as <-. reflexivity.
  - cbn [forallb] in Hall. apply andb_prop in Hall. destruct Hall as [Hi Hall].
    destruct (py_truediv i mc) as [a|e] eqn:Ea; cbn [bind] in H; [|discriminate].
    destruct (alphas rest mc) as [tl|e]; cbn [bind] in H; [|discriminate].
    injection H as <-. cbn [forallb].
    rewrite (py_truediv_zero i mc a Hi Hmc Ea), (IH Hall tl eq_refl). reflexivity.
Qed.

(** Under normalisation the highest maximum is never a NaN: a NaN is not
    greater than anything. *)
Lemma highest_loop_not_nan (samples : list sample) :
  forall h h', not_nan h = true -> highest_loop samples h = Ok h' ->
               not_nan h' = true.
Proof.
  induction samples as [|s rest IH]; cbn [highest_loop]; intros h h' Hh H.
  - injection H as <-. exact Hh.
  - destruct (py_max (coverage s)) as [mc|e]; cbn [bind] in H; [|discriminate].
    apply (IH (if py_gt mc h then mc else h) h'); [|exact H].
    destruct (py_gt mc h) eqn:Hgt; [|exact Hh].
    unfold py_gt, py_lt, py_compare in Hgt.
    destruct mc as [z|[t|t| |t m e]]; try reflexivity.
    destruct (xnum_of h); discriminate.
Qed.

(** A sample whose coverage is all zero gets alpha 0 at every position,
    in either mode. *)
Lemma sample_colors_all_zero (normalize : bool) (highest : pynum) (color : rgb)
    (cov : list pynum) (out : list rgba) :
  forallb is_zero_num cov = true -> not_nan highest = true ->
  sample_colors normalize highest color cov = Ok out ->
  List.length out = List.length cov
  /\ forallb (fun ca => is_zero_num (snd ca)) out = true.
Proof.
  intros Hall Hh Hout. unfold sample_colors in Hout.
  assert (Hconst : forall l : list pynum,
            forallb (fun ca : rgba => is_zero_num (snd ca))
              (map (fun _ => (color, PInt 0)) l) = true).
  { induction l; cbn; auto. }
  assert (Hmap : forall al, forallb is_zero_num al = true ->
            forallb (fun ca : rgba => is_zero_num (snd ca))
              (map (fun a => (color, a)) al) = true).
  { induction al as [|a al IHl]; cbn [map forallb snd]; [reflexivity|].
    intros H. apply andb_prop in H. destruct H as [-> H]. cbn. auto. }
  assert (Hlen : forall mc al, alphas cov mc = Ok al ->
                               List.length al = List.length cov).
  { intros mc al H. symmetry. exact (Forall2_length (alphas_quotients cov mc al H)). }
  destruct normalize.
  - cbn [bind] in Hout. unfold py_ne in Hout.
    destruct (py_eq highest (PInt 0)); cbn [negb] in Hout.
    + injection Hout as <-. rewrite length_map. auto.
    + destruct (alphas cov highest) as [al|e] eqn:Ea; cbn [bind] in Hout;
        [|discriminate].
      injection Hout as <-. rewrite length_map.
      split; [apply (Hlen highest al Ea)|].
      apply Hmap. apply (alphas_zero cov highest Hall Hh al Ea).
  - destruct cov as [|x tl]; [discriminate|].
    destruct (py_max_zero (x :: tl) ltac:(discriminate) Hall) as (m & Hm & Hz).
    rewrite Hm in Hout. cbn [bind] in Hout. unfold py_ne in Hout.
    rewrite Hz in Hout. cbn [negb] in Hout. injection Hout as <-.
    split; [|apply (Hconst (x :: tl))].
    change (List.length (map (fun _ : pynum => (color, PInt 0)) (x :: tl))
            = List.length (x :: tl)).
    apply length_map.
Qed.

(** The whole colour assignment: every sample gets its colours, and a
    sample whose coverage is all zero gets alpha 0 at every position,
    with or without normalisation. *)
Lemma assign_colors_all_zero (normalize : bool) (color : rgb)
    (samples : list sample) (out : list (sample * list rgba)) :
  assign_colors normalize color samples = Ok out ->
  Forall2 (fun s sc =>
             fst sc = s
             /\ (forallb is_zero_num (coverage s) = true ->
                 List.length (snd sc) = List.length (coverage s)
                 /\ forallb (fun ca => is_zero_num (snd ca)) (snd sc) = true))
          samples out.
Proof.
  unfold assign_colors. intros H.
  destruct (if normalize then highest_loop samples (PInt 0) else Ok (PInt 0))
    as [highest|e] eqn:Eh; cbn [bind] in H; [|discriminate].
  assert (Hh : not_nan highest = true).
  { destruct normalize.
    - apply (highest_loop_not_nan samples (PInt 0) highest eq_refl Eh).
    - injection Eh as <-. reflexivity. }
  clear Eh. revert out H.
  induction samples as [|s rest IH]; cbn [assign_colors_loop]; intros out H.
  - injection H as <-. constructor.
  - destruct (sample_colors normalize highest color (coverage s)) as [c|e] eqn:Ec;
      cbn [bind] in H; [|discriminate].
    destruct (assign_colors_loop normalize highest color rest) as [tl|e];
      cbn [bind] in H; [|discriminate].
    injection H as <-. constructor; [|apply IH; reflexivity].
    cbn [fst snd]. split; [reflexivity|]. intros Hall.
    apply (sample_colors_all_zero normalize highest color (coverage s) c Hall Hh Ec).
Qed.

(** The specification's example [[0,0,0]], and a sample with reads. *)
Example sample_colors_examples :
  sample_colors false (PInt 0) (PInt 1, PInt 0, PInt 0)
    [PInt 0; PInt 0; PInt 0]
  = Ok [((PInt 1, PInt 0, PInt 0), PInt 0);
        ((PInt 1, PInt 0, PInt 0), PInt 0);
        ((PInt 1, PInt 0, PInt 0), PInt 0)]
  /\ sample_colors false (PInt 0) (PInt 1, PInt 0, PInt 0)
       [PInt 0; PInt 5; PInt 10]
     = Ok [((PInt 1, PInt 0, PInt 0), PFloat (S754_zero false));
           ((PInt 1, PInt 0, PInt 0), dyad 1 (-1));
           ((PInt 1, PInt 0, PInt 0), dyad 1 0)]
  /\ sample_colors true (PInt 10) (PInt 1, PInt 0, PInt 0)
       [PInt 0; PInt 0; PInt 0]
     = Ok [((PInt 1, PInt 0, PInt 0), PFloat (S754_zero false));
           ((PInt 1, PInt 0, PInt 0), PFloat (S754_zero false));
           ((PInt 1, PInt 0, PInt 0), PFloat (S754_zero false))]
  /\ is_zero_num (PFloat (S754_zero false)) = true.
Proof. repeat split; vm_compute; reflexivity. Qed.

(** A sample without coverage rows stops at [max] with [ValueError]. *)
Example sample_colors_empty :
  sample_colors false (PInt 0) (PInt 1, PInt 0, PInt 0) [] = Raise ValueError.
Proof. reflexivity. Qed.

(** ** Gene-to-transcript resolution (C8) *)

Lemma existsb_eqb_In (K : list string) (u : string) :
  existsb (String.eqb u) K = true <-> In u K.
Proof.
  rewrite existsb_exists. split.
  - intros (x & Hx & E). apply String.eqb_eq in E. subst. exact Hx.
  - intros H. exists u. split; [exact H | apply String.eqb_refl].
Qed.

Lemma not_among_In (K : list string) (u : string) :
  not_among K u = true <-> ~ In u K.
Proof.
  unfold not_among. rewrite negb_true_iff, <- not_true_iff_false, existsb_eqb_In.
  tauto.
Qed.

Lemma filter_filter {A : Type} (f g : A -> bool) (l : list A) :
  filter f (filter g l) = filter (fun x => g x && f x) l.
Proof.
  induction l as [|x l IH]; [reflexivity|]. cbn [filter].
  destruct (g x); cbn [filter andb]; [destruct (f x)|]; rewrite IH; reflexivity.
Qed.

Lemma dict_add_map (K : list string) (f : string -> Z) (t : string) (v : Z) :
  NoDup K -> (~ In t K -> f t = 0) ->
  dict_add (map (fun k => (k, f k)) K) t v
  = map (fun k => (k, f k + (if String.eqb k t then v else 0)))
      (if existsb (String.eqb t) K then K else K ++ [t]).
Proof.
  induction K as [|k K IH]; intros Hnd Hf.
  - cbn. rewrite String.eqb_refl, Hf by tauto. reflexivity.
  - inversion Hnd as [|? ? Hk Hnd']; subst.
    cbn [map dict_add existsb]. rewrite (String.eqb_sym t k).
    destruct (String.eqb k t) eqn:E; cbn [orb map].
    + apply String.eqb_eq in E. subst k. rewrite String.eqb_refl.
      f_equal. apply map_ext_in.
      intros k' Hk'. destruct (String.eqb_spec k' t) as [->|_]; [contradiction|].
      f_equal. lia.
    + rewrite IH; [|exact Hnd'|].
      * destruct (existsb (String.eqb t) K); cbn [map app];
          rewrite E, Z.add_0_r; reflexivity.
      * apply String.eqb_neq in E.
        intros Hn. apply Hf. intros [E'|H]; [congruence|contradiction].
Qed.

Lemma transcript_lengths_from (fetched : list (string * Z * Z)) :
  forall (K : list string) (f : string -> Z),
    NoDup K -> (forall t, ~ In t K -> f t = 0) ->
    fold_left (fun d '(transcript, start, stop) =>
                 dict_add d transcript (1 + (stop - start)))
      fetched (map (fun k => (k, f k)) K)
    = map (fun k => (k, f k + exonic_length fetched k))
        (K ++ filter (not_among K)
                (first_seen (map (fun row => fst (fst row)) fetched))).
Proof.
  induction fetched as [|[[t start] stop] rest IH]; intros K f Hnd Hf.
  - cbn. rewrite app_nil_r. apply map_ext. intros k. f_equal. lia.
  - cbn [fold_left map fst first_seen exonic_length].
    rewrite dict_add_map; [|exact Hnd|apply Hf].
    set (v := 1 + (stop - start)).
    set (f' := fun k => f k + (if String.eqb k t then v else 0)).
    set (K' := if existsb (String.eqb t) K then K else K ++ [t]).
    assert (Hnd' : NoDup K').
    { subst K'. destruct (existsb (String.eqb t) K) eqn:E; [exact Hnd|].
      apply NoDup_app; [exact Hnd | repeat constructor; intros [] | ].
      intros x Hx [<-|[]]. apply existsb_eqb_In in Hx. congruence. }
    assert (Hf' : forall u, ~ In u K' -> f' u = 0).
    { intros u Hu. subst f' K'. cbn beta.
      destruct (existsb (String.eqb t) K) eqn:E.
      - apply existsb_eqb_In in E.
        destruct (String.eqb_spec u t) as [->|_]; [contradiction|].
        rewrite Hf by exact Hu. lia.
      - rewrite in_app_iff in Hu.
        destruct (String.eqb_spec u t) as [->|_]; [cbn in Hu; tauto|].
        rewrite Hf by tauto. lia. }
    etransitivity; [exact (IH K' f' Hnd' Hf')|].
    assert (Hfun : forall k, f' k + exonic_length rest k
                   = f k + ((if String.eqb t k then v else 0) + exonic_length rest k)).
    { intros k. subst f'. cbn beta. rewrite (String.eqb_sym k t). lia. }
    rewrite (map_ext _ _ (fun k => f_equal (pair k) (Hfun k))).
    f_equal. subst K'.
    set (Y := first_seen (map (fun row => fst (fst row)) rest)).
    destruct (existsb (String.eqb t) K) eqn:E.
    + f_equal. cbn [filter]. unfold not_among at 2.
      rewrite E. cbn [negb]. rewrite filter_filter.
      apply filter_ext_in. intros u _.
      destruct (not_among K u) eqn:Hu; [|rewrite andb_false_r; reflexivity].
      rewrite andb_true_r. symmetry. apply negb_true_iff, String.eqb_neq.
      intros ->. apply not_among_In in Hu. apply existsb_eqb_In in E. contradiction.
    + rewrite <- app_assoc. f_equal. cbn [app filter]. unfold not_among at 2.
      rewrite E. cbn [negb]. f_equal. rewrite filter_filter.
      apply filter_ext. intros u. unfold not_among.
      rewrite existsb_app. cbn [existsb]. rewrite orb_false_r, negb_orb.
      apply andb_comm.
Qed.

(** The dict built from the rows lists every transcript once, in the order
    of first encounter, with its summed length. *)
Lemma transcript_lengths_spec (fetched : list (string * Z * Z)) :
  transcript_lengths fetched
  = map (fun t => (t, exonic_length fetched t)) (fetched_transcripts fetched).
Proof.
  unfold transcript_lengths, fetched_transcripts.
  etransitivity;
    [exact (transcript_lengths_from fetched [] (fun _ => 0) (NoDup_nil _)
              (fun _ _ => eq_refl))|].
  cbn [app]. rewrite (filter_ext (not_among []) (fun _ => true)) by reflexivity.
  rewrite filter_true. reflexivity.
Qed.

Lemma longest_loop_cons (t : string) (l : Z) (items : list (string * Z))
    (m0 : Z) (r0 : string) :
  longest_loop ((t, l) :: items) m0 r0
  = if l >? m0 then longest_loop items l t else longest_loop items m0 r0.
Proof.
  unfold longest_loop. cbn [fold_left]. destruct (l >? m0); reflexivity.
Qed.

(** The scan for the longest transcript keeps the first item that reaches
    the maximum, when some item exceeds the initial bound. *)
Lemma longest_loop_spec (items : list (string * Z)) :
  forall m0 r0,
    exists m r,
      longest_loop items m0 r0 = (m, r)
      /\ m0 <= m
      /\ (forall t l, In (t, l) items -> l <= m)
      /\ ((m = m0 /\ r = r0)
          \/ (m0 < m /\ exists pre post,
                items = pre ++ (r, m) :: post
                /\ forall t l, In (t, l) pre -> l < m)).
Proof.
  induction items as [|[t l] items IH]; intros m0 r0.
  - exists m0, r0. split; [reflexivity|]. split; [lia|].
    split; [intros ? ? []|]. left. auto.
  - rewrite longest_loop_cons. destruct (Z.gtb_spec l m0) as [Hgt|Hle].
    + destruct (IH l t) as (m & r & E & Hm & Hall & Hcase).
      exists m, r. split; [exact E|]. split; [lia|].
      split.
      { intros t' l' [H|H]; [injection H as <- <-; lia | eapply Hall; exact H]. }
      right. split; [lia|].
      destruct Hcase as [[-> ->]|(Hlt & pre & post & -> & Hpre)].
      * exists [], items. split; [reflexivity|]. intros ? ? [].
      * exists ((t, l) :: pre), post. split; [reflexivity|].
        intros t' l' [H|H]; [injection H as <- <-; lia | eapply Hpre; exact H].
    + destruct (IH m0 r0) as (m & r & E & Hm & Hall & Hcase).
      exists m, r. split; [exact E|]. split; [lia|].
      split.
      { intros t' l' [H|H]; [injection H as <- <-; lia | eapply Hall; exact H]. }
      destruct Hcase as [[-> ->]|(Hlt & pre & post & -> & Hpre)].
      * left. auto.
      * right. split; [lia|].
        exists ((t, l) :: pre), post. split; [reflexivity|].
        intros t' l' [H|H]; [injection H as <- <-; lia | eapply Hpre; exact H].
Qed.

Lemma first_seen_In (l : list string) (t : string) :
  In t (first_seen l) <-> In t l.
Proof.
  induction l as [|x l IH]; [reflexivity|]. cbn [first_seen In].
  rewrite filter_In, IH, negb_true_iff, String.eqb_neq.
  destruct (string_dec x t) as [->|Hne]; [tauto|].
  split; intros [H|H]; try tauto. right. split; [exact H|congruence].
Qed.

Lemma exonic_length_absent (fetched : list (string * Z * Z)) (t : string) :
  ~ In t (map (fun row => fst (fst row)) fetched) -> exonic_length fetched t = 0.
Proof.
  induction fetched as [|[[t' start] stop] rest IH]; [reflexivity|].
  cbn [map fst In exonic_length]. intros H.
  destruct (String.eqb_spec t' t) as [->|_]; [tauto|].
  rewrite IH by tauto. reflexivity.
Qed.

(** Of the two transcripts of length 800 the one met first, [T2], wins;
    the 500 of [T1] loses; a gene without rows resolves to the empty
    string. *)
Example get_transcript_from_gene_examples :
  get_transcript_from_gene db_example "EGFR" = "T2"%string
  /\ transcript_lengths (fetch_gene db_example "EGFR")
     = [("T1"%string, 500); ("T2"%string, 800); ("T3"%string, 800)]
  /\ get_transcript_from_gene db_example "BRCA1" = ""%string.
Proof. repeat split; vm_compute; reflexivity. Qed.

(** ** Backsplice Curve Generator: number of curves (C1) *)

(** C1, as stated, fails: a junction with one read gets the step
    [1 / 2 = 0.5], the only offset below 0.5 is 0.0, and one curve is
    drawn, not two. *)
Lemma plot_circles_one_read_one_curve :
  arange f0_0 f0_5 (B64.of_ratio 1 (1 * 2)) = Ok [f0_0]
  /\ patch_count
       (plot_circles ax_example [(PInt 10, PInt 20, 1)] (dyad 1 (-1)) (PInt 100))
     = Some 1%nat
  /\ patch_count
       (plot_circles ax_example [(PInt 10, PInt 20, 1)] (dyad 1 (-1)) (PInt 100))
     <> Some (Z.to_nat (2 * 1)).
Proof.
  split; [vm_compute; reflexivity|].
  split; [vm_compute; reflexivity|].
  vm_compute. discriminate.
Qed.

(** [B64.ceil] is the ceiling of the value of a finite positive float. *)
Lemma ceil_pos_spec (m : positive) (e : Z) :
  exists n, B64.ceil (S754_finite false m e) = Some n
            /\ (IZR n - 1 < F2R (Zpos m) e <= IZR n)%R.
Proof.
  cbn [B64.ceil]. destruct (Z.leb_spec 0 e) as [He|He].
  - eexists. split; [reflexivity|].
    rewrite <- (F2R_exp0 (Zpos m * 2 ^ e)), F2R_shift by lia.
    replace (0 + e) with e by lia. lra.
  - eexists. split; [reflexivity|].
    set (k := - e). assert (Hk : 0 < k) by (subst k; lia).
    assert (Hp : 0 < 2 ^ k) by (apply Z.pow_pos_nonneg; lia).
    pose proof (Z_div_mod (- Zpos m) (2 ^ k) ltac:(lia)) as Hdm.
    unfold Z.div. destruct (Z.div_eucl (- Zpos m) (2 ^ k)) as [d r].
    destruct Hdm as [Heq Hr].
    assert (Hv : (F2R (Zpos m) e * IZR (2 ^ k) = IZR (Zpos m))%R).
    { unfold F2R. rewrite <- (bpow_IZR k) by lia. rewrite Rmult_assoc, <- bpow_plus.
      replace (e + k) with 0 by (subst k; lia). change (bpow 0) with 1%R. lra. }
    assert (HP : (0 < IZR (2 ^ k))%R) by (apply IZR_lt; lia).
    assert (Hm : (IZR (Zpos m) = - (IZR (2 ^ k) * IZR d + IZR r))%R).
    { rewrite <- mult_IZR, <- plus_IZR, <- opp_IZR. f_equal. lia. }
    assert (Hr0 : (0 <= IZR r)%R) by (apply IZR_le; lia).
    assert (Hr1 : (IZR r < IZR (2 ^ k))%R) by (apply IZR_lt; lia).
    rewrite opp_IZR. split; nra.
Qed.

(** Two binary64 numbers that enclose [1/n] within [1/(n+2)] and
    [1/(n-1)], for an integer [n] of at most 51 bits. *)
Lemma reciprocal_neighbours (n : Z) :
  2 <= n < 2 ^ 51 ->
  exists a b : R,
    format a /\ format b
    /\ (/ IZR (n + 2) <= a <= / IZR n)%R
    /\ (/ IZR n <= b <= / IZR (n - 1))%R.
Proof.
  intros Hn.
  destruct (Zdigits2_bounds n ltac:(lia)) as [[Hlo Hhi] Hd].
  set (d := Zdigits2 n) in *.
  assert (Hd51 : d <= 51).
  { destruct (Z.le_gt_cases d 51) as [|Hgt]; [assumption|].
    assert (2 ^ 51 <= 2 ^ (d - 1)) by (apply Z.pow_le_mono_r; lia). lia. }
  set (k := d + 51).
  assert (Hk : 2 ^ k = 2 ^ 51 * 2 ^ d) by (subst k; rewrite Z.pow_add_r by lia; lia).
  assert (Hk' : 2 ^ k = 2 ^ 52 * 2 ^ (d - 1)).
  { subst k. rewrite <- Z.pow_add_r by lia. f_equal. lia. }
  assert (P51 : 2 ^ 51 = 2251799813685248) by reflexivity.
  assert (P52 : 2 ^ 52 = 4503599627370496) by reflexivity.
  assert (P53 : 2 ^ 53 = 9007199254740992) by reflexivity.
  pose proof (Z_div_mod (2 ^ k) n ltac:(lia)) as Hdm.
  set (M := 2 ^ k / n). unfold Z.div in M.
  destruct (Z.div_eucl (2 ^ k) n) as [M' r] eqn:E. subst M.
  destruct Hdm as [Heq Hr].
  assert (Hpd : 0 < 2 ^ (d - 1)) by (apply Z.pow_pos_nonneg; lia).
  assert (HM1 : 2 ^ 51 <= M') by nia.
  assert (HM2 : M' <= 2 ^ 52) by nia.
  assert (HN : (0 < IZR n)%R) by (apply IZR_lt; lia).
  assert (HN1 : (0 < IZR (n - 1))%R) by (apply IZR_lt; lia).
  assert (HN2 : (0 < IZR (n + 2))%R) by (apply IZR_lt; lia).
  assert (HK : (0 < IZR (2 ^ k))%R).
  { apply IZR_lt. apply Z.pow_pos_nonneg; lia. }
  assert (Hbk : bpow (- k) = (/ IZR (2 ^ k))%R).
  { rewrite <- (bpow_IZR k) by (subst k; lia).
    apply Rmult_eq_reg_l with (bpow k); [|pose proof (bpow_gt_0 k); lra].
    rewrite <- bpow_plus, Rinv_r by (pose proof (bpow_gt_0 k); lra).
    replace (k + - k) with 0 by lia. reflexivity. }
  exists (F2R M' (- k)), (F2R (M' + 1) (- k)).
  split; [apply format_F2R; subst k; lia|].
  split; [apply format_F2R; subst k; lia|].
  unfold F2R. rewrite Hbk.
  assert (Ha1 : 2 ^ k <= M' * (n + 2)) by nia.
  assert (Ha2 : M' * n <= 2 ^ k) by nia.
  assert (Hb1 : 2 ^ k <= (M' + 1) * n) by nia.
  assert (Hb2 : (M' + 1) * (n - 1) <= 2 ^ k) by nia.
  apply IZR_le in Ha1, Ha2, Hb1, Hb2.
  rewrite mult_IZR in Ha1, Ha2, Hb1, Hb2.
  assert (Hdiv : forall p q x : R, (0 < q)%R -> (0 < x)%R ->
            ((q <= p * x)%R -> (/ x <= p * / q)%R)
            /\ ((p * x <= q)%R -> (p * / q <= / x)%R)).
  { intros p q x Hq Hx. split; intros H.
    - apply Rmult_le_reg_r with (q * x)%R; [nra|].
      replace (/ x * (q * x))%R with q by (field; lra).
      replace (p * / q * (q * x))%R with (p * x)%R by (field; lra). exact H.
    - apply Rmult_le_reg_r with (q * x)%R; [nra|].
      replace (/ x * (q * x))%R with q by (field; lra).
      replace (p * / q * (q * x))%R with (p * x)%R by (field; lra). exact H. }
  split; split.
  - apply (proj1 (Hdiv _ _ _ HK HN2)). exact Ha1.
  - apply (proj2 (Hdiv _ _ _ HK HN)). exact Ha2.
  - apply (proj1 (Hdiv _ _ _ HK HN)). exact Hb1.
  - apply (proj2 (Hdiv _ _ _ HK HN1)). exact Hb2.
Qed.

Lemma finish_positive (m' e' : Z) :
  0 <= m' -> (-1074 < e' -> 2 ^ 52 <= m') ->
  (0 < F2R m' e' < bpow 1024)%R ->
  exists p, finish false m' e' = S754_finite false p e' /\ m' = Zpos p.
Proof.
  intros Hm Hcan [Hpos Hlt].
  destruct (finish_cases false m' e' Hm)
    as [[-> _]|[(p & -> & _ & ->)|(H0 & Hbig & _)]].
  - rewrite F2R_0 in Hpos. lra.
  - exists p. auto.
  - exfalso. pose proof (overflow_large m' e' (Hcan ltac:(lia)) Hbig). lra.
Qed.

Lemma Rinv_le (x y : R) : (0 < x)%R -> (x <= y)%R -> (/ y <= / x)%R.
Proof. intros Hx Hxy. apply Rinv_le_contravar; assumption. Qed.

(** The number of depth offsets of a backsplice junction with [c] reads:
    the step is the float nearest to [1/(2c)], the quotient [0.5 / step]
    is rounded again, and its ceiling is [c] or [c + 1]. *)
Lemma backsplice_offsets_count (c : Z) :
  1 <= c < 2 ^ 50 ->
  exists step n,
    py_truediv (PInt 1) (PInt (c * 2)) = Ok (PFloat step)
    /\ arange_length f0_0 f0_5 step = Ok n
    /\ c <= n <= c + 1.
Proof.
  intros Hc.
  assert (P50 : 2 ^ 50 = 1125899906842624) by reflexivity.
  assert (P51 : 2 ^ 51 = 2251799813685248) by reflexivity.
  assert (P53 : 2 ^ 53 = 9007199254740992) by reflexivity.
  assert (P63 : 2 ^ 63 = 9223372036854775808) by reflexivity.
  destruct (reciprocal_neighbours (c * 2) ltac:(lia))
    as (a & b & Fa & Fb & [Ha1 Ha2] & [Hb1 Hb2]).
  assert (Hn2 : (IZR (c * 2) = 2 * IZR c)%R) by (rewrite mult_IZR; lra).
  assert (Hc1 : (1 <= IZR c)%R) by (apply IZR_le; lia).
  assert (Hbig : (bpow 53 < bpow 1024)%R) by (apply bpow_lt; lia).
  assert (Hc53 : (IZR c + 1 <= bpow 53)%R).
  { rewrite (bpow_IZR 53), <- plus_IZR by lia. apply IZR_le. lia. }
  replace (IZR (c * 2 + 2)) with (2 * IZR c + 2)%R in Ha1
    by (rewrite plus_IZR, mult_IZR; lra).
  replace (IZR (c * 2 - 1)) with (2 * IZR c - 1)%R in Hb2
    by (rewrite minus_IZR, mult_IZR; lra).
  rewrite Hn2 in Ha2, Hb1.
  assert (Hapos : (0 < a)%R).
  { apply Rlt_le_trans with (/ (2 * IZR c + 2))%R; [|exact Ha1].
    apply Rinv_0_lt_compat. lra. }
  assert (Hble : (b <= 1)%R).
  { apply Rle_trans with (/ (2 * IZR c - 1))%R; [exact Hb2|].
    rewrite <- Rinv_1. apply Rinv_le; lra. }
  (* the step *)
  unfold py_truediv. destruct (Z.eqb_spec (c * 2) 0) as [|_]; [lia|].
  destruct (c * 2) as [|q|q] eqn:Eq; try lia.
  destruct (of_ratio_pos_spec 1 q)
    as (ms & es & Es & Hms & Hes & Hcans & Hlows & Hups).
  replace (IZR 1 / IZR (Zpos q))%R with (/ (2 * IZR c))%R in Hlows, Hups
    by (rewrite Hn2; field; lra).
  pose proof (Hlows a Fa Ha2) as Hsa. pose proof (Hups b Fb Hb1) as Hsb.
  destruct (finish_positive ms es (proj1 Hms) Hcans) as (p & Ep & ->).
  { assert (bpow 0 < bpow 1024)%R by (apply bpow_lt; lia).
    change (bpow 0) with 1%R in *. lra. }
  rewrite Es, Ep. cbn [B64.is_infinite].
  exists (S754_finite false p es).
  (* the quotient *)
  unfold arange_length.
  change (B64.sub f0_5 f0_0) with (S754_finite false 4503599627370496 (-53)).
  unfold py_truediv, to_float. cbn [bind B64.is_zero].
  destruct (div_finite_spec false false 4503599627370496 p (-53) es)
    as (mq & eq & Eqv & Hmq & Heq & Hcanq & Hlowq & Hupq).
  assert (Hhalf : F2R 4503599627370496 (-53) = (/ 2)%R).
  { change 4503599627370496 with (2 ^ 52). rewrite F2R_bpow by lia.
    change (bpow (-53 + 52)) with (/ (2 * 1))%R. f_equal. lra. }
  rewrite Hhalf in Hlowq, Hupq.
  set (sv := F2R (Zpos p) es) in *.
  assert (Hsv : (0 < sv)%R) by lra.
  assert (HX1 : (IZR c - / 2 <= / 2 / sv)%R).
  { apply Rmult_le_reg_r with sv; [exact Hsv|].
    replace (/ 2 / sv * sv)%R with (/ 2)%R by (field; lra).
    assert (sv * (2 * IZR c - 1) <= 1)%R.
    { apply Rle_trans with (/ (2 * IZR c - 1) * (2 * IZR c - 1))%R.
      - apply Rmult_le_compat_r; lra.
      - rewrite Rinv_l by lra. lra. }
    lra. }
  assert (HX2 : (/ 2 / sv <= IZR c + 1)%R).
  { apply Rmult_le_reg_r with sv; [exact Hsv|].
    replace (/ 2 / sv * sv)%R with (/ 2)%R by (field; lra).
    assert (1 <= sv * (2 * IZR c + 2))%R.
    { apply Rle_trans with (/ (2 * IZR c + 2) * (2 * IZR c + 2))%R.
      - rewrite Rinv_l by lra. lra.
      - apply Rmult_le_compat_r; lra. }
    lra. }
  assert (F1 : format (IZR c - / 2)).
  { replace (IZR c - / 2)%R with (F2R (2 * c - 1) (-1)).
    - apply format_F2R; lia.
    - unfold F2R. rewrite minus_IZR, mult_IZR.
      change (bpow (-1)) with (/ (2 * 1))%R. field. }
  assert (F2 : format (IZR c + 1)).
  { rewrite <- plus_IZR. apply format_IZR. lia. }
  pose proof (Hlowq _ F1 HX1) as HV1. pose proof (Hupq _ F2 HX2) as HV2.
  destruct (finish_positive mq eq (proj1 Hmq) Hcanq) as (pq & Epq & ->); [lra|].
  rewrite Eqv. cbn [xorb]. rewrite Epq. cbn [bind].
  destruct (ceil_pos_spec pq eq) as (n & -> & Hn1 & Hn2').
  assert (Hn : c <= n <= c + 1).
  { split.
    - assert (IZR (c - 1) < IZR n)%R by (rewrite minus_IZR; lra).
      apply lt_IZR in H. lia.
    - assert (IZR n < IZR (c + 2))%R by (rewrite plus_IZR; lra).
      apply lt_IZR in H. lia. }
  exists n. split; [reflexivity|]. split; [|exact Hn].
  unfold intp_min, intp_max.
  destruct (Z.leb_spec (- 2 ^ 63) n); [|lia].
  destruct (Z.leb_spec n (2 ^ 63 - 1)); [|lia].
  reflexivity.
Qed.

Lemma py_sub_float_ok (x : pynum) (q : float) :
  addable x -> exists r, py_sub x (PFloat q) = Ok (PFloat r).
Proof.
  intros Hx. destruct x as [z|f]; cbn [addable] in Hx.
  - unfold py_sub, to_float. rewrite (float_of_int_ok z Hx). cbn [bind]. eauto.
  - cbn. eauto.
Qed.

Lemma py_truediv_by_20 (g : pynum) :
  addable g -> exists r, py_truediv g (PInt 20) = Ok (PFloat r).
Proof.
  intros Hg. destruct g as [z|f]; cbn [addable] in Hg.
  - unfold py_truediv. cbn [Z.eqb].
    rewrite (of_ratio_not_infinite z 20 Hg) by discriminate. eauto.
  - unfold py_truediv, to_float. cbn [bind].
    rewrite (float_of_int_ok 20) by (apply Z.leb_le; vm_compute; reflexivity).
    cbn [bind]. rewrite (of_Z_not_zero 20) by discriminate. eauto.
Qed.

Lemma draw_backsplice_ok (ax : Axes) (start stop y gene_size : pynum)
    (adjust bezier_offset : float) :
  addable start -> addable stop -> addable y -> addable gene_size ->
  exists p,
    draw_backsplice ax start stop y (PFloat adjust) (PFloat bezier_offset)
      gene_size = Ok (add_patch ax p).
Proof.
  intros Hs He Hy Hg. unfold draw_backsplice.
  destruct (py_truediv_by_20 gene_size Hg) as (sa & ->). cbn [bind].
  destruct (py_sub_float_ok start sa Hs) as (x1 & ->). cbn [bind].
  change (py_mul (PFloat bezier_offset)
            (PFloat (B64.sub (snd (ylim ax)) (fst (ylim ax)))))
    with (Ok (PFloat (B64.mul bezier_offset
                        (B64.sub (snd (ylim ax)) (fst (ylim ax)))))).
  cbn [bind].
  destruct (py_sub_float_ok y
              (B64.mul bezier_offset (B64.sub (snd (ylim ax)) (fst (ylim ax))))
              Hy) as (y' & ->).
  cbn [bind].
  change (py_sub (PFloat y') (PFloat adjust))
    with (Ok (PFloat (B64.sub y' adjust))).
  cbn [bind].
  destruct (py_add_float_ok stop sa He) as (x2 & ->). cbn [bind].
  eexists. reflexivity.
Qed.

Lemma draw_backsplice_each_count (start stop y gene_size : pynum)
    (nums : list float) :
  addable start -> addable stop -> addable y -> addable gene_size ->
  forall ax, exists added,
    draw_backsplice_each ax start stop y gene_size nums
    = Ok (mkAxes (xlim ax) (ylim ax) (patches ax ++ added))
    /\ List.length added = List.length nums.
Proof.
  intros Hs He Hy Hg. induction nums as [|num rest IH]; intros ax.
  - exists []. cbn [draw_backsplice_each]. rewrite app_nil_r.
    destruct ax; split; reflexivity.
  - cbn [draw_backsplice_each].
    destruct (draw_backsplice_ok ax start stop y gene_size num f0_15 Hs He Hy Hg)
      as (p & ->).
    cbn [bind]. destruct (IH (add_patch ax p)) as (added & -> & Hlen).
    exists (p :: added). cbn [add_patch xlim ylim patches List.length].
    rewrite <- app_assoc. split; [reflexivity|]. f_equal. exact Hlen.
Qed.

(** A junction draws one curve per depth offset. *)
Lemma plot_circles_body_count (ax : Axes) (start stop y gene_size : pynum)
    (counts : Z) (step : float) (n : Z) :
  addable start -> addable stop -> addable y -> addable gene_size ->
  counts <> 0 ->
  py_truediv (PInt 1) (PInt (counts * 2)) = Ok (PFloat step) ->
  arange_length f0_0 f0_5 step = Ok n ->
  exists added,
    plot_circles_body ax (start, stop, counts) y gene_size
    = Ok (mkAxes (xlim ax) (ylim ax) (patches ax ++ added))
    /\ List.length added = Z.to_nat n.
Proof.
  intros Hs He Hy Hg Hc Hstep Hlen. unfold plot_circles_body.
  destruct (Z.eqb_spec counts 0) as [|_]; [contradiction|]. cbn [negb].
  rewrite Hstep. cbn [bind to_float]. unfold arange. rewrite Hlen. cbn [bind].
  destruct (draw_backsplice_each_count start stop y gene_size
              (map (arange_item f0_0 step) (seq 0 (Z.to_nat n))) Hs He Hy Hg ax)
    as (added & -> & Hadded).
  exists added. split; [reflexivity|].
  rewrite Hadded, length_map, length_seq. reflexivity.
Qed.

(** For up to 48 reads the quotient is exact enough: [count] offsets. *)
Lemma backsplice_offsets_small (c : Z) :
  1 <= c <= 48 ->
  exists step,
    py_truediv (PInt 1) (PInt (c * 2)) = Ok (PFloat step)
    /\ arange_length f0_0 f0_5 step = Ok c.
Proof.
  intros Hc.
  assert (Hall : forallb
            (fun k => match py_truediv (PInt 1) (PInt (k * 2)) with
                      | Ok (PFloat step) =>
                          match arange_length f0_0 f0_5 step with
                          | Ok n => n =? k
                          | Raise _ => false
                          end
                      | _ => false
                      end)
            (map Z.of_nat (seq 1 48)) = true) by (vm_compute; reflexivity).
  rewrite forallb_forall in Hall.
  assert (Hin : In c (map Z.of_nat (seq 1 48))).
  { apply in_map_iff. exists (Z.to_nat c). split; [lia|]. apply in_seq. lia. }
  specialize (Hall c Hin).
  destruct (py_truediv (PInt 1) (PInt (c * 2))) as [[z|step]|e]; try discriminate.
  destruct (arange_length f0_0 f0_5 step) as [n|e] eqn:E; try discriminate.
  apply Z.eqb_eq in Hall. subst n. exists step. auto.
Qed.

(** The offsets of a junction with two reads, and the first count for
    which the rounded quotient exceeds the count: 49 reads, 50 curves. *)
Example plot_circles_offsets :
  arange f0_0 f0_5 (B64.of_ratio 1 (2 * 2))
  = Ok [f0_0; B64.of_ratio 1 4]
  /\ arange_length f0_0 f0_5 (B64.of_ratio 1 (49 * 2)) = Ok 50
  /\ patch_count
       (plot_circles ax_example [(PInt 10, PInt 20, 49)] (dyad 1 (-1)) (PInt 100))
     = Some 50%nat.
Proof. repeat split; vm_compute; reflexivity. Qed.

(** * Further properties of the program *)

(** ** Database queries *)

Lemma fetch_transcript_In (db : database) (transcript : string) (r : coverage_row) :
  In r (fetch_transcript db transcript)
  <-> In r db /\ row_transcript r = transcript.
Proof.
  unfold fetch_transcript. rewrite filter_In.
  split; intros [H1 H2]; (split; [exact H1|]).
  - apply String.eqb_eq. exact H2.
  - apply String.eqb_eq. exact H2.
Qed.

(** A list has more than one distinct item exactly when two of its items
    differ. *)
Lemma distinct_count_gt_1 (l : list string) :
  (1 <? distinct_count l)%nat = true
  <-> exists a b, In a l /\ In b l /\ a <> b.
Proof.
  unfold distinct_count. rewrite Nat.ltb_lt. split.
  - intros H. pose proof (NoDup_nodup string_dec l) as Hnd.
    destruct (nodup string_dec l) as [|a [|b tl]] eqn:E; cbn in H; try lia.
    exists a, b.
    assert (Ha : In a (nodup string_dec l)) by (rewrite E; left; reflexivity).
    assert (Hb : In b (nodup string_dec l))
      by (rewrite E; right; left; reflexivity).
    apply nodup_In in Ha. apply nodup_In in Hb.
    split; [exact Ha|]. split; [exact Hb|].
    inversion Hnd as [|? ? Hnot _]. intros ->. apply Hnot. left. reflexivity.
  - intros (a & b & Ha & Hb & Hab).
    pose proof (NoDup_nodup string_dec l) as Hnd.
    apply (nodup_In string_dec) in Ha. apply (nodup_In string_dec) in Hb.
    destruct (nodup string_dec l) as [|x [|y tl]]; cbn.
    + destruct Ha.
    + destruct Ha as [<-|[]]. destruct Hb as [<-|[]]. contradiction.
    + lia.
Qed.

Lemma get_exons_not_found (db : database) (transcript : string) :
  get_exons db transcript = Stop (SystemExit (ExitMessage "Transcript not found"))
  <-> fetch_transcript db transcript = [].
Proof.
  unfold get_exons.
  destruct (fetch_transcript db transcript) as [|first rest].
  - split; reflexivity.
  - destruct (1 <? distinct_count (map row_chromosome (first :: rest)))%nat;
      split; discriminate.
Qed.

(** X1: [get_exons] ends in one of three ways and never with an
    exception. It exits with "Transcript not found" exactly when the table
    has no row of the transcript, and with status 1 exactly when two rows of
    the transcript lie on different chromosomes. Otherwise it returns the
    start and stop columns of the transcript's rows in table order, the
    chromosome that all the rows share, and the strand of the first row
    (the strands of the other rows are not compared). *)
Theorem get_exons_outcomes (db : database) (transcript : string) :
  (get_exons db transcript
   = Stop (SystemExit (ExitMessage "Transcript not found"))
   <-> fetch_transcript db transcript = [])
  /\ (get_exons db transcript = Stop (SystemExit (ExitCode 1))
      <-> exists r1 r2,
            In r1 (fetch_transcript db transcript)
            /\ In r2 (fetch_transcript db transcript)
            /\ row_chromosome r1 <> row_chromosome r2)
  /\ (forall s, get_exons db transcript = Stop s ->
        s = SystemExit (ExitMessage "Transcript not found")
        \/ s = SystemExit (ExitCode 1))
  /\ (forall chromosome starts stops strand,
        get_exons db transcript = Done (chromosome, starts, stops, strand) ->
        starts = map row_start (fetch_transcript db transcript)
        /\ stops = map row_stop (fetch_transcript db transcript)
        /\ (forall r, In r db -> row_transcript r = transcript ->
                      row_chromosome r = chromosome)
        /\ exists first rest,
             fetch_transcript db transcript = first :: rest
             /\ chromosome = row_chromosome first
             /\ strand = row_strand first).
Proof.
  unfold get_exons.
  destruct (fetch_transcript db transcript) as [|first rest] eqn:E.
  - split; [split; reflexivity|].
    split.
    { split; [discriminate|]. intros (r1 & _ & [] & _). }
    split; [intros s H; injection H as <-; left; reflexivity|].
    intros ? ? ? ?. discriminate.
  - pose proof (distinct_count_gt_1 (map row_chromosome (first :: rest))) as Hd.
    destruct (1 <? distinct_count (map row_chromosome (first :: rest)))%nat.
    + split; [split; discriminate|].
      split.
      { split; [|reflexivity]. intros _.
        destruct (proj1 Hd eq_refl) as (a & b & Ha & Hb & Hab).
        apply in_map_iff in Ha. destruct Ha as (r1 & <- & Hr1).
        apply in_map_iff in Hb. destruct Hb as (r2 & <- & Hr2).
        exists r1, r2. auto. }
      split; [intros s H; injection H as <-; right; reflexivity|].
      intros ? ? ? ?. discriminate.
    + split; [split; discriminate|].
      split.
      { split; [discriminate|]. intros (r1 & r2 & H1 & H2 & Hne).
        assert (false = true); [|discriminate].
        apply Hd. exists (row_chromosome r1), (row_chromosome r2).
        split; [apply in_map; exact H1|]. split; [apply in_map; exact H2|].
        exact Hne. }
      split; [discriminate|].
      intros chromosome starts stops strand H. injection H as <- <- <- <-.
      split; [reflexivity|]. split; [reflexivity|].
      split; [|exists first, rest; auto].
      intros r Hr Ht.
      destruct (string_dec (row_chromosome r) (row_chromosome first))
        as [Heq|Hne]; [exact Heq|].
      assert (false = true); [|discriminate].
      apply Hd. exists (row_chromosome r), (row_chromosome first).
      split.
      { apply in_map. rewrite <- E. apply fetch_transcript_In. auto. }
      split; [left; reflexivity | exact Hne].
Qed.

Lemma exonic_length_positive_In (fetched : list (string * Z * Z)) (t : string) :
  0 < exonic_length fetched t -> In t (map (fun row => fst (fst row)) fetched).
Proof.
  induction fetched as [|[[t' a] b] rest IH]; cbn [exonic_length map fst]; [lia|].
  destruct (String.eqb_spec t' t) as [->|Hne]; intros H.
  - left. reflexivity.
  - right. apply IH. lia.
Qed.

(** The resolver's answer when a transcript has a positive length: a
    transcript of a row of the gene. *)
Lemma resolved_transcript_has_row (db : database) (gene t : string) :
  0 < exonic_length (fetch_gene db gene) t ->
  exists r, In r db /\ row_gene r = gene
            /\ row_transcript r = get_transcript_from_gene db gene.
Proof.
  intros Hpos. unfold get_transcript_from_gene.
  destruct (longest_loop_spec (transcript_lengths (fetch_gene db gene)) 0
              EmptyString) as (m & r & E & Hm & Hall & Hcase).
  rewrite E. cbn [snd]. rewrite transcript_lengths_spec in Hall, Hcase.
  assert (Hin : In t (fetched_transcripts (fetch_gene db gene))).
  { unfold fetched_transcripts. apply (proj2 (first_seen_In _ _)).
    apply exonic_length_positive_In. exact Hpos. }
  assert (Hle : exonic_length (fetch_gene db gene) t <= m).
  { apply (Hall t). apply in_map_iff. exists t. auto. }
  destruct Hcase as [[-> _]|(_ & pre & post & Hitems & _)]; [lia|].
  assert (Hr : In (r, m) (map (fun t0 => (t0, exonic_length (fetch_gene db gene) t0))
                            (fetched_transcripts (fetch_gene db gene)))).
  { rewrite Hitems. apply in_or_app. right. left. reflexivity. }
  apply in_map_iff in Hr. destruct Hr as (t0 & Heq & Ht0). injection Heq as -> _.
  unfold fetched_transcripts in Ht0. apply (proj1 (first_seen_In _ _)) in Ht0.
  apply in_map_iff in Ht0.
  destruct Ht0 as (row & Hrow & Hinrow).
  unfold fetch_gene in Hinrow. apply in_map_iff in Hinrow.
  destruct Hinrow as (cr & <- & Hcr). apply filter_In in Hcr.
  destruct Hcr as [Hdb Hg]. apply String.eqb_eq in Hg.
  exists cr. cbn [fst] in Hrow. auto.
Qed.

(** X2: when some transcript of the gene has a positive summed length, the
    transcript that [get_transcript_from_gene] returns is the transcript
    of a row of that gene, so [get_exons] on the same table finds rows for
    it and does not exit with "Transcript not found". *)
Theorem get_exons_of_resolved_gene (db : database) (gene t : string) :
  0 < exonic_length (fetch_gene db gene) t ->
  (exists r, In r db /\ row_gene r = gene
             /\ row_transcript r = get_transcript_from_gene db gene)
  /\ fetch_transcript db (get_transcript_from_gene db gene) <> []
  /\ get_exons db (get_transcript_from_gene db gene)
     <> Stop (SystemExit (ExitMessage "Transcript not found")).
Proof.
  intros Hpos.
  destruct (resolved_transcript_has_row db gene t Hpos) as (r & Hdb & Hg & Ht).
  assert (Hne : fetch_transcript db (get_transcript_from_gene db gene) <> []).
  { intros E.
    assert (Hin : In r (fetch_transcript db (get_transcript_from_gene db gene)))
      by (apply fetch_transcript_In; auto).
    rewrite E in Hin. destruct Hin. }
  split; [exists r; auto|]. split; [exact Hne|].
  intros H. apply Hne.
  apply (proj1 (get_exons_not_found db (get_transcript_from_gene db gene))).
  exact H.
Qed.

Lemma get_exons_of_resolved_gene_witness :
  0 < exonic_length (fetch_gene db_example "EGFR") "T2"
  /\ get_exons db_example (get_transcript_from_gene db_example "EGFR")
     <> Stop (SystemExit (ExitMessage "Transcript not found")).
Proof.
  assert (H : 0 < exonic_length (fetch_gene db_example "EGFR") "T2")
    by (vm_compute; reflexivity).
  split; [exact H|].
  exact (proj2 (proj2 (get_exons_of_resolved_gene db_example "EGFR" "T2" H))).
Defined.

Lemma get_transcript_from_gene_empty (db : database) (gene : string) :
  (forall t, exonic_length (fetch_gene db gene) t <= 0) ->
  get_transcript_from_gene db gene = EmptyString.
Proof.
  intros Hall. unfold get_transcript_from_gene.
  destruct (longest_loop_spec (transcript_lengths (fetch_gene db gene)) 0
              EmptyString) as (m & r & E & Hm & _ & Hcase).
  rewrite E. cbn [snd].
  destruct Hcase as [[_ ->]|(Hlt & pre & post & Hitems & _)]; [reflexivity|].
  exfalso. rewrite transcript_lengths_spec in Hitems.
  assert (Hr : In (r, m)
                 (map (fun t0 => (t0, exonic_length (fetch_gene db gene) t0))
                    (fetched_transcripts (fetch_gene db gene)))).
  { rewrite Hitems. apply in_or_app. right. left. reflexivity. }
  apply in_map_iff in Hr. destruct Hr as (t0 & Heq & _).
  injection Heq as _ Hlen. specialize (Hall t0). lia.
Qed.

(** X3: when no transcript of the gene has a positive summed length, in
    particular when the table has no row of the gene, the resolver returns
    the empty string; [get_exons] then exits with "Transcript not found"
    unless the table has rows whose transcript is the empty string. *)
Theorem get_transcript_from_gene_nothing_positive (db : database) (gene : string) :
  (forall t, exonic_length (fetch_gene db gene) t <= 0) ->
  get_transcript_from_gene db gene = EmptyString
  /\ (fetch_transcript db EmptyString = [] ->
      get_exons db (get_transcript_from_gene db gene)
      = Stop (SystemExit (ExitMessage "Transcript not found"))).
Proof.
  intros Hall.
  pose proof (get_transcript_from_gene_empty db gene Hall) as E.
  split; [exact E|]. rewrite E. intros Hnone.
  apply (proj2 (get_exons_not_found db EmptyString)). exact Hnone.
Qed.

Lemma exonic_length_nil (t : string) : exonic_length [] t = 0.
Proof. reflexivity. Qed.

Lemma get_transcript_from_gene_nothing_positive_witness :
  get_transcript_from_gene db_example "BRCA1" = EmptyString
  /\ get_exons db_example (get_transcript_from_gene db_example "BRCA1")
     = Stop (SystemExit (ExitMessage "Transcript not found")).
Proof.
  assert (H : forall t, exonic_length (fetch_gene db_example "BRCA1") t <= 0).
  { intros t. change (fetch_gene db_example "BRCA1") with (@nil (string * Z * Z)).
    rewrite exonic_length_nil. lia. }
  destruct (get_transcript_from_gene_nothing_positive db_example "BRCA1" H)
    as [H1 H2].
  split; [exact H1|]. apply H2. reflexivity.
Defined.

Lemma get_coverage_length (db : database) (transcript : string) :
  List.length (get_coverage db transcript)
  = List.length (fetch_transcript db transcript).
Proof. unfold get_coverage. apply length_map. Qed.

(** [get_sj] keeps the junctions of the chromosome and strand that lie in
    the window, in table order. *)
Lemma get_sj_In (table : list junction_row) (chromosome strand : string)
    (start stop : Z) (j : junction) :
  In j (get_sj table chromosome start stop strand)
  <-> exists r, In r table
                /\ j = (PInt (sj_start r), PInt (sj_stop r), sj_counts r)
                /\ sj_chromosome r = chromosome /\ sj_strand r = strand
                /\ start <= sj_start r /\ sj_stop r <= stop.
Proof.
  unfold get_sj. rewrite in_map_iff. split.
  - intros (r & <- & Hr). apply filter_In in Hr. destruct Hr as [Hin Hc].
    apply andb_prop in Hc. destruct Hc as [Hc Hs].
    apply andb_prop in Hc. destruct Hc as [Hc Hb].
    apply andb_prop in Hc. destruct Hc as [Hc Ha].
    exists r. split; [exact Hin|]. split; [reflexivity|].
    split; [apply String.eqb_eq; exact Hc|].
    split; [apply String.eqb_eq; exact Hs|]. lia.
  - intros (r & Hin & -> & Hc & Hs & Ha & Hb).
    exists r. split; [reflexivity|]. apply filter_In. split; [exact Hin|].
    rewrite (proj2 (String.eqb_eq _ _) Hc), (proj2 (String.eqb_eq _ _) Hs).
    rewrite (proj2 (Z.leb_le _ _) Ha), (proj2 (Z.leb_le _ _) Hb). reflexivity.
Qed.

(** ** The exon list of the script and the range transform *)

Lemma insert_sorted_perm (a : Z * Z) (l : list (Z * Z)) :
  forall x, In x (insert_sorted a l) <-> x = a \/ In x l.
Proof.
  induction l as [|b tl IH]; intros x; cbn [insert_sorted].
  - cbn. intuition.
  - destruct (pair_leb a b); cbn [In].
    + intuition.
    + rewrite IH. intuition.
Qed.

Lemma sorted_In (l : list (Z * Z)) (x : Z * Z) : In x (sorted l) <-> In x l.
Proof.
  unfold sorted. induction l as [|a tl IH]; cbn [fold_right In]; [tauto|].
  rewrite insert_sorted_perm, IH. intuition.
Qed.

Lemma insert_sorted_length (a : Z * Z) (l : list (Z * Z)) :
  List.length (insert_sorted a l) = S (List.length l).
Proof.
  induction l as [|b tl IH]; cbn [insert_sorted]; [reflexivity|].
  destruct (pair_leb a b); cbn [List.length]; [reflexivity|].
  rewrite IH. reflexivity.
Qed.

Lemma sorted_length (l : list (Z * Z)) :
  List.length (sorted l) = List.length l.
Proof.
  unfold sorted. induction l as [|a tl IH]; cbn [fold_right]; [reflexivity|].
  rewrite insert_sorted_length, IH. reflexivity.
Qed.

(** The first tuple of a sorted list has the least first component. *)
Lemma insert_sorted_head (a : Z * Z) (l : list (Z * Z)) (h : Z * Z) :
  (forall x, In x l -> fst h <= fst x) -> hd_error l = Some h \/ l = [] ->
  exists h', hd_error (insert_sorted a l) = Some h'
             /\ forall x, In x (insert_sorted a l) -> fst h' <= fst x.
Proof.
  intros Hmin Hhd. destruct l as [|b tl]; cbn [insert_sorted].
  - exists a. split; [reflexivity|]. intros x [<-|[]]. lia.
  - destruct Hhd as [Hhd|Hhd]; [|discriminate]. injection Hhd as ->.
    unfold pair_leb. destruct (Z.ltb_spec (fst a) (fst h)) as [Hlt|Hge].
    + cbn [orb]. exists a. split; [reflexivity|].
      intros x [<-|Hx]; [lia|]. specialize (Hmin x Hx). lia.
    + cbn [orb]. destruct (Z.eqb_spec (fst a) (fst h)) as [Heq|Hne].
      * destruct (snd a <=? snd h); cbn [andb].
        -- exists a. split; [reflexivity|].
           intros x [<-|Hx]; [lia|]. specialize (Hmin x Hx). lia.
        -- exists h. split; [reflexivity|].
           intros x [<-|Hx]; [lia|].
           apply insert_sorted_perm in Hx. destruct Hx as [->|Hx]; [lia|].
           apply Hmin. right. exact Hx.
      * cbn [andb]. exists h. split; [reflexivity|].
        intros x [<-|Hx]; [lia|].
        apply insert_sorted_perm in Hx. destruct Hx as [->|Hx]; [lia|].
        apply Hmin. right. exact Hx.
Qed.

Lemma sorted_head (l : list (Z * Z)) :
  l <> [] ->
  exists h tl, sorted l = h :: tl /\ forall x, In x l -> fst h <= fst x.
Proof.
  intros Hne.
  assert (H : forall l, l = [] /\ sorted l = []
                        \/ exists h, hd_error (sorted l) = Some h
                             /\ forall x, In x (sorted l) -> fst h <= fst x).
  { clear. induction l as [|a tl IH]; [left; auto|]. right.
    change (sorted (a :: tl)) with (insert_sorted a (sorted tl)).
    destruct IH as [[-> ->]|(h & Hh & Hmin)].
    - exists a. split; [reflexivity|]. intros x [<-|[]]. lia.
    - apply (insert_sorted_head a (sorted tl) h Hmin). left. exact Hh. }
  destruct (H l) as [[-> _]|(h & Hh & Hmin)]; [contradiction|].
  destruct (sorted l) as [|h' tl] eqn:E; [discriminate|].
  injection Hh as ->. exists h, tl. split; [reflexivity|].
  intros x Hx. apply Hmin. rewrite <- E. apply sorted_In. exact Hx.
Qed.

Lemma fold_min_spec (tl : list Z) (x : Z) :
  (fold_left Z.min tl x = x \/ In (fold_left Z.min tl x) tl)
  /\ fold_left Z.min tl x <= x
  /\ forall y, In y tl -> fold_left Z.min tl x <= y.
Proof.
  revert x. induction tl as [|a tl IH]; intros x; cbn [fold_left In].
  - split; [left; reflexivity|]. split; [lia|]. intros y [].
  - destruct (IH (Z.min x a)) as (Hin & Hle & Hall).
    split.
    { destruct Hin as [->|Hin]; [|right; right; exact Hin].
      destruct (Z.min_spec x a) as [[_ ->]|[_ ->]]; [left|right; left];
        reflexivity. }
    split; [lia|].
    intros y [<-|Hy]; [lia|]. apply Hall. exact Hy.
Qed.

Lemma fold_max_spec (tl : list Z) (x : Z) :
  (fold_left Z.max tl x = x \/ In (fold_left Z.max tl x) tl)
  /\ x <= fold_left Z.max tl x
  /\ forall y, In y tl -> y <= fold_left Z.max tl x.
Proof.
  revert x. induction tl as [|a tl IH]; intros x; cbn [fold_left In].
  - split; [left; reflexivity|]. split; [lia|]. intros y [].
  - destruct (IH (Z.max x a)) as (Hin & Hle & Hall).
    split.
    { destruct Hin as [->|Hin]; [|right; right; exact Hin].
      destruct (Z.max_spec x a) as [[_ ->]|[_ ->]]; [right; left|left];
        reflexivity. }
    split; [lia|].
    intros y [<-|Hy]; [lia|]. apply Hall. exact Hy.
Qed.

Lemma min_int_spec (l : list Z) (m : Z) :
  min_int l = Ok m -> In m l /\ forall y, In y l -> m <= y.
Proof.
  destruct l as [|x tl]; [discriminate|]. cbn [min_int]. intros H.
  injection H as <-. destruct (fold_min_spec tl x) as (Hin & Hle & Hall).
  split.
  - destruct Hin as [->|Hin]; [left; reflexivity|right; exact Hin].
  - intros y [<-|Hy]; [exact Hle|apply Hall; exact Hy].
Qed.

Lemma max_int_spec (l : list Z) (m : Z) :
  max_int l = Ok m -> In m l /\ forall y, In y l -> y <= m.
Proof.
  destruct l as [|x tl]; [discriminate|]. cbn [max_int]. intros H.
  injection H as <-. destruct (fold_max_spec tl x) as (Hin & Hle & Hall).
  split.
  - destruct Hin as [->|Hin]; [left; reflexivity|right; exact Hin].
  - intros y [<-|Hy]; [exact Hle|apply Hall; exact Hy].
Qed.

Lemma transform_scan_cons2 (a b : pynum) (tl : list pynum) (q : pynum) (i : nat) :
  transform_scan (a :: b :: tl) q i
  = if py_le a q && py_le q b then Some (i, a, b)
    else match transform_scan (b :: tl) q (S i) with
         | Some r => Some r
         | None => Some (i, a, b)
         end.
Proof. reflexivity. Qed.

(** On ints the scan of [transform] stops at a segment that holds the
    query when the first breakpoint is not above it and a later one is not
    below it. *)
Lemma transform_scan_ints (rest : list Z) :
  forall (a q : Z) (i : nat),
    a <= q -> (exists b, In b rest /\ q <= b) ->
    exists k l r,
      transform_scan (map PInt (a :: rest)) (PInt q) i = Some (k, PInt l, PInt r)
      /\ l <= q <= r /\ (i <= k < i + List.length rest)%nat
      /\ nth_error (a :: rest) (k - i) = Some l
      /\ nth_error (a :: rest) (S (k - i)) = Some r.
Proof.
  induction rest as [|b tl IH]; intros a q i Ha (b' & Hb' & Hq); [destruct Hb'|].
  change (map PInt (a :: b :: tl)) with (PInt a :: PInt b :: map PInt tl).
  rewrite transform_scan_cons2, !py_le_int.
  destruct (Z.leb_spec a q) as [_|Hlt]; [|lia].
  destruct (Z.leb_spec q b) as [Hqb|Hbq]; cbn [andb].
  - exists i, a, b. split; [reflexivity|]. split; [lia|].
    cbn [List.length]. split; [lia|]. rewrite Nat.sub_diag. split; reflexivity.
  - destruct Hb' as [<-|Hb']; [lia|].
    destruct (IH b q (S i) ltac:(lia) (ex_intro _ b' (conj Hb' Hq)))
      as (k & l & r & E & Hlr & Hk & Hn1 & Hn2).
    change (PInt b :: map PInt tl) with (map PInt (b :: tl)). rewrite E.
    exists k, l, r. split; [reflexivity|]. split; [exact Hlr|].
    cbn [List.length]. split; [lia|].
    replace (k - i)%nat with (S (k - S i)) by lia.
    split; [exact Hn1 | exact Hn2].
Qed.

Lemma flatten_ints (l : list (Z * Z)) :
  flatten (map (fun se => ints (fst se) (snd se)) l)
  = map PInt (flat_map (fun se => [fst se; snd se]) l).
Proof.
  unfold flatten. induction l as [|[a b] tl IH]; [reflexivity|].
  cbn [map flat_map app fst snd]. rewrite IH. reflexivity.
Qed.

Lemma combine_fst_In (starts stops : list Z) (p : Z * Z) :
  In p (combine starts stops) -> In (fst p) starts /\ In (snd p) stops.
Proof.
  destruct p as [a b]. intros H. split.
  - exact (in_combine_l _ _ _ _ H).
  - exact (in_combine_r _ _ _ _ H).
Qed.

Lemma combine_In_r (starts stops : list Z) (b : Z) :
  List.length starts = List.length stops -> In b stops ->
  exists a, In (a, b) (combine starts stops).
Proof.
  revert stops. induction starts as [|a tl IH]; intros [|b' stops] Hlen Hb;
    cbn in Hlen; try discriminate; [destruct Hb|].
  destruct Hb as [<-|Hb].
  - exists a. left. reflexivity.
  - destruct (IH stops ltac:(lia) Hb) as (a' & Ha'). exists a'. right. exact Ha'.
Qed.

(** X4: a query between the least start and the greatest stop of the
    exons falls in a segment of the sorted exon list: the scan of
    [transform] over the breakpoints stops at two neighbouring breakpoints
    [l <= q <= r], found by [break] and not by running off the list. *)
Theorem transform_scan_within_transcript (starts stops : list Z)
    (transcript_start transcript_stop q : Z) :
  List.length starts = List.length stops ->
  min_int starts = Ok transcript_start ->
  max_int stops = Ok transcript_stop ->
  transcript_start <= q <= transcript_stop ->
  exists i l r,
    transform_scan
      (flatten (map (fun se => ints (fst se) (snd se))
                  (sorted (combine starts stops))))
      (PInt q) 0
    = Some (i, PInt l, PInt r)
    /\ l <= q <= r
    /\ (i + 1 < 2 * List.length starts)%nat.
Proof.
  intros Hlen Hmin Hmax Hq.
  destruct (min_int_spec starts transcript_start Hmin) as [Hmin_in Hmin_le].
  destruct (max_int_spec stops transcript_stop Hmax) as [Hmax_in Hmax_le].
  assert (Hne : combine starts stops <> []).
  { destruct starts as [|a starts]; [destruct Hmin_in|].
    destruct stops as [|b stops]; [discriminate|]. discriminate. }
  destruct (sorted_head (combine starts stops) Hne) as (h & tl & Es & Hh).
  destruct (combine_In_r starts stops transcript_stop Hlen Hmax_in) as (a0 & Ha0).
  rewrite flatten_ints, Es. cbn [flat_map app].
  assert (Hh_in : In h (combine starts stops)).
  { apply sorted_In. rewrite Es. left. reflexivity. }
  assert (Hstart : fst h <= q).
  { destruct (combine_fst_In starts stops h Hh_in) as [Hs _].
    assert (fst h <= transcript_start); [|lia].
    assert (Hex : exists b, In (transcript_start, b) (combine starts stops)).
    { clear - Hlen Hmin_in. revert stops Hlen.
      induction starts as [|a tl IH]; intros [|b stops] Hlen;
        cbn in Hlen; try discriminate; [destruct Hmin_in|].
      destruct Hmin_in as [<-|Hin].
      - exists b. left. reflexivity.
      - destruct (IH Hin stops ltac:(lia)) as (b' & Hb'). exists b'. right.
        exact Hb'. }
    destruct Hex as (b & Hb). exact (Hh _ Hb). }
  assert (Hlater : exists b, In b (snd h :: flat_map (fun se => [fst se; snd se]) tl)
                             /\ q <= b).
  { exists transcript_stop. split; [|lia].
    assert (Hs : In (a0, transcript_stop) (h :: tl))
      by (rewrite <- Es; apply sorted_In; exact Ha0).
    destruct Hs as [->|Hs]; [left; reflexivity|].
    right. apply in_flat_map. exists (a0, transcript_stop).
    split; [exact Hs|]. right. left. reflexivity. }
  destruct (transform_scan_ints _ (fst h) q 0%nat Hstart Hlater)
    as (k & l & r & E & Hlr & Hk & _ & _).
  exists k, l, r. split; [exact E|]. split; [exact Hlr|].
  assert (Hlen2 : List.length (flat_map (fun se : Z * Z => [fst se; snd se]) tl)
                  = (2 * List.length tl)%nat).
  { clear. induction tl as [|x tl IH]; [reflexivity|].
    cbn [flat_map app List.length]. rewrite IH. lia. }
  cbn [List.length] in Hk. rewrite Hlen2 in Hk.
  assert (Hl : List.length (h :: tl) = List.length starts).
  { rewrite <- Es, sorted_length, length_combine. lia. }
  cbn [List.length] in Hl. lia.
Qed.

Lemma transform_scan_within_transcript_witness :
  exists i l r,
    transform_scan
      (flatten (map (fun se => ints (fst se) (snd se))
                  (sorted (combine [300; 100] [350; 150]))))
      (PInt 200) 0
    = Some (i, PInt l, PInt r)
    /\ l <= 200 <= r
    /\ (i + 1 < 2 * List.length [300; 100])%nat.
Proof.
  apply (transform_scan_within_transcript [300; 100] [350; 150] 100 350 200);
    [reflexivity | reflexivity | reflexivity | lia].
Defined.

(** ** Mapping the junctions onto the scaled exons *)

Lemma within_weaken (b1 b2 : Z) (x : pynum) :
  b1 <= b2 -> within b1 x -> within b2 x.
Proof. destruct x; cbn; [lia|auto]. Qed.

Lemma within_addable (b : Z) (x : pynum) :
  b <= 2 ^ 1023 -> within b x -> addable x.
Proof. destruct x; cbn; [lia|auto]. Qed.

Lemma to_float_within (x : pynum) :
  within (2 ^ 1023) x -> exists f, to_float x = Ok f.
Proof.
  destruct x as [z|f]; cbn [within to_float]; intros H.
  - rewrite (float_of_int_ok z H). eauto.
  - eauto.
Qed.

Lemma py_sub_within (b : Z) (x y : pynum) :
  0 <= b -> 2 * b <= 2 ^ 1023 -> within b x -> within b y ->
  exists d, py_sub x y = Ok d /\ within (2 * b) d.
Proof.
  intros Hb0 Hb Hx Hy. destruct x as [a|f], y as [c|g]; cbn [within] in *.
  - exists (PInt (a - c)). split; [reflexivity|]. cbn [within]. lia.
  - unfold py_sub, to_float. rewrite (float_of_int_ok a ltac:(lia)).
    cbn [bind]. eexists. split; [reflexivity|exact I].
  - unfold py_sub, to_float. cbn [bind]. rewrite (float_of_int_ok c ltac:(lia)).
    cbn [bind]. eexists. split; [reflexivity|exact I].
  - eexists. split; [reflexivity|exact I].
Qed.

Lemma py_mul_within (b1 b2 : Z) (d : Z) (y : pynum) :
  0 <= b1 -> 0 <= b2 -> b1 <= 2 ^ 1023 -> b2 <= 2 ^ 1023 ->
  Z.abs d <= b1 -> within b2 y ->
  exists p, py_mul (PInt d) y = Ok p /\ within (b1 * b2) p.
Proof.
  intros H1 H2 H1' H2' Hd Hy. destruct y as [c|g]; cbn [within] in *.
  - exists (PInt (d * c)). split; [reflexivity|]. cbn [within]. rewrite Z.abs_mul.
    apply Z.mul_le_mono_nonneg; try apply Z.abs_nonneg; assumption.
  - unfold py_mul, to_float. rewrite (float_of_int_ok d ltac:(lia)).
    cbn [bind]. eexists. split; [reflexivity|exact I].
Qed.

Lemma py_truediv_within (p : pynum) (o : Z) :
  within (2 ^ 1023) p -> Z.abs o <= 2 ^ 1023 -> o <> 0 ->
  exists q, py_truediv p (PInt o) = Ok (PFloat q).
Proof.
  intros Hp Ho Hne. destruct p as [z|f]; cbn [within] in Hp.
  - unfold py_truediv. rewrite (proj2 (Z.eqb_neq o 0) Hne).
    rewrite (of_ratio_not_infinite z o Hp Hne). eauto.
  - unfold py_truediv, to_float. cbn [bind].
    rewrite (float_of_int_ok o Ho). cbn [bind].
    rewrite (of_Z_not_zero o Hne). eauto.
Qed.

(** The scan stops at two neighbouring breakpoints whenever the list has
    at least two, with or without a segment that holds the query. *)
Lemma transform_scan_some (l : list pynum) :
  forall (q : pynum) (i0 : nat),
    (2 <= List.length l)%nat ->
    exists k left_ right_,
      transform_scan l q i0 = Some (k, left_, right_)
      /\ (i0 <= k)%nat /\ (k - i0 + 1 < List.length l)%nat
      /\ nth_error l (k - i0) = Some left_
      /\ nth_error l (k - i0 + 1) = Some right_.
Proof.
  induction l as [|a l IH]; intros q i0 Hlen; [cbn in Hlen; lia|].
  destruct l as [|b tl]; [cbn in Hlen; lia|].
  rewrite transform_scan_cons2.
  assert (Hhere : exists k left_ right_,
            Some (i0, a, b) = Some (k, left_, right_)
            /\ (i0 <= k)%nat /\ (k - i0 + 1 < List.length (a :: b :: tl))%nat
            /\ nth_error (a :: b :: tl) (k - i0) = Some left_
            /\ nth_error (a :: b :: tl) (k - i0 + 1) = Some right_).
  { exists i0, a, b. split; [reflexivity|]. split; [lia|].
    cbn [List.length]. split; [lia|]. rewrite Nat.sub_diag. split; reflexivity. }
  destruct (py_le a q && py_le q b); [exact Hhere|].
  destruct tl as [|c tl'].
  - cbn [transform_scan]. exact Hhere.
  - destruct (IH q (S i0) ltac:(cbn [List.length]; lia))
      as (k & x & y & -> & Hk & Hlt & Hx & Hy).
    exists k, x, y. split; [reflexivity|]. split; [lia|].
    cbn [List.length] in *. split; [lia|].
    replace (k - i0)%nat with (S (k - S i0)) by lia.
    split; [exact Hx | exact Hy].
Qed.

Lemma index_nth_error {A : Type} (l : list A) (i : nat) (a : A) :
  nth_error l i = Some a -> index l i = Ok a.
Proof. unfold index. intros ->. reflexivity. Qed.

Lemma Forall_nth_error {A : Type} (P : A -> Prop) (l : list A) (i : nat) (a : A) :
  Forall P l -> nth_error l i = Some a -> P a.
Proof.
  intros H Hn. rewrite Forall_forall in H. apply H.
  apply (nth_error_In l i Hn).
Qed.

Lemma flatten_length (l : list span) :
  List.length (flatten l) = (2 * List.length l)%nat.
Proof.
  unfold flatten. induction l as [|x tl IH]; [reflexivity|].
  cbn [flat_map app List.length]. rewrite IH. lia.
Qed.

Lemma flatten_within (b : Z) (l : list span) :
  Forall (fun sp => within b (fst sp) /\ within b (snd sp)) l ->
  Forall (within b) (flatten l).
Proof.
  unfold flatten. induction 1 as [|x tl [H1 H2] _ IH]; [constructor|].
  cbn [flat_map app]. constructor; [exact H1|]. constructor; [exact H2|exact IH].
Qed.

Lemma flatten_int_spans (b : Z) (l : list span) :
  Forall (int_span_within b) l ->
  Forall (fun x => exists z, x = PInt z /\ Z.abs z <= b) (flatten l).
Proof.
  unfold flatten. induction 1 as [|x tl (a & c & -> & Ha & Hc) _ IH];
    [constructor|].
  cbn [flat_map app fst snd]. constructor; [eauto|]. constructor; [eauto|exact IH].
Qed.

(** [transform] returns a number whenever the original exons are ints, the
    scaled list is as long as the original one and the query is an int, all
    of magnitude at most [2^53]. *)
Lemma transform_returns (original scaled : list span) (q : Z) :
  original <> [] ->
  Forall (int_span_within (2 ^ 53)) original ->
  List.length scaled = List.length original ->
  Forall (fun sp => within (2 ^ 53) (fst sp) /\ within (2 ^ 53) (snd sp)) scaled ->
  Z.abs q <= 2 ^ 53 ->
  exists v, transform original scaled (PInt q) = Ok v.
Proof.
  intros Hne Hints Hlen Hsc Hq.
  assert (P53 : 2 ^ 53 = 9007199254740992) by reflexivity.
  assert (P1023 : 2 ^ 108 <= 2 ^ 1023) by (apply Z.pow_le_mono_r; lia).
  assert (P108 : 2 ^ 108 = 2 ^ 54 * 2 ^ 54) by reflexivity.
  assert (P54 : 2 ^ 54 = 2 * 2 ^ 53) by reflexivity.
  assert (P54pos : 0 < 2 ^ 54) by reflexivity.
  assert (P54le : 2 ^ 54 <= 2 ^ 1023) by (apply Z.pow_le_mono_r; lia).
  unfold transform.
  assert (Hlo : (2 <= List.length (flatten original))%nat).
  { rewrite flatten_length. destruct original; [contradiction|].
    cbn [List.length]. lia. }
  destruct (transform_scan_some (flatten original) (PInt q) 0%nat Hlo)
    as (i & left_ & right_ & -> & _ & Hi & Hl & Hr).
  rewrite Nat.sub_0_r in Hi, Hl, Hr.
  destruct (Forall_nth_error _ _ _ _ (flatten_int_spans _ _ Hints) Hl)
    as (l & -> & Hlb).
  destruct (Forall_nth_error _ _ _ _ (flatten_int_spans _ _ Hints) Hr)
    as (r & -> & Hrb).
  assert (Hlen' : List.length (flatten scaled) = List.length (flatten original)).
  { rewrite !flatten_length. lia. }
  pose proof (flatten_within _ _ Hsc) as Hgood.
  assert (Hidx : forall k, (k < List.length (flatten scaled))%nat ->
            exists x, index (flatten scaled) k = Ok x /\ within (2 ^ 53) x).
  { intros k Hk. destruct (nth_error (flatten scaled) k) as [x|] eqn:E.
    - exists x. split; [apply index_nth_error; exact E|].
      apply (Forall_nth_error _ _ _ _ Hgood E).
    - apply nth_error_None in E. lia. }
  assert (Hpair : exists n_left n_right,
            (if (i + 2 <? List.length (flatten scaled))%nat
             then a <- index (flatten scaled) i ;;
                  b <- index (flatten scaled) (i + 1) ;; Ok (a, b)
             else a <- index (flatten scaled) i ;; Ok (a, PInt q))
            = Ok (n_left, n_right)
            /\ within (2 ^ 53) n_left /\ within (2 ^ 53) n_right).
  { destruct (Hidx i ltac:(lia)) as (x & Ex & Hx).
    destruct (Hidx (i + 1)%nat ltac:(lia)) as (y & Ey & Hy).
    destruct (i + 2 <? List.length (flatten scaled))%nat.
    - rewrite Ex. cbn [bind]. rewrite Ey. cbn [bind]. exists x, y. auto.
    - rewrite Ex. cbn [bind]. exists x, (PInt q). auto. }
  destruct Hpair as (n_left & n_right & -> & Hnl & Hnr). cbn [bind].
  destruct (py_sub_within (2 ^ 53) n_right n_left ltac:(lia) ltac:(lia) Hnr Hnl)
    as (n_range & -> & Hrange).
  cbn [bind]. change (py_sub (PInt r) (PInt l)) with (Ok (PInt (r - l))).
  cbn [bind]. rewrite py_eq_int.
  destruct (Z.eqb_spec (r - l) 0) as [_|Hne0]; [eauto|].
  change (py_sub (PInt q) (PInt l)) with (Ok (PInt (q - l))). cbn [bind].
  destruct (py_mul_within (2 ^ 54) (2 ^ 54) (q - l) n_range ltac:(lia) ltac:(lia)
              ltac:(lia) ltac:(lia) ltac:(lia)
              ltac:(rewrite P54; exact Hrange))
    as (p & -> & Hp).
  cbn [bind].
  destruct (py_truediv_within p (r - l)
              (within_weaken (2 ^ 54 * 2 ^ 54) (2 ^ 1023) p
                 ltac:(rewrite <- P108; exact P1023) Hp)
              ltac:(lia) Hne0) as (d & ->).
  cbn [bind].
  destruct n_left as [z|f]; cbn [within] in Hnl.
  - destruct (py_add_int_ok d z ltac:(lia)) as (v & ->). eauto.
  - cbn. eauto.
Qed.

Lemma scale_coords_returns (original scaled : list span)
    (junctions : list junction) :
  original <> [] ->
  Forall (int_span_within (2 ^ 53)) original ->
  List.length scaled = List.length original ->
  Forall (fun sp => within (2 ^ 53) (fst sp) /\ within (2 ^ 53) (snd sp)) scaled ->
  Forall (int_junction_within (2 ^ 53)) junctions ->
  exists out,
    scale_coords original scaled junctions = Ok out
    /\ map snd out = map snd junctions.
Proof.
  intros Hne Hints Hlen Hsc. induction 1 as [|j tl (a & b & c & -> & Ha & Hb) _ IH].
  - exists []. split; reflexivity.
  - cbn [scale_coords].
    destruct (transform_returns original scaled a Hne Hints Hlen Hsc Ha)
      as (va & ->).
    destruct (transform_returns original scaled b Hne Hints Hlen Hsc Hb)
      as (vb & ->).
    cbn [bind]. destruct IH as (out & -> & Hout). cbn [bind].
    eexists. split; [reflexivity|]. cbn [map snd]. rewrite Hout. reflexivity.
Qed.

(** From the second exon on the scaler yields floats. *)
Lemma scale_introns_loop_floats (s : pynum) (rest : list span) :
  forall prev nprev out,
    scale_introns_loop s prev nprev rest = Ok out ->
    List.length out = List.length rest
    /\ Forall (fun sp => exists l r, sp = (PFloat l, PFloat r)) out.
Proof.
  induction rest as [|cur rest IH]; intros prev nprev out H.
  - injection H as <-. split; [reflexivity|constructor].
  - cbn [scale_introns_loop] in H.
    destruct (py_sub (snd cur) (fst cur)) as [len|]; cbn [bind] in H;
      [|discriminate].
    destruct (py_sub (fst cur) (snd prev)) as [gap|]; cbn [bind] in H;
      [|discriminate].
    destruct (py_truediv gap s) as [intron|] eqn:Ei; cbn [bind] in H;
      [|discriminate].
    assert (Hint : exists f, intron = PFloat f).
    { unfold py_truediv in Ei. destruct gap as [x|x], s as [y|y];
        repeat match type of Ei with
          | context [if ?c then _ else _] => destruct c
          | context [bind ?c _] => destruct c; cbn [bind] in Ei
          end; try discriminate; injection Ei as <-; eauto. }
    destruct Hint as (fi & ->).
    destruct (py_add (snd nprev) (PFloat fi)) as [left_|] eqn:El; cbn [bind] in H;
      [|discriminate].
    assert (Hleft : exists f, left_ = PFloat f).
    { unfold py_add in El. destruct (snd nprev) as [x|x];
        repeat match type of El with
          | context [bind ?c _] => destruct c; cbn [bind] in El
          end; try discriminate; injection El as <-; eauto. }
    destruct Hleft as (fl & ->).
    destruct (py_add (PFloat fl) len) as [right_|] eqn:Er; cbn [bind] in H;
      [|discriminate].
    assert (Hright : exists f, right_ = PFloat f).
    { unfold py_add in Er. destruct len as [x|x];
        repeat match type of Er with
          | context [bind ?c _] => destruct c; cbn [bind] in Er
          end; try discriminate; injection Er as <-; eauto. }
    destruct Hright as (fr & ->).
    destruct (scale_introns_loop s cur (PFloat fl, PFloat fr) rest) as [tl|] eqn:Et;
      cbn [bind] in H; [|discriminate].
    injection H as <-. destruct (IH _ _ _ Et) as [Hlen Hall].
    split; [cbn [List.length]; f_equal; exact Hlen|].
    constructor; [eauto | exact Hall].
Qed.

(** X5: with an intron scale factor that is a float (zero included) and
    exon and junction coordinates that are ints of magnitude at most
    [2^53], scaling the exons and mapping the junctions onto them never
    raises: [scale_introns] returns as many exons as it was given and
    [scale_coords] returns every junction, mapped, with its count
    unchanged. *)
Theorem scale_coords_after_scale_introns (coords : list span) (s : float)
    (junctions : list junction) :
  coords <> [] ->
  Forall (int_span_within (2 ^ 53)) coords ->
  Forall (int_junction_within (2 ^ 53)) junctions ->
  exists scaled out,
    scale_introns coords (PFloat s) = Ok scaled
    /\ List.length scaled = List.length coords
    /\ scale_coords coords scaled junctions = Ok out
    /\ map snd out = map snd junctions.
Proof.
  intros Hne Hints Hj.
  assert (Hwithin : Forall (fun sp : span =>
                      within (2 ^ 53) (fst sp) /\ within (2 ^ 53) (snd sp)) coords).
  { eapply Forall_impl; [|exact Hints].
    intros sp (a & b & -> & Ha & Hb). cbn. auto. }
  unfold scale_introns. destruct (py_eq (PFloat s) (PInt 0)) eqn:Hs.
  - destruct (scale_coords_returns coords coords junctions Hne Hints eq_refl
                Hwithin Hj) as (out & E & Hout).
    exists coords, out. auto.
  - destruct coords as [|c0 rest]; [contradiction|].
    inversion Hints as [|? ? (a & b & -> & Ha & Hb) Hrest]; subst.
    assert (P53 : 2 ^ 53 <= 2 ^ 1023) by (apply Z.pow_le_mono_r; lia).
    destruct (scale_introns_loop_shape (PFloat s) rest Hs a b (PInt a, PInt b) Hb
                ltac:(cbn; lia) Hrest) as (tl & Etl & _).
    rewrite Etl. cbn [bind].
    destruct (scale_introns_loop_floats _ _ _ _ _ Etl) as [Hlen Hfl].
    assert (Hlen' : List.length ((PInt a, PInt b) :: tl)
                    = List.length ((PInt a, PInt b) :: rest))
      by (cbn [List.length]; f_equal; exact Hlen).
    assert (Hsc : Forall (fun sp : span =>
                     within (2 ^ 53) (fst sp) /\ within (2 ^ 53) (snd sp))
                    ((PInt a, PInt b) :: tl)).
    { constructor; [cbn; auto|].
      eapply Forall_impl; [|exact Hfl]. intros sp (l & r & ->). cbn. auto. }
    destruct (scale_coords_returns ((PInt a, PInt b) :: rest)
                ((PInt a, PInt b) :: tl) junctions Hne Hints Hlen' Hsc Hj)
      as (out & E & Hout).
    exists ((PInt a, PInt b) :: tl), out. auto.
Qed.

Lemma scale_coords_after_scale_introns_witness :
  exists scaled out,
    scale_introns [ints 100 150; ints 300 350] (PFloat (B64.of_Z 2)) = Ok scaled
    /\ List.length scaled = 2%nat
    /\ scale_coords [ints 100 150; ints 300 350] scaled
         [(PInt 150, PInt 300, 7)] = Ok out
    /\ map snd out = [7].
Proof.
  apply (scale_coords_after_scale_introns [ints 100 150; ints 300 350]
           (B64.of_Z 2) [(PInt 150, PInt 300, 7)]).
  - discriminate.
  - repeat constructor; eexists _, _; (split; [reflexivity|]);
      split; apply Z.leb_le; vm_compute; reflexivity.
  - repeat constructor. eexists _, _, _. split; [reflexivity|].
    split; apply Z.leb_le; vm_compute; reflexivity.
Defined.

(** ** Colour parser *)

Lemma ascii_enumerated (c : ascii) :
  In (nat_of_ascii c) (seq 0 256) /\ ascii_of_nat (nat_of_ascii c) = c.
Proof.
  split; [|apply ascii_nat_embedding].
  apply in_seq. pose proof (nat_ascii_bounded c). lia.
Qed.

(** A check that holds for the 256 characters holds for every character. *)
Lemma forall_ascii (P : ascii -> bool) :
  forallb (fun n => P (ascii_of_nat n)) (seq 0 256) = true ->
  forall c, P c = true.
Proof.
  intros H c. rewrite forallb_forall in H.
  destruct (ascii_enumerated c) as [Hin Hc].
  specialize (H _ Hin). rewrite Hc in H. exact H.
Qed.

Lemma forall_ascii2 (P : ascii -> ascii -> bool) :
  forallb (fun n => forallb (fun m => P (ascii_of_nat n) (ascii_of_nat m))
                      (seq 0 256)) (seq 0 256) = true ->
  forall a b, P a b = true.
Proof.
  intros H a b.
  apply (forall_ascii (fun b => P a b)).
  apply (forall_ascii (fun a => forallb (fun m => P a (ascii_of_nat m)) (seq 0 256))).
  exact H.
Qed.

Lemma pair_in_range_all (a b : ascii) : pair_in_range a b = true.
Proof. revert a b. apply forall_ascii2. vm_compute. reflexivity. Qed.

Lemma pair_of_digits_all (a b : ascii) : pair_of_digits a b = true.
Proof. revert a b. apply forall_ascii2. vm_compute. reflexivity. Qed.

Lemma quotient_in_range_all (v : Z) :
  -15 <= v <= 255 -> quotient_in_range v = true.
Proof.
  intros Hv.
  assert (H : forallb quotient_in_range
                (map (fun n => Z.of_nat n - 15) (seq 0 271)) = true)
    by (vm_compute; reflexivity).
  rewrite forallb_forall in H. apply H.
  apply in_map_iff. exists (Z.to_nat (v + 15)). split; [lia|].
  apply in_seq. lia.
Qed.

(** The component that two characters of a colour give: the quotient of
    the value they write, or the [ValueError] of [int]. *)
Lemma hex_component_cases (a b : ascii) :
  (exists v c, int_base16 (two_chars a b) = Ok v
               /\ py_truediv (PInt v) (PInt 255) = Ok c
               /\ component_in_range c = true)
  \/ int_base16 (two_chars a b) = Raise ValueError.
Proof.
  pose proof (pair_in_range_all a b) as H. unfold pair_in_range in H.
  destruct (int_base16 (two_chars a b)) as [v|e].
  - left. apply andb_prop in H. destruct H as [H1 H2].
    apply Z.leb_le in H1, H2.
    pose proof (quotient_in_range_all v ltac:(lia)) as Hq.
    unfold quotient_in_range in Hq.
    destruct (py_truediv (PInt v) (PInt 255)) as [c|] eqn:Ec; [|discriminate].
    apply andb_prop in Hq. destruct Hq as [Hq _]. exists v, c.
    split; [reflexivity|]. split; [exact Ec|exact Hq].
  - right. destruct e; try discriminate. reflexivity.
Qed.

Lemma hex_form_shape (color : string) :
  hex_form color = true ->
  exists c1 c2 c3 c4 c5 c6,
    color = String "#" (String c1 (String c2 (String c3 (String c4
              (String c5 (String c6 EmptyString)))))).
Proof.
  unfold hex_form. destruct color as [|c0 s]; [discriminate|].
  intros H. apply andb_prop in H. destruct H as [H0 Hlen].
  apply Ascii.eqb_eq in H0. subst c0. apply Nat.eqb_eq in Hlen.
  destruct s as [|c1 [|c2 [|c3 [|c4 [|c5 [|c6 [|c7 s]]]]]]]; try discriminate.
  exists c1, c2, c3, c4, c5, c6. reflexivity.
Qed.

Lemma hex_components_shape (c1 c2 c3 c4 c5 c6 : ascii) :
  hex_components
    (String "#" (String c1 (String c2 (String c3 (String c4
       (String c5 (String c6 EmptyString)))))))
  = (v1 <- int_base16 (two_chars c1 c2) ;;
     x1 <- py_truediv (PInt v1) (PInt 255) ;;
     tl <- (v2 <- int_base16 (two_chars c3 c4) ;;
            x2 <- py_truediv (PInt v2) (PInt 255) ;;
            tl <- (v3 <- int_base16 (two_chars c5 c6) ;;
                   x3 <- py_truediv (PInt v3) (PInt 255) ;;
                   tl <- Ok [] ;; Ok (x3 :: tl)) ;;
            Ok (x2 :: tl)) ;;
     Ok (x1 :: tl)).
Proof. reflexivity. Qed.

(** Off the hexadecimal form the colour is looked up by its name. *)
Lemma to_rgb_not_hex_form (color : string) :
  color <> EmptyString -> hex_form color = false ->
  to_rgb color
  = if dict_mem colordict color
    then h <~ dict_item colordict (lower color) ;;
         match hex_components h with
         | Ok rgb => Done rgb
         | Raise ValueError => Done red
         | Raise e => Stop (Raised e)
         end
    else Done red.
Proof.
  intros Hne Hf. destruct color as [|c0 s]; [contradiction|].
  unfold to_rgb. cbn [str_index String.get lift run_bind].
  unfold hex_form in Hf. rewrite <- negb_andb, Hf. cbn [negb].
  destruct (dict_mem colordict (String c0 s)); [|reflexivity].
  destruct (dict_item colordict (lower (String c0 s))); reflexivity.
Qed.

Lemma to_rgb_hex_form (color : string) :
  hex_form color = true ->
  to_rgb color
  = match hex_components color with
    | Ok rgb => Done rgb
    | Raise ValueError => Done red
    | Raise e => Stop (Raised e)
    end.
Proof.
  intros Hf. destruct color as [|c0 s]; [discriminate|].
  unfold to_rgb. cbn [str_index String.get lift run_bind].
  unfold hex_form in Hf. rewrite <- negb_andb, Hf. reflexivity.
Qed.

(** The names of the table are in lower case and stand for colours in
    hexadecimal form. *)
Lemma colordict_keys (color : string) :
  dict_mem colordict color = true ->
  exists hex, In (color, hex) colordict
              /\ dict_item colordict (lower color) = Done hex
              /\ hex_form hex = true /\ hex_form color = false.
Proof.
  unfold dict_mem, colordict. cbn [dict_get].
  repeat match goal with
    | |- context [String.eqb ?k color] =>
        destruct (String.eqb_spec k color) as [<-|_];
          [intros _; eexists; split;
             [cbn [In]; repeat (first [left; reflexivity | right])
             | split; [vm_compute; reflexivity
                      | split; vm_compute; reflexivity]] |]
    end.
  discriminate.
Qed.

Lemma red_in_range : forallb component_in_range red = true.
Proof. vm_compute. reflexivity. Qed.

(** The outcome on a colour in hexadecimal form. *)
Lemma to_rgb_hex_form_cases (color : string) :
  hex_form color = true ->
  exists r g b,
    to_rgb color = Done [r; g; b]
    /\ forallb component_in_range [r; g; b] = true.
Proof.
  intros Hf. rewrite (to_rgb_hex_form color Hf).
  destruct (hex_form_shape color Hf) as (c1 & c2 & c3 & c4 & c5 & c6 & ->).
  rewrite hex_components_shape.
  assert (Hred : exists r g b : pynum,
            Done red = Done [r; g; b]
            /\ forallb component_in_range [r; g; b] = true).
  { exists (PInt 1), (PInt 0), (PInt 0). split; [reflexivity|exact red_in_range]. }
  destruct (hex_component_cases c1 c2) as [(v1 & x1 & E1 & Q1 & H1)|E1];
    rewrite E1; cbn [bind]; [rewrite Q1; cbn [bind] | exact Hred].
  destruct (hex_component_cases c3 c4) as [(v2 & x2 & E2 & Q2 & H2)|E2];
    rewrite E2; cbn [bind]; [rewrite Q2; cbn [bind] | exact Hred].
  destruct (hex_component_cases c5 c6) as [(v3 & x3 & E3 & Q3 & H3)|E3];
    rewrite E3; cbn [bind]; [rewrite Q3; cbn [bind] | exact Hred].
  exists x1, x2, x3. split; [reflexivity|].
  cbn [forallb]. rewrite H1, H2, H3. reflexivity.
Qed.

Lemma to_rgb_returns (color : string) :
  color <> EmptyString ->
  exists r g b,
    to_rgb color = Done [r; g; b]
    /\ forallb component_in_range [r; g; b] = true.
Proof.
  intros Hne.
  destruct (hex_form color) eqn:Hf; [exact (to_rgb_hex_form_cases color Hf)|].
  rewrite (to_rgb_not_hex_form color Hne Hf).
  destruct (dict_mem colordict color) eqn:Hm.
  - destruct (colordict_keys color Hm) as (hex & _ & -> & Hhex & _).
    cbn [run_bind]. rewrite <- (to_rgb_hex_form hex Hhex).
    exact (to_rgb_hex_form_cases hex Hhex).
  - exists (PInt 1), (PInt 0), (PInt 0). split; [reflexivity|exact red_in_range].
Qed.

(** X6: [to_rgb] raises [IndexError] on the empty string and on every
    other string it returns a tuple of three components, each between
    [-15/255] and 1; it has no other outcome (no [KeyError], no
    [ValueError]). A component is negative when a pair of characters is a
    minus sign and a digit. *)
Theorem to_rgb_total :
  to_rgb EmptyString = Stop (Raised IndexError)
  /\ (forall color, color <> EmptyString ->
       exists r g b,
         to_rgb color = Done [r; g; b]
         /\ forallb component_in_range [r; g; b] = true)
  /\ to_rgb "#-F0000"
     = Done [PFloat (B64.of_ratio (-15) 255); PFloat (S754_zero false);
             PFloat (S754_zero false)].
Proof.
  split; [reflexivity|]. split; [exact to_rgb_returns|].
  vm_compute. reflexivity.
Qed.

Lemma digit16_range (a : ascii) (x : Z) : digit16 a = Some x -> 0 <= x < 16.
Proof.
  pose proof (forall_ascii
                (fun a => match digit16 a with
                          | Some x => (0 <=? x) && (x <? 16)
                          | None => true
                          end) ltac:(vm_compute; reflexivity) a) as H.
  cbv beta in H. intros E. rewrite E in H.
  apply andb_prop in H. destruct H as [H1 H2]. lia.
Qed.

Lemma hex_digits_component (a b : ascii) (x y : Z) :
  digit16 a = Some x -> digit16 b = Some y ->
  int_base16 (two_chars a b) = Ok (16 * x + y)
  /\ 0 <= 16 * x + y <= 255
  /\ py_truediv (PInt (16 * x + y)) (PInt 255)
     = Ok (PFloat (B64.of_ratio (16 * x + y) 255))
  /\ unit_component (PFloat (B64.of_ratio (16 * x + y) 255)) = true.
Proof.
  intros Ha Hb.
  pose proof (digit16_range a x Ha) as Hx.
  pose proof (digit16_range b y Hb) as Hy.
  pose proof (pair_of_digits_all a b) as H. unfold pair_of_digits in H.
  rewrite Ha, Hb in H.
  destruct (int_base16 (two_chars a b)) as [v|]; [|discriminate].
  apply Z.eqb_eq in H. subst v. split; [reflexivity|]. split; [lia|].
  pose proof (quotient_in_range_all (16 * x + y) ltac:(lia)) as Hq.
  unfold quotient_in_range in Hq.
  destruct (py_truediv (PInt (16 * x + y)) (PInt 255)) as [c|] eqn:Ec;
    [|discriminate].
  apply andb_prop in Hq. destruct Hq as [_ Hq].
  destruct (Z.ltb_spec (16 * x + y) 0) as [Hneg|_]; [lia|]. cbn [orb] in Hq.
  unfold py_truediv in Ec. cbn [Z.eqb] in Ec.
  destruct (B64.is_infinite (B64.of_ratio (16 * x + y) 255)); [discriminate|].
  injection Ec as <-. split; [reflexivity|exact Hq].
Qed.

(** X7: on [#] followed by six hexadecimal digits [to_rgb] returns the
    three components [RR/255], [GG/255], [BB/255], where a pair of digits
    [h1 h2] stands for [16*h1 + h2]; each is the correctly rounded
    quotient and lies between 0 and 1. *)
Theorem to_rgb_hex_digits (c1 c2 c3 c4 c5 c6 : ascii) (d1 d2 d3 d4 d5 d6 : Z) :
  digit16 c1 = Some d1 -> digit16 c2 = Some d2 -> digit16 c3 = Some d3 ->
  digit16 c4 = Some d4 -> digit16 c5 = Some d5 -> digit16 c6 = Some d6 ->
  to_rgb (String "#" (String c1 (String c2 (String c3 (String c4
            (String c5 (String c6 EmptyString)))))))
  = Done [PFloat (B64.of_ratio (16 * d1 + d2) 255);
          PFloat (B64.of_ratio (16 * d3 + d4) 255);
          PFloat (B64.of_ratio (16 * d5 + d6) 255)]
  /\ forallb unit_component
       [PFloat (B64.of_ratio (16 * d1 + d2) 255);
        PFloat (B64.of_ratio (16 * d3 + d4) 255);
        PFloat (B64.of_ratio (16 * d5 + d6) 255)] = true.
Proof.
  intros H1 H2 H3 H4 H5 H6.
  rewrite to_rgb_hex_form by reflexivity. rewrite hex_components_shape.
  destruct (hex_digits_component c1 c2 d1 d2 H1 H2) as (E1 & _ & Q1 & U1);
    rewrite E1; cbn [bind]; rewrite Q1; cbn [bind].
  destruct (hex_digits_component c3 c4 d3 d4 H3 H4) as (E2 & _ & Q2 & U2);
    rewrite E2; cbn [bind]; rewrite Q2; cbn [bind].
  destruct (hex_digits_component c5 c6 d5 d6 H5 H6) as (E3 & _ & Q3 & U3);
    rewrite E3; cbn [bind]; rewrite Q3; cbn [bind].
  split; [reflexivity|].
  cbn [forallb]. rewrite U1, U2, U3. reflexivity.
Qed.

Lemma to_rgb_hex_digits_witness :
  to_rgb "#C21807"
  = Done [PFloat (B64.of_ratio 194 255); PFloat (B64.of_ratio 24 255);
          PFloat (B64.of_ratio 7 255)]
  /\ forallb unit_component
       [PFloat (B64.of_ratio 194 255); PFloat (B64.of_ratio 24 255);
        PFloat (B64.of_ratio 7 255)] = true.
Proof.
  exact (to_rgb_hex_digits "C" "2" "1" "8" "0" "7" 12 2 1 8 0 7
           eq_refl eq_refl eq_refl eq_refl eq_refl eq_refl).
Defined.

(** X8: a colour name of the table gives the colour of its hexadecimal
    code; any other non-empty string that is not in hexadecimal form, a
    name with a capital letter included, gives red [(1, 0, 0)]. *)
Theorem to_rgb_names (color : string) :
  color <> EmptyString -> hex_form color = false ->
  (forall hex, In (color, hex) colordict -> to_rgb color = to_rgb hex)
  /\ (dict_mem colordict color = false -> to_rgb color = Done red)
  /\ (lower color <> color -> to_rgb color = Done red).
Proof.
  intros Hne Hf. rewrite (to_rgb_not_hex_form color Hne Hf).
  assert (Hkeys : forall k hex, In (k, hex) colordict ->
            dict_get colordict k = Some hex /\ lower k = k /\ hex_form hex = true).
  { intros k hex Hin. unfold colordict in Hin. cbn [In] in Hin.
    repeat (destruct Hin as [Hin|Hin];
            [injection Hin as <- <-; repeat split; vm_compute; reflexivity|]).
    destruct Hin. }
  split; [|split].
  - intros hex Hin. destruct (Hkeys color hex Hin) as (Hget & Hlow & Hhex).
    unfold dict_mem, dict_item. rewrite Hlow, Hget. cbn [run_bind].
    symmetry. apply to_rgb_hex_form. exact Hhex.
  - intros ->. reflexivity.
  - intros Hlow. destruct (dict_mem colordict color) eqn:Hm; [|reflexivity].
    exfalso. destruct (colordict_keys color Hm) as (hex & Hin & _).
    destruct (Hkeys color hex Hin) as (_ & Hl & _). contradiction.
Qed.

Lemma to_rgb_names_witness :
  to_rgb "blue" = to_rgb "#0000FF" /\ to_rgb "Blue" = Done red.
Proof.
  split.
  - apply (proj1 (to_rgb_names "blue" ltac:(discriminate) eq_refl)).
    cbn. auto.
  - apply (proj2 (proj2 (to_rgb_names "Blue" ltac:(discriminate) eq_refl))).
    vm_compute. discriminate.
Defined.

(** ** Arguments *)

Lemma check_databases_all (fs : files) (paths : list string) :
  forallb (path_exists fs) paths = true -> check_databases fs paths = Done tt.
Proof.
  induction paths as [|p rest IH]; cbn [forallb check_databases]; [reflexivity|].
  intros H. apply andb_prop in H. destruct H as [-> H]. exact (IH H).
Qed.

Lemma check_databases_first_missing (fs : files) (pre post : list string)
    (missing : string) :
  forallb (path_exists fs) pre = true -> path_exists fs missing = false ->
  check_databases fs (pre ++ missing :: post)
  = Stop (SystemExit (ExitMessage (not_found_message missing))).
Proof.
  induction pre as [|p rest IH]; cbn [forallb app check_databases]; intros H Hm.
  - rewrite Hm. reflexivity.
  - apply andb_prop in H. destruct H as [-> H]. exact (IH H Hm).
Qed.

(** X9: the first database path that does not exist ends the program with
    the message that names it, whatever the other arguments are: the
    check comes before the choice of the transcript and before the colour
    is parsed. *)
Theorem parse_args_missing_database (fs : files) (args : Args)
    (pre post : list string) (missing : string) :
  arg_database args = pre ++ missing :: post ->
  forallb (path_exists fs) pre = true ->
  path_exists fs missing = false ->
  parse_args fs args
  = Stop (SystemExit (ExitMessage (not_found_message missing))).
Proof.
  intros Hdb Hpre Hm. unfold parse_args.
  rewrite Hdb, (check_databases_first_missing fs pre post missing Hpre Hm).
  reflexivity.
Qed.

(** X10: with every database path present and a non-empty colour,
    [parse_args] settles the transcript as follows. A transcript given
    with [-t] is kept, also when a gene is given with [-g]. Without a
    transcript, a gene is resolved on the first database; with no database
    path at all this raises [IndexError]. With neither, the program exits
    with the usage message. *)
Theorem parse_args_transcript_choice (fs : files) (args : Args) :
  forallb (path_exists fs) (arg_database args) = true ->
  arg_color args <> EmptyString ->
  (truthy (arg_transcript args) = true ->
   exists color, parse_args fs args = Done (text (arg_transcript args), color))
  /\ (truthy (arg_transcript args) = false -> truthy (arg_gene args) = true ->
      forall db0 rest, arg_database args = db0 :: rest ->
        exists color,
          parse_args fs args
          = Done (get_transcript_from_gene (coverage_table (connect fs db0))
                    (text (arg_gene args)), color))
  /\ (truthy (arg_transcript args) = false -> truthy (arg_gene args) = true ->
      arg_database args = [] -> parse_args fs args = Stop (Raised IndexError))
  /\ (truthy (arg_transcript args) = false -> truthy (arg_gene args) = false ->
      parse_args fs args = Stop (SystemExit (ExitMessage usage_message))).
Proof.
  intros Hdb Hcolor. unfold parse_args.
  rewrite (check_databases_all fs _ Hdb). cbn [run_bind].
  destruct (to_rgb_returns (arg_color args) Hcolor) as (r & g & b & Hrgb & _).
  split; [|split; [|split]].
  - intros Ht. rewrite Ht, orb_true_r. cbn [negb run_bind].
    rewrite Hrgb. cbn [run_bind]. eauto.
  - intros Ht Hg db0 rest E. rewrite Ht, Hg, E.
    cbn [orb negb index nth_error lift run_bind].
    rewrite Hrgb. cbn [run_bind]. eauto.
  - intros Ht Hg E. rewrite Ht, Hg, E. reflexivity.
  - intros Ht Hg. rewrite Ht, Hg. reflexivity.
Qed.

Lemma parse_args_missing_database_witness :
  parse_args files_example (args_example ["a.db"%string; "c.db"%string; "d.db"%string] None None)
  = Stop (SystemExit (ExitMessage (not_found_message "c.db"%string))).
Proof.
  apply (parse_args_missing_database files_example
           (args_example ["a.db"%string; "c.db"%string; "d.db"%string] None None)
           ["a.db"%string] ["d.db"%string] "c.db"%string); reflexivity.
Defined.

Lemma parse_args_transcript_choice_witness :
  exists color,
    parse_args files_example (args_example ["a.db"%string] (Some "T1"%string) (Some "EGFR"%string))
    = Done ("T1"%string, color).
Proof.
  apply (proj1 (parse_args_transcript_choice files_example
                  (args_example ["a.db"%string] (Some "T1"%string) (Some "EGFR"%string))
                  eq_refl ltac:(discriminate))).
  reflexivity.
Defined.

(** ** Exon rectangles *)

Lemma py_sub_addable (x y : pynum) :
  addable x -> addable y -> exists d, py_sub x y = Ok d.
Proof.
  intros Hx Hy. destruct x as [a|f], y as [c|g]; cbn [addable] in *.
  - eexists. reflexivity.
  - unfold py_sub, to_float. rewrite (float_of_int_ok a Hx). cbn [bind]. eauto.
  - unfold py_sub, to_float. cbn [bind]. rewrite (float_of_int_ok c Hy).
    cbn [bind]. eauto.
  - eexists. reflexivity.
Qed.

Lemma py_le_not_lt (a b : pynum) : py_le a b = true -> py_lt b a = false.
Proof.
  unfold py_le, py_lt, py_compare.
  destruct (xnum_of a) as [|s1|m1 e1], (xnum_of b) as [|s2|m2 e2];
    cbn [xnum_compare]; try discriminate; try reflexivity.
  - destruct s1, s2; try discriminate; reflexivity.
  - destruct s1; try discriminate; reflexivity.
  - destruct s2; try discriminate; reflexivity.
  - pose proof (dyadic_compare_spec m1 e1 m2 e2) as H1.
    pose proof (dyadic_compare_spec m2 e2 m1 e1) as H2.
    destruct (dyadic_compare m1 e1 m2 e2), (dyadic_compare m2 e2 m1 e1);
      try discriminate; try reflexivity; intros _; exfalso; lra.
Qed.

(** The float of an int of magnitude up to [2^53] compares as the int. *)
Lemma py_lt_of_Z (z : Z) (b : pynum) :
  Z.abs z <= 2 ^ 53 ->
  py_lt (PFloat (B64.of_Z z)) b = py_lt (PInt z) b
  /\ py_lt b (PFloat (B64.of_Z z)) = py_lt b (PInt z).
Proof.
  intros Hz. unfold py_lt, py_compare. cbn [xnum_of].
  destruct (of_Z_exact z Hz) as (m & e & -> & Hv).
  assert (Hval : F2R m e = F2R z 0) by (rewrite Hv; symmetry; apply F2R_exp0).
  destruct (xnum_of b) as [|s|m3 e3]; cbn [xnum_compare];
    [split; reflexivity..|].
  rewrite (dyadic_compare_ext m e z 0 m3 e3 Hval),
    (dyadic_compare_ext_r m e z 0 m3 e3 Hval).
  split; reflexivity.
Qed.

Lemma outside_unit_of (c : pynum) :
  within (2 ^ 53) c ->
  exists f, to_float c = Ok f /\ outside_unit f = below_or_above c.
Proof.
  destruct c as [z|f]; cbn [within]; intros Hz.
  - exists (B64.of_Z z). split.
    + apply float_of_int_convertible, of_Z_convertible.
      pose proof pow53_le_pow1023. lia.
    + unfold outside_unit, below_or_above, py_gt.
      rewrite (proj1 (py_lt_of_Z z (PInt 0) Hz)),
        (proj2 (py_lt_of_Z z (PInt 1) Hz)). reflexivity.
  - exists f. split; reflexivity.
Qed.

Lemma unit_component_within (c : pynum) :
  unit_component c = true -> within (2 ^ 53) c /\ below_or_above c = false.
Proof.
  unfold unit_component, below_or_above, py_gt. intros H.
  apply andb_prop in H. destruct H as [H0 H1]. split.
  - destruct c as [z|f]; cbn [within]; [|exact I].
    rewrite py_le_int in H0, H1. apply Z.leb_le in H0, H1.
    pose proof (Z.pow_pos_nonneg 2 53 ltac:(lia) ltac:(lia)). lia.
  - rewrite (py_le_not_lt _ _ H0), (py_le_not_lt _ _ H1). reflexivity.
Qed.

(** What the check of a face colour answers. *)
Lemma check_facecolor_spec (color : rgba) :
  Forall (within (2 ^ 53)) (components color) ->
  check_facecolor color
  = if existsb below_or_above (components color) then Raise ValueError
    else Ok tt.
Proof.
  destruct color as [[[r g] b] a]. unfold components. cbn [fst snd].
  intros H. inversion H as [|? ? Hr H1]; subst.
  inversion H1 as [|? ? Hg H2]; subst. inversion H2 as [|? ? Hb H3]; subst.
  inversion H3 as [|? ? Ha _]; subst. cbn [existsb].
  destruct (outside_unit_of r Hr) as (fr & Er & <-).
  destruct (outside_unit_of g Hg) as (fg & Eg & <-).
  destruct (outside_unit_of b Hb) as (fb & Eb & <-).
  destruct (outside_unit_of a Ha) as (fa & Ea & <-).
  unfold check_facecolor. rewrite Er, Eg, Eb, Ea. reflexivity.
Qed.

Lemma check_facecolor_unit (color : rgba) :
  unit_color color = true -> check_facecolor color = Ok tt.
Proof.
  unfold unit_color. intros H.
  assert (Hall : Forall (fun c => within (2 ^ 53) c /\ below_or_above c = false)
                   (components color)).
  { apply Forall_forall. intros c Hc. apply unit_component_within.
    exact (proj1 (forallb_forall _ _) H c Hc). }
  rewrite check_facecolor_spec.
  - replace (existsb below_or_above (components color)) with false;
      [reflexivity|].
    symmetry. clear H. induction Hall as [|c l [_ Hc] _ IH]; [reflexivity|].
    cbn [existsb]. rewrite Hc. exact IH.
  - eapply Forall_impl; [|exact Hall]. intros c [Hc _]. exact Hc.
Qed.

Lemma plot_exons_spec (y height : pynum) (coordinates : list span) :
  forall (colors : list rgba) (drawn : list Rectangle),
    Forall (fun sp => addable (fst sp) /\ addable (snd sp)) coordinates ->
    Forall (fun sc => unit_color (snd sc) = true) (combine coordinates colors) ->
    exists new,
      plot_exons drawn coordinates y height colors = Ok (drawn ++ new)
      /\ Forall2 (exon_rectangle y height) (combine coordinates colors) new.
Proof.
  induction coordinates as [|[start stop] rest IH]; intros colors drawn Hall Hcol.
  - exists []. rewrite app_nil_r. split; [reflexivity|constructor].
  - destruct colors as [|color colors].
    + exists []. rewrite app_nil_r. split; [reflexivity|constructor].
    + inversion Hall as [|? ? [Hs He] Hrest]; subst. cbn [fst snd] in *.
      cbn [combine] in Hcol. inversion Hcol as [|? ? Hc Hcols]; subst.
      cbn [snd] in Hc. cbn [plot_exons combine].
      destruct (py_sub_addable stop start He Hs) as (w & Ew). rewrite Ew.
      cbn [bind]. rewrite (check_facecolor_unit color Hc). cbn [bind].
      destruct (IH colors (drawn ++ [mkRectangle (start, y) w height color])
                  Hrest Hcols) as (new & -> & Hnew).
      exists (mkRectangle (start, y) w height color :: new).
      split; [rewrite <- app_assoc; reflexivity|].
      constructor; [|exact Hnew].
      unfold exon_rectangle. cbn [fst snd rect_xy rect_width rect_height
                                    rect_facecolor]. auto.
Qed.

Lemma plot_exons_refused (y height : pynum) (coordinates : list span) :
  forall (colors : list rgba) (drawn : list Rectangle)
         (pre post : list (span * rgba)) (bad : span * rgba),
    Forall (fun sp => addable (fst sp) /\ addable (snd sp)) coordinates ->
    combine coordinates colors = pre ++ bad :: post ->
    Forall (fun sc => unit_color (snd sc) = true) pre ->
    Forall (within (2 ^ 53)) (components (snd bad)) ->
    existsb below_or_above (components (snd bad)) = true ->
    plot_exons drawn coordinates y height colors = Raise ValueError.
Proof.
  induction coordinates as [|[start stop] rest IH];
    intros colors drawn pre post bad Hall E Hpre Hin Hbad.
  - destruct pre; discriminate.
  - destruct colors as [|color colors]; [destruct pre; discriminate|].
    inversion Hall as [|? ? [Hs He] Hrest]; subst. cbn [fst snd] in *.
    cbn [plot_exons combine] in *.
    destruct (py_sub_addable stop start He Hs) as (w & Ew). rewrite Ew.
    cbn [bind].
    destruct pre as [|p pre]; cbn [app] in E.
    + injection E as <- E. cbn [snd] in Hin, Hbad.
      rewrite (check_facecolor_spec color Hin), Hbad. reflexivity.
    + injection E as <- E. inversion Hpre as [|? ? Hc Hpre']; subst.
      cbn [snd] in Hc. rewrite (check_facecolor_unit color Hc). cbn [bind].
      exact (IH colors _ pre post bad Hrest E Hpre' Hin Hbad).
Qed.

(** X11: [plot_exons] pairs the exons with the colours in order and stops
    at the shorter of the two lists. When every colour of a pair has its
    four components between 0 and 1, it keeps the rectangles that are
    there and adds one rectangle for each pair, at [(start, y)], of width
    [stop - start], of the given height and with the colour of the pair;
    exons without a colour get no rectangle. At the first pair whose
    colour has a component below 0 or above 1 it raises [ValueError].
    Stated for coordinates that are floats or ints that convert to a
    float. *)
Theorem plot_exons_rectangles (drawn : list Rectangle) (coordinates : list span)
    (y height : pynum) (colors : list rgba) :
  Forall (fun sp => addable (fst sp) /\ addable (snd sp)) coordinates ->
  (Forall (fun sc => unit_color (snd sc) = true) (combine coordinates colors) ->
   exists new,
     plot_exons drawn coordinates y height colors = Ok (drawn ++ new)
     /\ List.length new
        = Nat.min (List.length coordinates) (List.length colors)
     /\ Forall2 (exon_rectangle y height) (combine coordinates colors) new)
  /\ (forall pre bad post,
        combine coordinates colors = pre ++ bad :: post ->
        Forall (fun sc => unit_color (snd sc) = true) pre ->
        Forall (within (2 ^ 53)) (components (snd bad)) ->
        existsb below_or_above (components (snd bad)) = true ->
        plot_exons drawn coordinates y height colors = Raise ValueError).
Proof.
  intros Hall. split.
  - intros Hcol.
    destruct (plot_exons_spec y height coordinates colors drawn Hall Hcol)
      as (new & E & Hnew).
    exists new. split; [exact E|]. split; [|exact Hnew].
    rewrite <- (Forall2_length Hnew). apply length_combine.
  - intros pre bad post E Hpre Hin Hbad.
    exact (plot_exons_refused y height coordinates colors drawn pre post bad
             Hall E Hpre Hin Hbad).
Qed.

Lemma plot_exons_rectangles_witness :
  (exists new,
      plot_exons [] [ints 100 150; ints 300 350] (PFloat f0_5) (PFloat f0_5)
        [((PInt 1, PInt 0, PInt 0), dyad 1 (-1))]
      = Ok ([] ++ new)
      /\ List.length new = Nat.min 2 1
      /\ Forall2 (exon_rectangle (PFloat f0_5) (PFloat f0_5))
           (combine [ints 100 150; ints 300 350]
              [((PInt 1, PInt 0, PInt 0), dyad 1 (-1))]) new)
  /\ plot_exons [] [ints 100 150; ints 300 350] (PFloat f0_5) (PFloat f0_5)
       [((PInt 1, PInt 0, PInt 0), dyad 1 (-1));
        ((PFloat (B64.of_ratio (-15) 255), PInt 0, PInt 0), PInt 0)]
     = Raise ValueError.
Proof.
  assert (Hc : Forall (fun sp : span => addable (fst sp) /\ addable (snd sp))
                 [ints 100 150; ints 300 350]).
  { repeat constructor; cbn [ints fst snd addable]; apply Z.leb_le; vm_compute;
      reflexivity. }
  split.
  - apply (proj1 (plot_exons_rectangles [] [ints 100 150; ints 300 350]
                    (PFloat f0_5) (PFloat f0_5)
                    [((PInt 1, PInt 0, PInt 0), dyad 1 (-1))] Hc)).
    repeat constructor.
  - apply (proj2 (plot_exons_rectangles [] [ints 100 150; ints 300 350]
                    (PFloat f0_5) (PFloat f0_5)
                    [((PInt 1, PInt 0, PInt 0), dyad 1 (-1));
                     ((PFloat (B64.of_ratio (-15) 255), PInt 0, PInt 0), PInt 0)]
                    Hc)
             [(ints 100 150, ((PInt 1, PInt 0, PInt 0), dyad 1 (-1)))]
             (ints 300 350,
              ((PFloat (B64.of_ratio (-15) 255), PInt 0, PInt 0), PInt 0))
             []).
    + reflexivity.
    + repeat constructor.
    + repeat constructor; cbn [within]; apply Z.leb_le; vm_compute; reflexivity.
    + vm_compute. reflexivity.
Defined.

(** ** What the curve generators add to the axes *)

Lemma draw_backsplice_adds (ax ax' : Axes) (start stop y adjust offset
    gene_size : pynum) :
  draw_backsplice ax start stop y adjust offset gene_size = Ok ax' ->
  xlim ax' = xlim ax /\ ylim ax' = ylim ax
  /\ exists p, patches ax' = patches ax ++ [p] /\ backsplice_patch start stop y p.
Proof.
  unfold draw_backsplice. intros H.
  repeat match type of H with
    | bind ?c _ = _ => destruct c; cbn [bind] in H; [|discriminate]
    end.
  injection H as <-. cbn [add_patch xlim ylim patches].
  split; [reflexivity|]. split; [reflexivity|].
  eexists. split; [reflexivity|]. unfold backsplice_patch. eauto.
Qed.

Lemma draw_backsplice_each_adds (start stop y gene_size : pynum)
    (nums : list float) :
  forall ax ax',
    draw_backsplice_each ax start stop y gene_size nums = Ok ax' ->
    xlim ax' = xlim ax /\ ylim ax' = ylim ax
    /\ exists new, patches ax' = patches ax ++ new
                   /\ Forall (backsplice_patch start stop y) new.
Proof.
  induction nums as [|num rest IH]; intros ax ax' H; cbn [draw_backsplice_each] in H.
  - injection H as <-. split; [reflexivity|]. split; [reflexivity|].
    exists []. rewrite app_nil_r. split; [reflexivity|constructor].
  - destruct (draw_backsplice ax start stop y (PFloat num) (PFloat f0_15) gene_size)
      as [ax1|] eqn:E1; cbn [bind] in H; [|discriminate].
    destruct (draw_backsplice_adds _ _ _ _ _ _ _ _ E1) as (Hx & Hy & p & Hp & Hs).
    destruct (IH _ _ H) as (Hx' & Hy' & new & Hnew & Hall).
    split; [congruence|]. split; [congruence|].
    exists (p :: new). split; [|constructor; assumption].
    rewrite Hnew, Hp, <- app_assoc. reflexivity.
Qed.

Lemma plot_circles_adds (y gene_size : pynum) (coordinates : list junction) :
  forall ax ax',
    plot_circles ax coordinates y gene_size = Ok ax' ->
    xlim ax' = xlim ax /\ ylim ax' = ylim ax
    /\ exists new, patches ax' = patches ax ++ new
                   /\ Forall (drawn_for backsplice_patch coordinates y) new.
Proof.
  induction coordinates as [|[[start stop] counts] rest IH]; intros ax ax' H;
    cbn [plot_circles] in H.
  - injection H as <-. split; [reflexivity|]. split; [reflexivity|].
    exists []. rewrite app_nil_r. split; [reflexivity|constructor].
  - destruct (plot_circles_body ax (start, stop, counts) y gene_size)
      as [ax1|] eqn:E1; cbn [bind] in H; [|discriminate].
    assert (H1 : xlim ax1 = xlim ax /\ ylim ax1 = ylim ax
                 /\ exists new, patches ax1 = patches ax ++ new
                      /\ Forall (drawn_for backsplice_patch
                                   ((start, stop, counts) :: rest) y) new).
    { unfold plot_circles_body in E1.
      destruct (Z.eqb_spec counts 0) as [Hz|Hnz]; cbn [negb] in E1.
      - injection E1 as <-. split; [reflexivity|]. split; [reflexivity|].
        exists []. rewrite app_nil_r. split; [reflexivity|constructor].
      - repeat match type of E1 with
          | bind ?c _ = _ => destruct c; cbn [bind] in E1; [|discriminate]
          end.
        destruct (draw_backsplice_each_adds _ _ _ _ _ _ _ E1)
          as (Hx & Hy & new & Hnew & Hall).
        split; [exact Hx|]. split; [exact Hy|]. exists new.
        split; [exact Hnew|]. eapply Forall_impl; [|exact Hall].
        intros p Hp. exists start, stop, counts.
        split; [left; reflexivity|]. auto. }
    destruct H1 as (Hx & Hy & new1 & Hnew1 & Hall1).
    destruct (IH _ _ H) as (Hx' & Hy' & new & Hnew & Hall).
    split; [congruence|]. split; [congruence|].
    exists (new1 ++ new). split; [rewrite Hnew, Hnew1, <- app_assoc; reflexivity|].
    apply Forall_app. split; [exact Hall1|].
    eapply Forall_impl; [|exact Hall].
    intros p (s & e & c & Hin & Hc & Hp). exists s, e, c.
    split; [right; exact Hin|]. auto.
Qed.

Lemma draw_arc_each_adds (start stop y radian_corr : pynum) (rads : list float) :
  forall ax ax',
    draw_arc_each ax start stop y radian_corr rads = Ok ax' ->
    xlim ax' = xlim ax /\ ylim ax' = ylim ax
    /\ exists new, patches ax' = patches ax ++ new
                   /\ Forall (canonical_patch start stop y) new.
Proof.
  induction rads as [|radians rest IH]; intros ax ax' H; cbn [draw_arc_each] in H.
  - injection H as <-. split; [reflexivity|]. split; [reflexivity|].
    exists []. rewrite app_nil_r. split; [reflexivity|constructor].
  - destruct (py_mul (PFloat radians) radian_corr) as [rad|]; cbn [bind] in H;
      [|discriminate].
    destruct (starts_with_minus rad); [discriminate|].
    destruct (IH _ _ H) as (Hx & Hy & new & Hnew & Hall).
    cbn [add_patch xlim ylim patches] in Hx, Hy, Hnew.
    split; [exact Hx|]. split; [exact Hy|].
    exists (ConnectionPatch (start, y) (stop, y) rad :: new).
    split; [rewrite Hnew, <- app_assoc; reflexivity|].
    constructor; [|exact Hall]. exists rad. reflexivity.
Qed.

Lemma plot_SJ_curves_loop_adds (xlen : float) (sd y : pynum)
    (coordinates : list junction) :
  forall ax ax',
    plot_SJ_curves_loop ax xlen sd coordinates y = Ok ax' ->
    xlim ax' = xlim ax /\ ylim ax' = ylim ax
    /\ exists new, patches ax' = patches ax ++ new
                   /\ Forall (drawn_for canonical_patch coordinates y) new.
Proof.
  induction coordinates as [|[[start stop] counts] rest IH]; intros ax ax' H;
    cbn [plot_SJ_curves_loop] in H.
  - injection H as <-. split; [reflexivity|]. split; [reflexivity|].
    exists []. rewrite app_nil_r. split; [reflexivity|constructor].
  - destruct (plot_SJ_curves_body ax xlen sd (start, stop, counts) y)
      as [ax1|] eqn:E1; cbn [bind] in H; [|discriminate].
    assert (H1 : xlim ax1 = xlim ax /\ ylim ax1 = ylim ax
                 /\ exists new, patches ax1 = patches ax ++ new
                      /\ Forall (drawn_for canonical_patch
                                   ((start, stop, counts) :: rest) y) new).
    { unfold plot_SJ_curves_body in E1.
      destruct (Z.eqb_spec counts 0) as [Hz|Hnz]; cbn [negb] in E1.
      - injection E1 as <-. split; [reflexivity|]. split; [reflexivity|].
        exists []. rewrite app_nil_r. split; [reflexivity|constructor].
      - repeat match type of E1 with
          | bind ?c _ = _ => destruct c; cbn [bind] in E1; [|discriminate]
          end.
        destruct (draw_arc_each_adds _ _ _ _ _ _ _ E1)
          as (Hx & Hy & new & Hnew & Hall).
        split; [exact Hx|]. split; [exact Hy|]. exists new.
        split; [exact Hnew|]. eapply Forall_impl; [|exact Hall].
        intros p Hp. exists start, stop, counts.
        split; [left; reflexivity|]. auto. }
    destruct H1 as (Hx & Hy & new1 & Hnew1 & Hall1).
    destruct (IH _ _ H) as (Hx' & Hy' & new & Hnew & Hall).
    split; [congruence|]. split; [congruence|].
    exists (new1 ++ new). split; [rewrite Hnew, Hnew1, <- app_assoc; reflexivity|].
    apply Forall_app. split; [exact Hall1|].
    eapply Forall_impl; [|exact Hall].
    intros p (s & e & c & Hin & Hc & Hp). exists s, e, c.
    split; [right; exact Hin|]. auto.
Qed.

Lemma plot_SJ_curves_adds (y : pynum) (coordinates : list junction)
    (ax ax' : Axes) :
  plot_SJ_curves ax coordinates y = Ok ax' ->
  xlim ax' = xlim ax /\ ylim ax' = ylim ax
  /\ exists new, patches ax' = patches ax ++ new
                 /\ Forall (drawn_for canonical_patch coordinates y) new.
Proof.
  unfold plot_SJ_curves. intros H.
  destruct (py_truediv (PInt 1) (PFloat (B64.sub radian_high radian_low)))
    as [sd|]; cbn [bind] in H; [|discriminate].
  destruct (xlim ax) as [xmin xmax] eqn:Ex.
  rewrite <- Ex. exact (plot_SJ_curves_loop_adds _ _ _ _ _ _ H).
Qed.

(** X12: [plot_circles] only adds to the axes: the limits and the patches
    that are there stay as they are, and every patch it appends is a
    backsplice curve of one of the junctions with a count other than zero,
    a path of four vertices from [(start, y)] to [(stop, y)] whose two
    control points lie at one height. *)
Theorem plot_circles_only_adds (ax ax' : Axes) (coordinates : list junction)
    (y gene_size : pynum) :
  plot_circles ax coordinates y gene_size = Ok ax' ->
  xlim ax' = xlim ax /\ ylim ax' = ylim ax
  /\ exists new, patches ax' = patches ax ++ new
                 /\ Forall (drawn_for backsplice_patch coordinates y) new.
Proof. apply plot_circles_adds. Qed.

Lemma plot_circles_only_adds_witness :
  exists ax',
    plot_circles ax_example [(PInt 10, PInt 20, 2); (PInt 30, PInt 60, 0)]
      (PFloat f0_5) (PInt 100) = Ok ax'
    /\ xlim ax' = xlim ax_example /\ ylim ax' = ylim ax_example
    /\ exists new,
         patches ax' = patches ax_example ++ new
         /\ Forall (drawn_for backsplice_patch
                      [(PInt 10, PInt 20, 2); (PInt 30, PInt 60, 0)]
                      (PFloat f0_5)) new.
Proof.
  destruct (plot_circles ax_example [(PInt 10, PInt 20, 2); (PInt 30, PInt 60, 0)]
              (PFloat f0_5) (PInt 100)) as [ax'|e] eqn:E.
  - exists ax'. split; [reflexivity|].
    exact (plot_circles_only_adds ax_example ax' _ _ _ E).
  - vm_compute in E. discriminate.
Defined.

(** X13: [plot_SJ_curves] only adds to the axes: the limits and the
    patches that are there stay as they are, and every patch it appends is
    an arc from [(start, y)] to [(stop, y)] of one of the junctions with a
    count other than zero. *)
Theorem plot_SJ_curves_only_adds (ax ax' : Axes) (coordinates : list junction)
    (y : pynum) :
  plot_SJ_curves ax coordinates y = Ok ax' ->
  xlim ax' = xlim ax /\ ylim ax' = ylim ax
  /\ exists new, patches ax' = patches ax ++ new
                 /\ Forall (drawn_for canonical_patch coordinates y) new.
Proof. apply plot_SJ_curves_adds. Qed.

Lemma plot_SJ_curves_only_adds_witness :
  exists ax',
    plot_SJ_curves ax_example [(PInt 10, PInt 20, 2); (PInt 30, PInt 60, 0)]
      (PFloat (B64.of_Z 1)) = Ok ax'
    /\ xlim ax' = xlim ax_example /\ ylim ax' = ylim ax_example
    /\ exists new,
         patches ax' = patches ax_example ++ new
         /\ Forall (drawn_for canonical_patch
                      [(PInt 10, PInt 20, 2); (PInt 30, PInt 60, 0)]
                      (PFloat (B64.of_Z 1))) new.
Proof.
  destruct (plot_SJ_curves ax_example
              [(PInt 10, PInt 20, 2); (PInt 30, PInt 60, 0)]
              (PFloat (B64.of_Z 1))) as [ax'|e] eqn:E.
  - exists ax'. split; [reflexivity|].
    exact (plot_SJ_curves_only_adds ax_example ax' _ _ E).
  - vm_compute in E. discriminate.
Defined.

(** ** Sub-plot *)

Lemma plot_exons_inv (y height : pynum) (coordinates : list span) :
  forall (colors : list rgba) (drawn out : list Rectangle),
    plot_exons drawn coordinates y height colors = Ok out ->
    exists new,
      out = drawn ++ new
      /\ Forall2 (exon_rectangle y height) (combine coordinates colors) new.
Proof.
  induction coordinates as [|[start stop] rest IH]; intros colors drawn out H.
  - cbn in H. injection H as <-. exists []. rewrite app_nil_r.
    split; [reflexivity|constructor].
  - destruct colors as [|color colors].
    + cbn in H. injection H as <-. exists []. rewrite app_nil_r.
      split; [reflexivity|constructor].
    + cbn [plot_exons combine] in *.
      destruct (py_sub stop start) as [w|] eqn:Ew; cbn [bind] in H; [|discriminate].
      destruct (check_facecolor color) as [[]|]; cbn [bind] in H; [|discriminate].
      destruct (IH colors _ _ H) as (new & -> & Hnew).
      exists (mkRectangle (start, y) w height color :: new).
      split; [rewrite <- app_assoc; reflexivity|].
      constructor; [|exact Hnew].
      unfold exon_rectangle. cbn [fst snd rect_xy rect_width rect_height
                                    rect_facecolor]. auto.
Qed.

(** X14: what [add_ax] draws once the limits are set. The exon rectangles
    sit at height 0.5 and are 0.5 high, one for each exon that has a
    colour; the arcs of the canonical junctions start and end on the upper
    edge of the exons, at height 1.0, and the backsplice curves on the
    lower edge, at height 0.5; the arcs are added before the curves; the
    limits are left as set; the title is the sample name with [-], [_]
    and [|] turned into blanks. *)
Theorem add_ax_draw_layout (ax : Axes) (coords : list span) (gene_length : pynum)
    (smp : sample) (colors : list rgba) (sp : Subplot) :
  add_ax_draw ax coords gene_length (smp, colors) = Ok sp ->
  xlim (sub_axes sp) = xlim ax /\ ylim (sub_axes sp) = ylim ax
  /\ sub_title sp = blank_separators (name smp)
  /\ List.length (sub_exons sp)
     = Nat.min (List.length coords) (List.length colors)
  /\ Forall2 (exon_rectangle (PFloat f0_5) (PFloat f0_5))
       (combine coords colors) (sub_exons sp)
  /\ exists arcs curves,
       patches (sub_axes sp) = patches ax ++ arcs ++ curves
       /\ Forall (drawn_for canonical_patch (canonical smp) (PFloat (B64.of_Z 1)))
            arcs
       /\ Forall (drawn_for backsplice_patch (backsplice smp) (PFloat f0_5))
            curves.
Proof.
  unfold add_ax_draw. intros H.
  change (py_add (PFloat f0_5) (PFloat f0_5)) with (Ok (PFloat (B64.of_Z 1))) in H.
  cbn [bind] in H.
  destruct (plot_exons [] coords (PFloat f0_5) (PFloat f0_5) colors)
    as [exons|] eqn:Ee; cbn [bind] in H; [|discriminate].
  destruct (plot_SJ_curves ax (canonical smp) (PFloat (B64.of_Z 1)))
    as [ax1|] eqn:E1; cbn [bind] in H; [|discriminate].
  destruct (plot_circles ax1 (backsplice smp) (PFloat f0_5) gene_length)
    as [ax2|] eqn:E2; cbn [bind] in H; [|discriminate].
  injection H as <-. cbn [sub_axes sub_exons sub_title].
  destruct (plot_exons_inv _ _ _ _ _ _ Ee) as (new & -> & Hnew).
  destruct (plot_SJ_curves_adds _ _ _ _ E1) as (Hx1 & Hy1 & arcs & Ha & Harcs).
  destruct (plot_circles_adds _ _ _ _ _ E2) as (Hx2 & Hy2 & curves & Hc & Hcurves).
  split; [congruence|]. split; [congruence|]. split; [reflexivity|].
  cbn [app]. split; [rewrite <- (Forall2_length Hnew); apply length_combine|].
  split; [exact Hnew|].
  exists arcs, curves. split; [rewrite Hc, Ha, <- app_assoc; reflexivity|].
  auto.
Qed.

Lemma add_ax_draw_layout_witness :
  exists sp,
    add_ax_draw ax_example [ints 100 150; ints 300 350] (PInt 250)
      (sample_example, [((PInt 1, PInt 0, PInt 0), PInt 1)]) = Ok sp
    /\ sub_title sp = blank_separators (name sample_example)
    /\ List.length (sub_exons sp) = Nat.min 2 1.
Proof.
  destruct (add_ax_draw ax_example [ints 100 150; ints 300 350] (PInt 250)
              (sample_example, [((PInt 1, PInt 0, PInt 0), PInt 1)]))
    as [sp|e] eqn:E.
  - exists sp. split; [reflexivity|].
    destruct (add_ax_draw_layout _ _ _ _ _ _ E) as (_ & _ & Ht & Hl & _).
    split; [exact Ht | exact Hl].
  - vm_compute in E. discriminate.
Defined.

(** ** The script *)

Lemma run_bind_done {A B : Type} (c : run A) (k : A -> run B) (b : B) :
  run_bind c k = Done b -> exists a, c = Done a /\ k a = Done b.
Proof. destruct c as [a|s]; cbn [run_bind]; [eauto|discriminate]. Qed.

Lemma lift_done {A : Type} (r : res A) (a : A) : lift r = Done a -> r = Ok a.
Proof. destruct r; cbn [lift]; intros H; [injection H as ->; reflexivity|discriminate]. Qed.

Lemma sample_colors_length (normalize : bool) (highest : pynum) (color : rgb)
    (cov : list pynum) (out : list rgba) :
  sample_colors normalize highest color cov = Ok out ->
  List.length out = List.length cov.
Proof.
  unfold sample_colors. intros H.
  destruct (if normalize then Ok highest else py_max cov) as [mc|];
    cbn [bind] in H; [|discriminate].
  destruct (py_ne mc (PInt 0)).
  - destruct (alphas cov mc) as [al|] eqn:Ea; cbn [bind] in H; [|discriminate].
    injection H as <-. rewrite length_map. symmetry.
    exact (Forall2_length (alphas_quotients cov mc al Ea)).
  - injection H as <-. apply length_map.
Qed.

Lemma assign_colors_loop_lengths (normalize : bool) (highest : pynum) (color : rgb)
    (samples : list sample) :
  forall out,
    assign_colors_loop normalize highest color samples = Ok out ->
    Forall2 (fun s sc => fst sc = s
                         /\ List.length (snd sc) = List.length (coverage s))
      samples out.
Proof.
  induction samples as [|s rest IH]; intros out H; cbn [assign_colors_loop] in H.
  - injection H as <-. constructor.
  - destruct (sample_colors normalize highest color (coverage s)) as [c|] eqn:Ec;
      cbn [bind] in H; [|discriminate].
    destruct (assign_colors_loop normalize highest color rest) as [tl|];
      cbn [bind] in H; [|discriminate].
    injection H as <-. constructor; [|apply IH; reflexivity].
    cbn [fst snd]. split; [reflexivity|].
    exact (sample_colors_length _ _ _ _ _ Ec).
Qed.

Lemma assign_colors_lengths (normalize : bool) (color : rgb)
    (samples : list sample) (out : list (sample * list rgba)) :
  assign_colors normalize color samples = Ok out ->
  Forall2 (fun s sc => fst sc = s
                       /\ List.length (snd sc) = List.length (coverage s))
    samples out.
Proof.
  unfold assign_colors. intros H.
  destruct (if normalize then highest_loop samples (PInt 0) else Ok (PInt 0));
    cbn [bind] in H; [|discriminate].
  exact (assign_colors_loop_lengths _ _ _ _ _ H).
Qed.

Lemma scale_introns_length (coords out : list span) (s : pynum) :
  scale_introns coords s = Ok out -> List.length out = List.length coords.
Proof.
  unfold scale_introns. destruct (py_eq s (PInt 0)).
  - intros H. injection H as <-. reflexivity.
  - destruct coords as [|c0 rest]; [discriminate|].
    destruct (scale_introns_loop s c0 c0 rest) as [tl|] eqn:E; cbn [bind];
      [|discriminate].
    intros H. injection H as <-. cbn [List.length]. f_equal.
    exact (proj1 (scale_introns_loop_floats _ _ _ _ _ E)).
Qed.

Lemma load_samples_spec (fs : files) (args : Args) (transcript chromosome
    strand : string) (tstart tstop : Z) (coords : list span)
    (scaled : option (list span)) (paths : list string) :
  forall samples,
    load_samples fs args transcript chromosome strand tstart tstop coords scaled
      paths = Ok samples ->
    Forall2 (fun path s =>
               name s = upper (before_dot path)
               /\ coverage s
                  = (if String.eqb strand "-"
                     then rev (get_coverage (coverage_table (connect fs path))
                                 transcript)
                     else get_coverage (coverage_table (connect fs path))
                            transcript))
      paths samples.
Proof.
  induction paths as [|path rest IH]; intros samples H; cbn [load_samples] in H.
  - injection H as <-. constructor.
  - destruct (load_sample fs args transcript chromosome strand tstart tstop
                coords scaled path) as [s|] eqn:Es; cbn [bind] in H;
      [|discriminate].
    destruct (load_samples fs args transcript chromosome strand tstart tstop
                coords scaled rest) as [tl|]; cbn [bind] in H; [|discriminate].
    injection H as <-. constructor; [|apply IH; reflexivity].
    unfold load_sample in Es.
    repeat match type of Es with
      | bind ?c _ = _ => destruct c; cbn [bind] in Es; [|discriminate]
      end.
    injection Es as <-. cbn [name coverage]. auto.
Qed.

Lemma get_exons_done (db : database) (transcript chromosome strand : string)
    (starts stops : list Z) :
  get_exons db transcript = Done (chromosome, starts, stops, strand) ->
  starts = map row_start (fetch_transcript db transcript)
  /\ stops = map row_stop (fetch_transcript db transcript)
  /\ fetch_transcript db transcript <> [].
Proof.
  unfold get_exons. destruct (fetch_transcript db transcript) as [|first rest];
    [discriminate|].
  destruct (1 <? distinct_count (map row_chromosome (first :: rest)))%nat;
    [discriminate|].
  intros H. injection H as <- <- <- <-.
  split; [reflexivity|]. split; [reflexivity|discriminate].
Qed.

Lemma Forall2_compose {A B C : Type} (P : A -> B -> Prop) (Q : B -> C -> Prop)
    (R : A -> C -> Prop) (la : list A) (lb : list B) (lc : list C) :
  (forall a b c, P a b -> Q b c -> R a c) ->
  Forall2 P la lb -> Forall2 Q lb lc -> Forall2 R la lc.
Proof.
  intros HR H1. revert lc. induction H1 as [|a b la lb Hab _ IH]; intros lc H2.
  - inversion H2. constructor.
  - inversion H2 as [|? c ? lc' Hbc Hrest]; subst.
    constructor; [exact (HR _ _ _ Hab Hbc)|apply IH; exact Hrest].
Qed.

(** What [prepare] hands to the plotting loop. *)
Lemma prepare_done (fs : files) (args : Args) (p : prepared) :
  prepare fs args = Done p ->
  exists db0 rest color,
    arg_database args = db0 :: rest
    /\ parse_args fs args = Done (plot_transcript p, color)
    /\ fetch_transcript (coverage_table (connect fs db0)) (plot_transcript p)
       <> []
    /\ List.length (plot_coords p)
       = List.length (fetch_transcript (coverage_table (connect fs db0))
                        (plot_transcript p))
    /\ Forall2 (fun path sc =>
                  name (fst sc) = upper (before_dot path)
                  /\ List.length (snd sc)
                     = List.length
                         (fetch_transcript (coverage_table (connect fs path))
                            (plot_transcript p)))
         (arg_database args) (plot_samples p)
    /\ plot_title p
       = (if truthy (arg_gene args)
          then text (arg_gene args) ++ " (" ++ plot_transcript p ++ ")"
          else plot_transcript p)%string.
Proof.
  unfold prepare. intros H.
  apply run_bind_done in H. destruct H as ([transcript color] & Hparse & H).
  apply run_bind_done in H. destruct H as (db0 & Hdb0 & H).
  apply lift_done in Hdb0. unfold index in Hdb0.
  destruct (arg_database args) as [|d rest] eqn:Edb; [discriminate|].
  cbn [nth_error] in Hdb0. injection Hdb0 as ->.
  apply run_bind_done in H.
  destruct H as ([[[chromosome starts] stops] strand] & Hexons & H).
  apply run_bind_done in H. destruct H as (tstart & _ & H).
  apply run_bind_done in H. destruct H as (tstop & _ & H).
  apply run_bind_done in H. destruct H as (scaled & Hscaled & H).
  apply run_bind_done in H. destruct H as (samples & Hsamples & H).
  apply lift_done in Hsamples.
  apply run_bind_done in H. destruct H as (colored & Hcolored & H).
  apply lift_done in Hcolored.
  injection H as <-. cbn [plot_transcript plot_coords plot_samples plot_title].
  destruct (get_exons_done _ _ _ _ _ _ Hexons) as (Hstarts & Hstops & Hne).
  exists db0, rest, color.
  split; [reflexivity|]. split; [exact Hparse|]. split; [exact Hne|].
  split; [|split; [|reflexivity]].
  - assert (Hlen : List.length
                     (map (fun se : Z * Z => ints (fst se) (snd se))
                        (sorted (combine starts stops)))
                   = List.length (fetch_transcript (coverage_table (connect fs db0))
                                    transcript)).
    { rewrite length_map, sorted_length, length_combine, Hstarts, Hstops,
        !length_map. apply Nat.min_id. }
    destruct (truthy_float (arg_intron_scale args)) as [factor|].
    + apply run_bind_done in Hscaled. destruct Hscaled as (sc & Hsc & Hs).
      injection Hs as <-. apply lift_done in Hsc.
      rewrite (scale_introns_length _ _ _ Hsc). exact Hlen.
    + injection Hscaled as <-. exact Hlen.
  - eapply Forall2_compose;
      [|exact (load_samples_spec _ _ _ _ _ _ _ _ _ _ _ Hsamples)
       |exact (assign_colors_lengths _ _ _ _ Hcolored)].
    cbn beta. intros path s sc [Hname Hcov] [Hfst Hlen].
    rewrite Hfst. split; [exact Hname|]. rewrite Hlen, Hcov.
    destruct (String.eqb strand "-"); [rewrite length_rev|];
      apply get_coverage_length.
Qed.

(** X15: when the script reaches the plotting loop, it has one coloured
    sample for each database path, in the order of the paths, named after
    the path; each sample has one colour for each row of the transcript
    in its own database, and the exon list has one exon for each row of the
    transcript in the first database, so in the first sub-plot every exon
    has a colour. The title is the transcript, or [gene (transcript)] when
    a gene was given. *)
Theorem prepare_samples (fs : files) (args : Args) (p : prepared) :
  prepare fs args = Done p ->
  exists db0 rest color,
    arg_database args = db0 :: rest
    /\ parse_args fs args = Done (plot_transcript p, color)
    /\ fetch_transcript (coverage_table (connect fs db0)) (plot_transcript p)
       <> []
    /\ List.length (plot_coords p)
       = List.length (fetch_transcript (coverage_table (connect fs db0))
                        (plot_transcript p))
    /\ Forall2 (fun path sc =>
                  name (fst sc) = upper (before_dot path)
                  /\ List.length (snd sc)
                     = List.length
                         (fetch_transcript (coverage_table (connect fs path))
                            (plot_transcript p)))
         (arg_database args) (plot_samples p)
    /\ plot_title p
       = (if truthy (arg_gene args)
          then text (arg_gene args) ++ " (" ++ plot_transcript p ++ ")"
          else plot_transcript p)%string.
Proof. apply prepare_done. Qed.

Lemma prepare_samples_witness :
  exists p,
    prepare files_example
      (args_example ["a.db"%string; "b.db"%string] None (Some "EGFR"%string))
    = Done p
    /\ plot_title p = ("EGFR (" ++ plot_transcript p ++ ")")%string
    /\ List.length (plot_samples p) = 2%nat.
Proof.
  destruct (prepare files_example
              (args_example ["a.db"%string; "b.db"%string] None
                 (Some "EGFR"%string))) as [p|s] eqn:E.
  - exists p. split; [reflexivity|].
    destruct (prepare_samples _ _ _ E)
      as (db0 & rest & color & _ & Hparse & _ & _ & Hall & Ht).
    split.
    + rewrite Ht. reflexivity.
    + rewrite <- (Forall2_length Hall). reflexivity.
  - vm_compute in E. discriminate.
Defined.

(** ** Sample names and titles *)

(** The capital of an ASCII character other than the dot is one code
    point, and after the blanking it is no dot, no separator and no small
    letter. *)
Lemma title_point (c : ascii) :
  is_ascii_char c = true -> c <> "."%char ->
  exists u,
    upper_point (code c) = [u]
    /\ (if is_separator u then 32 else u) <> 46
    /\ is_separator (if is_separator u then 32 else u) = false
    /\ is_small_letter (if is_separator u then 32 else u) = false.
Proof.
  assert (H : forall a,
            (fun a =>
               negb (is_ascii_char a) || Ascii.eqb a "."
               || match upper_point (code a) with
                  | [u] =>
                      let t := if is_separator u then 32 else u in
                      negb (t =? 46) && negb (is_separator t)
                      && negb (is_small_letter t)
                  | _ => false
                  end) a = true)
    by (apply forall_ascii; vm_compute; reflexivity).
  intros Hc Hdot. specialize (H c). cbv beta in H.
  rewrite Hc in H. cbn [negb orb] in H.
  destruct (Ascii.eqb_spec c ".") as [|_]; [contradiction|]. cbn [orb] in H.
  destruct (upper_point (code c)) as [|u [|? ?]]; try discriminate.
  cbv zeta in H.
  apply andb_prop in H. destruct H as [H H3].
  apply andb_prop in H. destruct H as [H1 H2].
  apply negb_true_iff in H1, H2, H3. apply Z.eqb_neq in H1.
  exists u. auto.
Qed.

Lemma before_dot_prefix (path : string) :
  exists rest,
    path = (before_dot path ++ rest)%string
    /\ (rest = EmptyString \/ exists r, rest = String "." r).
Proof.
  induction path as [|c s IH]; cbn [before_dot].
  - exists EmptyString. split; [reflexivity|left; reflexivity].
  - destruct (Ascii.eqb_spec c ".") as [->|Hne].
    + exists (String "." s). split; [reflexivity|right; eauto].
    + destruct IH as (rest & E & Hrest). exists rest.
      split; [cbn [String.append]; f_equal; exact E|exact Hrest].
Qed.

Lemma title_points (path : string) :
  is_ascii path = true ->
  List.length (blank_separators (upper (before_dot path)))
  = String.length (before_dot path)
  /\ Forall (fun n => n <> 46 /\ is_separator n = false
                      /\ is_small_letter n = false)
       (blank_separators (upper (before_dot path))).
Proof.
  induction path as [|c s IH]; cbn [before_dot is_ascii]; intros Hascii.
  - split; [reflexivity|constructor].
  - apply andb_prop in Hascii. destruct Hascii as [Hc Hs].
    destruct (IH Hs) as [IHl IHc].
    destruct (Ascii.eqb_spec c ".") as [->|Hne]; [split; [reflexivity|constructor]|].
    destruct (title_point c Hc Hne) as (u & Eu & H1 & H2 & H3).
    unfold upper in *. cbn [code_points flat_map]. rewrite Eu.
    cbn [app]. unfold blank_separators in *. cbn [map List.length String.length].
    split; [f_equal; exact IHl|]. constructor; [auto|exact IHc].
Qed.

(** X16: the title of a sub-plot is made from the database path: the text
    before the first dot, in capitals, with [-], [_] and [|] turned into
    blanks. It is as long as that text and holds no dot, no separator and
    no small letter; a path that starts with a dot, as [./s1.db] does,
    gives the empty title. Stated for paths of ASCII characters. *)
Theorem sample_title_of_path (path : string) :
  is_ascii path = true ->
  (exists rest,
      path = (before_dot path ++ rest)%string
      /\ (rest = EmptyString \/ exists r, rest = String "." r))
  /\ List.length (blank_separators (upper (before_dot path)))
     = String.length (before_dot path)
  /\ Forall (fun n => n <> 46 /\ is_separator n = false
                      /\ is_small_letter n = false)
       (blank_separators (upper (before_dot path)))
  /\ (forall r, path = String "." r ->
        blank_separators (upper (before_dot path)) = []).
Proof.
  intros Hascii. split; [apply before_dot_prefix|].
  destruct (title_points path Hascii) as [Hl Hc].
  split; [exact Hl|]. split; [exact Hc|].
  intros r ->. reflexivity.
Qed.

Lemma sample_title_of_path_witness :
  blank_separators (upper (before_dot "./run_1/s1-a.db")) = []
  /\ List.length (blank_separators (upper (before_dot "s1-a_b.db"))) = 6%nat.
Proof.
  split.
  - apply (proj2 (proj2 (proj2 (sample_title_of_path "./run_1/s1-a.db" eq_refl)))
             "/run_1/s1-a.db"%string).
    reflexivity.
  - rewrite (proj1 (proj2 (sample_title_of_path "s1-a_b.db" eq_refl))).
    reflexivity.
Defined.

(** A path of ASCII characters, and one with a sharp s and a y with
    diaeresis: the name gets longer and leaves the code points below
    256. *)
Example sample_title_example :
  blank_separators (upper (before_dot "data/s1-a_b|c.db"))
  = code_points "DATA/S1 A B C"
  /\ upper (before_dot
              (String (ascii_of_nat 223) (String (ascii_of_nat 255) "a.db")))
     = [83; 83; 376; 65].
Proof. split; vm_compute; reflexivity. Qed.

(** * More binary64 facts *)

(** ** Canonical floats *)

Lemma canonical_valid (f : float) : canonical_float f -> valid_float f.
Proof. destruct f; cbn; tauto. Qed.

Lemma finish_canonical (sx : bool) (m' e' : Z) :
  0 <= m' < 2 ^ 53 -> -1074 <= e' -> (-1074 < e' -> 2 ^ 52 <= m') ->
  canonical_float (finish sx m' e').
Proof.
  intros Hm He Hc.
  destruct (finish_cases sx m' e' (proj1 Hm))
    as [[_ ->]|[(p & -> & Hle & ->)|(_ & _ & ->)]]; cbn [canonical_float];
    auto.
  split; [lia|]. split; [lia|exact Hc].
Qed.

Lemma of_Z_canonical (z : Z) : canonical_float (B64.of_Z z).
Proof.
  destruct z as [|p|p]; [exact I| |].
  - destruct (of_Z_pos_spec p) as (m' & e' & -> & Hm' & He' & Hc & _).
    apply finish_canonical; assumption.
  - destruct (of_Z_neg_spec p) as (m' & e' & -> & Hm' & He' & Hc & _).
    apply finish_canonical; assumption.
Qed.

(** ** Multiplication *)

Lemma F2R_mul (m1 m2 e1 e2 : Z) :
  F2R (m1 * m2) (e1 + e2) = (F2R m1 e1 * F2R m2 e2)%R.
Proof. unfold F2R. rewrite mult_IZR, bpow_plus. ring. Qed.

(** The product of two canonical finite floats is the rounding of the
    exact product. *)
Lemma mul_finite_spec (sx sy : bool) (mx my : positive) (ex ey : Z) :
  canonical_float (S754_finite sx mx ex) ->
  canonical_float (S754_finite sy my ey) ->
  exists m' e',
    B64.mul (S754_finite sx mx ex) (S754_finite sy my ey)
    = finish (xorb sx sy) m' e'
    /\ 0 <= m' < 2 ^ 53
    /\ -1074 <= e'
    /\ (-1074 < e' -> 2 ^ 52 <= m')
    /\ (forall a, format a ->
          (a <= F2R (Zpos mx) ex * F2R (Zpos my) ey)%R -> (a <= F2R m' e')%R)
    /\ (forall b, format b ->
          (F2R (Zpos mx) ex * F2R (Zpos my) ey <= b)%R -> (F2R m' e' <= b)%R).
Proof.
  intros (Hmx & Hex & Hcx) (Hmy & Hey & Hcy).
  unfold B64.mul, SFmul. rewrite <- F2R_mul.
  change (Zpos mx * Zpos my) with (Zpos (mx * my)).
  apply round_aux_spec; [lia | apply loc_rel_exact; lia |].
  unfold fexp64.
  destruct (Z_lt_le_dec (-1074) ex) as [Hx|Hx].
  - assert (H52 : 2 ^ 52 <= Zpos (mx * my)).
    { specialize (Hcx Hx). change (Zpos (mx * my)) with (Zpos mx * Zpos my). nia. }
    pose proof (Zdigits2_lower (Zpos (mx * my)) 53 H52 ltac:(lia)). lia.
  - destruct (Z_lt_le_dec (-1074) ey) as [Hy|Hy].
    + assert (H52 : 2 ^ 52 <= Zpos (mx * my)).
      { specialize (Hcy Hy). change (Zpos (mx * my)) with (Zpos mx * Zpos my). nia. }
      pose proof (Zdigits2_lower (Zpos (mx * my)) 53 H52 ltac:(lia)). lia.
    + lia.
Qed.

(** The product of a positive float and a float that is not negative is
    not negative. *)
Lemma mul_pos_nonneg (a b : float) :
  canonical_float a -> canonical_float b ->
  positive_float a -> B64.is_infinite a = false -> nonneg_float b ->
  B64.is_infinite b = false ->
  nonneg_float (B64.mul a b) /\ canonical_float (B64.mul a b).
Proof.
  intros Ca Cb Pa Ia Nb Ib.
  destruct a as [sa|sa| |[|] ma ea]; try contradiction; try discriminate.
  destruct b as [sb|sb| |[|] mb eb]; try contradiction; try discriminate.
  - cbn. auto.
  - destruct (mul_finite_spec false false ma mb ea eb Ca Cb)
      as (m' & e' & -> & Hm' & He' & Hc & _).
    cbn [xorb]. split; [apply finish_nonneg; lia|].
    apply finish_canonical; assumption.
Qed.

(** ** Sums and differences *)

Lemma format_opp (x : R) : format x -> format (- x).
Proof.
  intros (m & e & -> & Hm & He). exists (- m), e.
  split; [symmetry; apply F2R_opp|]. split; [lia|exact He].
Qed.

Lemma float_value_finish (sx : bool) (m' e' : Z) :
  0 <= m' -> e' <= 971 \/ m' = 0 ->
  is_finite (finish sx m' e') = true
  /\ float_value (finish sx m' e')
     = (if sx then - F2R m' e' else F2R m' e')%R.
Proof.
  intros Hm He.
  destruct (finish_cases sx m' e' Hm)
    as [[-> ->]|[(p & -> & Hle & ->)|(Hpos & Hbig & ->)]].
  - split; [reflexivity|]. cbn [float_value]. rewrite F2R_0.
    destruct sx; lra.
  - split; [reflexivity|]. cbn [float_value]. destruct sx; cbn [signed].
    + change (Zneg p) with (- Zpos p). apply F2R_opp.
    + reflexivity.
  - lia.
Qed.

(** A rounded significand gives an infinity, or a finite float with the
    value of the significand. *)
Lemma finish_value_cases (sx : bool) (m' e' : Z) :
  0 <= m' -> (-1074 < e' -> 2 ^ 52 <= m') ->
  (finish sx m' e' = S754_infinity sx /\ (bpow 1024 <= F2R m' e')%R)
  \/ (is_finite (finish sx m' e') = true
      /\ float_value (finish sx m' e')
         = (if sx then - F2R m' e' else F2R m' e')%R).
Proof.
  intros Hm Hc.
  destruct (finish_cases sx m' e' Hm)
    as [[Hz E]|[(q & Hq & Hle & E)|(Hpos & Hbig & E)]].
  - right. apply float_value_finish; auto.
  - right. apply float_value_finish; auto.
  - left. split; [exact E|]. apply overflow_large; [apply Hc; lia|exact Hbig].
Qed.

(** The float that [binary_normalize] builds from [M * 2^e]: no
    representable number lies strictly between it and the exact value. *)
Lemma normalize_spec (M e : Z) :
  canonical_float (binary_normalize 53 1024 M e false)
  /\ B64.is_nan (binary_normalize 53 1024 M e false) = false
  /\ (forall a, format a -> (a <= F2R M e)%R ->
        binary_normalize 53 1024 M e false = S754_infinity false
        \/ (is_finite (binary_normalize 53 1024 M e false) = true
            /\ (a <= float_value (binary_normalize 53 1024 M e false))%R)
        \/ (a <= - bpow 1024)%R)
  /\ (forall b, format b -> (F2R M e <= b)%R ->
        binary_normalize 53 1024 M e false = S754_infinity true
        \/ (is_finite (binary_normalize 53 1024 M e false) = true
            /\ (float_value (binary_normalize 53 1024 M e false) <= b)%R)
        \/ (bpow 1024 <= b)%R).
Proof.
  destruct M as [|p|p]; cbn [binary_normalize].
  - split; [exact I|]. split; [reflexivity|]. rewrite F2R_0.
    split; intros x _ Hx; right; left; (split; [reflexivity|exact Hx]).
  - destruct (binary_round_spec false p e)
      as (m' & e' & -> & Hm' & He' & Hc & Hlow & Hup).
    split; [apply finish_canonical; assumption|].
    split.
    { destruct (finish_cases false m' e' (proj1 Hm'))
        as [[_ ->]|[(q & _ & _ & ->)|(_ & _ & ->)]]; reflexivity. }
    split.
    + intros a Fa Ha. specialize (Hlow a Fa Ha).
      destruct (finish_value_cases false m' e' (proj1 Hm') Hc)
        as [[E _]|[Hf Hv]].
      * left. exact E.
      * right. left. rewrite Hv. auto.
    + intros b Fb Hb. specialize (Hup b Fb Hb).
      destruct (finish_value_cases false m' e' (proj1 Hm') Hc)
        as [[_ Hov]|[Hf Hv]].
      * right. right. lra.
      * right. left. rewrite Hv. auto.
  - change (Zneg p) with (- Zpos p). rewrite F2R_opp.
    destruct (binary_round_spec true p e)
      as (m' & e' & -> & Hm' & He' & Hc & Hlow & Hup).
    split; [apply finish_canonical; assumption|].
    split.
    { destruct (finish_cases true m' e' (proj1 Hm'))
        as [[_ ->]|[(q & _ & _ & ->)|(_ & _ & ->)]]; reflexivity. }
    split.
    + intros a Fa Ha.
      assert (Hle : (F2R m' e' <= - a)%R).
      { apply Hup; [apply format_opp; exact Fa|lra]. }
      destruct (finish_value_cases true m' e' (proj1 Hm') Hc)
        as [[_ Hov]|[Hf Hv]].
      * right. right. lra.
      * right. left. rewrite Hv. split; [exact Hf|lra].
    + intros b Fb Hb.
      assert (Hge : (- b <= F2R m' e')%R).
      { apply Hlow; [apply format_opp; exact Fb|lra]. }
      destruct (finish_value_cases true m' e' (proj1 Hm') Hc)
        as [[E _]|[Hf Hv]].
      * left. exact E.
      * right. left. rewrite Hv. split; [exact Hf|lra].
Qed.

Lemma float_value_signed (s : bool) (m : positive) (e : Z) :
  float_value (S754_finite s m e) = F2R (signed s m) e.
Proof. reflexivity. Qed.

Lemma sub_finite_unfold (sa sb : bool) (ma mb : positive) (ea eb : Z) :
  exists Ma Mb ez,
    B64.sub (S754_finite sa ma ea) (S754_finite sb mb eb)
    = binary_normalize 53 1024 (Ma - Mb) ez false
    /\ F2R Ma ez = F2R (signed sa ma) ea
    /\ F2R Mb ez = F2R (signed sb mb) eb.
Proof.
  unfold B64.sub, SFsub.
  set (ez := Z.min ea eb).
  destruct (shl_align_spec ma ea ez) as (mza & eza & Ha & Heza & Hmza).
  destruct (shl_align_spec mb eb ez) as (mzb & ezb & Hb & Hezb & Hmzb).
  rewrite Ha, Hb. cbn [fst].
  exists (cond_Zopp sa (Zpos mza)), (cond_Zopp sb (Zpos mzb)), ez.
  split; [reflexivity|].
  assert (eza = ez) by lia. assert (ezb = ez) by lia. subst eza ezb.
  split.
  - destruct sa; cbn [cond_Zopp signed].
    + change (Zneg ma) with (- Zpos ma). rewrite !F2R_opp. f_equal.
      rewrite Hmza, F2R_shift by lia. f_equal. lia.
    + rewrite Hmza, F2R_shift by lia. f_equal. lia.
  - destruct sb; cbn [cond_Zopp signed].
    + change (Zneg mb) with (- Zpos mb). rewrite !F2R_opp. f_equal.
      rewrite Hmzb, F2R_shift by lia. f_equal. lia.
    + rewrite Hmzb, F2R_shift by lia. f_equal. lia.
Qed.

Lemma F2R_sub (m1 m2 e : Z) : F2R (m1 - m2) e = (F2R m1 e - F2R m2 e)%R.
Proof. unfold F2R. rewrite minus_IZR. ring. Qed.

(** The difference of two finite canonical floats is the rounding of the
    exact difference. *)
Lemma sub_spec (x y : float) :
  canonical_float x -> canonical_float y ->
  is_finite x = true -> is_finite y = true ->
  canonical_float (B64.sub x y) /\ B64.is_nan (B64.sub x y) = false
  /\ (forall a, format a -> (a <= float_value x - float_value y)%R ->
        B64.sub x y = S754_infinity false
        \/ (is_finite (B64.sub x y) = true /\ (a <= float_value (B64.sub x y))%R)
        \/ (a <= - bpow 1024)%R)
  /\ (forall b, format b -> (float_value x - float_value y <= b)%R ->
        B64.sub x y = S754_infinity true
        \/ (is_finite (B64.sub x y) = true /\ (float_value (B64.sub x y) <= b)%R)
        \/ (bpow 1024 <= b)%R).
Proof.
  intros Cx Cy Fx Fy.
  destruct x as [sx|sx| |sx mx ex]; try discriminate;
    destruct y as [sy|sy| |sy my ey]; try discriminate.
  - (* zero - zero *)
    assert (E : exists s, B64.sub (S754_zero sx) (S754_zero sy) = S754_zero s)
      by (destruct sx, sy; cbn; eauto).
    destruct E as (s & ->). cbn [float_value is_finite canonical_float B64.is_nan].
    split; [exact I|]. split; [reflexivity|].
    split; intros c _ Hc; right; left; (split; [reflexivity|lra]).
  - (* zero - finite *)
    cbn [B64.sub SFsub float_value is_finite B64.is_nan].
    split; [exact Cy|]. split; [reflexivity|].
    assert (Hv : F2R (signed (negb sy) my) ey = (0 - F2R (signed sy my) ey)%R).
    { destruct sy; cbn [negb signed];
        [change (Zneg my) with (- Zpos my)|change (Zneg my) with (- Zpos my)];
        rewrite F2R_opp; lra. }
    rewrite Hv.
    split; intros c _ Hc; right; left; (split; [reflexivity|lra]).
  - (* finite - zero *)
    cbn [B64.sub SFsub float_value is_finite B64.is_nan].
    split; [exact Cx|]. split; [reflexivity|].
    split; intros c _ Hc; right; left; (split; [reflexivity|lra]).
  - destruct (sub_finite_unfold sx sy mx my ex ey)
      as (Ma & Mb & ez & -> & HMa & HMb).
    rewrite !float_value_signed, <- HMa, <- HMb, <- F2R_sub.
    apply normalize_spec.
Qed.

(** Comparison of a finite float with an int that converts exactly. *)
Lemma py_le_float_int (f : float) (z : Z) :
  is_finite f = true ->
  py_le (PFloat f) (PInt z) = true <-> (float_value f <= IZR z)%R.
Proof.
  intros Hf. rewrite py_le_xle. cbn [xnum_of].
  destruct f as [s|s| |s m e]; try discriminate; cbn [xnum_of_float float_value].
  - rewrite xle_fin, F2R_0, F2R_exp0. reflexivity.
  - rewrite xle_fin, F2R_exp0. reflexivity.
Qed.

Lemma py_le_int_float_value (z : Z) (f : float) :
  is_finite f = true ->
  py_le (PInt z) (PFloat f) = true <-> (IZR z <= float_value f)%R.
Proof.
  intros Hf. rewrite py_le_xle. cbn [xnum_of].
  destruct f as [s|s| |s m e]; try discriminate; cbn [xnum_of_float float_value].
  - rewrite xle_fin, F2R_0, F2R_exp0. reflexivity.
  - rewrite xle_fin, F2R_exp0. reflexivity.
Qed.

(** ** The limits of a sub-plot *)

Lemma of_Z_value (z : Z) :
  Z.abs z <= 2 ^ 53 ->
  is_finite (B64.of_Z z) = true /\ float_value (B64.of_Z z) = IZR z.
Proof.
  intros Hz. destruct (of_Z_exact z Hz) as (m & e & E & Hv).
  destruct (B64.of_Z z) as [s|s| |s p q]; try discriminate;
    cbn [xnum_of_float] in E; injection E as <- <-; cbn [is_finite float_value].
  - split; [reflexivity|]. rewrite <- Hv. symmetry. apply F2R_0.
  - split; [reflexivity|]. exact Hv.
Qed.

Lemma f0_05_canonical : canonical_float f0_05.
Proof. cbn. repeat split; try lia; intros _; apply Z.leb_le; reflexivity. Qed.

(** The margin [0.05 * gene_length] for a gene length that is not
    negative: a finite float between 0 and the gene length. *)
Lemma x_adjustment_spec (L : Z) :
  0 <= L <= 2 ^ 54 ->
  exists adj,
    py_mul (PFloat f0_05) (PInt L) = Ok (PFloat adj)
    /\ canonical_float adj /\ nonneg_float adj /\ is_finite adj = true
    /\ (0 <= float_value adj)%R.
Proof.
  intros HL.
  assert (P54 : 2 ^ 54 <= 2 ^ 1023) by (apply Z.pow_le_mono_r; lia).
  unfold py_mul, to_float. rewrite (float_of_int_ok L) by lia. cbn [bind].
  exists (B64.mul f0_05 (B64.of_Z L)). split; [reflexivity|].
  destruct L as [|p|p]; [cbn; repeat split; auto; lra| |lia].
  destruct (of_Z_pos_spec p) as (mz & ez & Ez & Hmz & Hez & Hcz & Hlz & Huz).
  assert (Hup54 : (F2R mz ez <= bpow 54)%R).
  { apply Huz; [apply format_bpow; lia|].
    rewrite (bpow_IZR 54) by lia. apply IZR_le. lia. }
  assert (Hlow1 : (1 <= F2R mz ez)%R).
  { apply (Hlz 1%R); [change 1%R with (bpow 0); apply format_bpow; lia|].
    apply IZR_le. lia. }
  destruct (finish_positive mz ez (proj1 Hmz) Hcz) as (q & Eq & ->).
  { split; [lra|]. apply Rle_lt_trans with (bpow 54); [exact Hup54|].
    apply bpow_lt. lia. }
  rewrite Ez, Eq.
  assert (Cq : canonical_float (S754_finite false q ez)).
  { rewrite <- Eq. apply finish_canonical; assumption. }
  unfold f0_05 in *.
  destruct (mul_finite_spec false false _ q _ ez f0_05_canonical Cq)
    as (m' & e' & -> & Hm' & He' & Hc & Hlow & Hup).
  cbn [xorb].
  assert (Hx : (F2R 7205759403792794 (-57) * F2R (Zpos q) ez <= bpow 54)%R).
  { assert (0 < F2R 7205759403792794 (-57) <= 1)%R.
    { split; [apply F2R_pos|].
      replace 1%R with (F2R (2 ^ 57) (-57)).
      - apply F2R_le. apply Z.leb_le. reflexivity.
      - rewrite F2R_bpow by lia. reflexivity. }
    nra. }
  pose proof (Hup _ (format_bpow 54 ltac:(lia)) Hx) as Hb.
  assert (Hfin : B64.is_infinite (finish false m' e') = false).
  { apply finish_not_infinite; [lia|exact Hc|].
    apply Rle_lt_trans with (bpow 54); [exact Hb|]. apply bpow_lt. lia. }
  split; [apply finish_canonical; assumption|].
  split; [apply finish_nonneg; lia|].
  destruct (finish_value_cases false m' e' (proj1 Hm') Hc) as [[E _]|[Hf Hv]].
  - rewrite E in Hfin. discriminate.
  - split; [exact Hf|]. rewrite Hv. unfold F2R.
    pose proof (bpow_gt_0 e'). assert (0 <= IZR m')%R by (apply IZR_le; lia). nra.
Qed.

Lemma fold_py_min_ints (tl : list Z) (x : Z) :
  fold_left (fun m v => if py_lt v m then v else m) (map PInt tl) (PInt x)
  = PInt (fold_left Z.min tl x).
Proof.
  revert x. induction tl as [|a tl IH]; intros x; cbn [map fold_left];
    [reflexivity|].
  cbv beta. rewrite py_lt_int. destruct (Z.ltb_spec a x).
  - rewrite IH. f_equal. f_equal. lia.
  - rewrite IH. f_equal. f_equal. lia.
Qed.

Lemma fold_py_max_ints (tl : list Z) (x : Z) :
  fold_left (fun m v => if py_gt v m then v else m) (map PInt tl) (PInt x)
  = PInt (fold_left Z.max tl x).
Proof.
  revert x. induction tl as [|a tl IH]; intros x; cbn [map fold_left];
    [reflexivity|].
  cbv beta. change (py_gt (PInt a) (PInt x)) with (py_lt (PInt x) (PInt a)).
  rewrite py_lt_int. destruct (Z.ltb_spec x a).
  - rewrite IH. f_equal. f_equal. lia.
  - rewrite IH. f_equal. f_equal. lia.
Qed.

Lemma int_spans_lists (B : Z) (coords : list span) :
  Forall (int_span_within B) coords ->
  exists l : list (Z * Z),
    coords = map (fun se => ints (fst se) (snd se)) l
    /\ Forall (fun se => Z.abs (fst se) <= B /\ Z.abs (snd se) <= B) l.
Proof.
  induction 1 as [|sp tl (a & b & -> & Ha & Hb) _ (l & -> & Hl)].
  - exists []. split; [reflexivity|constructor].
  - exists ((a, b) :: l). split; [reflexivity|]. constructor; [auto|exact Hl].
Qed.

(** Comparisons through an int between the two floats. *)
Lemma py_le_float_below (f : float) (m a : Z) :
  f = S754_infinity true \/ (is_finite f = true /\ (float_value f <= IZR m)%R) ->
  m <= a -> py_le (PFloat f) (PInt a) = true.
Proof.
  intros [->|[Hf Hv]] Hma; [reflexivity|].
  apply py_le_float_int; [exact Hf|]. apply IZR_le in Hma. lra.
Qed.

Lemma py_le_int_trans (b M : Z) (r : float) :
  b <= M -> py_le (PInt M) (PFloat r) = true -> py_le (PInt b) (PFloat r) = true.
Proof.
  intros Hb H. destruct r as [s|[|]| |s p q]; try discriminate; try reflexivity.
  - apply (py_le_int_float_value M) in H; [|reflexivity].
    apply py_le_int_float_value; [reflexivity|]. apply IZR_le in Hb. lra.
  - apply (py_le_int_float_value M) in H; [|reflexivity].
    apply py_le_int_float_value; [reflexivity|]. apply IZR_le in Hb. lra.
Qed.

Lemma py_lt_floats_apart (x y : float) (m M : Z) :
  py_le (PFloat x) (PInt m) = true -> py_le (PInt M) (PFloat y) = true ->
  m < M -> py_lt (PFloat x) (PFloat y) = true.
Proof.
  intros Hx Hy Hlt. apply IZR_lt in Hlt.
  assert (Hfx : forall s p q, x = S754_finite s p q \/ x = S754_zero s ->
                              (float_value x <= IZR m)%R).
  { intros s p q Hc. apply py_le_float_int; [|exact Hx].
    destruct Hc as [->| ->]; reflexivity. }
  assert (Hfy : forall s p q, y = S754_finite s p q \/ y = S754_zero s ->
                              (IZR M <= float_value y)%R).
  { intros s p q Hc. apply py_le_int_float_value; [|exact Hy].
    destruct Hc as [->| ->]; reflexivity. }
  destruct x as [sx|[|]| |sx px qx]; try discriminate;
    destruct y as [sy|[|]| |sy py_ qy]; try discriminate; try reflexivity.
  - specialize (Hfx sx 1%positive 0 (or_intror eq_refl)).
    specialize (Hfy sy 1%positive 0 (or_intror eq_refl)).
    cbn [float_value] in *. lra.
  - specialize (Hfx sx 1%positive 0 (or_intror eq_refl)).
    specialize (Hfy sy py_ qy (or_introl eq_refl)).
    cbn [float_value] in *.
    unfold py_lt, py_compare. cbn [xnum_of xnum_of_float xnum_compare].
    pose proof (dyadic_compare_spec 0 0 (if sy then Zneg py_ else Zpos py_) qy) as Hc.
    change (if sy then Zneg py_ else Zpos py_) with (signed sy py_) in *.
    rewrite F2R_0 in Hc.
    destruct (dyadic_compare 0 0 (signed sy py_) qy); [lra|reflexivity|lra].
  - specialize (Hfx sx px qx (or_introl eq_refl)).
    specialize (Hfy sy 1%positive 0 (or_intror eq_refl)).
    cbn [float_value] in *.
    unfold py_lt, py_compare. cbn [xnum_of xnum_of_float xnum_compare].
    pose proof (dyadic_compare_spec (if sx then Zneg px else Zpos px) qx 0 0) as Hc.
    change (if sx then Zneg px else Zpos px) with (signed sx px) in *.
    rewrite F2R_0 in Hc.
    destruct (dyadic_compare (signed sx px) qx 0 0); [lra|reflexivity|lra].
  - specialize (Hfx sx px qx (or_introl eq_refl)).
    specialize (Hfy sy py_ qy (or_introl eq_refl)).
    cbn [float_value] in *.
    unfold py_lt, py_compare. cbn [xnum_of xnum_of_float xnum_compare].
    pose proof (dyadic_compare_spec (if sx then Zneg px else Zpos px) qx
                  (if sy then Zneg py_ else Zpos py_) qy) as Hc.
    change (if sx then Zneg px else Zpos px) with (signed sx px) in *.
    change (if sy then Zneg py_ else Zpos py_) with (signed sy py_) in *.
    destruct (dyadic_compare (signed sx px) qx (signed sy py_) qy);
      [lra|reflexivity|lra].
Qed.

(** X17: the limits that [add_ax] computes for exons with int coordinates
    of magnitude at most [2^53], each with [start <= stop]. The vertical
    limits are always -1.0 and 2.5. The gene length is the greatest stop
    minus the least start. The horizontal limits are the least start
    minus, and the greatest stop plus, the margin [0.05 * gene_length],
    computed in binary64; every exon lies between them, and they differ
    when the gene length is positive. *)
Theorem add_ax_limits_frame (coords : list span) :
  coords <> [] ->
  Forall (int_span_within (2 ^ 53)) coords ->
  Forall (fun sp => py_le (fst sp) (snd sp) = true) coords ->
  exists xmin xmax margin lo hi,
    add_ax_limits coords
    = Ok (PFloat xmin, PFloat xmax, PFloat (B64.of_Z (-1)),
          PFloat (B64.of_ratio 5 2), PInt (hi - lo))
    /\ transcript_extent coords lo hi
    /\ lo <= hi
    /\ py_mul (PFloat f0_05) (PInt (hi - lo)) = Ok (PFloat margin)
    /\ py_sub (PInt lo) (PFloat margin) = Ok (PFloat xmin)
    /\ py_add (PInt hi) (PFloat margin) = Ok (PFloat xmax)
    /\ Forall (fun sp => py_le (PFloat xmin) (fst sp) = true
                         /\ py_le (snd sp) (PFloat xmax) = true) coords
    /\ (lo < hi -> py_lt (PFloat xmin) (PFloat xmax) = true).
Proof.
  intros Hne Hints Hord.
  assert (P53 : 2 ^ 53 = 9007199254740992) by reflexivity.
  assert (P54 : 2 ^ 54 = 18014398509481984) by reflexivity.
  destruct (int_spans_lists _ _ Hints) as (l & -> & Hl).
  destruct l as [|[a0 b0] l]; [contradiction|].
  unfold add_ax_limits.
  change (py_add (PFloat f0_5) (PFloat f0_5)) with (Ok (PFloat (B64.of_Z 1))).
  cbn [bind]. rewrite !map_map. cbn [map ints fst snd py_min py_max].
  assert (Ef : map (fun x : Z * Z => PInt (fst x)) l = map PInt (map fst l))
    by (rewrite map_map; reflexivity).
  assert (Es : map (fun x : Z * Z => PInt (snd x)) l = map PInt (map snd l))
    by (rewrite map_map; reflexivity).
  rewrite Ef, Es, fold_py_min_ints, fold_py_max_ints. cbn [bind].
  set (m := fold_left Z.min (map fst l) a0).
  set (M := fold_left Z.max (map snd l) b0).
  destruct (fold_min_spec (map fst l) a0) as (_ & Hm0 & Hmall). fold m in Hm0, Hmall.
  destruct (fold_max_spec (map snd l) b0) as (_ & HM0 & HMall). fold M in HM0, HMall.
  assert (Hbound : forall se, In se ((a0, b0) :: l) ->
            Z.abs (fst se) <= 2 ^ 53 /\ Z.abs (snd se) <= 2 ^ 53
            /\ fst se <= snd se /\ m <= fst se /\ snd se <= M).
  { intros se Hin. rewrite Forall_forall in Hl. destruct (Hl se Hin) as [H1 H2].
    rewrite Forall_forall in Hord.
    pose proof (Hord (ints (fst se) (snd se))
                  (in_map (fun se => ints (fst se) (snd se)) _ _ Hin)) as Ho.
    cbn [ints fst snd] in Ho. rewrite py_le_int in Ho. apply Z.leb_le in Ho.
    split; [exact H1|]. split; [exact H2|]. split; [exact Ho|].
    destruct Hin as [<-|Hin]; cbn [fst snd].
    - split; lia.
    - split; [apply Hmall; apply in_map; exact Hin
             |apply HMall; apply in_map; exact Hin]. }
  assert (Hm_in : exists se, In se ((a0, b0) :: l) /\ fst se = m).
  { destruct (fold_min_spec (map fst l) a0) as ([E|Hin] & _).
    - exists (a0, b0). split; [left; reflexivity|]. symmetry. exact E.
    - apply in_map_iff in Hin. destruct Hin as (se & E & Hin).
      exists se. split; [right; exact Hin|exact E]. }
  assert (HM_in : exists se, In se ((a0, b0) :: l) /\ snd se = M).
  { destruct (fold_max_spec (map snd l) b0) as ([E|Hin] & _).
    - exists (a0, b0). split; [left; reflexivity|]. symmetry. exact E.
    - apply in_map_iff in Hin. destruct Hin as (se & E & Hin).
      exists se. split; [right; exact Hin|exact E]. }
  destruct Hm_in as (sem & Hsem & Em). destruct HM_in as (seM & HseM & EM).
  destruct (Hbound sem Hsem) as (Hma & _ & _ & _ & HmM').
  destruct (Hbound seM HseM) as (_ & HMb & _ & HmM'' & _).
  rewrite Em in Hma. rewrite EM in HMb.
  assert (HmM : m <= M).
  { destruct (Hbound (a0, b0) (or_introl eq_refl)) as (_ & _ & H1 & H2 & H3).
    cbn [fst snd] in *. lia. }
  change (py_sub (PInt M) (PInt m)) with (Ok (PInt (M - m))). cbn [bind].
  destruct (x_adjustment_spec (M - m) ltac:(lia))
    as (adj & Eadj & Cadj & Nadj & Fadj & Vadj).
  rewrite Eadj. cbn [bind].
  change (py_mul (PFloat (B64.of_Z 1)) (PFloat f0_5)) with (Ok (PFloat f0_5)).
  cbn [bind].
  change (py_mul (PFloat f0_5) (PInt 3)) with (Ok (PFloat (B64.of_ratio 3 2))).
  cbn [bind].
  (* the left limit *)
  assert (P1023 : 2 ^ 53 <= 2 ^ 1023) by (apply Z.pow_le_mono_r; lia).
  assert (Exmin : py_sub (PInt m) (PFloat adj)
                  = Ok (PFloat (B64.sub (B64.of_Z m) adj))).
  { unfold py_sub, to_float. rewrite (float_of_int_ok m) by lia. reflexivity. }
  rewrite Exmin. cbn [bind].
  destruct (of_Z_value m Hma) as [Fm Vm].
  destruct (sub_spec (B64.of_Z m) adj (of_Z_canonical m) Cadj Fm Fadj)
    as (_ & _ & _ & Hup).
  assert (Hxmin : B64.sub (B64.of_Z m) adj = S754_infinity true
                  \/ (is_finite (B64.sub (B64.of_Z m) adj) = true
                      /\ (float_value (B64.sub (B64.of_Z m) adj) <= IZR m)%R)).
  { destruct (Hup (IZR m) (format_IZR m Hma) ltac:(rewrite Vm; lra))
      as [E|[H|H]]; [left; exact E|right; exact H|].
    exfalso. assert (IZR m <= bpow 53)%R.
    { rewrite (bpow_IZR 53) by lia. apply IZR_le. lia. }
    assert (bpow 53 < bpow 1024)%R by (apply bpow_lt; lia). lra. }
  (* the right limit *)
  destruct (py_add_nonneg (PInt M) adj ltac:(cbn; lia) (canonical_valid _ Cadj) Nadj)
    as (xmax & Exmax & Hxmax & _ & _).
  rewrite Exmax. cbn [bind].
  change (py_sub (PFloat f0_5) (PFloat (B64.of_ratio 3 2)))
    with (Ok (PFloat (B64.of_Z (-1)))).
  cbn [bind].
  change (py_add (PFloat (B64.of_Z 1)) (PFloat (B64.of_ratio 3 2)))
    with (Ok (PFloat (B64.of_ratio 5 2))).
  cbn [bind].
  exists (B64.sub (B64.of_Z m) adj), xmax, adj, m, M.
  split; [reflexivity|].
  split.
  { split; [|split].
    - exists (ints (fst sem) (snd sem)). split; [|cbn [ints fst]; congruence].
      exact (in_map (fun se => ints (fst se) (snd se)) _ _ Hsem).
    - exists (ints (fst seM) (snd seM)). split; [|cbn [ints snd]; congruence].
      exact (in_map (fun se => ints (fst se) (snd se)) _ _ HseM).
    - change (ints a0 b0 :: map (fun se : Z * Z => ints (fst se) (snd se)) l)
        with (map (fun se : Z * Z => ints (fst se) (snd se)) ((a0, b0) :: l)).
      apply Forall_forall. intros sp Hsp. apply in_map_iff in Hsp.
      destruct Hsp as (se & <- & Hin). cbn [ints fst snd].
      destruct (Hbound se Hin) as (_ & _ & _ & H1 & H2).
      rewrite !py_le_int. split; apply Z.leb_le; assumption. }
  split; [exact HmM|]. split; [exact Eadj|]. split; [exact Exmin|].
  split; [exact Exmax|]. split.
  - change (ints a0 b0 :: map (fun se : Z * Z => ints (fst se) (snd se)) l)
      with (map (fun se : Z * Z => ints (fst se) (snd se)) ((a0, b0) :: l)).
    apply Forall_forall. intros sp Hsp. apply in_map_iff in Hsp.
    destruct Hsp as (se & <- & Hin). cbn [ints fst snd].
    destruct (Hbound se Hin) as (_ & _ & _ & H1 & H2).
    split.
    + apply (py_le_float_below _ m); assumption.
    + apply (py_le_int_trans _ M); assumption.
  - intros Hpos. apply (py_lt_floats_apart _ _ m M); [|exact Hxmax|lia].
    apply (py_le_float_below _ m); [exact Hxmin|lia].
Qed.

Lemma add_ax_limits_frame_witness :
  exists xmin xmax lo hi,
    add_ax_limits [ints 100 150; ints 300 350]
    = Ok (PFloat xmin, PFloat xmax, PFloat (B64.of_Z (-1)),
          PFloat (B64.of_ratio 5 2), PInt (hi - lo))
    /\ transcript_extent [ints 100 150; ints 300 350] lo hi
    /\ py_lt (PFloat xmin) (PFloat xmax) = true.
Proof.
  destruct (add_ax_limits_frame [ints 100 150; ints 300 350])
    as (xmin & xmax & margin & lo & hi & E & Hext & Hle & _ & _ & _ & _ & Hlt).
  - discriminate.
  - repeat constructor; eexists _, _; (split; [reflexivity|]);
      split; apply Z.leb_le; vm_compute; reflexivity.
  - repeat constructor.
  - exists xmin, xmax, lo, hi. split; [exact E|]. split; [exact Hext|].
    apply Hlt.
    assert (E250 : add_ax_limits [ints 100 150; ints 300 350]
                   = Ok (dyad 175 (-1), dyad 725 (-1), dyad (-1) 0,
                         dyad 5 (-1), PInt 250)) by (vm_compute; reflexivity).
    rewrite E250 in E.
    assert (Hgl : PInt 250 = PInt (hi - lo)) by congruence.
    injection Hgl as Hgl. lia.
Defined.

Example add_ax_limits_example :
  add_ax_limits [ints 100 150; ints 300 350]
  = Ok (dyad 175 (-1), dyad 725 (-1), dyad (-1) 0, dyad 5 (-1), PInt 250).
Proof. vm_compute. reflexivity. Qed.

(** ** The steps of the curve generators *)

Lemma finish_finite (sx : bool) (m' e' : Z) :
  0 <= m' -> (-1074 < e' -> 2 ^ 52 <= m') ->
  (0 < F2R m' e' < bpow 1024)%R ->
  exists p, finish sx m' e' = S754_finite sx p e' /\ m' = Zpos p.
Proof.
  intros Hm Hc [Hpos Hlt].
  destruct (finish_cases sx m' e' Hm)
    as [[-> _]|[(q & -> & Hle & ->)|(_ & Hbig & _)]].
  - rewrite F2R_0 in Hpos. lra.
  - eauto.
  - pose proof (overflow_large m' e' (Hc ltac:(lia)) Hbig). lra.
Qed.

(** The ceiling of a negative float is not positive. *)
Lemma ceil_neg_spec (m : positive) (e : Z) :
  Zpos m < 2 ^ 53 -> (F2R (Zpos m) e <= bpow 62)%R ->
  exists n, B64.ceil (S754_finite true m e) = Some n /\ - 2 ^ 62 <= n <= 0.
Proof.
  intros Hm Hv. cbn [B64.ceil].
  assert (P53 : 2 ^ 53 = 9007199254740992) by reflexivity.
  assert (P62 : 2 ^ 62 = 4611686018427387904) by reflexivity.
  destruct (Z.leb_spec 0 e) as [He|He].
  - eexists. split; [reflexivity|].
    assert (Hp : 0 < 2 ^ e) by (apply Z.pow_pos_nonneg; lia).
    assert (Zpos m * 2 ^ e <= 2 ^ 62).
    { apply le_IZR. rewrite <- (bpow_IZR 62) by lia.
      rewrite mult_IZR, <- (bpow_IZR e) by lia. exact Hv. }
    change (Zneg m) with (- Zpos m). nia.
  - eexists. split; [reflexivity|].
    change (- Zneg m) with (Zpos m).
    assert (Hp : 0 < 2 ^ (- e)) by (apply Z.pow_pos_nonneg; lia).
    pose proof (Z.div_pos (Zpos m) (2 ^ (- e)) ltac:(lia) Hp).
    pose proof (Z.div_le_upper_bound (Zpos m) (2 ^ (- e)) (Zpos m) Hp ltac:(nia)).
    lia.
Qed.

(** With a negative step [numpy.arange] is empty when the stop is above
    the start. *)
Lemma arange_negative_step (start stop : float) (rm p : positive) (re e : Z) :
  B64.sub stop start = S754_finite false rm re ->
  (F2R (Zpos rm) re <= 1)%R ->
  (bpow (-60) <= F2R (Zpos p) e)%R ->
  arange start stop (S754_finite true p e) = Ok [].
Proof.
  intros Er Hr Hp. unfold arange, arange_length. rewrite Er.
  unfold py_truediv, to_float. cbn [bind B64.is_zero].
  destruct (div_finite_spec false true rm p re e)
    as (mq & eq & -> & Hmq & Heq & Hcq & _ & Hup).
  cbn [xorb].
  assert (Hx : (F2R (Zpos rm) re / F2R (Zpos p) e <= bpow 60)%R).
  { pose proof (bpow_gt_0 (-60)) as H60. pose proof (F2R_pos rm re) as Hrp.
    assert (Hinv : (/ F2R (Zpos p) e <= / bpow (-60))%R)
      by (apply Rinv_le; lra).
    assert (E60 : (/ bpow (-60) = bpow 60)%R).
    { apply Rmult_eq_reg_l with (bpow (-60)); [|lra].
      rewrite Rinv_r by lra. rewrite <- bpow_plus. reflexivity. }
    rewrite E60 in Hinv. unfold Rdiv.
    assert (0 < / F2R (Zpos p) e)%R by (apply Rinv_0_lt_compat; lra).
    pose proof (bpow_gt_0 60). nra. }
  pose proof (Hup _ (format_bpow 60 ltac:(lia)) Hx) as Hq.
  assert (P63 : 2 ^ 63 = 9223372036854775808) by reflexivity.
  assert (P62 : 2 ^ 62 = 4611686018427387904) by reflexivity.
  destruct (finish_cases true mq eq (proj1 Hmq))
    as [[_ ->]|[(q & -> & Hle & ->)|(_ & Hbig & _)]].
  - cbn [bind B64.ceil]. reflexivity.
  - cbn [bind].
    destruct (ceil_neg_spec q eq ltac:(lia)) as (n & -> & Hn).
    { apply Rle_trans with (bpow 60); [exact Hq|]. apply bpow_le. lia. }
    unfold intp_min, intp_max.
    destruct (Z.leb_spec (- 2 ^ 63) n); [|lia].
    destruct (Z.leb_spec n (2 ^ 63 - 1)); [|lia].
    cbn [andb bind]. replace (Z.to_nat n) with 0%nat by lia. reflexivity.
  - exfalso. pose proof (overflow_large mq eq (Hcq ltac:(lia)) Hbig).
    assert (bpow 60 < bpow 1024)%R by (apply bpow_lt; lia). lra.
Qed.

Lemma IZR_abs_neg (q : positive) : IZR (Zpos q) = (- IZR (Zneg q))%R.
Proof. change (Zneg q) with (- Zpos q). rewrite opp_IZR. lra. Qed.

(** The step [1 / (counts * 2)] of the backsplice curves for a negative
    count: a negative float that is not too small. *)
Lemma backsplice_step_negative (c : Z) :
  - 2 ^ 53 <= c < 0 ->
  exists p e,
    py_truediv (PInt 1) (PInt (c * 2)) = Ok (PFloat (S754_finite true p e))
    /\ (bpow (-60) <= F2R (Zpos p) e)%R.
Proof.
  intros Hc.
  assert (P53 : 2 ^ 53 = 9007199254740992) by reflexivity.
  assert (P54 : 2 ^ 54 = 18014398509481984) by reflexivity.
  unfold py_truediv. destruct (Z.eqb_spec (c * 2) 0) as [|_]; [lia|].
  destruct (c * 2) as [|q|q] eqn:Eq; try lia.
  unfold B64.of_ratio. cbn [B64.raw_of_Z].
  destruct (div_finite_spec false true 1 q 0 0)
    as (ms & es & -> & Hms & Hes & Hcs & Hlow & Hup).
  cbn [xorb]. rewrite !F2R_exp0 in Hlow, Hup.
  assert (Hq : (1 <= IZR (Zpos q) <= bpow 54)%R).
  { split; [apply IZR_le; lia|].
    rewrite (bpow_IZR 54) by lia. apply IZR_le. lia. }
  assert (H54 : (/ bpow 54 = bpow (-54))%R).
  { pose proof (bpow_gt_0 54).
    apply Rmult_eq_reg_l with (bpow 54); [|lra].
    rewrite Rinv_r by lra. rewrite <- bpow_plus. reflexivity. }
  assert (Hx : (bpow (-54) <= 1 / IZR (Zpos q) <= 1)%R).
  { unfold Rdiv. rewrite Rmult_1_l. rewrite <- H54.
    pose proof (bpow_gt_0 54). split.
    - apply Rinv_le; lra.
    - rewrite <- Rinv_1. apply Rinv_le; lra. }
  pose proof (Hlow _ (format_bpow (-54) ltac:(lia)) (proj1 Hx)) as Hlo.
  assert (Hhi : (F2R ms es <= 1)%R).
  { apply Hup; [|exact (proj2 Hx)].
    change 1%R with (bpow 0). apply format_bpow. lia. }
  pose proof (bpow_gt_0 (-54)).
  destruct (finish_finite true ms es (proj1 Hms) Hcs) as (p & -> & ->).
  { split; [lra|]. apply Rle_lt_trans with (bpow 0); [exact Hhi|].
    apply bpow_lt. lia. }
  cbn [B64.is_infinite]. exists p, es. split; [reflexivity|].
  apply Rle_trans with (bpow (-54)); [apply bpow_le; lia|exact Hlo].
Qed.

(** A junction with a negative count gets no backsplice curve. *)
Lemma plot_circles_body_negative (ax : Axes) (start stop y gene_size : pynum)
    (c : Z) :
  - 2 ^ 53 <= c < 0 ->
  plot_circles_body ax (start, stop, c) y gene_size = Ok ax.
Proof.
  intros Hc. unfold plot_circles_body.
  destruct (Z.eqb_spec c 0) as [|_]; [lia|]. cbn [negb].
  destruct (backsplice_step_negative c Hc) as (p & e & -> & Hp).
  cbn [bind to_float].
  rewrite (arange_negative_step f0_0 f0_5 4503599627370496 p (-53) e eq_refl).
  - reflexivity.
  - change 4503599627370496 with (2 ^ 52). rewrite F2R_bpow by lia.
    apply Rlt_le. change 1%R with (bpow 0). apply bpow_lt. lia.
  - exact Hp.
Qed.

(** The value of an int of magnitude up to [2^53] as a float. *)
Lemma of_Z_finite (c : Z) :
  c <> 0 -> Z.abs c <= 2 ^ 53 ->
  exists p e,
    B64.of_Z c = S754_finite (c <? 0) p e
    /\ canonical_float (S754_finite (c <? 0) p e)
    /\ F2R (Zpos p) e = IZR (Z.abs c).
Proof.
  intros Hne Hc.
  assert (Hbig : (bpow 53 < bpow 1024)%R) by (apply bpow_lt; lia).
  assert (Hfin : forall sx q m' e',
            Zpos q <= 2 ^ 53 -> 0 <= m' < 2 ^ 53 -> -1074 <= e' ->
            (-1074 < e' -> 2 ^ 52 <= m') ->
            (forall a, format a -> (a <= IZR (Zpos q))%R -> (a <= F2R m' e')%R) ->
            (forall b, format b -> (IZR (Zpos q) <= b)%R -> (F2R m' e' <= b)%R) ->
            exists p, finish sx m' e' = S754_finite sx p e'
                      /\ canonical_float (S754_finite sx p e')
                      /\ F2R (Zpos p) e' = IZR (Zpos q)).
  { intros sx q m' e' Hq Hm' He' Hcan Hlow Hup.
    assert (Fq : format (IZR (Zpos q))) by (apply format_IZR; lia).
    pose proof (Hlow _ Fq (Rle_refl _)) as H1.
    pose proof (Hup _ Fq (Rle_refl _)) as H2.
    assert (Hv : F2R m' e' = IZR (Zpos q)) by lra.
    assert (Hpos : (0 < IZR (Zpos q))%R) by (apply IZR_lt; lia).
    assert (Hle : (IZR (Zpos q) <= bpow 53)%R).
    { rewrite (bpow_IZR 53) by lia. apply IZR_le. exact Hq. }
    destruct (finish_finite sx m' e' (proj1 Hm') Hcan ltac:(lra)) as (p & E & ->).
    exists p. split; [exact E|]. split; [|exact Hv].
    rewrite <- E. apply finish_canonical; assumption. }
  destruct c as [|q|q]; [contradiction| |].
  - destruct (of_Z_pos_spec q) as (m' & e' & -> & Hm' & He' & Hcan & Hlow & Hup).
    destruct (Hfin false q m' e' ltac:(lia) Hm' He' Hcan Hlow Hup)
      as (p & E & Cp & Hv).
    exists p, e'. auto.
  - destruct (of_Z_neg_spec q) as (m' & e' & -> & Hm' & He' & Hcan & Hlow & Hup).
    destruct (Hfin true q m' e' ltac:(lia) Hm' He' Hcan Hlow Hup)
      as (p & E & Cp & Hv).
    exists p, e'. auto.
Qed.

Lemma five_canonical : canonical_float (S754_finite false 5629499534213120 (-50)).
Proof. cbn. repeat split; try lia; intros _; apply Z.leb_le; reflexivity. Qed.

Lemma five_value : F2R 5629499534213120 (-50) = 5%R.
Proof.
  change 5629499534213120 with (5 * 2 ^ 50). rewrite F2R_shift by lia.
  rewrite F2R_exp0. reflexivity.
Qed.

(** [counts * step_denominator]: five times the count, exactly. *)
Lemma mul_five_spec (c : Z) :
  c <> 0 -> Z.abs c <= 2 ^ 50 ->
  exists p e,
    py_mul (PInt c) (PFloat (S754_finite false 5629499534213120 (-50)))
    = Ok (PFloat (S754_finite (c <? 0) p e))
    /\ canonical_float (S754_finite (c <? 0) p e)
    /\ F2R (Zpos p) e = IZR (5 * Z.abs c).
Proof.
  intros Hne Hc.
  assert (P50 : 2 ^ 50 = 1125899906842624) by reflexivity.
  assert (P53 : 2 ^ 53 = 9007199254740992) by reflexivity.
  assert (P1023 : 2 ^ 53 <= 2 ^ 1023) by (apply Z.pow_le_mono_r; lia).
  unfold py_mul, to_float. rewrite (float_of_int_ok c) by lia. cbn [bind].
  destruct (of_Z_finite c Hne ltac:(lia)) as (pz & ez & -> & Cz & Vz).
  destruct (mul_finite_spec (c <? 0) false pz 5629499534213120 ez (-50) Cz
              five_canonical) as (m' & e' & -> & Hm' & He' & Hcan & Hlow & Hup).
  rewrite xorb_false_r. rewrite Vz, five_value in Hlow, Hup.
  assert (E5 : (IZR (Z.abs c) * 5 = IZR (5 * Z.abs c))%R)
    by (rewrite mult_IZR; lra).
  rewrite E5 in Hlow, Hup.
  assert (F5 : format (IZR (5 * Z.abs c))) by (apply format_IZR; lia).
  pose proof (Hlow _ F5 (Rle_refl _)) as H1.
  pose proof (Hup _ F5 (Rle_refl _)) as H2.
  assert (Hv : F2R m' e' = IZR (5 * Z.abs c)) by lra.
  assert (Hpos : (0 < IZR (5 * Z.abs c))%R) by (apply IZR_lt; lia).
  assert (Hle : (IZR (5 * Z.abs c) <= bpow 53)%R).
  { rewrite (bpow_IZR 53) by lia. apply IZR_le. lia. }
  assert (Hbig : (bpow 53 < bpow 1024)%R) by (apply bpow_lt; lia).
  destruct (finish_finite (c <? 0) m' e' (proj1 Hm') Hcan ltac:(lra))
    as (p & E & ->).
  exists p, e'. split; [rewrite E; reflexivity|]. split; [|exact Hv].
  rewrite <- E. apply finish_canonical; assumption.
Qed.

(** The step [1 / (counts * step_denominator)]: the rounding of
    [1 / (5 * |counts|)], with the sign of the count. *)
Lemma canonical_step_spec (c : Z) :
  c <> 0 -> Z.abs c <= 2 ^ 50 ->
  exists p e,
    (d <- py_mul (PInt c) (PFloat (S754_finite false 5629499534213120 (-50))) ;;
     step <- py_truediv (PInt 1) d ;;
     to_float step)
    = Ok (S754_finite (c <? 0) p e)
    /\ (forall a, format a -> (a <= / IZR (5 * Z.abs c))%R ->
          (a <= F2R (Zpos p) e)%R)
    /\ (forall b, format b -> (/ IZR (5 * Z.abs c) <= b)%R ->
          (F2R (Zpos p) e <= b)%R).
Proof.
  intros Hne Hc.
  assert (P50 : 2 ^ 50 = 1125899906842624) by reflexivity.
  assert (P53 : 2 ^ 53 = 9007199254740992) by reflexivity.
  destruct (mul_five_spec c Hne Hc) as (pd & ed & -> & Cd & Vd). cbn [bind].
  unfold py_truediv, to_float.
  change (float_of_int 1) with (Ok (S754_finite false 4503599627370496 (-52))).
  cbn [bind B64.is_zero].
  destruct (div_finite_spec false (c <? 0) 4503599627370496 pd (-52) ed)
    as (ms & es & -> & Hms & Hes & Hcs & Hlow & Hup).
  cbn [xorb].
  assert (H1 : F2R 4503599627370496 (-52) = 1%R).
  { change 4503599627370496 with (2 ^ 52). rewrite F2R_bpow by lia. reflexivity. }
  rewrite H1, Vd in Hlow, Hup.
  replace (1 / IZR (5 * Z.abs c))%R with (/ IZR (5 * Z.abs c))%R in Hlow, Hup
    by (unfold Rdiv; lra).
  assert (Hn : (5 <= IZR (5 * Z.abs c) <= bpow 53)%R).
  { split; [apply IZR_le; lia|].
    rewrite (bpow_IZR 53) by lia. apply IZR_le. lia. }
  assert (H53 : (/ bpow 53 = bpow (-53))%R).
  { pose proof (bpow_gt_0 53).
    apply Rmult_eq_reg_l with (bpow 53); [|lra].
    rewrite Rinv_r by lra. rewrite <- bpow_plus. reflexivity. }
  pose proof (bpow_gt_0 53) as Hb53. pose proof (bpow_gt_0 (-53)) as Hb53'.
  assert (Hx : (bpow (-53) <= / IZR (5 * Z.abs c) <= 1)%R).
  { rewrite <- H53. split.
    - apply Rinv_le; lra.
    - rewrite <- Rinv_1. apply Rinv_le; lra. }
  pose proof (Hlow _ (format_bpow (-53) ltac:(lia)) (proj1 Hx)) as Hlo.
  assert (Hhi : (F2R ms es <= 1)%R).
  { apply Hup; [|exact (proj2 Hx)].
    change 1%R with (bpow 0). apply format_bpow. lia. }
  destruct (finish_finite (c <? 0) ms es (proj1 Hms) Hcs) as (p & -> & ->).
  { split; [lra|]. apply Rle_lt_trans with (bpow 0); [exact Hhi|].
    apply bpow_lt. lia. }
  exists p, es. split; [reflexivity|]. split; assumption.
Qed.

(** The correction is computed without an exception for an arc length
    that is a float or an int of magnitude at most [2^1022], and it is a
    float or the int 1. *)
Lemma radian_correction_returns (arc_len : pynum) (xlen : float) :
  within (2 ^ 1022) arc_len ->
  exists r, radian_correction arc_len xlen = Ok r /\ within 1 r.
Proof.
  intros Hb.
  assert (P : 2 ^ 1023 = 2 * 2 ^ 1022) by reflexivity.
  assert (Hf : exists fa, to_float arc_len = Ok fa).
  { apply to_float_within. eapply within_weaken; [|exact Hb]. lia. }
  destruct Hf as [fa Hfa].
  assert (H8 : exists f, (a <- py_mul (PInt 2) arc_len ;; np_truediv a xlen)
                         = Ok (PFloat f)).
  { destruct arc_len as [z|f]; cbn [within] in Hb.
    - change (py_mul (PInt 2) (PInt z)) with (Ok (PInt (2 * z))). cbn [bind].
      rewrite (np_truediv_int _ xlen (of_Z_convertible (2 * z) ltac:(lia))). eauto.
    - change (py_mul (PInt 2) (PFloat f))
        with (Ok (PFloat (B64.mul (B64.of_Z 2) f))).
      cbn [bind]. rewrite np_truediv_float. eauto. }
  assert (H4 : exists f, (a <- py_mul (PFloat f1_5) arc_len ;; np_truediv a xlen)
                         = Ok (PFloat f)).
  { rewrite (py_mul_float_l _ _ _ Hfa). cbn [bind].
    rewrite np_truediv_float. eauto. }
  assert (H2 : exists f, np_truediv arc_len xlen = Ok (PFloat f)).
  { unfold np_truediv. rewrite Hfa. cbn [bind]. eauto. }
  assert (H12 : exists f, (a <- py_mul (PFloat f0_4) arc_len ;; np_truediv a xlen)
                          = Ok (PFloat f)).
  { rewrite (py_mul_float_l _ _ _ Hfa). cbn [bind].
    rewrite np_truediv_float. eauto. }
  destruct H8 as [r8 H8], H4 as [r4 H4], H2 as [r2 H2], H12 as [r12 H12].
  unfold radian_correction, np_gt. rewrite Hfa. cbn [bind].
  rewrite H8, H4, H2, H12.
  repeat match goal with |- context [if ?c then _ else _] => destruct c end;
    cbn [bind]; eexists; (split; [reflexivity|]); cbn [within]; try exact I; lia.
Qed.

(** A junction with a negative count gets no canonical arc. *)
Lemma plot_SJ_curves_body_negative (ax : Axes) (xlen : float)
    (start stop y : pynum) (c : Z) :
  within (2 ^ 1021) start -> within (2 ^ 1021) stop ->
  - 2 ^ 50 <= c < 0 ->
  plot_SJ_curves_body ax xlen (PFloat (S754_finite false 5629499534213120 (-50)))
    (start, stop, c) y = Ok ax.
Proof.
  intros Hs He Hc. unfold plot_SJ_curves_body.
  destruct (Z.eqb_spec c 0) as [|_]; [lia|]. cbn [negb].
  assert (P1021 : 0 <= 2 ^ 1021) by (apply Z.pow_nonneg; lia).
  assert (P1022 : 2 * 2 ^ 1021 = 2 ^ 1022) by reflexivity.
  assert (P1023 : 2 ^ 1022 <= 2 ^ 1023) by (apply Z.pow_le_mono_r; lia).
  destruct (py_sub_within (2 ^ 1021) stop start P1021 ltac:(lia) He Hs)
    as (arc_len & -> & Harc).
  cbn [bind]. rewrite P1022 in Harc.
  destruct (radian_correction_returns arc_len xlen Harc) as (rc & -> & _).
  cbn [bind].
  destruct (canonical_step_spec c ltac:(lia) ltac:(lia))
    as (p & e & Estep & Hlow & _).
  destruct (py_mul (PInt c) (PFloat (S754_finite false 5629499534213120 (-50))))
    as [d|]; cbn [bind] in Estep |- *; [|discriminate].
  destruct (py_truediv (PInt 1) d) as [step|]; cbn [bind] in Estep |- *;
    [|discriminate].
  rewrite Estep. cbn [bind].
  destruct (Z.ltb_spec c 0) as [_|]; [|lia].
  rewrite (arange_negative_step radian_low radian_high 7205759403792794 p (-55) e
             eq_refl).
  - reflexivity.
  - replace 1%R with (F2R (2 ^ 55) (-55)).
    + apply F2R_le. apply Z.leb_le. reflexivity.
    + rewrite F2R_bpow by lia. reflexivity.
  - apply Hlow; [apply format_bpow; lia|].
    assert (P50 : 2 ^ 50 = 1125899906842624) by reflexivity.
    assert (P53 : 2 ^ 53 = 9007199254740992) by reflexivity.
    assert (Hn : (5 <= IZR (5 * Z.abs c) <= bpow 53)%R).
    { split; [apply IZR_le; lia|].
      rewrite (bpow_IZR 53) by lia. apply IZR_le. lia. }
    pose proof (bpow_gt_0 53).
    assert (H53 : (/ bpow 53 = bpow (-53))%R).
    { apply Rmult_eq_reg_l with (bpow 53); [|lra].
      rewrite Rinv_r by lra. rewrite <- bpow_plus. reflexivity. }
    apply Rle_trans with (bpow (-53)); [apply bpow_le; lia|].
    rewrite <- H53. apply Rinv_le; lra.
Qed.

Lemma bpow_inv (k : Z) : (/ bpow k = bpow (- k))%R.
Proof.
  pose proof (bpow_gt_0 k).
  apply Rmult_eq_reg_l with (bpow k); [|lra].
  rewrite Rinv_r by lra. rewrite <- bpow_plus.
  replace (k + - k) with 0 by lia. reflexivity.
Qed.

(** The length of [arange(0.2, 0.4, step)] for the step of a positive
    count: the count, or one more. *)
Lemma canonical_offsets_count (c : Z) :
  1 <= c < 2 ^ 48 ->
  exists step n,
    (d <- py_mul (PInt c) (PFloat (S754_finite false 5629499534213120 (-50))) ;;
     step <- py_truediv (PInt 1) d ;;
     to_float step) = Ok step
    /\ arange_length radian_low radian_high step = Ok n
    /\ c <= n <= c + 1.
Proof.
  intros Hc.
  assert (P48 : 2 ^ 48 = 281474976710656) by reflexivity.
  assert (P50 : 2 ^ 50 = 1125899906842624) by reflexivity.
  assert (P51 : 2 ^ 51 = 2251799813685248) by reflexivity.
  assert (P53 : 2 ^ 53 = 9007199254740992) by reflexivity.
  assert (P63 : 2 ^ 63 = 9223372036854775808) by reflexivity.
  destruct (canonical_step_spec c ltac:(lia) ltac:(lia))
    as (p & e & Estep & Hlows & Hups).
  destruct (Z.ltb_spec c 0) as [|_]; [lia|].
  replace (Z.abs c) with c in Hlows, Hups by lia.
  destruct (reciprocal_neighbours (5 * c) ltac:(lia))
    as (a & b & Fa & Fb & [Ha1 Ha2] & [Hb1 Hb2]).
  pose proof (Hlows a Fa Ha2) as Hsa. pose proof (Hups b Fb Hb1) as Hsb.
  assert (Hc1 : (1 <= IZR c)%R) by (apply IZR_le; lia).
  assert (Hc48 : (IZR c <= bpow 48)%R).
  { rewrite (bpow_IZR 48) by lia. apply IZR_le. lia. }
  assert (Hn : (IZR (5 * c) = 5 * IZR c)%R) by (rewrite mult_IZR; lra).
  replace (IZR (5 * c + 2)) with (5 * IZR c + 2)%R in Ha1
    by (rewrite plus_IZR, mult_IZR; lra).
  replace (IZR (5 * c - 1)) with (5 * IZR c - 1)%R in Hb2
    by (rewrite minus_IZR, mult_IZR; lra).
  set (sv := F2R (Zpos p) e) in *.
  assert (Hsv : (0 < sv)%R).
  { apply Rlt_le_trans with a; [|exact Hsa].
    apply Rlt_le_trans with (/ (5 * IZR c + 2))%R; [|exact Ha1].
    apply Rinv_0_lt_compat. lra. }
  assert (Hsv1 : (sv * (5 * IZR c - 1) <= 1)%R).
  { apply Rle_trans with (/ (5 * IZR c - 1) * (5 * IZR c - 1))%R.
    - apply Rmult_le_compat_r; lra.
    - rewrite Rinv_l by lra. lra. }
  assert (Hsv2 : (1 <= sv * (5 * IZR c + 2))%R).
  { apply Rle_trans with (/ (5 * IZR c + 2) * (5 * IZR c + 2))%R.
    - rewrite Rinv_l by lra. lra.
    - apply Rmult_le_compat_r; lra. }
  exists (S754_finite false p e).
  cut (exists n, arange_length radian_low radian_high (S754_finite false p e)
                 = Ok n /\ c <= n <= c + 1).
  { intros (n & En & Hnb). exists n. auto. }
  (* the quotient *)
  unfold arange_length.
  change (B64.sub radian_high radian_low)
    with (S754_finite false 7205759403792794 (-55)).
  unfold py_truediv, to_float. cbn [bind B64.is_zero].
  destruct (div_finite_spec false false 7205759403792794 p (-55) e)
    as (mq & eq & Eqv & Hmq & Heq & Hcanq & Hlowq & Hupq).
  fold sv in Hlowq, Hupq.
  set (rv := F2R 7205759403792794 (-55)) in *.
  assert (Hrv : (5 * rv = 1 + 2 * bpow (-55))%R).
  { subst rv. unfold F2R.
    replace (bpow (-55)) with (/ bpow 55)%R by (apply (bpow_inv 55)).
    rewrite (bpow_IZR 55) by lia.
    change (2 ^ 55) with 36028797018963968. field. }
  assert (H55 : (bpow (-55) * bpow 48 = bpow (-7))%R)
    by (rewrite <- bpow_plus; reflexivity).
  assert (H7 : (bpow (-7) = / 128)%R).
  { replace (bpow (-7)) with (/ bpow 7)%R by (apply (bpow_inv 7)).
    rewrite (bpow_IZR 7) by lia. reflexivity. }
  assert (Hb55 : (0 < bpow (-55) <= / 128)%R).
  { split; [apply bpow_gt_0|]. rewrite <- H7. apply bpow_le. lia. }
  assert (Htiny : (0 <= 2 * bpow (-55) * IZR c <= / 64)%R).
  { pose proof (bpow_gt_0 (-55)). pose proof (bpow_gt_0 48). split; [nra|].
    apply Rle_trans with (2 * (bpow (-55) * bpow 48))%R; [nra|].
    rewrite H55, H7. lra. }
  assert (Hrv5 : (5 * rv * IZR c = IZR c + 2 * bpow (-55) * IZR c)%R)
    by (rewrite Hrv; ring).
  assert (Hrvb : (/ 5 <= rv <= 21 / 100)%R) by lra.
  assert (HX1 : (IZR c - / 2 <= rv / sv)%R).
  { apply Rmult_le_reg_r with sv; [exact Hsv|].
    replace (rv / sv * sv)%R with rv by (field; lra).
    apply Rle_trans with ((IZR c - / 2) * (/ (5 * IZR c - 1)))%R.
    - apply Rmult_le_compat_l; [lra|].
      apply Rle_trans with b; [exact Hsb|exact Hb2].
    - apply Rmult_le_reg_r with (5 * IZR c - 1)%R; [lra|].
      rewrite Rmult_assoc, Rinv_l by lra. nra. }
  assert (HX2 : (rv / sv <= IZR c + 1)%R).
  { apply Rmult_le_reg_r with sv; [exact Hsv|].
    replace (rv / sv * sv)%R with rv by (field; lra).
    apply Rle_trans with ((IZR c + 1) * (/ (5 * IZR c + 2)))%R.
    - apply Rmult_le_reg_r with (5 * IZR c + 2)%R; [lra|].
      rewrite Rmult_assoc, Rinv_l by lra. nra.
    - apply Rmult_le_compat_l; [lra|].
      apply Rle_trans with a; [exact Ha1|exact Hsa]. }
  assert (F1 : format (IZR c - / 2)).
  { replace (IZR c - / 2)%R with (F2R (2 * c - 1) (-1)).
    - apply format_F2R; lia.
    - unfold F2R. rewrite minus_IZR, mult_IZR.
      change (bpow (-1)) with (/ (2 * 1))%R. field. }
  assert (F2 : format (IZR c + 1)).
  { rewrite <- plus_IZR. apply format_IZR. lia. }
  pose proof (Hlowq _ F1 HX1) as HV1. pose proof (Hupq _ F2 HX2) as HV2.
  assert (Hbig : (bpow 53 < bpow 1024)%R) by (apply bpow_lt; lia).
  assert (Hc53 : (IZR c + 1 <= bpow 53)%R).
  { rewrite (bpow_IZR 53), <- plus_IZR by lia. apply IZR_le. lia. }
  destruct (finish_positive mq eq (proj1 Hmq) Hcanq) as (pq & Epq & ->); [lra|].
  rewrite Eqv. cbn [xorb]. rewrite Epq. cbn [bind].
  destruct (ceil_pos_spec pq eq) as (n & -> & Hn1 & Hn2').
  assert (Hnb : c <= n <= c + 1).
  { split.
    - assert (IZR (c - 1) < IZR n)%R by (rewrite minus_IZR; lra).
      apply lt_IZR in H. lia.
    - assert (IZR n < IZR (c + 2))%R by (rewrite plus_IZR; lra).
      apply lt_IZR in H. lia. }
  exists n. split; [|exact Hnb].
  unfold intp_min, intp_max.
  destruct (Z.leb_spec (- 2 ^ 63) n); [|lia].
  destruct (Z.leb_spec n (2 ^ 63 - 1)); [|lia].
  reflexivity.
Qed.

Lemma draw_arc_each_count (start stop y radian_corr : pynum) (rads : list float) :
  forall ax ax',
    draw_arc_each ax start stop y radian_corr rads = Ok ax' ->
    exists new,
      patches ax' = patches ax ++ new
      /\ List.length new = List.length rads.
Proof.
  induction rads as [|radians rest IH]; intros ax ax' H;
    cbn [draw_arc_each] in H.
  - injection H as <-. exists []. rewrite app_nil_r. auto.
  - destruct (py_mul (PFloat radians) radian_corr) as [rad|]; cbn [bind] in H;
      [|discriminate].
    destruct (starts_with_minus rad); [discriminate|].
    destruct (IH _ _ H) as (new & Hp & Hl).
    cbn [add_patch patches] in Hp.
    exists (ConnectionPatch (start, y) (stop, y) rad :: new).
    rewrite Hp, <- app_assoc.
    split; [reflexivity|]. cbn [List.length]. f_equal. exact Hl.
Qed.

(** X18: whenever [plot_SJ_curves] returns for a junction with a count
    from 1 to below [2^48], it has drawn the count or one more arc: never
    fewer than the count and never more than one too many. *)
Theorem plot_SJ_curves_arc_bounds (ax ax' : Axes) (start stop y : pynum)
    (count : Z) :
  1 <= count < 2 ^ 48 ->
  plot_SJ_curves ax [(start, stop, count)] y = Ok ax' ->
  exists new,
    patches ax' = patches ax ++ new
    /\ (Z.to_nat count <= List.length new <= Z.to_nat count + 1)%nat.
Proof.
  intros Hc. unfold plot_SJ_curves.
  change (py_truediv (PInt 1) (PFloat (B64.sub radian_high radian_low)))
    with (Ok (PFloat (S754_finite false 5629499534213120 (-50)))).
  cbn [bind]. destruct (xlim ax) as [xmin xmax].
  cbn [plot_SJ_curves_loop]. unfold plot_SJ_curves_body.
  destruct (Z.eqb_spec count 0) as [|_]; [lia|]. cbn [negb].
  destruct (py_sub stop start) as [arc_len|]; cbn [bind]; [|discriminate].
  destruct (radian_correction arc_len (B64.sub xmax xmin)) as [rc|];
    cbn [bind]; [|discriminate].
  destruct (canonical_offsets_count count Hc) as (step & n & Estep & En & Hn).
  destruct (py_mul (PInt count) (PFloat (S754_finite false 5629499534213120 (-50))))
    as [d|]; cbn [bind] in Estep |- *; [|discriminate].
  destruct (py_truediv (PInt 1) d) as [st|]; cbn [bind] in Estep |- *;
    [|discriminate].
  rewrite Estep. cbn [bind]. unfold arange. rewrite En. cbn [bind].
  destruct (draw_arc_each ax start stop y rc
              (map (arange_item radian_low step) (seq 0 (Z.to_nat n))))
    as [ax1|] eqn:Edraw; cbn [bind]; [|discriminate].
  intros H. injection H as <-.
  destruct (draw_arc_each_count _ _ _ _ _ _ _ Edraw) as (new & Hp & Hl).
  exists new. split; [exact Hp|].
  rewrite Hl, length_map, length_seq. lia.
Qed.

Lemma plot_SJ_curves_arc_bounds_witness :
  exists ax' new,
    plot_SJ_curves ax_example [(PInt 10, PInt 20, 7)] (PFloat (B64.of_Z 1))
    = Ok ax'
    /\ patches ax' = patches ax_example ++ new
    /\ (Z.to_nat 7 <= List.length new <= Z.to_nat 7 + 1)%nat.
Proof.
  destruct (plot_SJ_curves ax_example [(PInt 10, PInt 20, 7)]
              (PFloat (B64.of_Z 1))) as [ax'|e] eqn:E.
  - assert (Hc : 1 <= 7 < 2 ^ 48).
    { split; [lia|]. apply Z.ltb_lt. reflexivity. }
    destruct (plot_SJ_curves_arc_bounds ax_example ax' (PInt 10) (PInt 20)
                (PFloat (B64.of_Z 1)) 7 Hc E) as (new & Hp & Hl).
    exists ax', new. auto.
  - vm_compute in E. discriminate.
Defined.

Lemma plot_circles_negative (y gene_size : pynum) (js : list junction) :
  Forall (junction_with_count (- 2 ^ 50) (-1)) js ->
  forall ax, plot_circles ax js y gene_size = Ok ax.
Proof.
  assert (P : - 2 ^ 53 <= - 2 ^ 50) by (apply Z.leb_le; reflexivity).
  induction 1 as [|[[start stop] c] rest (_ & _ & Hc) _ IH]; intros ax;
    cbn [plot_circles]; [reflexivity|].
  cbn [snd] in Hc.
  rewrite (plot_circles_body_negative ax start stop y gene_size c ltac:(lia)).
  cbn [bind]. apply IH.
Qed.

Lemma plot_SJ_curves_negative (y : pynum) (js : list junction) (ax : Axes) :
  Forall (junction_with_count (- 2 ^ 50) (-1)) js ->
  plot_SJ_curves ax js y = Ok ax.
Proof.
  intros Hall. unfold plot_SJ_curves.
  change (py_truediv (PInt 1) (PFloat (B64.sub radian_high radian_low)))
    with (Ok (PFloat (S754_finite false 5629499534213120 (-50)))).
  cbn [bind]. destruct (xlim ax) as [xmin xmax].
  generalize (B64.sub xmax xmin) as xlen. intros xlen. revert ax.
  induction Hall as [|[[start stop] c] rest (Hs & He & Hc) _ IH]; intros ax;
    cbn [plot_SJ_curves_loop]; [reflexivity|].
  cbn [fst snd] in Hs, He, Hc.
  rewrite (plot_SJ_curves_body_negative ax xlen start stop y c Hs He ltac:(lia)).
  cbn [bind]. apply IH.
Qed.

Lemma floor_div_negative (k d : Z) : 0 < k -> d < 0 -> - k <= k / d <= -1.
Proof.
  intros Hk Hd.
  pose proof (Z.div_mod k d ltac:(lia)) as E.
  pose proof (Z.mod_neg_bound k d Hd) as Hr. nia.
Qed.

(** X19: a negative count draws nothing and raises nothing. In
    particular, after a count reduction by a negative factor every
    positive count (below [2^50]) has become negative, and for junctions
    with coordinates that are floats or ints of magnitude at most
    [2^1021] both curve generators leave the axes as they are: the plot
    has no canonical arc and no backsplice curve. *)
Theorem negative_reduction_draws_nothing (ax : Axes) (d : Z)
    (junctions : list junction) (ytop ybottom gene_size : pynum) :
  d < 0 ->
  Forall (junction_with_count 1 (2 ^ 50)) junctions ->
  Forall (fun j => snd j < 0) (reduce_counts (Some d) junctions)
  /\ plot_SJ_curves ax (reduce_counts (Some d) junctions) ytop = Ok ax
  /\ plot_circles ax (reduce_counts (Some d) junctions) ybottom gene_size
     = Ok ax.
Proof.
  intros Hd Hall.
  assert (Hneg : Forall (junction_with_count (- 2 ^ 50) (-1))
                   (reduce_counts (Some d) junctions)).
  { unfold reduce_counts. destruct (Z.eqb_spec d 0) as [|_]; [lia|].
    induction Hall as [|[[start stop] k] rest (Hs & He & Hk) _ IH];
      cbn [map]; constructor; [|exact IH].
    cbn [fst snd] in *. unfold junction_with_count. cbn [fst snd].
    pose proof (floor_div_negative k d ltac:(lia) Hd).
    split; [exact Hs|]. split; [exact He|]. lia. }
  split; [|split].
  - eapply Forall_impl; [|exact Hneg]. intros j (_ & _ & Hc). lia.
  - apply plot_SJ_curves_negative. exact Hneg.
  - apply plot_circles_negative. exact Hneg.
Qed.

Lemma negative_reduction_draws_nothing_witness :
  plot_SJ_curves ax_example
    (reduce_counts (Some (-2)) [(PInt 10, PInt 20, 7); (PInt 30, PInt 60, 1)])
    (PFloat (B64.of_Z 1)) = Ok ax_example
  /\ plot_circles ax_example
       (reduce_counts (Some (-2)) [(PInt 10, PInt 20, 7); (PInt 30, PInt 60, 1)])
       (PFloat f0_5) (PInt 100) = Ok ax_example.
Proof.
  apply (negative_reduction_draws_nothing ax_example (-2)
           [(PInt 10, PInt 20, 7); (PInt 30, PInt 60, 1)]
           (PFloat (B64.of_Z 1)) (PFloat f0_5) (PInt 100)).
  - lia.
  - repeat constructor; cbn [fst snd within]; try lia;
      apply Z.leb_le; vm_compute; reflexivity.
Defined.

(** ** The depth of the backsplice curves *)

Lemma py_le_float_values (a b : float) :
  is_finite a = true -> is_finite b = true ->
  py_le (PFloat a) (PFloat b) = true <-> (float_value a <= float_value b)%R.
Proof.
  intros Ha Hb. rewrite py_le_xle. cbn [xnum_of].
  destruct a as [sa|sa| |sa ma ea]; try discriminate;
    destruct b as [sb|sb| |sb mb eb]; try discriminate;
    cbn [xnum_of_float float_value]; rewrite xle_fin, ?F2R_0; reflexivity.
Qed.

(** The step [1 / (counts * 2)] for a positive count. *)
Lemma backsplice_step_positive (c : Z) :
  1 <= c < 2 ^ 50 ->
  exists p e,
    py_truediv (PInt 1) (PInt (c * 2)) = Ok (PFloat (S754_finite false p e))
    /\ canonical_float (S754_finite false p e)
    /\ (F2R (Zpos p) e <= / (2 * IZR c - 1))%R.
Proof.
  intros Hc.
  assert (P50 : 2 ^ 50 = 1125899906842624) by reflexivity.
  assert (P51 : 2 ^ 51 = 2251799813685248) by reflexivity.
  destruct (reciprocal_neighbours (c * 2) ltac:(lia))
    as (a & b & Fa & Fb & [Ha1 Ha2] & [Hb1 Hb2]).
  assert (Hc1 : (1 <= IZR c)%R) by (apply IZR_le; lia).
  replace (IZR (c * 2 + 2)) with (2 * IZR c + 2)%R in Ha1
    by (rewrite plus_IZR, mult_IZR; lra).
  replace (IZR (c * 2 - 1)) with (2 * IZR c - 1)%R in Hb2
    by (rewrite minus_IZR, mult_IZR; lra).
  assert (Hapos : (0 < a)%R).
  { apply Rlt_le_trans with (/ (2 * IZR c + 2))%R; [|exact Ha1].
    apply Rinv_0_lt_compat. lra. }
  assert (Hble : (b <= 1)%R).
  { apply Rle_trans with (/ (2 * IZR c - 1))%R; [exact Hb2|].
    rewrite <- Rinv_1. apply Rinv_le; lra. }
  unfold py_truediv. destruct (Z.eqb_spec (c * 2) 0) as [|_]; [lia|].
  destruct (c * 2) as [|q|q] eqn:Eq; try lia.
  destruct (of_ratio_pos_spec 1 q)
    as (ms & es & Es & Hms & Hes & Hcans & Hlows & Hups).
  pose proof (Hlows a Fa ltac:(unfold Rdiv; rewrite Rmult_1_l; exact Ha2)) as Hsa.
  pose proof (Hups b Fb ltac:(unfold Rdiv; rewrite Rmult_1_l; exact Hb1)) as Hsb.
  destruct (finish_positive ms es (proj1 Hms) Hcans) as (p & Ep & ->).
  { assert (bpow 0 < bpow 1024)%R by (apply bpow_lt; lia).
    change (bpow 0) with 1%R in *. lra. }
  rewrite Es, Ep. cbn [B64.is_infinite]. exists p, es.
  split; [reflexivity|]. split; [|lra].
  rewrite <- Ep. apply finish_canonical; assumption.
Qed.

(** Every offset of [arange(0.0, 0.5, step)] up to the index [c] is a
    finite float between 0 and 3/4, for the step of a count [c >= 2]. *)
Lemma backsplice_offset_range (c : Z) (p : positive) (e : Z) (i : nat) :
  2 <= c < 2 ^ 50 ->
  canonical_float (S754_finite false p e) ->
  (F2R (Zpos p) e <= / (2 * IZR c - 1))%R ->
  (i <= Z.to_nat c)%nat ->
  canonical_float (arange_item f0_0 (S754_finite false p e) i)
  /\ is_finite (arange_item f0_0 (S754_finite false p e) i) = true
  /\ (0 <= float_value (arange_item f0_0 (S754_finite false p e) i) <= 3 / 4)%R.
Proof.
  intros Hc Cs Hs Hi.
  assert (P50 : 2 ^ 50 = 1125899906842624) by reflexivity.
  assert (P53 : 2 ^ 53 = 9007199254740992) by reflexivity.
  assert (Hc2 : (2 <= IZR c)%R) by (apply IZR_le; lia).
  pose proof (F2R_pos p e) as Hpos.
  assert (Hinv : (0 < / (2 * IZR c - 1))%R) by (apply Rinv_0_lt_compat; lra).
  assert (Hcs : (IZR c * / (2 * IZR c - 1) <= 3 / 4)%R).
  { apply Rmult_le_reg_r with (2 * IZR c - 1)%R; [lra|].
    rewrite Rmult_assoc, Rinv_l by lra. lra. }
  destruct i as [|[|k]].
  - cbn [arange_item]. split; [exact I|]. split; [reflexivity|].
    cbn [float_value f0_0]. lra.
  - cbn [arange_item]. change (B64.add f0_0 (S754_finite false p e))
      with (S754_finite false p e).
    split; [exact Cs|]. split; [reflexivity|]. cbn [float_value signed].
    split; [lra|]. apply Rle_trans with (/ (2 * IZR c - 1))%R; [exact Hs|].
    apply Rle_trans with (IZR c * / (2 * IZR c - 1))%R; [nra|exact Hcs].
  - cbn [arange_item].
    change (B64.sub (B64.add f0_0 (S754_finite false p e)) f0_0)
      with (S754_finite false p e).
    set (iz := Z.of_nat (S (S k))).
    assert (Hiz : 2 <= iz <= c) by (subst iz; lia).
    destruct (of_Z_finite iz ltac:(lia) ltac:(lia)) as (pi & ei & -> & Ci & Vi).
    destruct (Z.ltb_spec iz 0) as [|_]; [lia|].
    replace (Z.abs iz) with iz in Vi by lia.
    destruct (mul_finite_spec false false pi p ei e Ci Cs)
      as (m' & e' & -> & Hm' & He' & Hcan & Hlow & Hup).
    cbn [xorb]. rewrite Vi in Hlow, Hup.
    assert (Hiz' : (2 <= IZR iz <= IZR c)%R) by (split; apply IZR_le; lia).
    assert (Hx : (IZR iz * F2R (Zpos p) e <= 3 / 4)%R).
    { apply Rle_trans with (IZR c * / (2 * IZR c - 1))%R; [|exact Hcs]. nra. }
    assert (F34 : format (3 / 4)).
    { replace (3 / 4)%R with (F2R 3 (-2)).
      - apply format_F2R; lia.
      - unfold F2R. change (bpow (-2)) with (/ (2 * (2 * 1)))%R. field. }
    pose proof (Hup _ F34 Hx) as Hle.
    assert (Hge : (0 <= F2R m' e')%R).
    { unfold F2R. pose proof (bpow_gt_0 e').
      assert (0 <= IZR m')%R by (apply IZR_le; lia). nra. }
    destruct (finish_cases false m' e' (proj1 Hm'))
      as [[Hz ->]|[(q & Hq & Hle' & ->)|(_ & Hbig & _)]].
    + cbn. split; [exact I|]. split; [reflexivity|]. lra.
    + change (B64.add f0_0 (S754_finite false q e')) with (S754_finite false q e').
      split.
      { cbn [canonical_float]. subst m'. split; [lia|]. split; [lia|exact Hcan]. }
      split; [reflexivity|]. cbn [float_value signed]. subst m'. lra.
    + exfalso. pose proof (overflow_large m' e' (Hcan ltac:(lia)) Hbig).
      assert (bpow 0 < bpow 1024)%R by (apply bpow_lt; lia).
      change (bpow 0) with 1%R in *. lra.
Qed.

(** The height of the control points for an offset between 0 and 3/4, in
    a view with the limits of [add_ax]. *)
Lemma backsplice_depth_range (num : float) (y1 : pynum) :
  canonical_float num -> is_finite num = true ->
  (0 <= float_value num <= 3 / 4)%R ->
  (depth <- py_mul (PFloat f0_15)
              (PFloat (B64.sub (snd add_ax_ylim) (fst add_ax_ylim))) ;;
   y' <- py_sub (PFloat f0_5) depth ;;
   py_sub y' (PFloat num)) = Ok y1 ->
  exists f, y1 = PFloat f
            /\ py_le (PFloat (fst add_ax_ylim)) (PFloat f) = true
            /\ py_le (PFloat f) (PFloat f0_5) = true.
Proof.
  intros Cn Fn Hn.
  change (py_mul (PFloat f0_15)
            (PFloat (B64.sub (snd add_ax_ylim) (fst add_ax_ylim))))
    with (Ok (PFloat (S754_finite false 4728779608739021 (-53)))).
  cbn [bind].
  change (py_sub (PFloat f0_5) (PFloat (S754_finite false 4728779608739021 (-53))))
    with (Ok (PFloat (S754_finite true 7205759403792800 (-58)))).
  set (c2 := S754_finite true 7205759403792800 (-58)).
  cbn [bind py_sub to_float]. intros H. injection H as <-.
  exists (B64.sub c2 num). split; [reflexivity|].
  assert (Cc2 : canonical_float c2).
  { subst c2. cbn. repeat split; try lia; intros _; apply Z.leb_le; reflexivity. }
  assert (Vc2 : (- / 4 <= float_value c2 <= 0)%R).
  { subst c2. cbn [float_value signed]. change (Zneg 7205759403792800)
      with (Z.opp 7205759403792800). rewrite F2R_opp.
    pose proof (F2R_pos 7205759403792800 (-58)).
    assert (F2R 7205759403792800 (-58) <= / 4)%R; [|lra].
    apply Rle_trans with (F2R (2 ^ 56) (-58)).
    - apply F2R_le. apply Z.leb_le. reflexivity.
    - rewrite F2R_bpow by lia. change (bpow (-58 + 56)) with (/ (2 * (2 * 1)))%R.
      lra. }
  destruct (sub_spec c2 num Cc2 Cn eq_refl Fn) as (_ & Hnan & Hlow & Hup).
  assert (Fm1 : format (-1)).
  { replace (-1)%R with (F2R (-1) 0) by (rewrite F2R_exp0; reflexivity).
    apply format_F2R; lia. }
  assert (F0 : format 0).
  { replace 0%R with (F2R 0 0) by apply F2R_0. apply format_F2R; lia. }
  assert (Hbig : (1 < bpow 1024)%R).
  { change 1%R with (bpow 0). apply bpow_lt. lia. }
  assert (Vm1 : float_value (fst add_ax_ylim) = (-1)%R).
  { cbn [add_ax_ylim fst].
    change (B64.of_Z (-1)) with (S754_finite true 4503599627370496 (-52)).
    cbn [float_value signed]. change (Zneg 4503599627370496) with (- 2 ^ 52).
    rewrite F2R_opp, F2R_bpow by lia. reflexivity. }
  assert (V05 : float_value f0_5 = (/ 2)%R).
  { unfold f0_5. cbn [float_value signed].
    change 4503599627370496 with (2 ^ 52). rewrite F2R_bpow by lia.
    change (bpow (-53 + 52)) with (/ (2 * 1))%R. f_equal. lra. }
  split.
  - destruct (Hlow (-1)%R Fm1 ltac:(lra)) as [E|[[Hf Hv]|Hv]]; [| |lra].
    + rewrite E. reflexivity.
    + apply py_le_float_values; [reflexivity|exact Hf|]. rewrite Vm1. exact Hv.
  - destruct (Hup 0%R F0 ltac:(lra)) as [E|[[Hf Hv]|Hv]]; [| |lra].
    + rewrite E. reflexivity.
    + apply py_le_float_values; [exact Hf|reflexivity|]. rewrite V05. lra.
Qed.

Lemma draw_backsplice_each_heights (start stop gene_size : pynum)
    (nums : list float) :
  Forall (fun num => canonical_float num /\ is_finite num = true
                     /\ (0 <= float_value num <= 3 / 4)%R) nums ->
  forall ax ax',
    ylim ax = add_ax_ylim ->
    draw_backsplice_each ax start stop (PFloat f0_5) gene_size nums = Ok ax' ->
    ylim ax' = add_ax_ylim
    /\ exists new, patches ax' = patches ax ++ new
                   /\ Forall (backsplice_heights_in_view start stop) new
                   /\ List.length new = List.length nums.
Proof.
  induction 1 as [|num rest (Cn & Fn & Hn) _ IH]; intros ax ax' Hy H;
    cbn [draw_backsplice_each] in H.
  - injection H as <-. split; [exact Hy|]. exists []. rewrite app_nil_r.
    split; [reflexivity|]. split; [constructor|reflexivity].
  - destruct (draw_backsplice ax start stop (PFloat f0_5) (PFloat num)
                (PFloat f0_15) gene_size) as [ax1|] eqn:E1; cbn [bind] in H;
      [|discriminate].
    unfold draw_backsplice in E1. rewrite Hy in E1.
    destruct (py_truediv gene_size (PInt 20)) as [sa|]; cbn [bind] in E1;
      [|discriminate].
    destruct (py_sub start sa) as [x1|]; cbn [bind] in E1; [|discriminate].
    destruct (py_mul (PFloat f0_15)
                (PFloat (B64.sub (snd add_ax_ylim) (fst add_ax_ylim))))
      as [depth|] eqn:Ed; cbn [bind] in E1; [|discriminate].
    destruct (py_sub (PFloat f0_5) depth) as [y'|] eqn:Ey'; cbn [bind] in E1;
      [|discriminate].
    destruct (py_sub y' (PFloat num)) as [y1|] eqn:Ey1; cbn [bind] in E1;
      [|discriminate].
    destruct (py_add stop sa) as [x2|]; cbn [bind] in E1; [|discriminate].
    injection E1 as <-.
    destruct (backsplice_depth_range num y1 Cn Fn Hn) as (f & -> & Hlo & Hhi).
    { rewrite Ed. cbn [bind]. rewrite Ey'. cbn [bind]. exact Ey1. }
    match type of H with
    | draw_backsplice_each ?a _ _ _ _ _ = _ =>
        destruct (IH a ax' Hy H) as (Hy' & new & Hnew & Hall & Hlen)
    end.
    split; [exact Hy'|].
    eexists (_ :: new). cbn [add_patch patches] in Hnew.
    split; [rewrite Hnew, <- app_assoc; reflexivity|].
    split; [|cbn [List.length]; f_equal; exact Hlen].
    constructor; [|exact Hall].
    exists x1, x2, f. auto.
Qed.

(** X20: in a view with the vertical limits of [add_ax] (-1.0 and 2.5),
    every backsplice curve that [plot_circles] draws for a junction with a
    count from 1 to below [2^50] starts and ends on the lower edge of the
    exons (height 0.5) and has both control points at one height, between
    the lower vertical limit and that edge. Only heights are bounded: the
    control points lie [gene_size / 20] to the left of the start and to
    the right of the stop, which can be outside the horizontal limits. *)
Theorem backsplice_heights_within_view (ax ax' : Axes) (start stop gene_size : pynum)
    (count : Z) :
  ylim ax = add_ax_ylim ->
  1 <= count < 2 ^ 50 ->
  plot_circles ax [(start, stop, count)] (PFloat f0_5) gene_size = Ok ax' ->
  exists new,
    patches ax' = patches ax ++ new
    /\ Forall (backsplice_heights_in_view start stop) new
    /\ (Z.to_nat count <= List.length new <= Z.to_nat count + 1)%nat.
Proof.
  intros Hy Hc H. cbn [plot_circles] in H.
  destruct (plot_circles_body ax (start, stop, count) (PFloat f0_5) gene_size)
    as [ax1|] eqn:E1; cbn [bind] in H; [|discriminate].
  injection H as <-. unfold plot_circles_body in E1.
  destruct (Z.eqb_spec count 0) as [|_]; [lia|]. cbn [negb] in E1.
  destruct (backsplice_offsets_count count Hc) as (step & n & Es & En & Hn).
  destruct (backsplice_step_positive count Hc) as (p & e & Es' & Cs & Hs).
  rewrite Es' in Es. injection Es as <-.
  rewrite Es' in E1. cbn [bind to_float] in E1.
  unfold arange in E1. rewrite En in E1. cbn [bind] in E1.
  destruct (Z.eq_dec count 1) as [->|Hne].
  - (* one read: the single offset 0.0 *)
    assert (p = 4503599627370496%positive /\ e = -53) as [-> ->].
    { vm_compute in Es'. injection Es' as <- <-. auto. }
    vm_compute in En. injection En as <-.
    destruct (draw_backsplice_each_heights start stop gene_size [f0_0])
      with (ax := ax) (ax' := ax1) as (_ & new & Hnew & Hall & Hlen).
    + constructor; [|constructor]. split; [exact I|]. split; [reflexivity|].
      cbn [float_value f0_0]. lra.
    + exact Hy.
    + exact E1.
    + exists new. split; [exact Hnew|]. split; [exact Hall|].
      rewrite Hlen. cbn. lia.
  - destruct (draw_backsplice_each_heights start stop gene_size
                (map (arange_item f0_0 (S754_finite false p e))
                   (seq 0 (Z.to_nat n))))
      with (ax := ax) (ax' := ax1) as (_ & new & Hnew & Hall & Hlen).
    + apply Forall_forall. intros num Hin. apply in_map_iff in Hin.
      destruct Hin as (i & <- & Hi). apply in_seq in Hi.
      apply (backsplice_offset_range count p e i ltac:(lia) Cs Hs). lia.
    + exact Hy.
    + exact E1.
    + exists new. split; [exact Hnew|]. split; [exact Hall|].
      rewrite Hlen, length_map, length_seq. lia.
Qed.

Lemma backsplice_heights_within_view_witness :
  exists ax' new,
    plot_circles ax_add_example [(PInt 10, PInt 20, 3)] (PFloat f0_5) (PInt 100)
    = Ok ax'
    /\ patches ax' = patches ax_add_example ++ new
    /\ Forall (backsplice_heights_in_view (PInt 10) (PInt 20)) new.
Proof.
  destruct (plot_circles ax_add_example [(PInt 10, PInt 20, 3)] (PFloat f0_5)
              (PInt 100)) as [ax'|] eqn:E.
  - destruct (backsplice_heights_within_view ax_add_example ax' _ _ _ 3 eq_refl
                ltac:(split; [lia|apply Z.ltb_lt; reflexivity]) E)
      as (new & Hnew & Hall & _).
    exists ax', new. split; [reflexivity|]. split; [exact Hnew|exact Hall].
  - vm_compute in E. discriminate.
Defined.
(** ** Alpha values of the coverage colours *)

(** A read depth divided by a positive maximum that bounds it is a float
    between 0 and 1. *)
Lemma py_truediv_unit (z M : Z) :
  0 <= z <= M -> 0 < M ->
  exists a, py_truediv (PInt z) (PInt M) = Ok (PFloat a)
            /\ unit_component (PFloat a) = true.
Proof.
  intros Hz HM.
  destruct (py_truediv_depth z M Hz HM) as (a & Ha).
  exists a. split; [exact Ha|].
  unfold py_truediv in Ha.
  destruct (Z.eqb_spec M 0) as [|_]; [lia|].
  cbv zeta in Ha.
  destruct (B64.is_infinite (B64.of_ratio z M)); [discriminate|].
  injection Ha as <-.
  destruct M as [|q|q]; try lia.
  destruct z as [|p|p]; try lia; [reflexivity|].
  destruct (of_ratio_pos_spec p q) as (m' & e' & E & Hm & He & Hc & Hlo & Hhi).
  rewrite E.
  assert (Hq : (0 < IZR (Zpos q))%R) by (apply IZR_lt; lia).
  assert (Hpq : (IZR (Zpos p) <= IZR (Zpos q))%R) by (apply IZR_le; lia).
  assert (Hle1 : (IZR (Zpos p) / IZR (Zpos q) <= 1)%R).
  { apply Rmult_le_reg_r with (IZR (Zpos q)); [assumption|].
    unfold Rdiv. rewrite Rmult_assoc, Rinv_l by lra. lra. }
  assert (Hup : (F2R m' e' <= 1)%R).
  { apply (Hhi (bpow 0)); [apply format_bpow; lia | exact Hle1]. }
  assert (Hdown : (0 <= F2R m' e')%R).
  { rewrite <- (F2R_0 e'). apply F2R_le. lia. }
  destruct (finish_value_cases false m' e' (proj1 Hm) Hc)
    as [[_ Hbig]|[Hfin Hval]].
  - exfalso.
    assert (1 < bpow 1024)%R by (apply (bpow_lt 0 1024); lia).
    lra.
  - unfold unit_component. apply andb_true_intro. split.
    + apply (py_le_int_float_value 0 _ Hfin). rewrite Hval. exact Hdown.
    + apply (py_le_float_int _ 1 Hfin). rewrite Hval. exact Hup.
Qed.

Lemma alphas_unit (cov : list pynum) (M : Z) :
  0 < M -> Forall (depth_upto M) cov ->
  exists al, alphas cov (PInt M) = Ok al
             /\ Forall (fun a => unit_component a = true) al.
Proof.
  intros HM. induction cov as [|c rest IH]; intros Hall.
  - exists []. split; [reflexivity|constructor].
  - inversion Hall as [|? ? (z & -> & Hz) Hall']; subst.
    destruct (py_truediv_unit z M Hz HM) as (a & Ha & Hu).
    destruct (IH Hall') as (al & Hal & Hunit).
    cbn [alphas]. rewrite Ha. cbn [bind]. rewrite Hal. cbn [bind].
    eexists. split; [reflexivity|]. constructor; assumption.
Qed.

(** The colours computed from a maximum that bounds the read depths. *)
Lemma colors_of_maximum (color : rgb) (cov : list pynum) (m : Z) :
  0 <= m -> Forall (depth_upto m) cov ->
  exists out,
    (if py_ne (PInt m) (PInt 0)
     then bind (alphas cov (PInt m)) (fun al => Ok (map (fun a => (color, a)) al))
     else Ok (map (fun _ => (color, PInt 0)) cov)) = Ok out
    /\ Forall (fun ca => fst ca = color /\ unit_component (snd ca) = true) out.
Proof.
  intros Hm Hall. unfold py_ne. rewrite py_eq_int.
  destruct (Z.eqb_spec m 0) as [->|Hne]; cbn [negb].
  - eexists. split; [reflexivity|].
    apply Forall_forall. intros ca Hin. apply in_map_iff in Hin.
    destruct Hin as (c & <- & _). split; reflexivity.
  - destruct (alphas_unit cov m ltac:(lia) Hall) as (al & -> & Hunit).
    cbn [bind]. eexists. split; [reflexivity|].
    apply Forall_forall. intros ca Hin. apply in_map_iff in Hin.
    destruct Hin as (a & <- & Ha). split; [reflexivity|].
    cbn [snd]. exact (proj1 (Forall_forall _ _) Hunit a Ha).
Qed.

Lemma depth_upto_weaken (m M : Z) (c : pynum) :
  m <= M -> depth_upto m c -> depth_upto M c.
Proof. intros Hle (z & -> & Hz). exists z. split; [reflexivity|lia]. Qed.

(** The highest maximum of samples of read depths bounds every depth. *)
Lemma highest_loop_depths (M : Z) (samples : list sample) :
  Forall (fun s => coverage s <> [] /\ Forall (depth_upto M) (coverage s))
    samples ->
  forall h, 0 <= h ->
    exists h', highest_loop samples (PInt h) = Ok (PInt h')
               /\ h <= h'
               /\ Forall (fun s => Forall (depth_upto h') (coverage s)) samples.
Proof.
  induction samples as [|s rest IH]; intros Hall h Hh.
  - exists h. split; [reflexivity|]. split; [lia|constructor].
  - inversion Hall as [|? ? [Hne Hs] Hrest]; subst.
    destruct (py_max_ints (coverage s) M Hne Hs) as (m & Emax & Hm & Hcov).
    cbn [highest_loop]. rewrite Emax. cbn [bind].
    change (py_gt (PInt m) (PInt h)) with (py_lt (PInt h) (PInt m)).
    rewrite py_lt_int.
    destruct (Z.ltb_spec h m) as [Hlt|Hge].
    + destruct (IH Hrest m Hm) as (h' & E & Hle & Hall').
      exists h'. split; [exact E|]. split; [lia|].
      constructor; [|exact Hall'].
      eapply Forall_impl; [|exact Hcov].
      intros c. apply depth_upto_weaken. exact Hle.
    + destruct (IH Hrest h Hh) as (h' & E & Hle & Hall').
      exists h'. split; [exact E|]. split; [lia|].
      constructor; [|exact Hall'].
      eapply Forall_impl; [|exact Hcov].
      intros c. apply depth_upto_weaken. lia.
Qed.

Lemma assign_colors_loop_unit (color : rgb) (h : Z) (samples : list sample) :
  0 <= h ->
  Forall (fun s => Forall (depth_upto h) (coverage s)) samples ->
  exists out,
    assign_colors_loop true (PInt h) color samples = Ok out
    /\ Forall2 (fun s sc =>
                  fst sc = s
                  /\ Forall (fun ca => fst ca = color
                                       /\ unit_component (snd ca) = true)
                       (snd sc))
         samples out.
Proof.
  intros Hh. induction samples as [|s rest IH]; intros Hall.
  - exists []. split; [reflexivity|constructor].
  - inversion Hall as [|? ? Hs Hrest]; subst.
    destruct (colors_of_maximum color (coverage s) h Hh Hs) as (c & Ec & Hc).
    destruct (IH Hrest) as (tl & Etl & Htl).
    cbn [assign_colors_loop]. unfold sample_colors. cbn [bind].
    rewrite Ec. cbn [bind]. rewrite Etl. cbn [bind].
    eexists. split; [reflexivity|].
    constructor; [|exact Htl]. split; [reflexivity|exact Hc].
Qed.

Lemma assign_colors_loop_each_unit (color : rgb) (M : Z) (highest : pynum)
    (samples : list sample) :
  Forall (fun s => coverage s <> [] /\ Forall (depth_upto M) (coverage s))
    samples ->
  exists out,
    assign_colors_loop false highest color samples = Ok out
    /\ Forall2 (fun s sc =>
                  fst sc = s
                  /\ Forall (fun ca => fst ca = color
                                       /\ unit_component (snd ca) = true)
                       (snd sc))
         samples out.
Proof.
  induction samples as [|s rest IH]; intros Hall.
  - exists []. split; [reflexivity|constructor].
  - inversion Hall as [|? ? [Hne Hs] Hrest]; subst.
    destruct (py_max_ints (coverage s) M Hne Hs) as (m & Emax & Hm & Hcov).
    destruct (colors_of_maximum color (coverage s) m Hm Hcov) as (c & Ec & Hc).
    destruct (IH Hrest) as (tl & Etl & Htl).
    cbn [assign_colors_loop]. unfold sample_colors. rewrite Emax. cbn [bind].
    rewrite Ec. cbn [bind]. rewrite Etl. cbn [bind].
    eexists. split; [reflexivity|].
    constructor; [|exact Htl]. split; [reflexivity|exact Hc].
Qed.

(** X21: for samples of read depths (every sample with at least one
    coverage value, all of them non-negative ints), the colour assignment
    returns, with or without normalisation, and every colour it gives is
    the exon colour with an alpha between 0 and 1. *)
Theorem assign_colors_alpha_range (normalize : bool) (color : rgb)
    (samples : list sample) (M : Z) :
  Forall (fun s => coverage s <> [] /\ Forall (depth_upto M) (coverage s))
    samples ->
  exists out,
    assign_colors normalize color samples = Ok out
    /\ Forall2 (fun s sc =>
                  fst sc = s
                  /\ Forall (fun ca => fst ca = color
                                       /\ unit_component (snd ca) = true)
                       (snd sc))
         samples out.
Proof.
  intros Hall. unfold assign_colors. destruct normalize.
  - destruct (highest_loop_depths M samples Hall 0 ltac:(lia))
      as (h & -> & Hh & Hall').
    cbn [bind]. apply assign_colors_loop_unit; assumption.
  - cbn [bind]. apply (assign_colors_loop_each_unit color M). exact Hall.
Qed.

Lemma assign_colors_alpha_range_witness :
  exists out,
    assign_colors true (PInt 1, PInt 0, PInt 0)
      [sample_example; mkSample (code_points "S2") [] [] [PInt 12; PInt 0]] = Ok out
    /\ Forall2 (fun s sc =>
                  fst sc = s
                  /\ Forall (fun ca => fst ca = (PInt 1, PInt 0, PInt 0)
                                       /\ unit_component (snd ca) = true)
                       (snd sc))
         [sample_example; mkSample (code_points "S2") [] [] [PInt 12; PInt 0]] out.
Proof.
  apply (assign_colors_alpha_range true (PInt 1, PInt 0, PInt 0)
           [sample_example; mkSample (code_points "S2") [] [] [PInt 12; PInt 0]] 12).
  repeat constructor; try discriminate;
    eexists; (split; [reflexivity|cbn; lia]).
Defined.
(** ** Samples without coverage *)

Lemma highest_loop_nonempty (samples : list sample) :
  forall h h', highest_loop samples h = Ok h' ->
               Forall (fun s => coverage s <> []) samples.
Proof.
  induction samples as [|s rest IH]; cbn [highest_loop]; intros h h' H.
  - constructor.
  - destruct (coverage s) as [|c cov] eqn:Ec; cbn [py_max bind] in H;
      [discriminate|].
    constructor; [rewrite Ec; discriminate|].
    exact (IH _ _ H).
Qed.

Lemma assign_colors_loop_nonempty (highest : pynum) (color : rgb)
    (samples : list sample) :
  forall out, assign_colors_loop false highest color samples = Ok out ->
              Forall (fun s => coverage s <> []) samples.
Proof.
  induction samples as [|s rest IH]; cbn [assign_colors_loop]; intros out H.
  - constructor.
  - destruct (sample_colors false highest color (coverage s)) as [c|] eqn:Ec;
      cbn [bind] in H; [|discriminate].
    destruct (assign_colors_loop false highest color rest) as [tl|];
      cbn [bind] in H; [|discriminate].
    constructor; [|apply (IH tl); reflexivity].
    intros Hnil. rewrite Hnil in Ec. discriminate.
Qed.

Lemma assign_colors_nonempty (normalize : bool) (color : rgb)
    (samples : list sample) (out : list (sample * list rgba)) :
  assign_colors normalize color samples = Ok out ->
  Forall (fun s => coverage s <> []) samples.
Proof.
  unfold assign_colors. destruct normalize.
  - destruct (highest_loop samples (PInt 0)) as [h|] eqn:Eh; [|discriminate].
    intros _. exact (highest_loop_nonempty _ _ _ Eh).
  - cbn [bind]. apply assign_colors_loop_nonempty.
Qed.

(** X22: the script reaches the plotting loop only when every database
    of the command line has at least one row of the transcript: for a
    database without one, [get_coverage] returns the empty list and
    [max(coverage)] raises. *)
Theorem prepare_transcript_in_every_database (fs : files) (args : Args)
    (p : prepared) :
  prepare fs args = Done p ->
  Forall (fun path =>
            fetch_transcript (coverage_table (connect fs path))
              (plot_transcript p) <> [])
    (arg_database args).
Proof.
  unfold prepare. intros H.
  apply run_bind_done in H. destruct H as ([transcript color] & _ & H).
  apply run_bind_done in H. destruct H as (db0 & _ & H).
  apply run_bind_done in H.
  destruct H as ([[[chromosome starts] stops] strand] & _ & H).
  apply run_bind_done in H. destruct H as (tstart & _ & H).
  apply run_bind_done in H. destruct H as (tstop & _ & H).
  apply run_bind_done in H. destruct H as (scaled & _ & H).
  apply run_bind_done in H. destruct H as (samples & Hsamples & H).
  apply lift_done in Hsamples.
  apply run_bind_done in H. destruct H as (colored & Hcolored & H).
  apply lift_done in Hcolored.
  injection H as <-. cbn [plot_transcript].
  pose proof (load_samples_spec _ _ _ _ _ _ _ _ _ _ _ Hsamples) as Hspec.
  pose proof (assign_colors_nonempty _ _ _ _ Hcolored) as Hne.
  clear Hsamples Hcolored. revert Hne.
  induction Hspec as [|path s paths samples [_ Hcov] _ IH]; intros Hne.
  - constructor.
  - inversion Hne as [|? ? Hs Hrest]; subst.
    constructor; [|exact (IH Hrest)].
    intros Hnil. apply Hs. rewrite Hcov. unfold get_coverage. rewrite Hnil.
    destruct (String.eqb strand "-"); reflexivity.
Qed.

Lemma prepare_transcript_in_every_database_witness :
  exists p,
    prepare files_example
      (args_example ["a.db"%string; "b.db"%string] None (Some "EGFR"%string))
    = Done p
    /\ Forall (fun path =>
                 fetch_transcript (coverage_table (connect files_example path))
                   (plot_transcript p) <> [])
         ["a.db"%string; "b.db"%string].
Proof.
  destruct (prepare files_example
              (args_example ["a.db"%string; "b.db"%string] None
                 (Some "EGFR"%string))) as [p|s] eqn:E.
  - exists p. split; [reflexivity|].
    exact (prepare_transcript_in_every_database files_example
             (args_example ["a.db"%string; "b.db"%string] None
                (Some "EGFR"%string)) p E).
  - vm_compute in E. discriminate.
Defined.

Lemma sample_colors_depths (highest : pynum) (color : rgb) (cov : list pynum)
    (M : Z) :
  cov <> [] -> Forall (depth_upto M) cov ->
  exists out, sample_colors false highest color cov = Ok out.
Proof.
  intros Hne Hall.
  destruct (py_max_ints cov M Hne Hall) as (m & Emax & Hm & Hcov).
  destruct (colors_of_maximum color cov m Hm Hcov) as (c & Ec & _).
  exists c. unfold sample_colors. rewrite Emax. cbn [bind]. exact Ec.
Qed.

Lemma highest_loop_empty (samples : list sample) :
  Exists (fun s => coverage s = []) samples ->
  forall h, highest_loop samples h = Raise ValueError.
Proof.
  induction 1 as [s rest Hs|s rest _ IH]; intros h; cbn [highest_loop].
  - rewrite Hs. reflexivity.
  - destruct (coverage s) as [|c cov]; [reflexivity|].
    cbn [py_max bind]. apply IH.
Qed.

Lemma assign_colors_loop_empty (highest : pynum) (color : rgb) (M : Z)
    (samples : list sample) :
  Forall (fun s => Forall (depth_upto M) (coverage s)) samples ->
  Exists (fun s => coverage s = []) samples ->
  assign_colors_loop false highest color samples = Raise ValueError.
Proof.
  intros Hall Hex. induction Hex as [s rest Hs|s rest _ IH];
    inversion Hall as [|? ? Hd Hrest]; subst; cbn [assign_colors_loop].
  - unfold sample_colors. rewrite Hs. reflexivity.
  - destruct (coverage s) as [|c cov] eqn:Ec.
    + reflexivity.
    + destruct (sample_colors_depths highest color (c :: cov) M
                  ltac:(discriminate) Hd) as (out & ->).
      cbn [bind]. rewrite (IH Hrest). reflexivity.
Qed.

(** X23: when the coverage values are read depths (non-negative ints)
    and some sample has no coverage value at all, the colour assignment
    raises [ValueError], with or without normalisation. *)
Theorem assign_colors_empty_sample (normalize : bool) (color : rgb)
    (samples : list sample) (M : Z) :
  Forall (fun s => Forall (depth_upto M) (coverage s)) samples ->
  Exists (fun s => coverage s = []) samples ->
  assign_colors normalize color samples = Raise ValueError.
Proof.
  intros Hall Hex. unfold assign_colors. destruct normalize.
  - rewrite (highest_loop_empty samples Hex). reflexivity.
  - cbn [bind]. exact (assign_colors_loop_empty _ color M samples Hall Hex).
Qed.

Lemma assign_colors_empty_sample_witness :
  assign_colors false (PInt 1, PInt 0, PInt 0)
    [sample_example; mkSample (code_points "S2") [] [] []] = Raise ValueError.
Proof.
  apply (assign_colors_empty_sample false (PInt 1, PInt 0, PInt 0)
           [sample_example; mkSample (code_points "S2") [] [] []] 6).
  - repeat constructor; eexists; (split; [reflexivity|cbn; lia]).
  - apply Exists_cons_tl. apply Exists_cons_hd. reflexivity.
Defined.

(** ** A gene that is not in the first database *)

(** X24: a run with a gene and no transcript, on existing database paths
    and with a non-empty colour, exits with "Transcript not found" when
    the first database has no transcript of the gene with a positive
    summed length (in particular no row of the gene) and no row whose
    transcript is the empty string. *)
Theorem prepare_unknown_gene (fs : files) (args : Args) (db0 : string)
    (rest : list string) :
  arg_database args = db0 :: rest ->
  forallb (path_exists fs) (arg_database args) = true ->
  arg_color args <> EmptyString ->
  truthy (arg_transcript args) = false ->
  truthy (arg_gene args) = true ->
  (forall t, exonic_length
               (fetch_gene (coverage_table (connect fs db0))
                  (text (arg_gene args))) t <= 0) ->
  fetch_transcript (coverage_table (connect fs db0)) EmptyString = [] ->
  prepare fs args = Stop (SystemExit (ExitMessage "Transcript not found")).
Proof.
  intros Edb Hpaths Hcolor Ht Hg Hlen Hnone.
  destruct (to_rgb_returns (arg_color args) Hcolor) as (r & g & b & Hrgb & _).
  unfold prepare, parse_args.
  rewrite (check_databases_all fs _ Hpaths). cbn [run_bind].
  rewrite Ht, Hg, Edb. cbn [orb negb index nth_error lift run_bind].
  rewrite Hrgb. cbn [run_bind].
  rewrite (get_transcript_from_gene_empty _ _ Hlen).
  rewrite (proj2 (get_exons_not_found _ EmptyString) Hnone).
  reflexivity.
Qed.

Lemma prepare_unknown_gene_witness :
  prepare files_example
    (args_example ["a.db"%string; "b.db"%string] None (Some "BRCA1"%string))
  = Stop (SystemExit (ExitMessage "Transcript not found")).
Proof.
  apply (prepare_unknown_gene files_example
           (args_example ["a.db"%string; "b.db"%string] None
              (Some "BRCA1"%string)) "a.db"%string ["b.db"%string]);
    try reflexivity.
  discriminate.
Defined.
(** ** Backsplice Curve Generator: the curves and their depth offsets (C1) *)

Lemma xnum_of_finite (f : float) :
  is_finite f = true ->
  exists m e, xnum_of_float f = XFin m e /\ F2R m e = float_value f.
Proof.
  destruct f as [s|s| |s m e]; try discriminate; intros _.
  - exists 0, 0. split; [reflexivity|]. apply F2R_0.
  - eexists _, e. split; reflexivity.
Qed.

Lemma py_lt_float_values (a b : float) :
  is_finite a = true -> is_finite b = true ->
  (float_value a < float_value b)%R -> py_lt (PFloat a) (PFloat b) = true.
Proof.
  intros Ha Hb Hlt. unfold py_lt, py_compare. cbn [xnum_of].
  destruct (xnum_of_finite a Ha) as (ma & ea & -> & Va).
  destruct (xnum_of_finite b Hb) as (mb & eb & -> & Vb).
  cbn [xnum_compare].
  pose proof (dyadic_compare_spec ma ea mb eb) as Hc.
  destruct (dyadic_compare ma ea mb eb); [lra|reflexivity|lra].
Qed.

(** Two floats in the form of the operations that denote one number have
    the same significand and exponent. *)
Lemma canonical_unique (p q : positive) (e1 e2 : Z) :
  canonical_float (S754_finite false p e1) ->
  canonical_float (S754_finite false q e2) ->
  F2R (Zpos p) e1 = F2R (Zpos q) e2 -> p = q /\ e1 = e2.
Proof.
  assert (P53 : 2 ^ 53 = 2 * 2 ^ 52) by reflexivity.
  assert (Hlt : forall (a b : positive) (ea eb : Z),
            canonical_float (S754_finite false a ea) ->
            canonical_float (S754_finite false b eb) ->
            F2R (Zpos a) ea = F2R (Zpos b) eb -> ea < eb -> False).
  { intros a b ea eb (Ha & Hea & _) (Hb & Heb & Hcb) Hv Hlt.
    assert (Hb52 : 2 ^ 52 <= Zpos b) by (apply Hcb; lia).
    assert (Hd : 2 <= 2 ^ (eb - ea)).
    { change 2 with (2 ^ 1) at 1. apply Z.pow_le_mono_r; lia. }
    assert (Hs : F2R (Zpos b) eb = F2R (Zpos b * 2 ^ (eb - ea)) ea).
    { rewrite F2R_shift by lia. f_equal. lia. }
    rewrite Hs in Hv.
    assert (Zpos a = Zpos b * 2 ^ (eb - ea)).
    { apply Z.le_antisymm; apply (F2R_le_inv _ _ ea); rewrite Hv; lra. }
    nia. }
  intros Cp Cq Hv.
  destruct (Z.lt_trichotomy e1 e2) as [H|[H|H]].
  - exfalso. exact (Hlt p q e1 e2 Cp Cq Hv H).
  - subst e2. split; [|reflexivity].
    assert (Zpos p = Zpos q).
    { apply Z.le_antisymm; apply (F2R_le_inv _ _ e1); rewrite Hv; lra. }
    congruence.
  - exfalso. exact (Hlt q p e2 e1 Cq Cp (eq_sym Hv) H).
Qed.

Lemma canonical_format (p : positive) (e : Z) :
  canonical_float (S754_finite false p e) -> format (F2R (Zpos p) e).
Proof. intros (Hp & He & _). apply format_F2R; lia. Qed.

(** The items of [arange(0.0, stop, step)] are the multiples of the
    step. *)
Lemma arange_item_multiple (p : positive) (e : Z) (k : nat) :
  canonical_float (S754_finite false p e) ->
  Z.of_nat k <= 2 ^ 53 ->
  arange_item f0_0 (S754_finite false p e) k
  = B64.mul (B64.of_Z (Z.of_nat k)) (S754_finite false p e).
Proof.
  intros Cs Hk. destruct k as [|[|k]].
  - reflexivity.
  - cbn [arange_item]. change (B64.add f0_0 (S754_finite false p e))
      with (S754_finite false p e).
    change (B64.of_Z (Z.of_nat 1)) with (S754_finite false 4503599627370496 (-52)).
    assert (C1 : canonical_float (S754_finite false 4503599627370496 (-52))).
    { cbn. repeat split; try lia; intros _; apply Z.leb_le; reflexivity. }
    destruct (mul_finite_spec false false _ p _ e C1 Cs)
      as (m' & e' & -> & Hm' & He' & Hcan & Hlow & Hup).
    cbn [xorb].
    assert (H1 : F2R 4503599627370496 (-52) = 1%R).
    { change 4503599627370496 with (2 ^ 52). rewrite F2R_bpow by lia.
      reflexivity. }
    rewrite H1, Rmult_1_l in Hlow, Hup.
    pose proof (canonical_format p e Cs) as Fp.
    assert (Hv : F2R m' e' = F2R (Zpos p) e).
    { apply Rle_antisym; [apply Hup | apply Hlow]; auto; lra. }
    pose proof (F2R_pos p e) as Hpos.
    destruct (finish_cases false m' e' (proj1 Hm'))
      as [[Hz _]|[(q & Hq & Hle & ->)|(_ & Hbig & _)]].
    + exfalso. subst m'. rewrite F2R_0 in Hv. lra.
    + subst m'.
      assert (Cq : canonical_float (S754_finite false q e')).
      { cbn [canonical_float]. split; [lia|]. split; [lia|exact Hcan]. }
      destruct (canonical_unique q p e' e Cq Cs Hv) as [-> ->]. reflexivity.
    + exfalso. pose proof (overflow_large m' e' (Hcan ltac:(lia)) Hbig) as Ho.
      destruct Cs as (Hp & He & _).
      assert (F2R (Zpos p) e < bpow 1024)%R.
      { apply Rlt_le_trans with (F2R (2 ^ 53) 971).
        - apply Rlt_le_trans with (F2R (2 ^ 53) e).
          + unfold F2R. pose proof (bpow_gt_0 e).
            assert (IZR (Zpos p) < IZR (2 ^ 53))%R by (apply IZR_lt; lia). nra.
          + rewrite !F2R_bpow by lia. apply bpow_le. lia.
        - rewrite F2R_bpow by lia. apply bpow_le. lia. }
      lra.
  - cbn [arange_item].
    change (B64.sub (B64.add f0_0 (S754_finite false p e)) f0_0)
      with (S754_finite false p e).
    set (iz := Z.of_nat (S (S k))) in *.
    assert (Hiz : 2 <= iz) by (subst iz; lia).
    destruct (of_Z_finite iz ltac:(lia) ltac:(lia)) as (pi & ei & -> & Ci & Vi).
    destruct (Z.ltb_spec iz 0) as [|_]; [lia|].
    destruct (mul_finite_spec false false pi p ei e Ci Cs)
      as (m' & e' & -> & Hm' & _).
    cbn [xorb].
    destruct (finish_cases false m' e' (proj1 Hm'))
      as [[_ ->]|[(q & _ & _ & ->)|(_ & _ & ->)]]; reflexivity.
Qed.

(** An offset [k * step] that stays below a binary64 number [B] is a
    finite float between 0 and [B]. *)
Lemma arange_item_bound (p : positive) (e : Z) (k : nat) (B : R) :
  canonical_float (S754_finite false p e) ->
  Z.of_nat k <= 2 ^ 53 ->
  format B -> (B <= 1)%R ->
  (IZR (Z.of_nat k) * F2R (Zpos p) e <= B)%R ->
  is_finite (arange_item f0_0 (S754_finite false p e) k) = true
  /\ (0 <= float_value (arange_item f0_0 (S754_finite false p e) k) <= B)%R.
Proof.
  intros Cs Hk FB HB1 Hx.
  pose proof (F2R_pos p e) as Hpos.
  destruct k as [|[|k]].
  - cbn [arange_item]. split; [reflexivity|]. cbn [float_value f0_0].
    cbn in Hx. lra.
  - cbn [arange_item]. change (B64.add f0_0 (S754_finite false p e))
      with (S754_finite false p e).
    split; [reflexivity|]. cbn [float_value signed].
    change (IZR (Z.of_nat 1)) with 1%R in Hx. lra.
  - cbn [arange_item].
    change (B64.sub (B64.add f0_0 (S754_finite false p e)) f0_0)
      with (S754_finite false p e).
    set (iz := Z.of_nat (S (S k))) in *.
    assert (Hiz : 2 <= iz) by (subst iz; lia).
    destruct (of_Z_finite iz ltac:(lia) ltac:(lia)) as (pi & ei & -> & Ci & Vi).
    destruct (Z.ltb_spec iz 0) as [|_]; [lia|].
    replace (Z.abs iz) with iz in Vi by lia.
    destruct (mul_finite_spec false false pi p ei e Ci Cs)
      as (m' & e' & -> & Hm' & He' & Hcan & Hlow & Hup).
    cbn [xorb]. rewrite Vi in Hlow, Hup.
    pose proof (Hup _ FB Hx) as Hle.
    assert (Hge : (0 <= F2R m' e')%R).
    { unfold F2R. pose proof (bpow_gt_0 e').
      assert (0 <= IZR m')%R by (apply IZR_le; lia). nra. }
    destruct (finish_cases false m' e' (proj1 Hm'))
      as [[Hz ->]|[(q & Hq & Hle' & ->)|(_ & Hbig & _)]].
    + cbn. split; [reflexivity|]. lra.
    + change (B64.add f0_0 (S754_finite false q e')) with (S754_finite false q e').
      split; [reflexivity|]. cbn [float_value signed]. subst m'. lra.
    + exfalso. pose proof (overflow_large m' e' (Hcan ltac:(lia)) Hbig).
      assert (bpow 0 < bpow 1024)%R by (apply bpow_lt; lia).
      change (bpow 0) with 1%R in *. lra.
Qed.

(** The offsets of the curves [0 .. count - 1] lie from 0.0 up to, and
    not including, 0.5. *)
Lemma depth_offset_range (c : Z) (k : nat) :
  1 <= c < 2 ^ 50 -> (k < Z.to_nat c)%nat ->
  py_le (PFloat f0_0) (PFloat (depth_offset c k)) = true
  /\ py_lt (PFloat (depth_offset c k)) (PFloat f0_5) = true.
Proof.
  intros Hc Hk.
  assert (P50 : 2 ^ 50 = 1125899906842624) by reflexivity.
  assert (P53 : 2 ^ 53 = 9007199254740992) by reflexivity.
  destruct (backsplice_step_positive c Hc) as (p & e & Estep & Cs & Hs).
  assert (Eo : depth_offset c k = arange_item f0_0 (S754_finite false p e) k).
  { unfold depth_offset. unfold py_truediv in Estep.
    destruct (c * 2 =? 0); [discriminate|]. cbv zeta in Estep.
    destruct (B64.is_infinite (B64.of_ratio 1 (c * 2))); [discriminate|].
    injection Estep as ->. symmetry. apply arange_item_multiple; [exact Cs|lia]. }
  rewrite Eo.
  set (B := F2R (2 ^ 53 - 1) (-54)).
  assert (FB : format B) by (apply format_F2R; lia).
  assert (VB : (B = / 2 - bpow (-54))%R).
  { unfold B, F2R. rewrite minus_IZR, <- (bpow_IZR 53) by lia.
    rewrite Rmult_minus_distr_r, <- bpow_plus, Rmult_1_l.
    change (bpow (53 + -54)) with (/ (2 * 1))%R. f_equal. f_equal. lra. }
  pose proof (bpow_gt_0 (-54)) as Hb54.
  assert (Hc1 : (1 <= IZR c)%R) by (apply IZR_le; lia).
  assert (Hk' : (IZR (Z.of_nat k) <= IZR c - 1)%R).
  { rewrite <- minus_IZR. apply IZR_le. lia. }
  assert (Hk0 : (0 <= IZR (Z.of_nat k))%R) by (apply IZR_le; lia).
  pose proof (F2R_pos p e) as Hpos.
  assert (Hinv : (0 < / (2 * IZR c - 1))%R) by (apply Rinv_0_lt_compat; lra).
  assert (Hc53 : (2 * IZR c - 1 <= bpow 53)%R).
  { rewrite (bpow_IZR 53) by lia.
    replace (2 * IZR c - 1)%R with (IZR (2 * c - 1))
      by (rewrite minus_IZR, mult_IZR; reflexivity).
    apply IZR_le. lia. }
  assert (H54 : (bpow (-54) * bpow 53 = / 2)%R).
  { rewrite <- bpow_plus. change (bpow (-54 + 53)) with (/ (2 * 1))%R.
    f_equal. lra. }
  assert (Hx : (IZR (Z.of_nat k) * F2R (Zpos p) e <= B)%R).
  { apply Rle_trans with ((IZR c - 1) * / (2 * IZR c - 1))%R; [nra|].
    rewrite VB.
    apply Rmult_le_reg_r with (2 * IZR c - 1)%R; [lra|].
    rewrite Rmult_assoc, Rinv_l by lra.
    assert (bpow (-54) * (2 * IZR c - 1) <= / 2)%R.
    { rewrite <- H54. apply Rmult_le_compat_l; lra. }
    lra. }
  destruct (arange_item_bound p e k B Cs ltac:(lia) FB ltac:(lra) Hx)
    as (Hfin & Hv0 & HvB).
  split.
  - apply (py_le_float_values f0_0 _ eq_refl Hfin). cbn [float_value f0_0].
    exact Hv0.
  - apply (py_lt_float_values _ f0_5 Hfin eq_refl).
    change (float_value f0_5) with (F2R 4503599627370496 (-53)).
    replace (F2R 4503599627370496 (-53)) with (/ 2)%R.
    + lra.
    + change 4503599627370496 with (2 ^ 52). rewrite F2R_bpow by lia.
      change (bpow (-53 + 52)) with (/ (2 * 1))%R. f_equal. lra.
Qed.

(** The curve of an offset depends on the axes only through the vertical
    limits. *)
Lemma draw_backsplice_same_ylim (ax ax0 : Axes) (start stop y adjust offset
    gene_size : pynum) (p : patch) :
  ylim ax0 = ylim ax ->
  draw_backsplice ax start stop y adjust offset gene_size = Ok (add_patch ax p) ->
  draw_backsplice ax0 start stop y adjust offset gene_size = Ok (add_patch ax0 p).
Proof.
  intros Hy. unfold draw_backsplice. rewrite Hy.
  repeat match goal with
    | |- bind ?c _ = _ -> _ => destruct c; cbn [bind]; [|discriminate]
    end.
  unfold add_patch. intros H. injection H as H.
  apply app_inv_head in H. injection H as <-. reflexivity.
Qed.

Lemma draw_backsplice_each_curves (start stop y gene_size : pynum)
    (nums : list float) :
  addable start -> addable stop -> addable y -> addable gene_size ->
  forall ax, exists added,
    draw_backsplice_each ax start stop y gene_size nums
    = Ok (mkAxes (xlim ax) (ylim ax) (patches ax ++ added))
    /\ Forall2 (backsplice_curve_at ax start stop y gene_size) nums added.
Proof.
  intros Hs He Hy Hg. induction nums as [|num rest IH]; intros ax.
  - exists []. cbn [draw_backsplice_each]. rewrite app_nil_r.
    destruct ax; split; [reflexivity|constructor].
  - cbn [draw_backsplice_each].
    destruct (draw_backsplice_ok ax start stop y gene_size num f0_15 Hs He Hy Hg)
      as (p & Ep).
    rewrite Ep. cbn [bind]. destruct (IH (add_patch ax p)) as (added & -> & Hall).
    exists (p :: added). cbn [add_patch xlim ylim patches].
    rewrite <- app_assoc. split; [reflexivity|].
    constructor; [exact Ep|].
    eapply Forall2_impl; [|exact Hall].
    intros a q Hq. unfold backsplice_curve_at in *.
    exact (draw_backsplice_same_ylim (add_patch ax p) ax _ _ _ _ _ _ q
             eq_refl Hq).
Qed.

Lemma Forall2_map_l {A B C : Type} (f : A -> B) (R : B -> C -> Prop)
    (l : list A) (l' : list C) :
  Forall2 R (map f l) l' -> Forall2 (fun a c => R (f a) c) l l'.
Proof.
  revert l'. induction l as [|a l IH]; intros l' H; inversion H; subst;
    constructor; auto.
Qed.

Lemma Forall2_impl_In {A B : Type} (R R' : A -> B -> Prop)
    (l : list A) (l' : list B) :
  (forall a b, In a l -> R a b -> R' a b) ->
  Forall2 R l l' -> Forall2 R' l l'.
Proof.
  intros HR H. induction H as [|a b l l' Hab _ IH]; [constructor|].
  constructor; [apply HR; [left; reflexivity|exact Hab]|].
  apply IH. intros a' b' Hin. apply HR. right. exact Hin.
Qed.

(** C1, amended: a backsplice junction with a count from 1 to below
    [2^50] gets, in order, one curve at each of the depth offsets
    [0.0], [step], [2 * step], ..., [(count - 1) * step] with
    [step = 1 / (2 * count)], every one of them from 0.0 up to and not
    including 0.5: [count] curves, not [2 * count]. For every count up to
    48 these are all the curves of the junction, and for [count == 0] no
    curve is drawn. The coordinates are floats or ints of magnitude at
    most [2^1023]. *)
Theorem plot_circles_curve_count (ax : Axes) (start stop y gene_size : pynum)
    (counts : Z) :
  addable start -> addable stop -> addable y -> addable gene_size ->
  0 <= counts < 2 ^ 50 ->
  exists curves rest,
    plot_circles ax [(start, stop, counts)] y gene_size
    = Ok (mkAxes (xlim ax) (ylim ax) (patches ax ++ curves ++ rest))
    /\ List.length curves = Z.to_nat counts
    /\ Forall2 (fun k p =>
                  backsplice_curve_at ax start stop y gene_size
                    (depth_offset counts k) p
                  /\ py_le (PFloat f0_0) (PFloat (depth_offset counts k)) = true
                  /\ py_lt (PFloat (depth_offset counts k)) (PFloat f0_5) = true)
         (seq 0 (Z.to_nat counts)) curves
    /\ (counts <= 48 -> rest = []).
Proof.
  intros Hs He Hy Hg Hc. cbn [plot_circles].
  destruct (Z.eq_dec counts 0) as [->|Hnz].
  - exists [], []. rewrite plot_circles_body_zero. cbn [bind app].
    rewrite app_nil_r.
    split; [destruct ax; reflexivity|]. split; [reflexivity|].
    split; [constructor|reflexivity].
  - assert (Hc1 : 1 <= counts < 2 ^ 50) by lia.
    destruct (backsplice_offsets_count counts Hc1)
      as (step & n & Hstep & Hlen & Hn).
    assert (Estep : step = B64.of_ratio 1 (counts * 2)).
    { unfold py_truediv in Hstep.
      destruct (counts * 2 =? 0); [discriminate|]. cbv zeta in Hstep.
      destruct (B64.is_infinite (B64.of_ratio 1 (counts * 2))); [discriminate|].
      injection Hstep as <-. reflexivity. }
    unfold plot_circles_body.
    destruct (Z.eqb_spec counts 0) as [|_]; [contradiction|]. cbn [negb].
    rewrite Hstep. cbn [bind to_float]. unfold arange. rewrite Hlen.
    cbn [bind].
    destruct (draw_backsplice_each_curves start stop y gene_size
                (map (arange_item f0_0 step) (seq 0 (Z.to_nat n)))
                Hs He Hy Hg ax) as (added & -> & Hall).
    cbn [bind].
    replace (Z.to_nat n) with (Z.to_nat counts + (Z.to_nat n - Z.to_nat counts))%nat
      in Hall by lia.
    rewrite seq_app, map_app in Hall.
    apply Forall2_app_inv_l in Hall.
    destruct Hall as (curves & rest & Hcurves & Hrest & ->).
    exists curves, rest. split; [reflexivity|].
    assert (Hlc : List.length curves = Z.to_nat counts).
    { rewrite <- (Forall2_length Hcurves), length_map, length_seq.
      reflexivity. }
    split; [exact Hlc|]. split.
    + apply Forall2_map_l in Hcurves.
      eapply Forall2_impl_In; [|exact Hcurves].
      cbv beta. intros k q Hk Hq. apply in_seq in Hk.
      assert (Eo : arange_item f0_0 step k = depth_offset counts k).
      { destruct (backsplice_step_positive counts Hc1) as (p & e & Es & Cs & _).
        rewrite Hstep in Es. injection Es as Es.
        unfold depth_offset. rewrite <- Estep, Es.
        apply arange_item_multiple; [exact Cs|].
        assert (P50 : 2 ^ 50 = 1125899906842624) by reflexivity.
        assert (P53 : 2 ^ 53 = 9007199254740992) by reflexivity. lia. }
      rewrite Eo in Hq. split; [exact Hq|].
      apply (depth_offset_range counts k Hc1). lia.
    + intros Hsmall.
      destruct (backsplice_offsets_small counts ltac:(lia))
        as (step' & Hstep' & Hlen').
      rewrite Hstep in Hstep'. injection Hstep' as <-.
      rewrite Hlen in Hlen'. injection Hlen' as ->.
      apply Forall2_length in Hrest.
      rewrite length_map, length_seq in Hrest.
      destruct rest; [reflexivity|]. cbn [List.length] in Hrest. lia.
Qed.

Lemma plot_circles_curve_count_witness :
  exists curves rest,
    plot_circles ax_example [(PInt 10, PInt 20, 3)] (dyad 1 (-1)) (PInt 100)
    = Ok (mkAxes (xlim ax_example) (ylim ax_example)
            (patches ax_example ++ curves ++ rest))
    /\ List.length curves = Z.to_nat 3
    /\ Forall2 (fun k p =>
                  backsplice_curve_at ax_example (PInt 10) (PInt 20)
                    (dyad 1 (-1)) (PInt 100) (depth_offset 3 k) p
                  /\ py_le (PFloat f0_0) (PFloat (depth_offset 3 k)) = true
                  /\ py_lt (PFloat (depth_offset 3 k)) (PFloat f0_5) = true)
         (seq 0 (Z.to_nat 3)) curves
    /\ (3 <= 48 -> rest = []).
Proof.
  apply (plot_circles_curve_count ax_example (PInt 10) (PInt 20)
           (dyad 1 (-1)) (PInt 100) 3).
  - apply Z.leb_le. vm_compute. reflexivity.
  - apply Z.leb_le. vm_compute. reflexivity.
  - exact I.
  - apply Z.leb_le. vm_compute. reflexivity.
  - split; [apply Z.leb_le | apply Z.ltb_lt]; vm_compute; reflexivity.
Defined.

(** The three curves of a junction with three reads: the offsets 0.0,
    [1/6] and [2 * (1/6)], which are the items of the range, and the
    heights of the control points. *)
Example plot_circles_three_reads :
  map (depth_offset 3) [0; 1; 2]%nat
  = [f0_0; B64.of_ratio 1 6; B64.mul (B64.of_Z 2) (B64.of_ratio 1 6)]
  /\ arange f0_0 f0_5 (B64.of_ratio 1 6) = Ok (map (depth_offset 3) [0; 1; 2]%nat)
  /\ plot_circles ax_example [(PInt 10, PInt 20, 3)] (dyad 1 (-1)) (PInt 100)
     = Ok (mkAxes (xlim ax_example) (ylim ax_example)
             (map (fun k =>
                     PathPatch
                       [(PInt 10, dyad 1 (-1));
                        (dyad 5 0,
                         PFloat (B64.sub
                                   (B64.sub f0_5 (B64.mul f0_15 (B64.of_Z 2)))
                                   (depth_offset 3 k)));
                        (dyad 25 0,
                         PFloat (B64.sub
                                   (B64.sub f0_5 (B64.mul f0_15 (B64.of_Z 2)))
                                   (depth_offset 3 k)));
                        (PInt 20, dyad 1 (-1))])
                  [0; 1; 2]%nat)).
Proof. repeat split; vm_compute; reflexivity. Qed.
(** ** Gene-to-transcript resolution: the longest transcript (C8) *)

Lemma exonic_length_fetch_gene (db : database) (gene t : string) :
  exonic_length (fetch_gene db gene) t = summed_length db gene t.
Proof.
  unfold fetch_gene. induction db as [|r rest IH]; [reflexivity|].
  cbn [filter summed_length].
  destruct (String.eqb (row_gene r) gene); cbn [map exonic_length andb].
  - rewrite IH. destruct (String.eqb (row_transcript r) t); lia.
  - rewrite IH. lia.
Qed.

Lemma fetch_gene_transcripts (db : database) (gene : string) :
  map (fun row => fst (fst row)) (fetch_gene db gene)
  = gene_row_transcripts db gene.
Proof.
  unfold fetch_gene. induction db as [|r rest IH]; [reflexivity|].
  cbn [filter gene_row_transcripts].
  destruct (String.eqb (row_gene r) gene); cbn [map fst]; rewrite IH;
    reflexivity.
Qed.

Lemma gene_row_transcripts_In (db : database) (gene t : string) :
  In t (gene_row_transcripts db gene) ->
  exists r, In r db /\ row_gene r = gene /\ row_transcript r = t.
Proof.
  induction db as [|r rest IH]; cbn [gene_row_transcripts]; [contradiction|].
  destruct (String.eqb_spec (row_gene r) gene) as [Hg|_].
  - intros [Ht|Hin].
    + exists r. split; [left; reflexivity|]. auto.
    + destruct (IH Hin) as (r' & Hr' & H). exists r'. split; [right; exact Hr'|exact H].
  - intros Hin. destruct (IH Hin) as (r' & Hr' & H).
    exists r'. split; [right; exact Hr'|exact H].
Qed.

(** When some transcript has a positive summed length, the loop ends on
    the first transcript of maximal length. *)
Lemma longest_of_positive (fetched : list (string * Z * Z)) (t0 : string) :
  0 < exonic_length fetched t0 ->
  let longest := snd (longest_loop (transcript_lengths fetched) 0 EmptyString) in
  In longest (fetched_transcripts fetched)
  /\ (exists pre post,
         fetched_transcripts fetched = pre ++ longest :: post
         /\ forall t, In t pre ->
              exonic_length fetched t < exonic_length fetched longest)
  /\ (forall t, exonic_length fetched t <= exonic_length fetched longest).
Proof.
  intros Hpos0. cbv zeta. rewrite transcript_lengths_spec.
  set (items := map (fun t => (t, exonic_length fetched t))
                  (fetched_transcripts fetched)).
  destruct (longest_loop_spec items 0 EmptyString)
    as (m & r & E & Hm & Hmax & Hcase).
  rewrite E. cbn [snd].
  assert (Hitem : forall t l, In (t, l) items -> l = exonic_length fetched t).
  { intros t l H. apply in_map_iff in H. destruct H as (t' & H & _).
    injection H as -> <-. reflexivity. }
  assert (Hk : map fst items = fetched_transcripts fetched).
  { unfold items. rewrite map_map. cbn [fst]. apply map_id. }
  assert (Hpos : 0 < m).
  { assert (Hin : In t0 (map (fun row => fst (fst row)) fetched)).
    { destruct (in_dec string_dec t0 (map (fun row => fst (fst row)) fetched))
        as [Hin|Hout]; [exact Hin|].
      rewrite (exonic_length_absent fetched t0 Hout) in Hpos0. lia. }
    assert (In (t0, exonic_length fetched t0) items).
    { apply in_map_iff. exists t0. split; [reflexivity|].
      apply first_seen_In. exact Hin. }
    specialize (Hmax _ _ H). lia. }
  destruct Hcase as [[-> _]|(_ & pre & post & Hsplit & Hpre)]; [lia|].
  assert (Hr : m = exonic_length fetched r).
  { apply Hitem. rewrite Hsplit. apply in_elt. }
  split; [|split].
  - rewrite <- Hk, Hsplit, map_app. apply in_or_app. right. left. reflexivity.
  - exists (map fst pre), (map fst post). split.
    + rewrite <- Hk, Hsplit, map_app. reflexivity.
    + intros t Ht. apply in_map_iff in Ht. destruct Ht as ([t' l] & <- & Hin).
      cbn [fst]. rewrite <- Hr.
      rewrite <- (Hitem t' l); [eapply Hpre; exact Hin|].
      rewrite Hsplit. apply in_or_app. left. exact Hin.
  - intros t. rewrite <- Hr.
    destruct (in_dec string_dec t (map (fun row => fst (fst row)) fetched))
      as [Hin|Hout].
    + apply (Hmax t). apply in_map_iff. exists t. split; [reflexivity|].
      apply first_seen_In. exact Hin.
    + rewrite (exonic_length_absent fetched t Hout). lia.
Qed.

(** C8: when some transcript of the gene has a positive summed exonic
    length (as soon as the gene has a row, if every row has
    [start <= stop]), the resolver returns a transcript of the gene, one
    named by a row of the table with that gene, whose summed exonic
    length (the sum of [stop - start + 1] over the rows of that gene and
    that transcript) is maximal among all transcripts; and among the
    transcripts of the gene that reach the maximum it returns the first
    one encountered: every transcript that the table shows before it is
    strictly shorter. *)
Theorem get_transcript_from_gene_longest (db : database) (gene : string) :
  (exists t, 0 < summed_length db gene t) ->
  (exists r, In r db /\ row_gene r = gene
             /\ row_transcript r = get_transcript_from_gene db gene)
  /\ (forall t,
        summed_length db gene t
        <= summed_length db gene (get_transcript_from_gene db gene))
  /\ (exists pre post,
         transcripts_of_gene db gene
         = pre ++ get_transcript_from_gene db gene :: post
         /\ forall t, In t pre ->
              summed_length db gene t
              < summed_length db gene (get_transcript_from_gene db gene)).
Proof.
  intros (t0 & Hpos). rewrite <- exonic_length_fetch_gene in Hpos.
  destruct (longest_of_positive (fetch_gene db gene) t0 Hpos)
    as (Hin & (pre & post & Hsplit & Hpre) & Hmax).
  cbv zeta in Hin, Hsplit, Hpre, Hmax.
  change (snd (longest_loop (transcript_lengths (fetch_gene db gene)) 0
                 EmptyString))
    with (get_transcript_from_gene db gene) in Hin, Hsplit, Hpre, Hmax.
  unfold fetched_transcripts in Hin, Hsplit.
  rewrite fetch_gene_transcripts in Hin, Hsplit.
  split; [|split].
  - apply gene_row_transcripts_In. apply (proj1 (first_seen_In _ _)). exact Hin.
  - intros t. rewrite <- !exonic_length_fetch_gene. apply Hmax.
  - exists pre, post. split; [exact Hsplit|].
    intros t Ht. rewrite <- !exonic_length_fetch_gene. exact (Hpre t Ht).
Qed.

Lemma get_transcript_from_gene_longest_witness :
  (exists r, In r db_example /\ row_gene r = "EGFR"%string
             /\ row_transcript r = get_transcript_from_gene db_example "EGFR")
  /\ (forall t,
        summed_length db_example "EGFR" t
        <= summed_length db_example "EGFR"
             (get_transcript_from_gene db_example "EGFR"))
  /\ (exists pre post,
         transcripts_of_gene db_example "EGFR"
         = pre ++ get_transcript_from_gene db_example "EGFR" :: post
         /\ forall t, In t pre ->
              summed_length db_example "EGFR" t
              < summed_length db_example "EGFR"
                  (get_transcript_from_gene db_example "EGFR")).
Proof.
  apply (get_transcript_from_gene_longest db_example "EGFR").
  exists "T1"%string. vm_compute. reflexivity.
Defined.

(** The rows of another gene do not count: with the longer transcript
    [T9] of [TP53] in the table, [EGFR] resolves to its own [T2], and the
    summed lengths are those of the rows of the gene. *)
Example get_transcript_from_gene_own_rows :
  get_transcript_from_gene db_example "EGFR" = "T2"%string
  /\ transcripts_of_gene db_example "EGFR" = ["T1"; "T2"; "T3"]%string
  /\ map (summed_length db_example "EGFR") ["T1"; "T2"; "T3"; "T9"]%string
     = [500; 800; 800; 0]
  /\ summed_length db_example "TP53" "T9" = 5000.
Proof. repeat split; vm_compute; reflexivity. Qed.
(** ** Coverage to colour: the alpha values (C9) *)










(** Two samples with reads, without and with normalisation: the divisor
    is 6 for the first sample alone and 12 for both together. *)
Example assign_colors_maximum :
  assign_colors false (PInt 1, PInt 0, PInt 0)
    [mkSample [] [] [] [PInt 3; PInt 6]; mkSample [] [] [] [PInt 12; PInt 0]]
  = Ok [(mkSample [] [] [] [PInt 3; PInt 6],
         [((PInt 1, PInt 0, PInt 0), PFloat (B64.of_ratio 3 6));
          ((PInt 1, PInt 0, PInt 0), PFloat (B64.of_ratio 6 6))]);
        (mkSample [] [] [] [PInt 12; PInt 0],
         [((PInt 1, PInt 0, PInt 0), PFloat (B64.of_ratio 12 12));
          ((PInt 1, PInt 0, PInt 0), PFloat (B64.of_ratio 0 12))])]
  /\ assign_colors true (PInt 1, PInt 0, PInt 0)
       [mkSample [] [] [] [PInt 3; PInt 6]; mkSample [] [] [] [PInt 12; PInt 0]]
     = Ok [(mkSample [] [] [] [PInt 3; PInt 6],
            [((PInt 1, PInt 0, PInt 0), PFloat (B64.of_ratio 3 12));
             ((PInt 1, PInt 0, PInt 0), PFloat (B64.of_ratio 6 12))]);
           (mkSample [] [] [] [PInt 12; PInt 0],
            [((PInt 1, PInt 0, PInt 0), PFloat (B64.of_ratio 12 12));
             ((PInt 1, PInt 0, PInt 0), PFloat (B64.of_ratio 0 12))])].
Proof. split; vm_compute; reflexivity. Qed.
